(** * Lifecycle runners, composite runners and the task ping cursor

    A shallow embedding of [lib/runner.js], [lib/task.js],
    [lib/plugin-options.js] and [lib/control.js].

    The JavaScript is callback-driven, so the embedding is an abstract
    machine: every closure of the source is a constructor of [cont], every
    call the source makes is a [frame], and the store holds the objects
    (runners, plugins, option objects, closure-captured locals), the
    [process.nextTick] queue, the [setImmediate] queue and a trace of the
    interactions with code that is not part of the library (plugin hooks,
    caller callbacks, process warnings). *)

From stdpp Require Import base option list gmap strings pretty relations.
From Stdlib Require Import Lia.

Set Default Proof Using "Type".

(** ** Errors *)

(** [combine] comes from the external package combine-errors; its result is
    kept symbolic: [Combine es] stands for the value of [combine(es)]. *)
#[warnings="-register-all"]
Inductive err :=
| Plain (msg : string)
| Combine (es : list err).

(** The argument of a node-style callback: [None] is success (no argument,
    [undefined] or [null]), [Some e] a truthy error. *)
Definition outcome := option err.

Definition combine (errors : list err) : err := Combine errors.

(** ** Plain objects used as option bags *)

Inductive jsval :=
| VUndefined
| VNull
| VBool (b : bool)
| VNum (z : Z)
| VStr (s : string)
| VRef (l : nat).

Abbreviation obj := (gmap string jsval).

(** An [options] argument of a registration call: absent ([undefined] or
    [null]), a heap object, or a primitive without own properties (a number
    or a boolean). *)
Inductive oarg :=
| OAbsent
| OObj (l : nat)
| OPrim.

(** The [{ grace }] options of [start] and [stop]. *)
Record run_options := { grace : bool }.

(** ** Code outside the library *)

(** When external code invokes the callback it was given. *)
Inductive timing := Sync | NextTick | Immediate.

(** What an external hook does with its callback: a sequence of completions,
    each synchronous, deferred with [process.nextTick] or deferred with
    [setImmediate].  [[]] never completes, a list of two completes twice. *)
Definition behaviour := list (timing * outcome).

(** A plugin instance, as far as the library looks at it: the constructor
    name of its prototype ([None]: no prototype) and its optional methods.
    [p_on] says whether the plugin has an [on] method, as every event
    emitter has. *)
Record plugin := {
  p_proto : option string;
  p_start : option behaviour;
  p_stop : option behaviour;
  p_ping : option behaviour;
  p_unref : bool;
  p_on : bool
}.

(** A plugin factory: a function of the merged options returning a plugin
    instance (an index in the plugin heap). *)
Record factory := { f_id : nat; f_make : obj → nat }.

(** ** Closures and calls *)

Inductive status := Stopped | Starting | Started | Stopping.

Inductive cont :=
| KUser (tag : nat)
    (* a callback supplied by the caller of the library *)
| KSettle (p : nat)
    (* function (err) { if (err) reject(err) else resolve() } *)
| KStartDone (r : nat) (callback : cont)
    (* (err) => { this[status] = err ? STOPPED : STARTED; emit; callback(err) } *)
| KStopDone (r : nat) (callback : cont)
    (* (err) => { this[status] = STOPPED; emit; callback(err) } *)
| KJoin (callback : cont)
    (* (err) => process.nextTick(callback, err) *)
| KReissueStart (r : nat) (options : run_options) (callback : cont)
    (* () => process.nextTick(this.start, options, callback) *)
| KReissueStop (r : nat) (options : run_options) (callback : cont)
    (* () => process.nextTick(this.stop, options, callback) *)
| KStartLoop (m : nat) (c : nat) (callback : cont)
    (* loop of MultiRunner._start; its locals live in cell c *)
| KCancelLoop (m : nat) (c : nat) (callback : cont)
    (* loop of MultiRunner._cancelStart *)
| KStopLoop (m : nat) (c : nat) (callback : cont)
    (* loop of MultiRunner._stop *)
| KPingNext (t : nat).
    (* this._pingNext, bound in the Task constructor *)

(** The first argument of [start]/[stop]: a function or an options value. *)
Inductive arg1 :=
| AFun (k : cont)
| AOpts (o : option run_options).

Inductive hook :=
| RStart (r : nat)   (* _start of a concrete runner class *)
| RStop (r : nat)    (* _stop of a concrete runner class *)
| PStart (p : nat)   (* plugin.start *)
| PStop (p : nat)    (* plugin.stop *)
| PPing (p : nat).   (* plugin.ping *)

Inductive frame :=
| FCall (k : cont) (e : outcome)                    (* k(e) *)
| FStart (r : nat) (a1 : arg1) (a2 : option cont)  (* r.start(a1, a2) *)
| FStop (r : nat) (a1 : arg1) (a2 : option cont)   (* r.stop(a1, a2) *)
| FHookStart (r : nat) (k : cont)                   (* r._start(k) *)
| FHookStop (r : nat) (k : cont)                    (* r._stop(k) *)
| FBehave (h : hook) (k : cont) (b : behaviour)     (* rest of an external hook body *)
| FExternal (h : hook) (k : cont) (e : outcome)     (* external code calls k(e) *)
| FUnref (r : nat)                                  (* r.unref() *)
| FUnrefIf (m r : nat)                              (* if (m._unref) r.unref() *)
| FAddRunner (m r : nat) (stopFirst : bool)         (* m.addRunner(r, { stopFirst }) *)
| FInitialize (t : nat)                             (* t._initialize() *)
| FConnect (t : nat)                                (* t._connectPlugins() *)
| FPing (t : nat) (k : cont).                       (* t.ping(k) *)

(** ** Observations *)

Inductive warning :=
| WError (e : err)     (* process.emitWarning(err) *)
| WPingTwice.          (* 'Plugin called the ping callback more than once' *)

Inductive event :=
| Invoke (h : hook)                (* the library calls an external hook *)
| Complete (h : hook) (e : outcome) (* the hook calls back *)
| Called (tag : nat) (e : outcome)  (* a caller's callback runs *)
| Warned (w : warning)
| Made (f : nat) (l : nat) (t : nat). (* factory f called with (options l, task t) *)

(** ** Objects *)

Record multi := {
  m_startOrder : list nat;
  m_stopOrder : list nat;
  m_unref : bool;
  m_frozen : bool
}.

Record wrapped := { w_plugin : nat; w_name : string; w_pingable : bool }.

Record task := {
  t_collectors : list nat;
  t_processors : list nat;
  t_publishers : list nat;
  t_schedules : list nat;
  t_pingablePlugins : list wrapped;
  t_frozen : bool;
  t_pinging : bool;
  t_multiRunner : nat;
  t_name : string;
  t_pingIndex : nat;
  t_pingCallback : option cont;
  t_noPingTarget : string;
  t_currentPingTarget : string
}.

(** The concrete classes over AbstractRunner. [Custom] is any subclass whose
    two hooks are external code (as the test suite builds them); [Multi] is
    MultiRunner, and Control, which adds no state. *)
Inductive body :=
| Custom (on_start on_stop : behaviour)
| Decorated (nut : nat)
| Multi (m : multi)
| TaskB (t : task).

Record runner := {
  r_status : status;
  r_once_start : list cont;   (* once('start', ..) listeners *)
  r_once_stop : list cont;    (* once('stop', ..) listeners *)
  r_body : body
}.

(** The locals a loop closure captures and updates. *)
Record cell := { c_length : nat; c_pos : nat; c_errors : list err }.

Record store := {
  runners : list runner;
  plugins : list plugin;
  objects : list obj;
  cells : list cell;
  promises : list (option outcome);  (* None: pending *)
  ticks : list frame;                (* process.nextTick queue *)
  immediates : list frame;           (* setImmediate queue *)
  trace : list event;
  unrefd : list nat                  (* plugins whose unref() was called *)
}.

Definition set_runners (v : list runner) (s : store) : store :=
  {| runners := v; plugins := plugins s; objects := objects s; cells := cells s;
     promises := promises s; ticks := ticks s; immediates := immediates s;
     trace := trace s; unrefd := unrefd s |}.
Definition set_plugins (v : list plugin) (s : store) : store :=
  {| runners := runners s; plugins := v; objects := objects s; cells := cells s;
     promises := promises s; ticks := ticks s; immediates := immediates s;
     trace := trace s; unrefd := unrefd s |}.
Definition set_objects (v : list obj) (s : store) : store :=
  {| runners := runners s; plugins := plugins s; objects := v; cells := cells s;
     promises := promises s; ticks := ticks s; immediates := immediates s;
     trace := trace s; unrefd := unrefd s |}.
Definition set_cells (v : list cell) (s : store) : store :=
  {| runners := runners s; plugins := plugins s; objects := objects s; cells := v;
     promises := promises s; ticks := ticks s; immediates := immediates s;
     trace := trace s; unrefd := unrefd s |}.
Definition set_promises (v : list (option outcome)) (s : store) : store :=
  {| runners := runners s; plugins := plugins s; objects := objects s; cells := cells s;
     promises := v; ticks := ticks s; immediates := immediates s;
     trace := trace s; unrefd := unrefd s |}.
Definition set_ticks (v : list frame) (s : store) : store :=
  {| runners := runners s; plugins := plugins s; objects := objects s; cells := cells s;
     promises := promises s; ticks := v; immediates := immediates s;
     trace := trace s; unrefd := unrefd s |}.
Definition set_immediates (v : list frame) (s : store) : store :=
  {| runners := runners s; plugins := plugins s; objects := objects s; cells := cells s;
     promises := promises s; ticks := ticks s; immediates := v;
     trace := trace s; unrefd := unrefd s |}.
Definition set_trace (v : list event) (s : store) : store :=
  {| runners := runners s; plugins := plugins s; objects := objects s; cells := cells s;
     promises := promises s; ticks := ticks s; immediates := immediates s;
     trace := v; unrefd := unrefd s |}.
Definition set_unrefd (v : list nat) (s : store) : store :=
  {| runners := runners s; plugins := plugins s; objects := objects s; cells := cells s;
     promises := promises s; ticks := ticks s; immediates := immediates s;
     trace := trace s; unrefd := v |}.

Definition empty_store : store :=
  {| runners := []; plugins := []; objects := []; cells := []; promises := [];
     ticks := []; immediates := []; trace := []; unrefd := [] |}.

Definition set_runner (r : nat) (x : runner) (s : store) : store :=
  set_runners (<[r := x]> (runners s)) s.
Definition set_cell (c : nat) (x : cell) (s : store) : store :=
  set_cells (<[c := x]> (cells s)) s.
Definition next_tick (f : frame) (s : store) : store :=
  set_ticks (ticks s ++ [f]) s.
Definition set_immediate (f : frame) (s : store) : store :=
  set_immediates (immediates s ++ [f]) s.
Definition log (e : event) (s : store) : store :=
  set_trace (trace s ++ [e]) s.

Definition with_status (v : status) (x : runner) : runner :=
  {| r_status := v; r_once_start := r_once_start x;
     r_once_stop := r_once_stop x; r_body := r_body x |}.
Definition with_once_start (v : list cont) (x : runner) : runner :=
  {| r_status := r_status x; r_once_start := v;
     r_once_stop := r_once_stop x; r_body := r_body x |}.
Definition with_once_stop (v : list cont) (x : runner) : runner :=
  {| r_status := r_status x; r_once_start := r_once_start x;
     r_once_stop := v; r_body := r_body x |}.
Definition with_body (v : body) (x : runner) : runner :=
  {| r_status := r_status x; r_once_start := r_once_start x;
     r_once_stop := r_once_stop x; r_body := v |}.

(** The result of running one call up to the calls it makes itself: it
    returns, leaving the calls to run in order, or it throws. *)
Inductive res :=
| Ok (calls : list frame) (s : store)
| Throw (msg : string) (s : store).

(** ** lib/runner.js *)

Module AbstractRunner.

(** [new] of a concrete subclass: [this[status] = STATUS_STOPPED]. *)
Definition create (b : body) (s : store) : nat * store :=
  (length (runners s),
   set_runners (runners s ++ [{| r_status := Stopped; r_once_start := [];
                                 r_once_stop := []; r_body := b |}]) s).

Definition get_status (r : nat) (s : store) : option status :=
  r_status <$> runners s !! r.

(** The prologue shared by [start] and [stop]: a function as first
    argument is the callback; without a callback a promise is made and
    the callback settles it. *)
Definition arguments (a1 : arg1) (a2 : option cont) (s : store)
  : option run_options * cont * store :=
  match a1 with
  | AFun k => (None, k, s)
  | AOpts options =>
      match a2 with
      | Some k => (options, k, s)
      | None =>
          (options, KSettle (length (promises s)),
           set_promises (promises s ++ [None]) s)
      end
  end.

Definition graceful (options : option run_options) : bool :=
  match options with
  | Some o => grace o
  | None => false
  end.

(** Lines 55-69: the guards, then the transition and the hook. *)
Definition start_default (r : nat) (x : runner) (callback : cont)
    (s : store) : res :=
  match r_status x with
  | Started | Starting => Throw "Cannot start() before stop()" s
  | Stopping => Throw "Cannot start() before stop() has completed" s
  | Stopped =>
      Ok [FHookStart r (KStartDone r callback)]
         (set_runner r (with_status Starting x) s)
  end.

Definition start (r : nat) (a1 : arg1) (a2 : option cont) (s : store) : res :=
  let '(options, callback, s) := arguments a1 a2 s in
  match runners s !! r with
  | None => Throw "TypeError: not a runner" s
  | Some x =>
      match options with
      | Some o =>
          if grace o then
            match r_status x with
            | Started => Ok [] (next_tick (FCall callback None) s)
            | Starting =>
                Ok [] (set_runner r
                         (with_once_start
                            (r_once_start x ++ [KJoin callback]) x) s)
            | Stopping =>
                Ok [] (set_runner r
                         (with_once_stop
                            (r_once_stop x ++ [KReissueStart r o callback]) x) s)
            | Stopped => start_default r x callback s
            end
          else start_default r x callback s
      | None => start_default r x callback s
      end
  end.

(** Lines 98-112. *)
Definition stop_default (r : nat) (x : runner) (callback : cont)
    (s : store) : res :=
  match r_status x with
  | Stopped | Stopping => Throw "Cannot stop() before start()" s
  | Starting => Throw "Cannot stop() before start() has completed" s
  | Started =>
      Ok [FHookStop r (KStopDone r callback)]
         (set_runner r (with_status Stopping x) s)
  end.

Definition stop (r : nat) (a1 : arg1) (a2 : option cont) (s : store) : res :=
  let '(options, callback, s) := arguments a1 a2 s in
  match runners s !! r with
  | None => Throw "TypeError: not a runner" s
  | Some x =>
      match options with
      | Some o =>
          if grace o then
            match r_status x with
            | Stopped => Ok [] (next_tick (FCall callback None) s)
            | Stopping =>
                Ok [] (set_runner r
                         (with_once_stop
                            (r_once_stop x ++ [KJoin callback]) x) s)
            | Starting =>
                Ok [] (set_runner r
                         (with_once_start
                            (r_once_start x ++ [KReissueStop r o callback]) x) s)
            | Started => stop_default r x callback s
            end
          else stop_default r x callback s
      | None => stop_default r x callback s
      end
  end.

(** The callback [start] hands to [_start]. [emit] runs the listeners
    registered at that moment, in order; all of them were added with
    [once], so they are removed as they run. *)
Definition start_done (r : nat) (callback : cont) (e : outcome) (s : store) : res :=
  match runners s !! r with
  | None => Throw "TypeError: not a runner" s
  | Some x =>
      let st := if e is Some _ then Stopped else Started in
      Ok ((λ l, FCall l e) <$> r_once_start x ++ [callback])
         (set_runner r (with_once_start [] (with_status st x)) s)
  end.

Definition stop_done (r : nat) (callback : cont) (e : outcome) (s : store) : res :=
  match runners s !! r with
  | None => Throw "TypeError: not a runner" s
  | Some x =>
      Ok ((λ l, FCall l e) <$> r_once_stop x ++ [callback])
         (set_runner r (with_once_stop [] (with_status Stopped x)) s)
  end.

End AbstractRunner.

(** Running the body of an external hook: its completions in order. *)
Definition behave (h : hook) (k : cont) (b : behaviour) (s : store) : res :=
  match b with
  | [] => Ok [] s
  | (Sync, e) :: b => Ok [FExternal h k e; FBehave h k b] s
  | (NextTick, e) :: b => Ok [FBehave h k b] (next_tick (FExternal h k e) s)
  | (Immediate, e) :: b => Ok [FBehave h k b] (set_immediate (FExternal h k e) s)
  end.

Definition external (h : hook) (k : cont) (e : outcome) (s : store) : res :=
  Ok [FCall k e] (log (Complete h e) s).

Module DecoratedRunner.

(** [decorate(nut)]. The constructor reads [nut.on], which throws a
    TypeError when [nut] is [undefined] ([None]); the listener it adds
    for the plugin's ['error'] events runs only when the plugin emits
    one, which no call of this development makes it do. *)
Definition create (nut : nat) (s : store) : option (nat * store) :=
  match plugins s !! nut with
  | Some _ => Some (AbstractRunner.create (Decorated nut) s)
  | None => None
  end.

Definition _start (nut : nat) (callback : cont) (s : store) : res :=
  match plugins s !! nut with
  | None => Throw "TypeError: not a plugin" s
  | Some p =>
      match p_start p with
      | Some b => Ok [FBehave (PStart nut) callback b] (log (Invoke (PStart nut)) s)
      | None => Ok [] (next_tick (FCall callback None) s)
      end
  end.

Definition _stop (nut : nat) (callback : cont) (s : store) : res :=
  match plugins s !! nut with
  | None => Throw "TypeError: not a plugin" s
  | Some p =>
      match p_stop p with
      | Some b => Ok [FBehave (PStop nut) callback b] (log (Invoke (PStop nut)) s)
      | None => Ok [] (next_tick (FCall callback None) s)
      end
  end.

Definition unref (nut : nat) (s : store) : res :=
  match plugins s !! nut with
  | None => Throw "TypeError: not a plugin" s
  | Some p =>
      if p_unref p then Ok [] (set_unrefd (unrefd s ++ [nut]) s) else Ok [] s
  end.

End DecoratedRunner.

Module MultiRunner.

Definition with_startOrder (v : list nat) (m : multi) : multi :=
  {| m_startOrder := v; m_stopOrder := m_stopOrder m;
     m_unref := m_unref m; m_frozen := m_frozen m |}.
Definition with_stopOrder (v : list nat) (m : multi) : multi :=
  {| m_startOrder := m_startOrder m; m_stopOrder := v;
     m_unref := m_unref m; m_frozen := m_frozen m |}.
Definition with_unref (v : bool) (m : multi) : multi :=
  {| m_startOrder := m_startOrder m; m_stopOrder := m_stopOrder m;
     m_unref := v; m_frozen := m_frozen m |}.
Definition with_frozen (v : bool) (m : multi) : multi :=
  {| m_startOrder := m_startOrder m; m_stopOrder := m_stopOrder m;
     m_unref := m_unref m; m_frozen := v |}.

(** [new MultiRunner()]; the deprecated [runners] argument is a sequence
    of [addRunner] calls. *)
Definition create (s : store) : nat * store :=
  AbstractRunner.create
    (Multi {| m_startOrder := []; m_stopOrder := [];
              m_unref := false; m_frozen := false |}) s.

Definition get (m : nat) (s : store) : option (runner * multi) :=
  match runners s !! m with
  | Some x => match r_body x with Multi mu => Some (x, mu) | _ => None end
  | None => None
  end.

Definition put (m : nat) (x : runner) (mu : multi) (s : store) : store :=
  set_runner m (with_body (Multi mu) x) s.

Definition addRunner (m r : nat) (stopFirst : bool) (s : store) : res :=
  match get m s with
  | None => Throw "TypeError: not a MultiRunner" s
  | Some (x, mu) =>
      if m_frozen mu then Throw "Cannot addRunner() after start()" s
      else
        let mu :=
          with_stopOrder
            (if stopFirst then r :: m_stopOrder mu else m_stopOrder mu ++ [r])
            (with_startOrder (m_startOrder mu ++ [r]) mu) in
        Ok (if m_unref mu then [FUnref r] else []) (put m x mu s)
  end.

Definition new_cell (c : cell) (s : store) : nat * store :=
  (length (cells s), set_cells (cells s ++ [c]) s).

Definition _start (m : nat) (callback : cont) (s : store) : res :=
  match get m s with
  | None => Throw "TypeError: not a MultiRunner" s
  | Some (x, mu) =>
      let s := put m x (with_frozen true mu) s in
      let '(c, s) :=
        new_cell {| c_length := length (m_startOrder mu); c_pos := 0;
                    c_errors := [] |} s in
      Ok [FCall (KStartLoop m c callback) None] s
  end.

Definition _cancelStart (m : nat) (callback : cont) (errors : list err)
    (s : store) : res :=
  match get m s with
  | None => Throw "TypeError: not a MultiRunner" s
  | Some (x, mu) =>
      let '(c, s) :=
        new_cell {| c_length := length (m_stopOrder mu); c_pos := 0;
                    c_errors := errors |} s in
      Ok [FCall (KCancelLoop m c callback) None] s
  end.

Definition _stop (m : nat) (callback : cont) (s : store) : res :=
  match get m s with
  | None => Throw "TypeError: not a MultiRunner" s
  | Some (x, mu) =>
      let '(c, s) :=
        new_cell {| c_length := length (m_stopOrder mu); c_pos := 0;
                    c_errors := [] |} s in
      Ok [FCall (KStopLoop m c callback) None] s
  end.

Definition bump (c : nat) (x : cell) (s : store) : store :=
  set_cell c {| c_length := c_length x; c_pos := S (c_pos x);
                c_errors := c_errors x |} s.

Definition push_error (e : outcome) (x : cell) : cell :=
  match e with
  | Some err => {| c_length := c_length x; c_pos := c_pos x;
                   c_errors := c_errors x ++ [err] |}
  | None => x
  end.

(** [loop] of [_start]. *)
Definition start_loop (m c : nat) (callback : cont) (e : outcome) (s : store) : res :=
  match e with
  | Some err => _cancelStart m callback [err] s
  | None =>
      match get m s, cells s !! c with
      | Some (_, mu), Some x =>
          if decide (c_length x ≤ c_pos x)
          then Ok [] (next_tick (FCall callback None) s)
          else
            match m_startOrder mu !! c_pos x with
            | Some r =>
                Ok [FStart r (AFun (KStartLoop m c callback)) None; FUnrefIf m r]
                   (bump c x s)
            | None => Throw "TypeError: runner is undefined" (bump c x s)
            end
      | _, _ => Throw "TypeError: not a MultiRunner" s
      end
  end.

(** [loop] of [_cancelStart]. *)
Definition cancel_loop (m c : nat) (callback : cont) (e : outcome) (s : store) : res :=
  match get m s, cells s !! c with
  | Some (_, mu), Some x =>
      let x := push_error e x in
      let s := set_cell c x s in
      if decide (c_length x ≤ c_pos x)
      then Ok [] (next_tick (FCall callback (Some (combine (c_errors x)))) s)
      else
        match m_stopOrder mu !! c_pos x with
        | Some r =>
            Ok [FStop r (AOpts (Some {| grace := true |}))
                        (Some (KCancelLoop m c callback))]
               (bump c x s)
        | None => Throw "TypeError: runner is undefined" (bump c x s)
        end
  | _, _ => Throw "TypeError: not a MultiRunner" s
  end.

(** [loop] of [_stop]. *)
Definition stop_loop (m c : nat) (callback : cont) (e : outcome) (s : store) : res :=
  match get m s, cells s !! c with
  | Some (_, mu), Some x =>
      let x := push_error e x in
      let s := set_cell c x s in
      if decide (c_length x ≤ c_pos x)
      then
        Ok [] (next_tick
                 (FCall callback
                    (if decide (0 < length (c_errors x))
                     then Some (combine (c_errors x)) else None)) s)
      else
        match m_stopOrder mu !! c_pos x with
        | Some r =>
            Ok [FStop r (AFun (KStopLoop m c callback)) None] (bump c x s)
        | None => Throw "TypeError: runner is undefined" (bump c x s)
        end
  | _, _ => Throw "TypeError: not a MultiRunner" s
  end.

Definition unref (m : nat) (s : store) : res :=
  match get m s with
  | None => Throw "TypeError: not a MultiRunner" s
  | Some (x, mu) =>
      Ok (FUnref <$> m_startOrder mu) (put m x (with_unref true mu) s)
  end.

End MultiRunner.

(** ** lib/plugin-options.js and lib/task.js *)

(** The result of a call that returns a value. *)
Inductive ret (A : Type) :=
| Return (v : A) (s : store)
| Raise (msg : string) (s : store).
Arguments Return {A} v s.
Arguments Raise {A} msg s.

Definition alloc_object (o : obj) (s : store) : nat * store :=
  (length (objects s), set_objects (objects s ++ [o]) s).

(** The own enumerable properties [Object.assign] copies from a source. *)
Definition own_properties (a : oarg) (s : store) : obj :=
  match a with
  | OObj l => default ∅ (objects s !! l)
  | OAbsent | OPrim => ∅
  end.

(** [Object.assign({}, ...sources)]: later sources overwrite earlier ones;
    only the fresh target is written. *)
Definition Object_assign (sources : list oarg) (s : store) : nat * store :=
  alloc_object (foldl (λ target src, own_properties src s ∪ target) ∅ sources) s.

Definition pluginOptions (options : oarg) (s : store) : ret nat :=
  match options with
  | OAbsent => let '(l, s) := alloc_object ∅ s in Return l s
  | OObj _ => let '(l, s) := Object_assign [options] s in Return l s
  | OPrim => Raise "Unexpected type for options object" s
  end.

Inductive element :=
| ElFn (f : factory)                 (* a bare factory *)
| ElPair (f : factory) (o : oarg)    (* [factory, options] or [factory] *)
| ElOther.                           (* anything else *)

Inductive plugins_arg :=
| PFn (f : factory)
| PList (els : list element)
| POther.

Inductive role := Collect | Process | Publish | Schedule | Use.

Definition method_name (ro : role) : string :=
  match ro with
  | Collect => "collect"
  | Process => "process"
  | Publish => "publish"
  | Schedule => "schedule"
  | Use => "use"
  end.

Definition fqn (parts : list string) : string :=
  "<" +:+ String.concat ":" parts +:+ ">".

Definition pluginName (p : plugin) : string :=
  match p_proto p with
  | Some name => if decide (name = "") then "Anonymous" else name
  | None => "Object"
  end.

(** *** What [_connectPlugins] subscribes *)

(** The two closures [_connectPlugins] subscribes to ['metric'] events:
    [(metric) => q.process(metric)] for a processor [q], and [publish],
    which hands the metric to every publisher of the task [t] in order
    and then releases it. *)
Inductive metric_listener :=
| LProcess (q : nat)
| LPublish (t : nat).

(** [reduce((prev, curr) => { prev.on('metric', ..curr..); return curr })]
    without an initial value: the callback runs for every element but
    the first, with the element before it. *)
Fixpoint reduce_links (prev : nat) (rest : list nat) : list (nat * metric_listener) :=
  match rest with
  | [] => []
  | curr :: rest => (prev, LProcess curr) :: reduce_links curr rest
  end.

Module Wiring.

(** The calls [plugin.on('metric', listener)] that [_connectPlugins]
    makes for the task [t], in order. *)
Definition _connectPlugins (t : nat) (ta : task) : list (nat * metric_listener) :=
  match t_processors ta with
  | [] => (λ collector, (collector, LPublish t)) <$> t_collectors ta
  | firstProcessor :: rest =>
      let lastProcessor := List.last rest firstProcessor in
      ((λ collector, (collector, LProcess firstProcessor)) <$> t_collectors ta)
        ++ reduce_links firstProcessor rest
        ++ [(lastProcessor, LPublish t)]
  end.

End Wiring.

(** [typeof plugin.on === 'function']. *)
Definition has_on (s : store) (p : nat) : bool :=
  match plugins s !! p with
  | Some pl => p_on pl
  | None => false
  end.

Module Task.

Definition with_collectors (v : list nat) (t : task) : task :=
  {| t_collectors := v; t_processors := t_processors t;
     t_publishers := t_publishers t; t_schedules := t_schedules t;
     t_pingablePlugins := t_pingablePlugins t; t_frozen := t_frozen t;
     t_pinging := t_pinging t; t_multiRunner := t_multiRunner t;
     t_name := t_name t; t_pingIndex := t_pingIndex t;
     t_pingCallback := t_pingCallback t; t_noPingTarget := t_noPingTarget t;
     t_currentPingTarget := t_currentPingTarget t |}.
Definition with_processors (v : list nat) (t : task) : task :=
  {| t_collectors := t_collectors t; t_processors := v;
     t_publishers := t_publishers t; t_schedules := t_schedules t;
     t_pingablePlugins := t_pingablePlugins t; t_frozen := t_frozen t;
     t_pinging := t_pinging t; t_multiRunner := t_multiRunner t;
     t_name := t_name t; t_pingIndex := t_pingIndex t;
     t_pingCallback := t_pingCallback t; t_noPingTarget := t_noPingTarget t;
     t_currentPingTarget := t_currentPingTarget t |}.
Definition with_publishers (v : list nat) (t : task) : task :=
  {| t_collectors := t_collectors t; t_processors := t_processors t;
     t_publishers := v; t_schedules := t_schedules t;
     t_pingablePlugins := t_pingablePlugins t; t_frozen := t_frozen t;
     t_pinging := t_pinging t; t_multiRunner := t_multiRunner t;
     t_name := t_name t; t_pingIndex := t_pingIndex t;
     t_pingCallback := t_pingCallback t; t_noPingTarget := t_noPingTarget t;
     t_currentPingTarget := t_currentPingTarget t |}.
Definition with_schedules (v : list nat) (t : task) : task :=
  {| t_collectors := t_collectors t; t_processors := t_processors t;
     t_publishers := t_publishers t; t_schedules := v;
     t_pingablePlugins := t_pingablePlugins t; t_frozen := t_frozen t;
     t_pinging := t_pinging t; t_multiRunner := t_multiRunner t;
     t_name := t_name t; t_pingIndex := t_pingIndex t;
     t_pingCallback := t_pingCallback t; t_noPingTarget := t_noPingTarget t;
     t_currentPingTarget := t_currentPingTarget t |}.
(** [_initialize] up to the calls it makes: the flag and the ping list. *)
Definition with_frozen (ws : list wrapped) (t : task) : task :=
  {| t_collectors := t_collectors t; t_processors := t_processors t;
     t_publishers := t_publishers t; t_schedules := t_schedules t;
     t_pingablePlugins := ws; t_frozen := true;
     t_pinging := t_pinging t; t_multiRunner := t_multiRunner t;
     t_name := t_name t; t_pingIndex := t_pingIndex t;
     t_pingCallback := t_pingCallback t; t_noPingTarget := t_noPingTarget t;
     t_currentPingTarget := t_currentPingTarget t |}.
(** The ping cursor. *)
Definition with_cursor (pinging : bool) (index : nat) (callback : option cont)
    (target : string) (t : task) : task :=
  {| t_collectors := t_collectors t; t_processors := t_processors t;
     t_publishers := t_publishers t; t_schedules := t_schedules t;
     t_pingablePlugins := t_pingablePlugins t; t_frozen := t_frozen t;
     t_pinging := pinging; t_multiRunner := t_multiRunner t;
     t_name := t_name t; t_pingIndex := index;
     t_pingCallback := callback; t_noPingTarget := t_noPingTarget t;
     t_currentPingTarget := target |}.

Definition get (t : nat) (s : store) : option (runner * task) :=
  match runners s !! t with
  | Some x => match r_body x with TaskB ta => Some (x, ta) | _ => None end
  | None => None
  end.

Definition put (t : nat) (x : runner) (ta : task) (s : store) : store :=
  set_runner t (with_body (TaskB ta) x) s.

(** [new Task(name)]. *)
Definition create (name : option string) (s : store) : nat * store :=
  let '(m, s) := MultiRunner.create s in
  let name :=
    "Task(" +:+ match name with
                | Some n => if decide (n = "") then "anonymous" else n
                | None => "anonymous"
                end +:+ ")" in
  AbstractRunner.create
    (TaskB {| t_collectors := []; t_processors := []; t_publishers := [];
              t_schedules := []; t_pingablePlugins := []; t_frozen := false;
              t_pinging := false; t_multiRunner := m; t_name := name;
              t_pingIndex := 0; t_pingCallback := None;
              t_noPingTarget := fqn [name; "None"];
              t_currentPingTarget := fqn [name; "None"] |}) s.

(** The [add] callback of each registration method. *)
Definition add (ro : role) (p : nat) (ta : task) : task :=
  match ro with
  | Collect => with_collectors (t_collectors ta ++ [p]) ta
  | Process => with_processors (t_processors ta ++ [p]) ta
  | Publish => with_publishers (t_publishers ta ++ [p]) ta
  | Schedule => with_schedules (t_schedules ta ++ [p]) ta
  | Use => ta
  end.

Definition add_to (t : nat) (ro : role) (p : nat) (s : store) : store :=
  match get t s with
  | Some (x, ta) => put t x (add ro p ta) s
  | None => s
  end.

Definition _callPlugin (t : nat) (pluginFn : factory) (options : oarg)
    (s : store) : ret nat :=
  match pluginOptions options s with
  | Return l s =>
      Return (f_make pluginFn (default ∅ (objects s !! l)))
             (log (Made (f_id pluginFn) l t) s)
  | Raise msg s => Raise msg s
  end.

(** The [for] loop over a list argument. *)
Fixpoint take_elements (t : nat) (ro : role) (els : list element)
    (arg2 : oarg) (s : store) : res :=
  match els with
  | [] => Ok [] s
  | ElFn el :: els =>
      match _callPlugin t el arg2 s with
      | Return p s => take_elements t ro els arg2 (add_to t ro p s)
      | Raise msg s => Throw msg s
      end
  | ElPair el0 el1 :: els =>
      let '(l, s) := Object_assign [el1; arg2] s in
      match _callPlugin t el0 (OObj l) s with
      | Return p s => take_elements t ro els arg2 (add_to t ro p s)
      | Raise msg s => Throw msg s
      end
  | ElOther :: _ =>
      Throw ("Nested plugin in " +:+ method_name ro +:+
             "([plugin, ..]) must be a function or an array in the form [plugin, options]") s
  end.

Definition _takePlugins (t : nat) (ro : role) (arg1 : plugins_arg)
    (arg2 : oarg) (s : store) : res :=
  match get t s with
  | None => Throw "TypeError: not a Task" s
  | Some (_, ta) =>
      if t_frozen ta
      then Throw ("Cannot " +:+ method_name ro +:+ "() after task has been frozen") s
      else
        match arg1 with
        | PFn f =>
            match _callPlugin t f arg2 s with
            | Return p s => Ok [] (add_to t ro p s)
            | Raise msg s => Throw msg s
            end
        | PList els => take_elements t ro els arg2 s
        | POther =>
            Throw ("First argument in " +:+ method_name ro +:+
                   "(arg) must be a function or an array in the form [plugin, ..]") s
        end
  end.

Definition collect := λ t, _takePlugins t Collect.
Definition process := λ t, _takePlugins t Process.
Definition publish := λ t, _takePlugins t Publish.
Definition schedule := λ t, _takePlugins t Schedule.
Definition use := λ t, _takePlugins t Use.

(** [wrapper(taskName, role)] applied to [(plugin, index)]. *)
Definition wrapper (taskName rolename : string) (s : store)
    (index : nat) (pl : nat) : option wrapped :=
  p ← plugins s !! pl;
  Some {| w_plugin := pl;
          w_name := fqn [taskName; rolename +:+ "[" +:+ pretty index +:+ "]";
                         pluginName p];
          w_pingable := bool_decide (is_Some (p_ping p)) |}.

Definition unwrap (w : wrapped) : nat := w_plugin w.

(** [list.map(Runner.decorate)]: [None] when a constructor throws, with
    the runners made before it left in the store. *)
Fixpoint decorate_all (nuts : list nat) (s : store) : option (list nat) * store :=
  match nuts with
  | [] => (Some [], s)
  | nut :: nuts =>
      match DecoratedRunner.create nut s with
      | None => (None, s)
      | Some (r, s) =>
          let '(rs, s) := decorate_all nuts s in
          (cons r <$> rs, s)
      end
  end.

Definition wrap_all (ta : task) (s : store) : option (list wrapped) :=
  cs ← mapM id (imap (wrapper (t_name ta) "Collector" s) (t_collectors ta));
  ps ← mapM id (imap (wrapper (t_name ta) "Processor" s) (t_processors ta));
  bs ← mapM id (imap (wrapper (t_name ta) "Publisher" s) (t_publishers ta));
  Some (cs ++ ps ++ bs).

(** [_connectPlugins]: the calls [plugin.on('metric', listener)] listed by
    [Wiring._connectPlugins], in order; the first plugin without an [on]
    method makes the call throw a TypeError. The listeners run only when
    a plugin emits a metric, which no call of this development makes it
    do, so the store does not hold them. *)
Definition _connectPlugins (t : nat) (s : store) : res :=
  match get t s with
  | None => Throw "TypeError: not a Task" s
  | Some (_, ta) =>
      if forallb (has_on s) (Wiring._connectPlugins t ta).*1
      then Ok [] s
      else Throw "TypeError: plugin.on is not a function" s
  end.

(** [_initialize], with [_initializePlugins] inlined: the flag is set
    first, so it stays set when a later statement throws; the calls of
    [addRunner] and then [_connectPlugins] are left to run. *)
Definition _initialize (t : nat) (s : store) : res :=
  match get t s with
  | None => Throw "TypeError: not a Task" s
  | Some (x, ta) =>
      if t_frozen ta then Ok [] s
      else
        match wrap_all ta s with
        | None =>
            Throw "TypeError: plugin is undefined"
                  (put t x (with_frozen (t_pingablePlugins ta) ta) s)
        | Some wrappedPlugins =>
            match decorate_all (unwrap <$> wrappedPlugins) s with
            | (None, s) =>
                Throw "TypeError: nut is undefined"
                      (put t x (with_frozen (t_pingablePlugins ta) ta) s)
            | (Some decoratedPlugins, s) =>
                match decorate_all (t_schedules ta) s with
                | (None, s) =>
                    Throw "TypeError: nut is undefined"
                          (put t x (with_frozen (t_pingablePlugins ta) ta) s)
                | (Some decoratedSchedulePlugins, s) =>
                    let s :=
                      put t x (with_frozen (filter (λ w, w_pingable w = true)
                                                   wrappedPlugins) ta) s in
                    Ok (((λ r, FAddRunner (t_multiRunner ta) r false)
                           <$> decoratedPlugins) ++
                        ((λ r, FAddRunner (t_multiRunner ta) r true)
                           <$> decoratedSchedulePlugins) ++
                        [FConnect t]) s
                end
            end
        end
  end.

Definition _start (t : nat) (callback : cont) (s : store) : res :=
  match get t s with
  | None => Throw "TypeError: not a Task" s
  | Some (_, ta) =>
      Ok [FInitialize t; FStart (t_multiRunner ta) (AFun callback) None] s
  end.

Definition _stop (t : nat) (callback : cont) (s : store) : res :=
  match get t s with
  | None => Throw "TypeError: not a Task" s
  | Some (_, ta) => Ok [FStop (t_multiRunner ta) (AFun callback) None] s
  end.

Definition unref (t : nat) (s : store) : res :=
  match get t s with
  | None => Throw "TypeError: not a Task" s
  | Some (_, ta) => Ok [FUnref (t_multiRunner ta)] s
  end.

Definition ping (t : nat) (callback : cont) (s : store) : res :=
  match get t s with
  | None => Throw "TypeError: not a Task" s
  | Some (x, ta) =>
      if t_pinging ta
      then Throw "Cannot ping() before completion of previous ping" s
      else
        Ok [FCall (KPingNext t) None]
           (put t x (with_cursor true 0 (Some callback)
                       (t_currentPingTarget ta) ta) s)
  end.

Definition _pingNext (t : nat) (e : outcome) (s : store) : res :=
  let s := match e with Some err => log (Warned (WError err)) s | None => s end in
  match get t s with
  | None => Throw "TypeError: not a Task" s
  | Some (x, ta) =>
      if negb (t_pinging ta) then Ok [] (log (Warned WPingTwice) s)
      else if decide (t_pingIndex ta = length (t_pingablePlugins ta)) then
        match t_pingCallback ta with
        | Some callback =>
            Ok [] (next_tick (FCall callback None)
                     (put t x (with_cursor false (t_pingIndex ta) None
                                 (t_noPingTarget ta) ta) s))
        | None =>
            Throw "TypeError: callback is not a function"
                  (put t x (with_cursor false (t_pingIndex ta) None
                              (t_noPingTarget ta) ta) s)
        end
      else
        match t_pingablePlugins ta !! t_pingIndex ta with
        | None =>
            Throw "TypeError: wrapped is undefined"
                  (put t x (with_cursor true (S (t_pingIndex ta))
                              (t_pingCallback ta) (t_currentPingTarget ta) ta) s)
        | Some w =>
            let s :=
              put t x (with_cursor true (S (t_pingIndex ta))
                         (t_pingCallback ta) (w_name w) ta) s in
            match plugins s !! w_plugin w ≫= p_ping with
            | Some b =>
                Ok [FBehave (PPing (w_plugin w)) (KPingNext t) b]
                   (log (Invoke (PPing (w_plugin w))) s)
            | None => Throw "TypeError: wrapped.plugin.ping is not a function" s
            end
        end
  end.

Definition currentPingTarget (t : nat) (s : store) : option string :=
  t_currentPingTarget ∘ snd <$> get t s.

End Task.

(** ** lib/control.js *)

Module Control.

Definition create := MultiRunner.create.

(** [task(name)]: the new task's id and what [addRunner] leaves. *)
Definition task (ctl : nat) (name : option string) (s : store) : nat * res :=
  let '(t, s) := Task.create name s in
  (t, MultiRunner.addRunner ctl t false s).

End Control.

(** ** The machine *)

(** A promise settles once. *)
Definition settle (p : nat) (e : outcome) (s : store) : store :=
  match promises s !! p with
  | Some None => set_promises (<[p := Some e]> (promises s)) s
  | _ => s
  end.

(** Calling a closure. *)
Definition call (k : cont) (e : outcome) (s : store) : res :=
  match k with
  | KUser tag => Ok [] (log (Called tag e) s)
  | KSettle p => Ok [] (settle p e s)
  | KStartDone r callback => AbstractRunner.start_done r callback e s
  | KStopDone r callback => AbstractRunner.stop_done r callback e s
  | KJoin callback => Ok [] (next_tick (FCall callback e) s)
  | KReissueStart r options callback =>
      Ok [] (next_tick (FStart r (AOpts (Some options)) (Some callback)) s)
  | KReissueStop r options callback =>
      Ok [] (next_tick (FStop r (AOpts (Some options)) (Some callback)) s)
  | KStartLoop m c callback => MultiRunner.start_loop m c callback e s
  | KCancelLoop m c callback => MultiRunner.cancel_loop m c callback e s
  | KStopLoop m c callback => MultiRunner.stop_loop m c callback e s
  | KPingNext t => Task._pingNext t e s
  end.

(** Method dispatch on the class of the receiver. *)
Definition hook_start (r : nat) (k : cont) (s : store) : res :=
  match runners s !! r with
  | None => Throw "TypeError: not a runner" s
  | Some x =>
      match r_body x with
      | Custom b _ => Ok [FBehave (RStart r) k b] (log (Invoke (RStart r)) s)
      | Decorated nut => DecoratedRunner._start nut k s
      | Multi _ => MultiRunner._start r k s
      | TaskB _ => Task._start r k s
      end
  end.

Definition hook_stop (r : nat) (k : cont) (s : store) : res :=
  match runners s !! r with
  | None => Throw "TypeError: not a runner" s
  | Some x =>
      match r_body x with
      | Custom _ b => Ok [FBehave (RStop r) k b] (log (Invoke (RStop r)) s)
      | Decorated nut => DecoratedRunner._stop nut k s
      | Multi _ => MultiRunner._stop r k s
      | TaskB _ => Task._stop r k s
      end
  end.

Definition unref (r : nat) (s : store) : res :=
  match runners s !! r with
  | None => Throw "TypeError: not a runner" s
  | Some x =>
      match r_body x with
      | Custom _ _ => Ok [] s
      | Decorated nut => DecoratedRunner.unref nut s
      | Multi _ => MultiRunner.unref r s
      | TaskB _ => Task.unref r s
      end
  end.

Definition unref_if (m r : nat) (s : store) : res :=
  match MultiRunner.get m s with
  | None => Throw "TypeError: not a MultiRunner" s
  | Some (_, mu) => if m_unref mu then Ok [FUnref r] s else Ok [] s
  end.

Definition exec (f : frame) (s : store) : res :=
  match f with
  | FCall k e => call k e s
  | FStart r a1 a2 => AbstractRunner.start r a1 a2 s
  | FStop r a1 a2 => AbstractRunner.stop r a1 a2 s
  | FHookStart r k => hook_start r k s
  | FHookStop r k => hook_stop r k s
  | FBehave h k b => behave h k b s
  | FExternal h k e => external h k e s
  | FUnref r => unref r s
  | FUnrefIf m r => unref_if m r s
  | FAddRunner m r stopFirst => MultiRunner.addRunner m r stopFirst s
  | FInitialize t => Task._initialize t s
  | FConnect t => Task._connectPlugins t s
  | FPing t k => Task.ping t k s
  end.

(** The call stack of the current turn over the store; [thrown] is set when
    an exception reaches the bottom of the stack, which ends the run. *)
Record machine := {
  store_of : store;
  stack : list frame;
  thrown : option string
}.

Definition enter (f : frame) (s : store) : machine :=
  {| store_of := s; stack := [f]; thrown := None |}.

(** One step: run the call on top of the stack; with an empty stack, take
    the next turn from the nextTick queue, then from the setImmediate
    queue. *)
Definition step (M : machine) : option machine :=
  match thrown M with
  | Some _ => None
  | None =>
      match stack M with
      | f :: fs =>
          Some match exec f (store_of M) with
               | Ok calls s =>
                   {| store_of := s; stack := calls ++ fs; thrown := None |}
               | Throw msg s =>
                   {| store_of := s; stack := []; thrown := Some msg |}
               end
      | [] =>
          match ticks (store_of M), immediates (store_of M) with
          | f :: q, _ => Some (enter f (set_ticks q (store_of M)))
          | [], f :: q => Some (enter f (set_immediates q (store_of M)))
          | [], [] => None
          end
      end
  end.

Fixpoint run (fuel : nat) (M : machine) : machine :=
  match fuel with
  | 0 => M
  | S fuel => match step M with Some M' => run fuel M' | None => M end
  end.

(** The rest of the current turn: steps until the stack is empty. *)
Fixpoint turn (fuel : nat) (M : machine) : machine :=
  match fuel, stack M, thrown M with
  | S fuel, _ :: _, None =>
      match step M with Some M' => turn fuel M' | None => M end
  | _, _, _ => M
  end.

Definition halted (M : machine) : Prop := step M = None.

Definition quiet (M : machine) : Prop :=
  stack M = [] ∧ thrown M = None ∧
  ticks (store_of M) = [] ∧ immediates (store_of M) = [].

Definition steps : relation machine := rtc (λ M M', step M = Some M').

(** ** Basic facts about the machine *)

Lemma steps_refl M : steps M M.
Proof. apply rtc_refl. Qed.

Lemma steps_l M M' M'' : step M = Some M' → steps M' M'' → steps M M''.
Proof. intros H1 H2. eapply rtc_l; [exact H1 | exact H2]. Qed.

Lemma steps_trans M M' M'' : steps M M' → steps M' M'' → steps M M''.
Proof. apply rtc_trans. Qed.

Lemma quiet_halted M : quiet M → halted M.
Proof.
  intros (Hs & Ht & Hq & Hi). unfold halted, step.
  by rewrite Ht, Hs, Hq, Hi.
Qed.

Lemma run_halted n M : halted M → run n M = M.
Proof. intros H. destruct n; simpl; [done|]. unfold halted in H. by rewrite H. Qed.

(** [steps] is what [run] computes. *)
Lemma steps_run M M' : steps M M' → ∃ n, run n M = M'.
Proof.
  induction 1 as [M | M M1 M2 H1 _ [n IH]].
  - by exists 0.
  - exists (S n). simpl. by rewrite H1.
Qed.

Lemma run_steps n M : steps M (run n M).
Proof.
  revert M. induction n as [|n IH]; intros M; simpl; [apply steps_refl|].
  destruct (step M) as [M'|] eqn:E; [|apply steps_refl].
  eapply steps_l; [exact E | apply IH].
Qed.

(** Executing the top of the stack. *)
Lemma step_ok f fs s calls s' :
  exec f s = Ok calls s' →
  step {| store_of := s; stack := f :: fs; thrown := None |}
  = Some {| store_of := s'; stack := calls ++ fs; thrown := None |}.
Proof. intros H. unfold step. simpl. by rewrite H. Qed.

Lemma steps_ok f fs s calls s' M :
  exec f s = Ok calls s' →
  steps {| store_of := s'; stack := calls ++ fs; thrown := None |} M →
  steps {| store_of := s; stack := f :: fs; thrown := None |} M.
Proof. intros H. apply steps_l. by apply step_ok. Qed.

(** ** The state machine of a single runner *)

Definition default_mode (a1 : arg1) : Prop :=
  match a1 with
  | AFun _ => True
  | AOpts o => AbstractRunner.graceful o = false
  end.

(** [s'] is [s] up to the promise table. *)
Definition only_promises (s s' : store) : Prop :=
  s' = set_promises (promises s') s.

Lemma arguments_only_promises a1 a2 s :
  only_promises s (AbstractRunner.arguments a1 a2 s).2.
Proof.
  unfold AbstractRunner.arguments, only_promises.
  destruct a1 as [k|o]; [by destruct s|].
  destruct a2; by destruct s.
Qed.

Lemma arguments_callback k s :
  AbstractRunner.arguments (AFun k) None s = (None, k, s).
Proof. done. Qed.

(** C3. Without [grace], [start] on a Started or Starting runner throws
    'Cannot start() before stop()', on a Stopping runner it throws
    'Cannot start() before stop() has completed'; [stop] on a Stopped or
    Stopping runner throws 'Cannot stop() before start()', on a Starting
    runner 'Cannot stop() before start() has completed'. The two messages
    of each method differ, the throw makes no call (no hook runs) and the
    store is the one the call found, up to the promise made when no
    callback was passed. *)
Theorem default_mode_guards (r : nat) (x : runner) (a1 : arg1)
    (a2 : option cont) (s : store) :
  runners s !! r = Some x →
  default_mode a1 →
  let s' := (AbstractRunner.arguments a1 a2 s).2 in
  only_promises s s' ∧
  (is_Some a2 ∨ (∃ k, a1 = AFun k) → s' = s) ∧
  (r_status x = Started ∨ r_status x = Starting →
     AbstractRunner.start r a1 a2 s = Throw "Cannot start() before stop()" s') ∧
  (r_status x = Stopping →
     AbstractRunner.start r a1 a2 s
     = Throw "Cannot start() before stop() has completed" s') ∧
  (r_status x = Stopped ∨ r_status x = Stopping →
     AbstractRunner.stop r a1 a2 s = Throw "Cannot stop() before start()" s') ∧
  (r_status x = Starting →
     AbstractRunner.stop r a1 a2 s
     = Throw "Cannot stop() before start() has completed" s') ∧
  "Cannot start() before stop()" ≠ "Cannot start() before stop() has completed" ∧
  "Cannot stop() before start()" ≠ "Cannot stop() before start() has completed".
Proof.
  intros Hx Hmode s'. split; [apply arguments_only_promises|].
  split.
  { intros [[k ->]|[k ->]]; subst s'; [by destruct a1|done]. }
  assert (Hlk : runners s' !! r = Some x).
  { subst s'. destruct a1 as [k|o]; [done|]. by destruct a2. }
  unfold AbstractRunner.start, AbstractRunner.stop.
  destruct (AbstractRunner.arguments a1 a2 s) as [[options callback] s1] eqn:E.
  simpl in s'. subst s'. rewrite Hlk.
  assert (Hg : AbstractRunner.graceful options = false).
  { destruct a1 as [k|o]; simpl in E.
    - by inversion E.
    - destruct a2; inversion E; by subst. }
  destruct options as [[g]|]; simpl in Hg; [subst g; cbn [grace]|];
    unfold AbstractRunner.start_default, AbstractRunner.stop_default;
  repeat split; try done; intros H;
    try destruct H as [H|H]; by rewrite H.
Qed.

Definition guard_store : store :=
  set_runners
    [ {| r_status := Starting; r_once_start := []; r_once_stop := [];
         r_body := Custom [(Immediate, None)] [(Immediate, None)] |};
      {| r_status := Stopping; r_once_start := []; r_once_stop := [];
         r_body := Custom [(Immediate, None)] [(Immediate, None)] |} ]
    empty_store.

Lemma default_mode_guards_witness :
  AbstractRunner.start 0 (AFun (KUser 7)) None guard_store
    = Throw "Cannot start() before stop()" guard_store ∧
  AbstractRunner.stop 0 (AFun (KUser 7)) None guard_store
    = Throw "Cannot stop() before start() has completed" guard_store ∧
  AbstractRunner.start 1 (AOpts None) (Some (KUser 7)) guard_store
    = Throw "Cannot start() before stop() has completed" guard_store ∧
  AbstractRunner.stop 1 (AOpts None) (Some (KUser 7)) guard_store
    = Throw "Cannot stop() before start()" guard_store.
Proof.
  pose proof (default_mode_guards 0 _ (AFun (KUser 7)) None guard_store
                eq_refl I) as (_ & _ & H1 & _ & _ & H2 & _).
  pose proof (default_mode_guards 1 _ (AOpts None) (Some (KUser 7)) guard_store
                eq_refl eq_refl) as (_ & _ & _ & H3 & H4 & _).
  split; [exact (H1 (or_intror eq_refl))|].
  split; [exact (H2 eq_refl)|].
  split; [exact (H3 eq_refl)|].
  exact (H4 (or_intror eq_refl)).
Defined.

(** The listeners the library registers with [once]: joiners and
    re-issuers. All they do is queue a call for the next tick. *)
Definition listener (k : cont) : Prop :=
  match k with
  | KJoin _ | KReissueStart _ _ _ | KReissueStop _ _ _ => True
  | _ => False
  end.

Definition queued (e : outcome) (k : cont) : list frame :=
  match k with
  | KJoin callback => [FCall callback e]
  | KReissueStart r o callback => [FStart r (AOpts (Some o)) (Some callback)]
  | KReissueStop r o callback => [FStop r (AOpts (Some o)) (Some callback)]
  | _ => []
  end.

Lemma set_ticks_id s : set_ticks (ticks s) s = s.
Proof. by destruct s. Qed.

Lemma emit_listeners (e : outcome) (L : list cont) (s : store) (rest : list frame) :
  Forall listener L →
  steps {| store_of := s; stack := ((λ l, FCall l e) <$> L) ++ rest; thrown := None |}
        {| store_of := set_ticks (ticks s ++ (L ≫= queued e)) s;
           stack := rest; thrown := None |}.
Proof.
  intros HL. revert s. induction HL as [|k L Hk _ IH]; intros s.
  - simpl. rewrite app_nil_r, set_ticks_id. apply steps_refl.
  - simpl. destruct k; try done; simpl in *.
    all: eapply steps_ok; [reflexivity|]; simpl.
    all: eapply steps_trans; [apply IH|].
    all: unfold next_tick; destruct s; simpl; rewrite <- app_assoc; simpl.
    all: apply steps_refl.
Qed.

(** The completion of an in-flight [start]: the state changes, the
    listeners queue their calls, and the caller's callback is next. *)
Lemma start_completion (r : nat) (x : runner) (k0 : cont) (e : outcome)
    (s : store) (rest : list frame) :
  runners s !! r = Some x →
  Forall listener (r_once_start x) →
  steps {| store_of := s; stack := FCall (KStartDone r k0) e :: rest; thrown := None |}
        {| store_of :=
             set_ticks (ticks s ++ (r_once_start x ≫= queued e))
               (set_runner r
                  (with_once_start []
                     (with_status (if e is Some _ then Stopped else Started) x)) s);
           stack := FCall k0 e :: rest; thrown := None |}.
Proof.
  intros Hx HL.
  eapply steps_ok.
  { simpl. unfold AbstractRunner.start_done. rewrite Hx. reflexivity. }
  rewrite fmap_app, <- app_assoc. simpl.
  eapply steps_trans; [by apply emit_listeners|]. apply steps_refl.
Qed.

Lemma stop_completion (r : nat) (x : runner) (k0 : cont) (e : outcome)
    (s : store) (rest : list frame) :
  runners s !! r = Some x →
  Forall listener (r_once_stop x) →
  steps {| store_of := s; stack := FCall (KStopDone r k0) e :: rest; thrown := None |}
        {| store_of :=
             set_ticks (ticks s ++ (r_once_stop x ≫= queued e))
               (set_runner r (with_once_stop [] (with_status Stopped x)) s);
           stack := FCall k0 e :: rest; thrown := None |}.
Proof.
  intros Hx HL.
  eapply steps_ok.
  { simpl. unfold AbstractRunner.stop_done. rewrite Hx. reflexivity. }
  rewrite fmap_app, <- app_assoc. simpl.
  eapply steps_trans; [by apply emit_listeners|]. apply steps_refl.
Qed.

Lemma lookup_set_runner_eq (r : nat) (x y : runner) (s : store) :
  runners s !! r = Some x → runners (set_runner r y s) !! r = Some y.
Proof.
  intros H. simpl. apply list_lookup_insert_eq. by eapply lookup_lt_Some.
Qed.

Lemma lookup_set_runner_ne (r r' : nat) (y : runner) (s : store) :
  r ≠ r' → runners (set_runner r y s) !! r' = runners s !! r'.
Proof. intros H. simpl. by apply list_lookup_insert_ne. Qed.

(** ** Plugin options *)

(** The options object a factory receives when it is registered as the
    only element [[factory, el1]] of a list, with call-level options
    [arg2]: the object named by the [Made] event the call leaves. *)
Definition received (t : nat) (ro : role) (f : factory) (el1 arg2 : oarg)
    (s : store) : option obj :=
  match Task.take_elements t ro [ElPair f el1] arg2 s with
  | Ok _ s' =>
      match last (trace s') with
      | Some (Made _ l _) => objects s' !! l
      | _ => None
      end
  | Throw _ _ => None
  end.

Lemma add_to_objects t ro p s : objects (Task.add_to t ro p s) = objects s.
Proof. unfold Task.add_to. by destruct (Task.get t s) as [[??]|]. Qed.

Lemma add_to_trace t ro p s : trace (Task.add_to t ro p s) = trace s.
Proof. unfold Task.add_to. by destruct (Task.get t s) as [[??]|]. Qed.

(** One round of the registration loop at a [[factory, options]] element. *)
Lemma take_pair (t : nat) (ro : role) (f : factory) (el1 arg2 : oarg)
    (rest : list element) (s : store) :
  let merged := own_properties arg2 s ∪ own_properties el1 s in
  let l := S (length (objects s)) in
  Task.take_elements t ro (ElPair f el1 :: rest) arg2 s
  = Task.take_elements t ro rest arg2
      (Task.add_to t ro (f_make f merged)
         (log (Made (f_id f) l t)
            (set_objects (objects s ++ [merged; merged]) s))).
Proof.
  intros merged l. simpl.
  assert (Hm : own_properties arg2 s ∪ (own_properties el1 s ∪ ∅) = merged).
  { unfold merged. by rewrite (right_id_L ∅ (∪)). }
  rewrite Hm.
  assert (Hl : (objects s ++ [merged]) !! length (objects s) = Some merged).
  { by rewrite list_lookup_middle. }
  rewrite Hl. simpl. rewrite (right_id_L ∅ (∪)).
  rewrite length_app. simpl.
  replace (length (objects s) + 1) with l by (unfold l; lia).
  assert (Hl2 : ((objects s ++ [merged]) ++ [merged]) !! l = Some merged).
  { rewrite list_lookup_middle; [done|]. rewrite length_app. simpl. unfold l. lia. }
  rewrite Hl2. simpl. by rewrite <- app_assoc.
Qed.

Definition options_store : store :=
  set_objects [ {[ "interval" := VNum 30 ]}; {[ "interval" := VNum 60 ]} ]
    (Task.create None empty_store).2.

(** C9, as the spec words it, fails: with element options [{interval: 30}]
    and call-level options [{interval: 60}] the factory sees [interval = 60]. *)
Lemma element_options_do_not_win :
  ¬ (∀ t ro f el1 arg2 s m key v,
       received t ro f el1 arg2 s = Some m →
       own_properties el1 s !! key = Some v →
       m !! key = Some v).
Proof.
  intros H.
  specialize (H 1 Collect {| f_id := 0; f_make := λ _, 0 |} (OObj 0) (OObj 1)
                options_store {[ "interval" := VNum 60 ]} "interval" (VNum 30)).
  assert (H1 : ({[ "interval" := VNum 60 ]} : obj) !! "interval" = Some (VNum 30)).
  { apply H; by vm_compute. }
  by vm_compute in H1.
Qed.

(** ** Running the machine symbolically *)

Definition running (s : store) (fs : list frame) : machine :=
  {| store_of := s; stack := fs; thrown := None |}.

(** The store [s] with new dynamic parts; plugins, option objects and
    promises stay. *)
Definition upd (s : store) (rs : list runner) (cs : list cell)
    (tk im : list frame) (tr : list event) (u : list nat) : store :=
  {| runners := rs; plugins := plugins s; objects := objects s; cells := cs;
     promises := promises s; ticks := tk; immediates := im; trace := tr;
     unrefd := u |}.

Lemma upd_id s :
  upd s (runners s) (cells s) (ticks s) (immediates s) (trace s) (unrefd s) = s.
Proof. by destruct s. Qed.

Lemma steps_exec f fs s calls s' M :
  exec f s = Ok calls s' →
  steps (running s' (calls ++ fs)) M →
  steps (running s (f :: fs)) M.
Proof. apply steps_ok. Qed.

Lemma steps_tick f q s M :
  ticks s = f :: q →
  steps (running (set_ticks q s) [f]) M →
  steps (running s []) M.
Proof.
  intros H. apply steps_l. unfold step. simpl. by rewrite H.
Qed.

Lemma steps_immediate f q s M :
  ticks s = [] → immediates s = f :: q →
  steps (running (set_immediates q s) [f]) M →
  steps (running s []) M.
Proof.
  intros H1 H2. apply steps_l. unfold step. simpl. by rewrite H1, H2.
Qed.

(** Runners that are driven by external hooks only. *)
Definition leaf (ps : list plugin) (b : body) : Prop :=
  match b with
  | Custom _ _ => True
  | Decorated nut => is_Some (ps !! nut)
  | Multi _ | TaskB _ => False
  end.

(** Calls left on the stack that change nothing but the [unrefd] log: the
    end of a hook body, and the [unref] of a leaf after its [start]. *)
Definition idle_frame (bs : list body) (ps : list plugin) (f : frame) : Prop :=
  match f with
  | FBehave _ _ [] => True
  | FUnrefIf m r =>
      (∃ mu, bs !! m = Some (Multi mu)) ∧ (∃ b, bs !! r = Some b ∧ leaf ps b)
  | _ => False
  end.

Abbreviation idle s junk :=
  (Forall (idle_frame (r_body <$> runners s) (plugins s)) junk).

Lemma lookup_body (rs : list runner) (r : nat) (b : body) :
  (r_body <$> rs) !! r = Some b → ∃ x, rs !! r = Some x ∧ r_body x = b.
Proof.
  rewrite list_lookup_fmap. destruct (rs !! r) as [x|]; [|done].
  intros [= <-]. by exists x.
Qed.

Lemma bodies_alter (g : runner → runner) (r : nat) (rs : list runner) :
  (∀ x, r_body (g x) = r_body x) →
  r_body <$> alter g r rs = r_body <$> rs.
Proof.
  intros Hg. rewrite (list_fmap_alter r_body g id); [by apply list_alter_id|].
  apply Forall_forall. intros x _. by rewrite Hg.
Qed.

Lemma run_idle (junk : list frame) (s : store) (rest : list frame) :
  idle s junk →
  ∃ u, steps (running s (junk ++ rest))
             (running (upd s (runners s) (cells s) (ticks s) (immediates s)
                         (trace s) u) rest).
Proof.
  intros H. revert s H. induction junk as [|f junk IH]; intros s H.
  - exists (unrefd s). rewrite upd_id. apply steps_refl.
  - apply Forall_cons in H as [Hf Hj].
    destruct f; simpl in Hf; try done.
    + destruct b; [|done].
      destruct (IH s Hj) as [u Hu]. exists u.
      eapply steps_exec; [reflexivity|]. exact Hu.
    + destruct Hf as [(mu & Hm) (b & Hr & Hl)].
      apply lookup_body in Hm as (x & Hm & Hb).
      apply lookup_body in Hr as (y & Hr & Hy').
      assert (Hget : MultiRunner.get m s = Some (x, mu)).
      { unfold MultiRunner.get. by rewrite Hm, Hb. }
      destruct (m_unref mu) eqn:Hu.
      * subst b. destruct (r_body y) as [b1 b2|nut| |] eqn:Hy; simpl in Hl; try done.
        -- destruct (IH s Hj) as [u Hs]. exists u.
           eapply steps_exec; [simpl; unfold unref_if; by rewrite Hget, Hu|].
           eapply steps_exec; [simpl; unfold unref; by rewrite Hr, Hy|].
           exact Hs.
        -- destruct Hl as [p Hp].
           destruct (p_unref p) eqn:Hpu.
           ++ destruct (IH (set_unrefd (unrefd s ++ [nut]) s) Hj) as [u Hs].
              exists u.
              eapply steps_exec; [simpl; unfold unref_if; by rewrite Hget, Hu|].
              eapply steps_exec;
                [simpl; unfold unref, DecoratedRunner.unref;
                 by rewrite Hr, Hy, Hp, Hpu|].
              exact Hs.
           ++ destruct (IH s Hj) as [u Hs]. exists u.
              eapply steps_exec; [simpl; unfold unref_if; by rewrite Hget, Hu|].
              eapply steps_exec;
                [simpl; unfold unref, DecoratedRunner.unref;
                 by rewrite Hr, Hy, Hp, Hpu|].
              exact Hs.
      * destruct (IH s Hj) as [u Hs]. exists u.
        eapply steps_exec; [simpl; unfold unref_if; by rewrite Hget, Hu|].
        exact Hs.
Qed.

(** A call queued with [process.nextTick] on empty queues runs once the
    stack has unwound. *)
Lemma run_to_tick (f : frame) (junk : list frame) (s : store) :
  ticks s = [] →
  idle s junk →
  ∃ u, steps (running (next_tick f s) junk)
             (running (upd s (runners s) (cells s) [] (immediates s)
                         (trace s) u) [f]).
Proof.
  intros Ht Hj.
  destruct (run_idle junk (next_tick f s) [] Hj) as [u Hu].
  exists u. rewrite app_nil_r in Hu.
  eapply steps_trans; [exact Hu|].
  eapply steps_tick; [simpl; by rewrite Ht|]. apply steps_refl.
Qed.

Lemma run_to_immediate (f : frame) (junk : list frame) (s : store) :
  ticks s = [] → immediates s = [] →
  idle s junk →
  ∃ u, steps (running (set_immediate f s) junk)
             (running (upd s (runners s) (cells s) [] []
                         (trace s) u) [f]).
Proof.
  intros Ht Hi Hj.
  destruct (run_idle junk (set_immediate f s) [] Hj) as [u Hu].
  exists u. rewrite app_nil_r in Hu.
  eapply steps_trans; [exact Hu|].
  eapply steps_immediate; [done|simpl; by rewrite Hi|].
  simpl. rewrite Ht. apply steps_refl.
Qed.

(** An external hook that completes exactly once, whenever it does so,
    hands its outcome to the callback with nothing else in between. *)
Lemma deliver (h : hook) (k : cont) (tm : timing) (e : outcome)
    (junk : list frame) (s : store) :
  ticks s = [] → immediates s = [] →
  idle s junk →
  ∃ u junk',
    steps (running s (FBehave h k [(tm, e)] :: junk))
          (running (upd s (runners s) (cells s) [] []
                      (trace s ++ [Complete h e]) u) (FCall k e :: junk')) ∧
    idle s junk'.
Proof.
  intros Ht Hi Hj. destruct tm.
  - exists (unrefd s), (FBehave h k [] :: junk). split.
    + eapply steps_exec; [reflexivity|]. simpl.
      eapply steps_exec; [reflexivity|]. simpl.
      unfold log, set_trace, upd. rewrite Ht, Hi. apply steps_refl.
    + by constructor.
  - assert (Hj' : idle s (FBehave h k [] :: junk)) by by constructor.
    destruct (run_to_tick (FExternal h k e) _ s Ht Hj') as [u Hu].
    exists u, []. split; [|done].
    eapply steps_exec; [reflexivity|]. simpl.
    eapply steps_trans; [exact Hu|].
    eapply steps_exec; [reflexivity|]. simpl.
    unfold log, set_trace, upd. simpl. rewrite Hi. apply steps_refl.
  - assert (Hj' : idle s (FBehave h k [] :: junk)) by by constructor.
    destruct (run_to_immediate (FExternal h k e) _ s Ht Hi Hj') as [u Hu].
    exists u, []. split; [|done].
    eapply steps_exec; [reflexivity|]. simpl.
    eapply steps_trans; [exact Hu|].
    eapply steps_exec; [reflexivity|]. simpl.
    unfold log, set_trace, upd. simpl. apply steps_refl.
Qed.

(** ** Leaf runners whose hooks complete exactly once *)

(** What one call of a hook comes to: the external hook that runs (none
    for a plugin without the method), when it completes, and its outcome. *)
Definition spec : Type := option hook * timing * outcome.

Definition hook_trace (sp : spec) : list event :=
  match sp with
  | (Some h, _, e) => [Invoke h; Complete h e]
  | (None, _, _) => []
  end.

Definition leaf_start (ps : list plugin) (r : nat) (b : body) : option spec :=
  match b with
  | Custom [(tm, e)] _ => Some (Some (RStart r), tm, e)
  | Decorated nut =>
      match ps !! nut with
      | Some p =>
          match p_start p with
          | Some [(tm, e)] => Some (Some (PStart nut), tm, e)
          | Some _ => None
          | None => Some (None, NextTick, None)
          end
      | None => None
      end
  | _ => None
  end.

Definition leaf_stop (ps : list plugin) (r : nat) (b : body) : option spec :=
  match b with
  | Custom _ [(tm, e)] => Some (Some (RStop r), tm, e)
  | Decorated nut =>
      match ps !! nut with
      | Some p =>
          match p_stop p with
          | Some [(tm, e)] => Some (Some (PStop nut), tm, e)
          | Some _ => None
          | None => Some (None, NextTick, None)
          end
      | None => None
      end
  | _ => None
  end.

Lemma leaf_start_leaf ps r b sp : leaf_start ps r b = Some sp → leaf ps b.
Proof.
  destruct b as [b1 b2|nut| |]; simpl; try done.
  destruct (ps !! nut); [eauto|done].
Qed.

Lemma leaf_stop_leaf ps r b sp : leaf_stop ps r b = Some sp → leaf ps b.
Proof.
  destruct b as [b1 b2|nut| |]; simpl; try done.
  destruct (ps !! nut); [eauto|done].
Qed.

Lemma insert_as_alter (g : runner → runner) (r : nat) (x : runner) (rs : list runner) :
  rs !! r = Some x → <[r := g x]> rs = alter g r rs.
Proof.
  intros H. apply list_eq. intros i. destruct (decide (i = r)) as [->|Hne].
  - rewrite list_lookup_insert_eq by by eapply lookup_lt_Some.
    by rewrite list_lookup_alter_eq, H.
  - by rewrite list_lookup_insert_ne, list_lookup_alter_ne.
Qed.

(** The hook of a leaf, from the call to the callback. *)
Lemma run_hook_start (r : nat) (x : runner) (sp : spec) (k : cont)
    (junk : list frame) (s : store) :
  runners s !! r = Some x →
  leaf_start (plugins s) r (r_body x) = Some sp →
  ticks s = [] → immediates s = [] →
  idle s junk →
  ∃ u junk',
    steps (running s (FHookStart r k :: junk))
          (running (upd s (runners s) (cells s) [] []
                      (trace s ++ hook_trace sp) u) (FCall k sp.2 :: junk')) ∧
    idle s junk'.
Proof.
  intros Hx Hsp Ht Hi Hj.
  destruct (r_body x) as [b1 b2|nut| |] eqn:Hb; simpl in Hsp; try done.
  - destruct b1 as [|[tm e] [|]]; try done. inversion Hsp; subst sp; clear Hsp.
    destruct (deliver (RStart r) k tm e junk (log (Invoke (RStart r)) s) Ht Hi Hj)
      as (u & junk' & Hs & Hj').
    exists u, junk'. split; [|exact Hj'].
    eapply steps_exec; [simpl; unfold hook_start; by rewrite Hx, Hb|].
    simpl in *. rewrite <- app_assoc in Hs. exact Hs.
  - destruct (plugins s !! nut) as [p|] eqn:Hp; [|done].
    destruct (p_start p) as [[|[tm e] [|]]|] eqn:Hps; try done;
      inversion Hsp; subst sp; clear Hsp.
    + destruct (deliver (PStart nut) k tm e junk (log (Invoke (PStart nut)) s)
                  Ht Hi Hj) as (u & junk' & Hs & Hj').
      exists u, junk'. split; [|exact Hj'].
      eapply steps_exec;
        [simpl; unfold hook_start, DecoratedRunner._start;
         by rewrite Hx, Hb, Hp, Hps|].
      simpl in *. rewrite <- app_assoc in Hs. exact Hs.
    + destruct (run_to_tick (FCall k None) junk s Ht Hj) as [u Hs].
      exists u, []. split; [|done].
      eapply steps_exec;
        [simpl; unfold hook_start, DecoratedRunner._start;
         by rewrite Hx, Hb, Hp, Hps|].
      simpl. rewrite app_nil_r. rewrite Hi in Hs. exact Hs.
Qed.

Lemma run_hook_stop (r : nat) (x : runner) (sp : spec) (k : cont)
    (junk : list frame) (s : store) :
  runners s !! r = Some x →
  leaf_stop (plugins s) r (r_body x) = Some sp →
  ticks s = [] → immediates s = [] →
  idle s junk →
  ∃ u junk',
    steps (running s (FHookStop r k :: junk))
          (running (upd s (runners s) (cells s) [] []
                      (trace s ++ hook_trace sp) u) (FCall k sp.2 :: junk')) ∧
    idle s junk'.
Proof.
  intros Hx Hsp Ht Hi Hj.
  destruct (r_body x) as [b1 b2|nut| |] eqn:Hb; simpl in Hsp; try done.
  - destruct b2 as [|[tm e] [|]]; try done. inversion Hsp; subst sp; clear Hsp.
    destruct (deliver (RStop r) k tm e junk (log (Invoke (RStop r)) s) Ht Hi Hj)
      as (u & junk' & Hs & Hj').
    exists u, junk'. split; [|exact Hj'].
    eapply steps_exec; [simpl; unfold hook_stop; by rewrite Hx, Hb|].
    simpl in *. rewrite <- app_assoc in Hs. exact Hs.
  - destruct (plugins s !! nut) as [p|] eqn:Hp; [|done].
    destruct (p_stop p) as [[|[tm e] [|]]|] eqn:Hps; try done;
      inversion Hsp; subst sp; clear Hsp.
    + destruct (deliver (PStop nut) k tm e junk (log (Invoke (PStop nut)) s)
                  Ht Hi Hj) as (u & junk' & Hs & Hj').
      exists u, junk'. split; [|exact Hj'].
      eapply steps_exec;
        [simpl; unfold hook_stop, DecoratedRunner._stop;
         by rewrite Hx, Hb, Hp, Hps|].
      simpl in *. rewrite <- app_assoc in Hs. exact Hs.
    + destruct (run_to_tick (FCall k None) junk s Ht Hj) as [u Hs].
      exists u, []. split; [|done].
      eapply steps_exec;
        [simpl; unfold hook_stop, DecoratedRunner._stop;
         by rewrite Hx, Hb, Hp, Hps|].
      simpl. rewrite app_nil_r. rewrite Hi in Hs. exact Hs.
Qed.

Lemma bodies_insert (r : nat) (x y : runner) (rs : list runner) :
  rs !! r = Some x → r_body y = r_body x →
  r_body <$> <[r := y]> rs = r_body <$> rs.
Proof.
  intros H Hb. rewrite list_fmap_insert. apply list_insert_id.
  rewrite list_lookup_fmap, H. simpl. by rewrite Hb.
Qed.

Lemma steps_eq M M' : M = M' → steps M M'.
Proof. intros ->. apply steps_refl. Qed.

(** [start] on a Stopped leaf, from the call to the caller's callback. *)
Lemma child_start (r : nat) (x : runner) (sp : spec) (a1 : arg1)
    (a2 : option cont) (opts : option run_options) (k : cont)
    (junk : list frame) (s : store) :
  (∀ s, AbstractRunner.arguments a1 a2 s = (opts, k, s)) →
  runners s !! r = Some x →
  r_status x = Stopped →
  r_once_start x = [] →
  leaf_start (plugins s) r (r_body x) = Some sp →
  ticks s = [] → immediates s = [] →
  idle s junk →
  ∃ u junk',
    steps (running s (FStart r a1 a2 :: junk))
          (running
             (upd s (alter (with_status
                              (if sp.2 is Some _ then Stopped else Started))
                           r (runners s))
                  (cells s) [] [] (trace s ++ hook_trace sp) u)
             (FCall k sp.2 :: junk')) ∧
    idle s junk'.
Proof.
  intros Hargs Hx Hst Hos Hsp Ht Hi Hj.
  set (x1 := with_status Starting x).
  set (s1 := set_runner r x1 s).
  assert (Hb1 : r_body <$> runners s1 = r_body <$> runners s)
    by by apply (bodies_insert r x).
  assert (Hx1 : runners s1 !! r = Some x1) by by eapply lookup_set_runner_eq.
  destruct (run_hook_start r x1 sp (KStartDone r k) junk s1 Hx1 Hsp Ht Hi)
    as (u & junk' & Hs & Hj').
  { rewrite Hb1. exact Hj. }
  exists u, junk'. split; [|by rewrite Hb1 in Hj'].
  eapply steps_exec.
  { simpl. unfold AbstractRunner.start. rewrite Hargs, Hx.
    unfold AbstractRunner.start_default. rewrite Hst.
    destruct opts as [[[]]|]; reflexivity. }
  simpl. eapply steps_trans; [exact Hs|].
  eapply steps_exec.
  { simpl. unfold AbstractRunner.start_done. simpl. simpl in Hx1.
    rewrite Hx1. reflexivity. }
  apply steps_eq. simpl. rewrite Hos. simpl.
  unfold running, set_runner, set_runners, upd. simpl.
  rewrite list_insert_insert_eq, <- (insert_as_alter _ r x) by done.
  do 3 f_equal. destruct x; simpl in *; by subst.
Qed.

(** [stop] on a Started leaf, from the call to the caller's callback. *)
Lemma child_stop (r : nat) (x : runner) (sp : spec) (a1 : arg1)
    (a2 : option cont) (opts : option run_options) (k : cont)
    (junk : list frame) (s : store) :
  (∀ s, AbstractRunner.arguments a1 a2 s = (opts, k, s)) →
  runners s !! r = Some x →
  r_status x = Started →
  r_once_stop x = [] →
  leaf_stop (plugins s) r (r_body x) = Some sp →
  ticks s = [] → immediates s = [] →
  idle s junk →
  ∃ u junk',
    steps (running s (FStop r a1 a2 :: junk))
          (running
             (upd s (alter (with_status Stopped) r (runners s))
                  (cells s) [] [] (trace s ++ hook_trace sp) u)
             (FCall k sp.2 :: junk')) ∧
    idle s junk'.
Proof.
  intros Hargs Hx Hst Hos Hsp Ht Hi Hj.
  set (x1 := with_status Stopping x).
  set (s1 := set_runner r x1 s).
  assert (Hb1 : r_body <$> runners s1 = r_body <$> runners s)
    by by apply (bodies_insert r x).
  assert (Hx1 : runners s1 !! r = Some x1) by by eapply lookup_set_runner_eq.
  destruct (run_hook_stop r x1 sp (KStopDone r k) junk s1 Hx1 Hsp Ht Hi)
    as (u & junk' & Hs & Hj').
  { rewrite Hb1. exact Hj. }
  exists u, junk'. split; [|by rewrite Hb1 in Hj'].
  eapply steps_exec.
  { simpl. unfold AbstractRunner.stop. rewrite Hargs, Hx.
    unfold AbstractRunner.stop_default. rewrite Hst.
    destruct opts as [[[]]|]; reflexivity. }
  simpl. eapply steps_trans; [exact Hs|].
  eapply steps_exec.
  { simpl. unfold AbstractRunner.stop_done. simpl. simpl in Hx1.
    rewrite Hx1. reflexivity. }
  apply steps_eq. simpl. rewrite Hos. simpl.
  unfold running, set_runner, set_runners, upd. simpl.
  rewrite list_insert_insert_eq, <- (insert_as_alter _ r x) by done.
  do 3 f_equal. destruct x; simpl in *; by subst.
Qed.

(** A graceful [stop] on a Stopped runner: the callback, one tick later. *)
Lemma child_stop_noop (r : nat) (x : runner) (a1 : arg1) (a2 : option cont)
    (o : run_options) (k : cont) (junk : list frame) (s : store) :
  (∀ s, AbstractRunner.arguments a1 a2 s = (Some o, k, s)) →
  grace o = true →
  runners s !! r = Some x →
  r_status x = Stopped →
  ticks s = [] → immediates s = [] →
  idle s junk →
  ∃ u,
    steps (running s (FStop r a1 a2 :: junk))
          (running (upd s (runners s) (cells s) [] [] (trace s) u) [FCall k None]).
Proof.
  intros Hargs Hg Hx Hst Ht Hi Hj.
  destruct (run_to_tick (FCall k None) junk s Ht Hj) as [u Hs].
  exists u.
  eapply steps_exec.
  { simpl. unfold AbstractRunner.stop. rewrite Hargs, Hx, Hg, Hst. reflexivity. }
  simpl. rewrite Hi in Hs. exact Hs.
Qed.

(** ** Graceful calls *)

(** The queues after an external hook has deferred its completion [f]. *)
Definition queue_of (tm : timing) (f : frame) : list frame * list frame :=
  match tm with
  | Sync => ([], [])
  | NextTick => ([f], [])
  | Immediate => ([], [f])
  end.

(** The deferred completion of a hook: the external code calling back,
    or the [process.nextTick(callback)] of a decorated runner whose plugin
    has no such method. *)
Definition in_flight (sp : spec) (k : cont) : frame :=
  match sp.1.1 with
  | Some h => FExternal h k sp.2
  | None => FCall k sp.2
  end.

Definition invoked (sp : spec) : list event :=
  match sp.1.1 with
  | Some h => [Invoke h]
  | None => []
  end.

Definition completed (sp : spec) : list event :=
  match sp.1.1 with
  | Some h => [Complete h sp.2]
  | None => []
  end.

Lemma hook_trace_split (sp : spec) : hook_trace sp = invoked sp ++ completed sp.
Proof. by destruct sp as [[[h|] tm] e]. Qed.

Lemma set_trace_id s : set_trace (trace s ++ []) s = s.
Proof. rewrite app_nil_r. by destruct s. Qed.

Ltac pending_eq Ht Hi :=
  unfold running, upd, next_tick, set_immediate, set_ticks, set_immediates,
    set_trace, log, in_flight, invoked, queue_of;
  simpl; rewrite ?Ht, ?Hi, ?app_nil_r; reflexivity.

(** The hook of a leaf that defers its completion, up to its return. *)
Lemma hook_start_pending (r : nat) (x : runner) (sp : spec) (k : cont)
    (rest : list frame) (s : store) :
  runners s !! r = Some x →
  leaf_start (plugins s) r (r_body x) = Some sp →
  sp.1.2 ≠ Sync →
  ticks s = [] → immediates s = [] →
  steps (running s (FHookStart r k :: rest))
        (running (upd s (runners s) (cells s)
                    (queue_of sp.1.2 (in_flight sp k)).1
                    (queue_of sp.1.2 (in_flight sp k)).2
                    (trace s ++ invoked sp) (unrefd s)) rest).
Proof.
  intros Hx Hsp Hasync Ht Hi.
  destruct (r_body x) as [b1 b2|nut| |] eqn:Hb; simpl in Hsp; try done.
  - destruct b1 as [|[tm e] [|]]; try done. inversion Hsp; subst sp; clear Hsp.
    eapply steps_exec; [simpl; unfold hook_start; by rewrite Hx, Hb|].
    destruct tm; [done| |].
    all: eapply steps_exec; [reflexivity|]; eapply steps_exec; [reflexivity|].
    all: apply steps_eq; pending_eq Ht Hi.
  - destruct (plugins s !! nut) as [p|] eqn:Hp; [|done].
    destruct (p_start p) as [[|[tm e] [|]]|] eqn:Hps; try done;
      inversion Hsp; subst sp; clear Hsp.
    + eapply steps_exec;
        [simpl; unfold hook_start, DecoratedRunner._start;
         by rewrite Hx, Hb, Hp, Hps|].
      destruct tm; [done| |].
      all: eapply steps_exec; [reflexivity|]; eapply steps_exec; [reflexivity|].
      all: apply steps_eq; pending_eq Ht Hi.
    + eapply steps_exec;
        [simpl; unfold hook_start, DecoratedRunner._start;
         by rewrite Hx, Hb, Hp, Hps|].
      apply steps_eq. pending_eq Ht Hi.
Qed.

Lemma hook_stop_pending (r : nat) (x : runner) (sp : spec) (k : cont)
    (rest : list frame) (s : store) :
  runners s !! r = Some x →
  leaf_stop (plugins s) r (r_body x) = Some sp →
  sp.1.2 ≠ Sync →
  ticks s = [] → immediates s = [] →
  steps (running s (FHookStop r k :: rest))
        (running (upd s (runners s) (cells s)
                    (queue_of sp.1.2 (in_flight sp k)).1
                    (queue_of sp.1.2 (in_flight sp k)).2
                    (trace s ++ invoked sp) (unrefd s)) rest).
Proof.
  intros Hx Hsp Hasync Ht Hi.
  destruct (r_body x) as [b1 b2|nut| |] eqn:Hb; simpl in Hsp; try done.
  - destruct b2 as [|[tm e] [|]]; try done. inversion Hsp; subst sp; clear Hsp.
    eapply steps_exec; [simpl; unfold hook_stop; by rewrite Hx, Hb|].
    destruct tm; [done| |].
    all: eapply steps_exec; [reflexivity|]; eapply steps_exec; [reflexivity|].
    all: apply steps_eq; pending_eq Ht Hi.
  - destruct (plugins s !! nut) as [p|] eqn:Hp; [|done].
    destruct (p_stop p) as [[|[tm e] [|]]|] eqn:Hps; try done;
      inversion Hsp; subst sp; clear Hsp.
    + eapply steps_exec;
        [simpl; unfold hook_stop, DecoratedRunner._stop;
         by rewrite Hx, Hb, Hp, Hps|].
      destruct tm; [done| |].
      all: eapply steps_exec; [reflexivity|]; eapply steps_exec; [reflexivity|].
      all: apply steps_eq; pending_eq Ht Hi.
    + eapply steps_exec;
        [simpl; unfold hook_stop, DecoratedRunner._stop;
         by rewrite Hx, Hb, Hp, Hps|].
      apply steps_eq. pending_eq Ht Hi.
Qed.

(** With the stack unwound, the deferred completion is the next turn. *)
Lemma take_pending (tm : timing) (f : frame) (s : store) (rs : list runner)
    (cs : list cell) (tr : list event) (u : list nat) :
  tm ≠ Sync →
  steps (running (upd s rs cs (queue_of tm f).1 (queue_of tm f).2 tr u) [])
        (running (upd s rs cs [] [] tr u) [f]).
Proof.
  intros Htm. destruct tm; [done| |].
  - eapply steps_tick; [reflexivity|]. apply steps_refl.
  - eapply steps_immediate; [reflexivity|reflexivity|]. apply steps_refl.
Qed.

Lemma complete_in_flight (sp : spec) (k : cont) (rest : list frame) (s : store) :
  steps (running s (in_flight sp k :: rest))
        (running (set_trace (trace s ++ completed sp) s) (FCall k sp.2 :: rest)).
Proof.
  destruct sp as [[[h|] tm] e]; unfold in_flight, completed; simpl.
  - eapply steps_exec; [reflexivity|]. apply steps_refl.
  - rewrite set_trace_id. apply steps_refl.
Qed.

(** A default [start] on a Stopped leaf whose hook defers its completion,
    followed in the same turn by a call [g] that, finding the runner
    Starting, only adds the listener [L]: [g] is reached with the start in
    flight ([M0]); then the hook completes, the state changes, the
    listener queues its call and the callback of the first call runs. *)
Lemma start_then (r : nat) (x : runner) (sp : spec) (k0 : nat) (g : frame)
    (L : cont) (s : store) :
  runners s !! r = Some x → r_status x = Stopped → r_once_start x = [] →
  leaf_start (plugins s) r (r_body x) = Some sp → sp.1.2 ≠ Sync →
  ticks s = [] → immediates s = [] →
  listener L →
  (∀ s0 y, runners s0 !! r = Some y → r_status y = Starting →
           exec g s0
           = Ok [] (set_runner r (with_once_start (r_once_start y ++ [L]) y) s0)) →
  ∃ M0,
    steps (running s [FStart r (AFun (KUser k0)) None; g]) M0 ∧
    stack M0 = [g] ∧ thrown M0 = None ∧
    AbstractRunner.get_status r (store_of M0) = Some Starting ∧
    trace (store_of M0) = trace s ++ invoked sp ∧
    steps M0
      (running
         (upd s (<[r := with_status (if sp.2 is Some _ then Stopped else Started) x]>
                   (runners s))
            (cells s) (queued sp.2 L) []
            (trace s ++ hook_trace sp ++ [Called k0 sp.2]) (unrefd s)) []).
Proof.
  intros Hx Hst Hos Hsp Hasync Ht Hi HL Hg.
  assert (Hlt : r < length (runners s)) by by eapply lookup_lt_Some.
  set (K := KStartDone r (KUser k0)).
  set (x1 := with_status Starting x).
  set (s1 := set_runner r x1 s).
  assert (Hx1 : runners s1 !! r = Some x1) by (simpl; by apply list_lookup_insert_eq).
  set (q := queue_of sp.1.2 (in_flight sp K)).
  set (sA := upd s1 (runners s1) (cells s1) q.1 q.2 (trace s1 ++ invoked sp)
               (unrefd s1)).
  exists (running sA [g]).
  split.
  { eapply steps_exec.
    { simpl. unfold AbstractRunner.start. simpl. rewrite Hx.
      unfold AbstractRunner.start_default. rewrite Hst. reflexivity. }
    simpl. by apply (hook_start_pending r x1 sp K [g] s1). }
  split; [done|]. split; [done|]. split.
  { unfold AbstractRunner.get_status. simpl. by rewrite list_lookup_insert_eq. }
  split; [done|].
  set (x2 := with_once_start [L] x1).
  eapply steps_exec.
  { rewrite (Hg sA x1); [|exact Hx1|done]. unfold x1 at 2. simpl. rewrite Hos.
    reflexivity. }
  simpl. fold x2.
  eapply steps_trans.
  { apply steps_eq with
      (M' := running (upd s (<[r := x2]> (runners s)) (cells s) q.1 q.2
                        (trace s ++ invoked sp) (unrefd s)) []).
    unfold running, sA, upd, set_runner, set_runners. simpl.
    by rewrite list_insert_insert_eq. }
  eapply steps_trans; [by apply take_pending|].
  eapply steps_trans; [apply complete_in_flight|].
  eapply steps_trans.
  { apply (start_completion r x2 (KUser k0) sp.2 _ []).
    - simpl. by apply list_lookup_insert_eq.
    - simpl. by constructor. }
  eapply steps_exec; [reflexivity|].
  apply steps_eq. unfold running, upd, set_runner, set_runners, set_ticks, log,
    set_trace. simpl. rewrite app_nil_r, list_insert_insert_eq.
  rewrite hook_trace_split, <- !app_assoc.
  do 3 f_equal. unfold x2, x1, with_once_start, with_status. simpl.
  destruct x; simpl in *; by subst.
Qed.

(** The mirror image: a default [stop] on a Started leaf, followed in the
    same turn by a call that finds the runner Stopping. *)
Lemma stop_then (r : nat) (x : runner) (sp : spec) (k0 : nat) (g : frame)
    (L : cont) (s : store) :
  runners s !! r = Some x → r_status x = Started → r_once_stop x = [] →
  leaf_stop (plugins s) r (r_body x) = Some sp → sp.1.2 ≠ Sync →
  ticks s = [] → immediates s = [] →
  listener L →
  (∀ s0 y, runners s0 !! r = Some y → r_status y = Stopping →
           exec g s0
           = Ok [] (set_runner r (with_once_stop (r_once_stop y ++ [L]) y) s0)) →
  ∃ M0,
    steps (running s [FStop r (AFun (KUser k0)) None; g]) M0 ∧
    stack M0 = [g] ∧ thrown M0 = None ∧
    AbstractRunner.get_status r (store_of M0) = Some Stopping ∧
    trace (store_of M0) = trace s ++ invoked sp ∧
    steps M0
      (running
         (upd s (<[r := with_status Stopped x]> (runners s))
            (cells s) (queued sp.2 L) []
            (trace s ++ hook_trace sp ++ [Called k0 sp.2]) (unrefd s)) []).
Proof.
  intros Hx Hst Hos Hsp Hasync Ht Hi HL Hg.
  assert (Hlt : r < length (runners s)) by by eapply lookup_lt_Some.
  set (K := KStopDone r (KUser k0)).
  set (x1 := with_status Stopping x).
  set (s1 := set_runner r x1 s).
  assert (Hx1 : runners s1 !! r = Some x1) by (simpl; by apply list_lookup_insert_eq).
  set (q := queue_of sp.1.2 (in_flight sp K)).
  set (sA := upd s1 (runners s1) (cells s1) q.1 q.2 (trace s1 ++ invoked sp)
               (unrefd s1)).
  exists (running sA [g]).
  split.
  { eapply steps_exec.
    { simpl. unfold AbstractRunner.stop. simpl. rewrite Hx.
      unfold AbstractRunner.stop_default. rewrite Hst. reflexivity. }
    simpl. by apply (hook_stop_pending r x1 sp K [g] s1). }
  split; [done|]. split; [done|]. split.
  { unfold AbstractRunner.get_status. simpl. by rewrite list_lookup_insert_eq. }
  split; [done|].
  set (x2 := with_once_stop [L] x1).
  eapply steps_exec.
  { rewrite (Hg sA x1); [|exact Hx1|done]. unfold x1 at 2. simpl. rewrite Hos.
    reflexivity. }
  simpl. fold x2.
  eapply steps_trans.
  { apply steps_eq with
      (M' := running (upd s (<[r := x2]> (runners s)) (cells s) q.1 q.2
                        (trace s ++ invoked sp) (unrefd s)) []).
    unfold running, sA, upd, set_runner, set_runners. simpl.
    by rewrite list_insert_insert_eq. }
  eapply steps_trans; [by apply take_pending|].
  eapply steps_trans; [apply complete_in_flight|].
  eapply steps_trans.
  { apply (stop_completion r x2 (KUser k0) sp.2 _ []).
    - simpl. by apply list_lookup_insert_eq.
    - simpl. by constructor. }
  eapply steps_exec; [reflexivity|].
  apply steps_eq. unfold running, upd, set_runner, set_runners, set_ticks, log,
    set_trace. simpl. rewrite app_nil_r, list_insert_insert_eq.
  rewrite hook_trace_split, <- !app_assoc.
  do 3 f_equal. unfold x2, x1, with_once_stop, with_status. simpl.
  destruct x; simpl in *; by subst.
Qed.

(** A call queued for the next tick, on a leaf at rest: a callback, a
    [start] that finds the runner Stopped, a [stop] that finds it Started,
    and a graceful [stop] that finds it Stopped. *)
Lemma queued_callback (k : nat) (e : outcome) (s : store) :
  ticks s = [FCall (KUser k) e] → immediates s = [] →
  ∃ M, steps (running s []) M ∧ quiet M ∧
       trace (store_of M) = trace s ++ [Called k e] ∧
       runners (store_of M) = runners s.
Proof.
  intros Ht Hi. eexists. split.
  { eapply steps_tick; [exact Ht|].
    eapply steps_exec; [reflexivity|]. apply steps_refl. }
  by repeat split.
Qed.

Lemma queued_start (r : nat) (y : runner) (sp : spec) (o : run_options)
    (k : nat) (s : store) :
  runners s !! r = Some y → r_status y = Stopped → r_once_start y = [] →
  leaf_start (plugins s) r (r_body y) = Some sp →
  ticks s = [FStart r (AOpts (Some o)) (Some (KUser k))] → immediates s = [] →
  ∃ M, steps (running s []) M ∧ quiet M ∧
       trace (store_of M) = trace s ++ hook_trace sp ++ [Called k sp.2] ∧
       AbstractRunner.get_status r (store_of M)
       = Some (if sp.2 is Some _ then Stopped else Started).
Proof.
  intros Hy Hst Hos Hsp Ht Hi.
  destruct (child_start r y sp (AOpts (Some o)) (Some (KUser k)) (Some o)
              (KUser k) [] (set_ticks [] s)) as (u & junk & Hs & Hj); try done.
  set (st := if sp.2 is Some _ then Stopped else Started) in *.
  set (s2 := upd (set_ticks [] s) (alter (with_status st) r (runners (set_ticks [] s)))
               (cells (set_ticks [] s)) [] []
               (trace (set_ticks [] s) ++ hook_trace sp) u) in *.
  assert (Hj2 : idle (log (Called k sp.2) s2) junk).
  { simpl. rewrite bodies_alter by done. exact Hj. }
  destruct (run_idle junk _ [] Hj2) as [u' Hu]. rewrite app_nil_r in Hu.
  eexists. split; [|split; [|split]].
  - eapply steps_tick; [exact Ht|].
    eapply steps_trans; [exact Hs|].
    eapply steps_exec; [reflexivity|]. exact Hu.
  - by repeat split.
  - simpl. by rewrite <- app_assoc.
  - unfold AbstractRunner.get_status. simpl.
    by rewrite list_lookup_alter_eq, Hy.
Qed.

Lemma queued_stop (r : nat) (y : runner) (sp : spec) (o : run_options)
    (k : nat) (s : store) :
  runners s !! r = Some y → r_status y = Started → r_once_stop y = [] →
  leaf_stop (plugins s) r (r_body y) = Some sp →
  ticks s = [FStop r (AOpts (Some o)) (Some (KUser k))] → immediates s = [] →
  ∃ M, steps (running s []) M ∧ quiet M ∧
       trace (store_of M) = trace s ++ hook_trace sp ++ [Called k sp.2] ∧
       AbstractRunner.get_status r (store_of M) = Some Stopped.
Proof.
  intros Hy Hst Hos Hsp Ht Hi.
  destruct (child_stop r y sp (AOpts (Some o)) (Some (KUser k)) (Some o)
              (KUser k) [] (set_ticks [] s)) as (u & junk & Hs & Hj); try done.
  set (s2 := upd (set_ticks [] s)
               (alter (with_status Stopped) r (runners (set_ticks [] s)))
               (cells (set_ticks [] s)) [] []
               (trace (set_ticks [] s) ++ hook_trace sp) u) in *.
  assert (Hj2 : idle (log (Called k sp.2) s2) junk).
  { simpl. rewrite bodies_alter by done. exact Hj. }
  destruct (run_idle junk _ [] Hj2) as [u' Hu]. rewrite app_nil_r in Hu.
  eexists. split; [|split; [|split]].
  - eapply steps_tick; [exact Ht|].
    eapply steps_trans; [exact Hs|].
    eapply steps_exec; [reflexivity|]. exact Hu.
  - by repeat split.
  - simpl. by rewrite <- app_assoc.
  - unfold AbstractRunner.get_status. simpl.
    by rewrite list_lookup_alter_eq, Hy.
Qed.

Lemma queued_stop_noop (r : nat) (y : runner) (o : run_options) (k : nat)
    (s : store) :
  runners s !! r = Some y → r_status y = Stopped → grace o = true →
  ticks s = [FStop r (AOpts (Some o)) (Some (KUser k))] → immediates s = [] →
  ∃ M, steps (running s []) M ∧ quiet M ∧
       trace (store_of M) = trace s ++ [Called k None] ∧
       AbstractRunner.get_status r (store_of M) = Some Stopped.
Proof.
  intros Hy Hst Hg Ht Hi.
  destruct (child_stop_noop r y (AOpts (Some o)) (Some (KUser k)) o (KUser k) []
              (set_ticks [] s)) as [u Hs]; try done.
  eexists. split; [|split; [|split]].
  - eapply steps_tick; [exact Ht|].
    eapply steps_trans; [exact Hs|].
    eapply steps_exec; [reflexivity|]. apply steps_refl.
  - by repeat split.
  - done.
  - unfold AbstractRunner.get_status. simpl. rewrite Hy. simpl. by rewrite Hst.
Qed.

(** What a graceful call does when it finds a call in flight. *)
Lemma graceful_exec (r : nat) (o : run_options) (k : cont) (y : runner)
    (s0 : store) :
  grace o = true → runners s0 !! r = Some y →
  (r_status y = Starting →
   exec (FStart r (AOpts (Some o)) (Some k)) s0
   = Ok [] (set_runner r (with_once_start (r_once_start y ++ [KJoin k]) y) s0) ∧
   exec (FStop r (AOpts (Some o)) (Some k)) s0
   = Ok [] (set_runner r
              (with_once_start (r_once_start y ++ [KReissueStop r o k]) y) s0)) ∧
  (r_status y = Stopping →
   exec (FStop r (AOpts (Some o)) (Some k)) s0
   = Ok [] (set_runner r (with_once_stop (r_once_stop y ++ [KJoin k]) y) s0) ∧
   exec (FStart r (AOpts (Some o)) (Some k)) s0
   = Ok [] (set_runner r
              (with_once_stop (r_once_stop y ++ [KReissueStart r o k]) y) s0)).
Proof.
  intros Hg Hy. simpl. unfold AbstractRunner.start, AbstractRunner.stop. simpl.
  rewrite Hy, Hg. split; intros ->; by split.
Qed.

Lemma grace_never_throws (r : nat) (x : runner) (o : run_options)
    (a2 : option cont) (s : store) :
  runners s !! r = Some x → grace o = true →
  (∃ calls s', AbstractRunner.start r (AOpts (Some o)) a2 s = Ok calls s') ∧
  (∃ calls s', AbstractRunner.stop r (AOpts (Some o)) a2 s = Ok calls s').
Proof.
  intros Hx Hg.
  unfold AbstractRunner.start, AbstractRunner.stop,
    AbstractRunner.start_default, AbstractRunner.stop_default.
  destruct a2 as [k|]; simpl; rewrite Hx, Hg; split; destruct (r_status x); eauto.
Qed.

(** C4, as the code has it, for a runner whose hooks each complete once.
    With [grace], [start] and [stop] never throw, whatever the state.
    [start] on a Started runner only calls back, without an error and
    without a call of the hook. While a [stop] is in flight (the runner
    is Stopping, [M0]) a graceful [stop] joins it: the stop hook is not
    invoked again and both callbacks get its outcome; a graceful [start]
    waits for the stop to complete, whatever its outcome, and is then
    issued again on the Stopped runner, where it invokes the start hook
    once and passes its outcome on. [stop] on a Stopped runner only calls
    back. While a [start] is in flight (the runner is Starting) a graceful
    [start] joins it; a graceful [stop] waits for the start and is then
    issued again: if the start succeeded the runner is Started and the
    stop hook is invoked once; if the start failed the runner is Stopped
    again, and the stop issued again only calls back, without an error
    and without a call of the stop hook. *)
Theorem grace_calls (r : nat) (x : runner) (sp1 sp2 : spec) (o : run_options)
    (k0 k : nat) (s : store) :
  runners s !! r = Some x →
  r_once_start x = [] → r_once_stop x = [] →
  leaf_start (plugins s) r (r_body x) = Some sp1 →
  leaf_stop (plugins s) r (r_body x) = Some sp2 →
  grace o = true →
  ticks s = [] → immediates s = [] →
  let gstart := FStart r (AOpts (Some o)) (Some (KUser k)) in
  let gstop := FStop r (AOpts (Some o)) (Some (KUser k)) in
  (∀ a2,
     (∃ calls s', AbstractRunner.start r (AOpts (Some o)) a2 s = Ok calls s') ∧
     (∃ calls s', AbstractRunner.stop r (AOpts (Some o)) a2 s = Ok calls s')) ∧
  (r_status x = Started →
     (∃ M, steps (enter gstart s) M ∧ quiet M ∧
           trace (store_of M) = trace s ++ [Called k None] ∧
           AbstractRunner.get_status r (store_of M) = Some Started) ∧
     (sp2.1.2 ≠ Sync →
        (∃ M0 M,
           steps (running s [FStop r (AFun (KUser k0)) None; gstop]) M0 ∧
           stack M0 = [gstop] ∧
           AbstractRunner.get_status r (store_of M0) = Some Stopping ∧
           trace (store_of M0) = trace s ++ invoked sp2 ∧
           steps M0 M ∧ quiet M ∧
           trace (store_of M)
           = trace s ++ hook_trace sp2 ++ [Called k0 sp2.2; Called k sp2.2] ∧
           AbstractRunner.get_status r (store_of M) = Some Stopped) ∧
        (∃ M0 M,
           steps (running s [FStop r (AFun (KUser k0)) None; gstart]) M0 ∧
           stack M0 = [gstart] ∧
           AbstractRunner.get_status r (store_of M0) = Some Stopping ∧
           trace (store_of M0) = trace s ++ invoked sp2 ∧
           steps M0 M ∧ quiet M ∧
           trace (store_of M)
           = trace s ++ hook_trace sp2 ++ [Called k0 sp2.2]
               ++ hook_trace sp1 ++ [Called k sp1.2] ∧
           AbstractRunner.get_status r (store_of M)
           = Some (if sp1.2 is Some _ then Stopped else Started)))) ∧
  (r_status x = Stopped →
     (∃ M, steps (enter gstop s) M ∧ quiet M ∧
           trace (store_of M) = trace s ++ [Called k None] ∧
           AbstractRunner.get_status r (store_of M) = Some Stopped) ∧
     (sp1.1.2 ≠ Sync →
        (∃ M0 M,
           steps (running s [FStart r (AFun (KUser k0)) None; gstart]) M0 ∧
           stack M0 = [gstart] ∧
           AbstractRunner.get_status r (store_of M0) = Some Starting ∧
           trace (store_of M0) = trace s ++ invoked sp1 ∧
           steps M0 M ∧ quiet M ∧
           trace (store_of M)
           = trace s ++ hook_trace sp1 ++ [Called k0 sp1.2; Called k sp1.2] ∧
           AbstractRunner.get_status r (store_of M)
           = Some (if sp1.2 is Some _ then Stopped else Started)) ∧
        (∃ M0 M,
           steps (running s [FStart r (AFun (KUser k0)) None; gstop]) M0 ∧
           stack M0 = [gstop] ∧
           AbstractRunner.get_status r (store_of M0) = Some Starting ∧
           trace (store_of M0) = trace s ++ invoked sp1 ∧
           steps M0 M ∧ quiet M ∧
           trace (store_of M)
           = trace s ++ hook_trace sp1 ++ [Called k0 sp1.2]
               ++ (if sp1.2 is Some _ then [] else hook_trace sp2)
               ++ [Called k (if sp1.2 is Some _ then None else sp2.2)] ∧
           AbstractRunner.get_status r (store_of M) = Some Stopped))).
Proof.
  intros Hx Hos Hop Hsp1 Hsp2 Hg Ht Hi gstart gstop.
  assert (Hlt : r < length (runners s)) by by eapply lookup_lt_Some.
  split; [intros a2; by apply (grace_never_throws r x)|].
  split.
  - intros Hst. split.
    + destruct (queued_callback k None (next_tick (FCall (KUser k) None) s))
        as (M & Hs & Hq & Htr & Hr); [simpl; by rewrite Ht|done|].
      exists M. split; [|split; [done|split; [done|]]].
      * eapply steps_exec.
        { simpl. unfold AbstractRunner.start. simpl. by rewrite Hx, Hg, Hst. }
        exact Hs.
      * unfold AbstractRunner.get_status. rewrite Hr. simpl. rewrite Hx. simpl.
        by rewrite Hst.
    + intros Hasync. split.
      * destruct (stop_then r x sp2 k0 gstop (KJoin (KUser k)) s)
          as (M0 & H0 & Hk & _ & Hs0 & Htr0 & Hrun); try done.
        { intros s0 y Hy Hsy.
          destruct (graceful_exec r o (KUser k) y s0 Hg Hy) as [_ H].
          exact (proj1 (H Hsy)). }
        match type of Hrun with steps _ (running ?S _) =>
          destruct (queued_callback k sp2.2 S) as (M & Hs & Hq & Htr & Hr)
        end; [done..|].
        exists M0, M. repeat (split; [done|]).
        split; [by eapply steps_trans|]. split; [done|]. split.
        -- rewrite Htr. simpl. by rewrite <- !app_assoc.
        -- unfold AbstractRunner.get_status. rewrite Hr. simpl.
           by rewrite list_lookup_insert_eq.
      * destruct (stop_then r x sp2 k0 gstart (KReissueStart r o (KUser k)) s)
          as (M0 & H0 & Hk & _ & Hs0 & Htr0 & Hrun); try done.
        { intros s0 y Hy Hsy.
          destruct (graceful_exec r o (KUser k) y s0 Hg Hy) as [_ H].
          exact (proj2 (H Hsy)). }
        match type of Hrun with steps _ (running ?S _) =>
          destruct (queued_start r (with_status Stopped x) sp1 o k S)
            as (M & Hs & Hq & Htr & Hfin)
        end; try done.
        { simpl. by apply list_lookup_insert_eq. }
        exists M0, M. repeat (split; [done|]).
        split; [by eapply steps_trans|]. split; [done|]. split; [|done].
        rewrite Htr. simpl. by rewrite <- !app_assoc.
  - intros Hst. split.
    + destruct (queued_callback k None (next_tick (FCall (KUser k) None) s))
        as (M & Hs & Hq & Htr & Hr); [simpl; by rewrite Ht|done|].
      exists M. split; [|split; [done|split; [done|]]].
      * eapply steps_exec.
        { simpl. unfold AbstractRunner.stop. simpl. by rewrite Hx, Hg, Hst. }
        exact Hs.
      * unfold AbstractRunner.get_status. rewrite Hr. simpl. rewrite Hx. simpl.
        by rewrite Hst.
    + intros Hasync. split.
      * destruct (start_then r x sp1 k0 gstart (KJoin (KUser k)) s)
          as (M0 & H0 & Hk & _ & Hs0 & Htr0 & Hrun); try done.
        { intros s0 y Hy Hsy.
          destruct (graceful_exec r o (KUser k) y s0 Hg Hy) as [H _].
          exact (proj1 (H Hsy)). }
        match type of Hrun with steps _ (running ?S _) =>
          destruct (queued_callback k sp1.2 S) as (M & Hs & Hq & Htr & Hr)
        end; [done..|].
        exists M0, M. repeat (split; [done|]).
        split; [by eapply steps_trans|]. split; [done|]. split.
        -- rewrite Htr. simpl. by rewrite <- !app_assoc.
        -- unfold AbstractRunner.get_status. rewrite Hr. simpl.
           by rewrite list_lookup_insert_eq.
      * destruct (start_then r x sp1 k0 gstop (KReissueStop r o (KUser k)) s)
          as (M0 & H0 & Hk & _ & Hs0 & Htr0 & Hrun); try done.
        { intros s0 y Hy Hsy.
          destruct (graceful_exec r o (KUser k) y s0 Hg Hy) as [H _].
          exact (proj2 (H Hsy)). }
        destruct sp1 as [[h1 tm1] [e1|]]; simpl in Hrun |- *.
        -- match type of Hrun with steps _ (running ?S _) =>
             destruct (queued_stop_noop r (with_status Stopped x) o k S)
               as (M & Hs & Hq & Htr & Hfin)
           end; try done.
           { simpl. by apply list_lookup_insert_eq. }
           exists M0, M. repeat (split; [done|]).
           split; [by eapply steps_trans|]. split; [done|]. split; [|done].
           rewrite Htr. simpl. by rewrite <- !app_assoc.
        -- match type of Hrun with steps _ (running ?S _) =>
             destruct (queued_stop r (with_status Started x) sp2 o k S)
               as (M & Hs & Hq & Htr & Hfin)
           end; try done.
           { simpl. by apply list_lookup_insert_eq. }
           exists M0, M. repeat (split; [done|]).
           split; [by eapply steps_trans|]. split; [done|]. split; [|done].
           rewrite Htr. simpl. by rewrite <- !app_assoc.
Qed.

(** Two runners of the test suite: runner 0 is Stopped and its start hook
    fails one turn later; runner 1 is Started and its stop hook fails on
    the next tick. *)
Definition grace_store : store :=
  set_runners
    [ {| r_status := Stopped; r_once_start := []; r_once_stop := [];
         r_body := Custom [(Immediate, Some (Plain "nope"))] [(NextTick, None)] |};
      {| r_status := Started; r_once_start := []; r_once_stop := [];
         r_body := Custom [(Immediate, None)] [(NextTick, Some (Plain "busy"))] |} ]
    empty_store.

Lemma grace_calls_witness :
  (∃ M0 M,
     steps (running grace_store
              [FStop 1 (AFun (KUser 1)) None;
               FStart 1 (AOpts (Some {| grace := true |})) (Some (KUser 2))]) M0 ∧
     stack M0 = [FStart 1 (AOpts (Some {| grace := true |})) (Some (KUser 2))] ∧
     AbstractRunner.get_status 1 (store_of M0) = Some Stopping ∧
     steps M0 M ∧ quiet M ∧
     trace (store_of M)
     = [Invoke (RStop 1); Complete (RStop 1) (Some (Plain "busy"));
        Called 1 (Some (Plain "busy"));
        Invoke (RStart 1); Complete (RStart 1) None; Called 2 None] ∧
     AbstractRunner.get_status 1 (store_of M) = Some Started) ∧
  (∃ M0 M,
     steps (running grace_store
              [FStart 0 (AFun (KUser 1)) None;
               FStop 0 (AOpts (Some {| grace := true |})) (Some (KUser 2))]) M0 ∧
     stack M0 = [FStop 0 (AOpts (Some {| grace := true |})) (Some (KUser 2))] ∧
     AbstractRunner.get_status 0 (store_of M0) = Some Starting ∧
     steps M0 M ∧ quiet M ∧
     trace (store_of M)
     = [Invoke (RStart 0); Complete (RStart 0) (Some (Plain "nope"));
        Called 1 (Some (Plain "nope")); Called 2 None] ∧
     AbstractRunner.get_status 0 (store_of M) = Some Stopped).
Proof.
  split.
  - destruct (grace_calls 1 _ (Some (RStart 1), Immediate, None)
                (Some (RStop 1), NextTick, Some (Plain "busy"))
                {| grace := true |} 1 2 grace_store
                eq_refl eq_refl eq_refl eq_refl eq_refl eq_refl eq_refl eq_refl)
      as (_ & H & _).
    destruct (H eq_refl) as (_ & H').
    destruct H' as (_ & M0 & M & H1 & H2 & H3 & _ & H5 & H6 & H7 & H8); [done|].
    exists M0, M. repeat (split; [assumption|]). assumption.
  - destruct (grace_calls 0 _ (Some (RStart 0), Immediate, Some (Plain "nope"))
                (Some (RStop 0), NextTick, None)
                {| grace := true |} 1 2 grace_store
                eq_refl eq_refl eq_refl eq_refl eq_refl eq_refl eq_refl eq_refl)
      as (_ & _ & H).
    destruct (H eq_refl) as (_ & H').
    destruct H' as (_ & M0 & M & H1 & H2 & H3 & _ & H5 & H6 & H7 & H8); [done|].
    exists M0, M. repeat (split; [assumption|]). assumption.
Defined.

(** C4, as the spec words it, fails for a graceful [stop] that finds a
    [start] in flight when that start fails: the stop is issued again on
    a runner that is Stopped, and the stop hook is never invoked. *)
Lemma failed_start_skips_deferred_stop :
  let gstop := FStop 0 (AOpts (Some {| grace := true |})) (Some (KUser 2)) in
  ∃ M0 M,
    steps (running grace_store [FStart 0 (AFun (KUser 1)) None; gstop]) M0 ∧
    stack M0 = [gstop] ∧
    AbstractRunner.get_status 0 (store_of M0) = Some Starting ∧
    steps M0 M ∧ quiet M ∧
    Called 2 None ∈ trace (store_of M) ∧
    Invoke (RStop 0) ∉ trace (store_of M).
Proof.
  intros gstop.
  set (M0 := run 4 (running grace_store [FStart 0 (AFun (KUser 1)) None; gstop])).
  exists M0, (run 20 M0).
  split; [apply run_steps|]. split; [by vm_compute|]. split; [by vm_compute|].
  split; [apply run_steps|]. split; [by vm_compute|].
  assert (Htr : trace (store_of (run 20 M0))
                = [Invoke (RStart 0); Complete (RStart 0) (Some (Plain "nope"));
                   Called 1 (Some (Plain "nope")); Called 2 None])
    by by vm_compute.
  rewrite Htr. split; [set_solver|].
  intros He. repeat (apply elem_of_cons in He as [He|He]; [discriminate He|]).
  by apply elem_of_nil in He.
Qed.

(** ** The loops of the composite runner *)

Definition set_status_all (st : status) (rs : list nat) (l : list runner)
  : list runner :=
  foldl (λ l r, alter (with_status st) r l) l rs.

Lemma set_status_all_cons st r rs l :
  set_status_all st (r :: rs) l = set_status_all st rs (alter (with_status st) r l).
Proof. done. Qed.

Lemma lookup_set_status_all_ne st rs l i :
  i ∉ rs → set_status_all st rs l !! i = l !! i.
Proof.
  revert l. induction rs as [|r rs IH]; intros l Hi; [done|].
  apply not_elem_of_cons in Hi as [Hne Hi].
  rewrite set_status_all_cons, IH by done.
  by rewrite list_lookup_alter_ne.
Qed.

Lemma lookup_set_status_all st rs l i :
  i ∈ rs → set_status_all st rs l !! i = with_status st <$> l !! i.
Proof.
  revert l. induction rs as [|r rs IH]; intros l Hi; [by apply elem_of_nil in Hi|].
  rewrite set_status_all_cons. destruct (decide (i ∈ rs)) as [Hin|Hnin].
  - rewrite IH by done.
    destruct (decide (r = i)) as [->|Hne].
    + rewrite list_lookup_alter_eq. by destruct (l !! i).
    + by rewrite list_lookup_alter_ne.
  - apply elem_of_cons in Hi as [->|Hi]; [|done].
    rewrite lookup_set_status_all_ne by done. by rewrite list_lookup_alter_eq.
Qed.

Lemma bodies_set_status_all st rs l :
  r_body <$> set_status_all st rs l = r_body <$> l.
Proof.
  revert l. induction rs as [|r rs IH]; intros l; [done|].
  rewrite set_status_all_cons, IH. by apply bodies_alter.
Qed.

Lemma get_multi_lookup m s x mu :
  runners s !! m = Some x → r_body x = Multi mu → MultiRunner.get m s = Some (x, mu).
Proof. intros H1 H2. unfold MultiRunner.get. by rewrite H1, H2. Qed.

Lemma get_multi_inv m s x mu :
  MultiRunner.get m s = Some (x, mu) → runners s !! m = Some x ∧ r_body x = Multi mu.
Proof.
  unfold MultiRunner.get. destruct (runners s !! m) as [y|]; [|done].
  destruct (r_body y) eqn:E; try done. by intros [= <- <-].
Qed.

(** A child about to be started by the loop. *)
Definition starts (s : store) (r : nat) (sp : spec) : Prop :=
  ∃ x, runners s !! r = Some x ∧ r_status x = Stopped ∧ r_once_start x = [] ∧
       leaf_start (plugins s) r (r_body x) = Some sp.

Definition succeeds (s : store) (c : nat * spec) : Prop :=
  starts s c.1 c.2 ∧ c.2.2 = None.

Definition filed (len pos : nat) (errs : list err) : cell :=
  {| c_length := len; c_pos := pos; c_errors := errs |}.

Lemma upd_eq s rs rs' cs cs' tk tk' im im' tr tr' u :
  rs = rs' → cs = cs' → tk = tk' → im = im' → tr = tr' →
  upd s rs cs tk im tr u = upd s rs' cs' tk' im' tr' u.
Proof. by intros -> -> -> -> ->. Qed.

Lemma succeeds_frame (s s' : store) (r : nat) (g : runner → runner)
    (pre : list (nat * spec)) :
  runners s' = alter g r (runners s) →
  plugins s' = plugins s →
  r ∉ pre.*1 →
  Forall (succeeds s) pre → Forall (succeeds s') pre.
Proof.
  intros Hr Hp Hnin H. induction H as [|[r' sp'] pre Hc _ IH]; [done|].
  simpl in Hnin. apply not_elem_of_cons in Hnin as [Hne Hnin].
  constructor; [|by apply IH].
  destruct Hc as [(x & Hx & Hrest) Hok]. split; [|done].
  exists x. simpl in *. rewrite Hr, Hp, list_lookup_alter_ne by done. done.
Qed.

(** The loop of [_start] over children that all start: one after the
    other, each started only when the one before has completed. *)
Lemma start_loop_prefix (m c : nat) (k : cont) (xm : runner) (mu : multi)
    (pre : list (nat * spec)) :
  ∀ (s : store) (done post : list nat) (errs : list err) (junk : list frame),
  MultiRunner.get m s = Some (xm, mu) →
  m_startOrder mu = done ++ pre.*1 ++ post →
  cells s !! c = Some (filed (length (m_startOrder mu)) (length done) errs) →
  Forall (succeeds s) pre →
  NoDup pre.*1 → m ∉ pre.*1 →
  ticks s = [] → immediates s = [] → idle s junk →
  ∃ u junk',
    steps (running s (FCall (KStartLoop m c k) None :: junk))
          (running
             (upd s (set_status_all Started pre.*1 (runners s))
                (<[c := filed (length (m_startOrder mu))
                          (length done + length pre) errs]> (cells s))
                [] [] (trace s ++ (pre ≫= λ c, hook_trace c.2)) u)
             (FCall (KStartLoop m c k) None :: junk')) ∧
    idle s junk'.
Proof.
  induction pre as [|[r sp] pre IH];
    intros s done post errs junk Hm Ho Hc Hpre Hnd Hnm Ht Hi Hj.
  - exists (unrefd s), junk. split; [|done]. apply steps_eq.
    unfold running. f_equal. simpl.
    rewrite Nat.add_0_r, app_nil_r, list_insert_id by done.
    rewrite <- Ht at 1. rewrite <- Hi at 1. by rewrite upd_id.
  - apply Forall_cons in Hpre as [[(x & Hx & Hst & Hos & Hsp) Hok] Hpre].
    simpl in Hx, Hst, Hos, Hsp, Hok, Hnd, Hnm, Ho.
    apply NoDup_cons in Hnd as [Hrn Hnd].
    apply not_elem_of_cons in Hnm as [Hmr Hnm].
    apply get_multi_inv in Hm as Hm'. destruct Hm' as [Hxm Hbm].
    set (len := length (m_startOrder mu)) in *.
    assert (Hlk : m_startOrder mu !! length done = Some r).
    { rewrite Ho. by apply list_lookup_middle. }
    assert (Hlt : ¬ len ≤ length done).
    { unfold len. rewrite Ho, length_app. simpl. lia. }
    set (s1 := set_cell c (filed len (S (length done)) errs) s).
    assert (Hj1 : idle s1 (FUnrefIf m r :: junk)).
    { constructor; [|exact Hj]. simpl. split.
      - exists mu. by rewrite list_lookup_fmap, Hxm, <- Hbm.
      - exists (r_body x). rewrite list_lookup_fmap, Hx. split; [done|].
        by eapply leaf_start_leaf. }
    destruct (child_start r x sp (AFun (KStartLoop m c k)) None None
                (KStartLoop m c k) (FUnrefIf m r :: junk) s1
                (λ _, eq_refl) Hx Hst Hos Hsp Ht Hi Hj1)
      as (u1 & junk1 & Hs1 & Hj1').
    rewrite Hok in Hs1.
    set (s2 := upd s1 (alter (with_status Started) r (runners s1)) (cells s1)
                 [] [] (trace s1 ++ hook_trace sp) u1) in *.
    destruct (IH s2 (done ++ [r]) post errs junk1) as (u & junk' & Hs2 & Hj2).
    { apply get_multi_lookup with (x := xm); [|done].
      simpl. by rewrite list_lookup_alter_ne. }
    { rewrite Ho, <- app_assoc. done. }
    { simpl. rewrite list_lookup_insert_eq by by eapply lookup_lt_Some.
      by rewrite length_app, Nat.add_1_r. }
    { by eapply (succeeds_frame s s2 r). }
    { done. }
    { done. }
    { done. }
    { done. }
    { simpl. rewrite bodies_alter by done. exact Hj1'. }
    exists u, junk'. split.
    + eapply steps_exec.
      { simpl. unfold MultiRunner.start_loop. rewrite Hm, Hc. simpl.
        rewrite decide_False by exact Hlt. rewrite Hlk. reflexivity. }
      eapply steps_trans; [exact Hs1|].
      eapply steps_trans; [exact Hs2|].
      apply steps_eq. subst s2 s1. unfold running, upd. simpl. do 2 f_equal.
      * rewrite list_insert_insert_eq. do 2 f_equal.
        rewrite length_app. simpl. lia.
      * by rewrite <- app_assoc.
    + simpl in Hj2. by rewrite bodies_alter in Hj2.
Qed.

(** A child about to be stopped by a loop: Started, with a stop hook that
    completes once ([Some sp]), or Stopped and stopped gracefully
    ([None]). *)
Definition stops (opts : option run_options) (s : store)
    (c : nat * option spec) : Prop :=
  ∃ x, runners s !! c.1 = Some x ∧
    match c.2 with
    | Some sp =>
        r_status x = Started ∧ r_once_stop x = [] ∧
        leaf_stop (plugins s) c.1 (r_body x) = Some sp
    | None => r_status x = Stopped ∧ AbstractRunner.graceful opts = true
    end.

Definition entry_trace (c : nat * option spec) : list event :=
  from_option hook_trace [] c.2.

Definition entry_error (c : nat * option spec) : option err :=
  c.2 ≫= λ sp, sp.2.

Lemma stops_frame opts (s s' : store) (rest : list (nat * option spec)) :
  (∀ i, i ∈ rest.*1 → runners s' !! i = runners s !! i) →
  plugins s' = plugins s →
  Forall (stops opts s) rest → Forall (stops opts s') rest.
Proof.
  intros Hr Hp H. induction H as [|[r' sp'] rest Hc _ IH]; [done|].
  constructor.
  - destruct Hc as (x & Hx & Hrest). exists x. simpl in *.
    rewrite Hr by (left; done). by rewrite Hp.
  - apply IH. intros i Hi. apply Hr. simpl. by right.
Qed.

Lemma alter_same (g : runner → runner) (r : nat) (x : runner) (rs : list runner) :
  rs !! r = Some x → g x = x → alter g r rs = rs.
Proof.
  intros H Hg. rewrite <- (insert_as_alter g r x) by done.
  rewrite Hg. by apply list_insert_id.
Qed.

Section sweep.

(** The loops of [_stop] and [_cancelStart] differ in how they call
    [stop] and in what they report at the end; one round is the same. *)
Variables (m c : nat) (K : cont).
Variables (a1 : arg1) (a2 : option cont) (opts : option run_options).

Hypothesis Hargs : ∀ s, AbstractRunner.arguments a1 a2 s = (opts, K, s).

Hypothesis Hloop : ∀ s e xm mu pos errs r,
  MultiRunner.get m s = Some (xm, mu) →
  cells s !! c = Some (filed (length (m_stopOrder mu)) pos errs) →
  m_stopOrder mu !! pos = Some r →
  exec (FCall K e) s
  = Ok [FStop r a1 a2]
       (set_cell c (filed (length (m_stopOrder mu)) (S pos)
                      (errs ++ option_list e)) s).

Lemma sweep (xm : runner) (mu : multi) (rest : list (nat * option spec)) :
  ∀ (s : store) (done : list nat) (e : outcome) (errs : list err)
    (junk : list frame),
  MultiRunner.get m s = Some (xm, mu) →
  m_stopOrder mu = done ++ rest.*1 →
  cells s !! c = Some (filed (length (m_stopOrder mu)) (length done) errs) →
  Forall (stops opts s) rest →
  NoDup rest.*1 → m ∉ rest.*1 →
  ticks s = [] → immediates s = [] → idle s junk →
  ∃ u junk' e' errs',
    steps (running s (FCall K e :: junk))
          (running
             (upd s (set_status_all Stopped rest.*1 (runners s))
                (<[c := filed (length (m_stopOrder mu))
                          (length (m_stopOrder mu)) errs']> (cells s))
                [] [] (trace s ++ (rest ≫= entry_trace)) u)
             (FCall K e' :: junk')) ∧
    idle s junk' ∧
    errs' ++ option_list e' = errs ++ option_list e ++ omap entry_error rest.
Proof using Hargs Hloop.
  induction rest as [|[r osp] rest IH];
    intros s done e errs junk Hm Ho Hc Hrest Hnd Hnm Ht Hi Hj.
  - exists (unrefd s), junk, e, errs. split; [|split; [done|]].
    + apply steps_eq. unfold running. f_equal. simpl.
      simpl in Ho. rewrite app_nil_r in Ho. rewrite Ho at 2.
      rewrite app_nil_r, list_insert_id by done.
      rewrite <- Ht at 1. rewrite <- Hi at 1. by rewrite upd_id.
    + simpl. by rewrite app_nil_r.
  - apply Forall_cons in Hrest as [(x & Hx & Hcase) Hrest].
    simpl in Hx, Hcase, Hnd, Hnm, Ho.
    apply NoDup_cons in Hnd as [Hrn Hnd].
    apply not_elem_of_cons in Hnm as [Hmr Hnm].
    apply get_multi_inv in Hm as Hm'. destruct Hm' as [Hxm Hbm].
    set (len := length (m_stopOrder mu)) in *.
    assert (Hlk : m_stopOrder mu !! length done = Some r).
    { rewrite Ho. by apply list_lookup_middle. }
    set (s1 := set_cell c (filed len (S (length done)) (errs ++ option_list e)) s).
    assert (Hc1 : cells s1 !! c
                  = Some (filed len (length (done ++ [r])) (errs ++ option_list e))).
    { simpl. rewrite list_lookup_insert_eq by by eapply lookup_lt_Some.
      by rewrite length_app, Nat.add_1_r. }
    assert (Ho1 : m_stopOrder mu = (done ++ [r]) ++ rest.*1).
    { by rewrite Ho, <- app_assoc. }
    destruct osp as [sp|].
    + destruct Hcase as (Hst & Hos & Hsp).
      destruct (child_stop r x sp a1 a2 opts K junk s1
                  Hargs Hx Hst Hos Hsp Ht Hi Hj) as (u1 & junk1 & Hs1 & Hj1).
      set (s2 := upd s1 (alter (with_status Stopped) r (runners s1)) (cells s1)
                   [] [] (trace s1 ++ hook_trace sp) u1) in *.
      destruct (IH s2 (done ++ [r]) sp.2 (errs ++ option_list e) junk1)
        as (u & junk' & e' & errs' & Hs2 & Hj2 & He); try done.
      { apply get_multi_lookup with (x := xm); [|done].
        simpl. by rewrite list_lookup_alter_ne. }
      { apply (stops_frame opts s); [|done|done].
        intros i Hin. simpl. rewrite list_lookup_alter_ne; [done|].
        intros ->. done. }
      { simpl. rewrite bodies_alter by done. exact Hj1. }
      exists u, junk', e', errs'. split; [|split].
      * eapply steps_exec; [by eapply Hloop|].
        eapply steps_trans; [exact Hs1|].
        eapply steps_trans; [exact Hs2|].
        apply steps_eq. subst s2 s1. unfold running, upd. simpl. do 2 f_equal.
        -- by rewrite list_insert_insert_eq.
        -- by rewrite <- app_assoc.
      * simpl in Hj2. by rewrite bodies_alter in Hj2.
      * rewrite He. rewrite <- !app_assoc. do 2 f_equal.
        change (omap entry_error ((r, Some sp) :: rest))
          with (match sp.2 with
                | Some y => y :: omap entry_error rest
                | None => omap entry_error rest
                end).
        by destruct (sp.2).
    + destruct Hcase as (Hst & Hg).
      destruct opts as [o|] eqn:Hopts; [|done]. simpl in Hg.
      destruct (child_stop_noop r x a1 a2 o K junk s1
                  Hargs Hg Hx Hst Ht Hi Hj) as (u1 & Hs1).
      set (s2 := upd s1 (runners s1) (cells s1) [] [] (trace s1) u1) in *.
      destruct (IH s2 (done ++ [r]) None (errs ++ option_list e) [])
        as (u & junk' & e' & errs' & Hs2 & Hj2 & He); try done.
      exists u, junk', e', errs'. split; [|split].
      * eapply steps_exec; [by eapply Hloop|].
        eapply steps_trans; [exact Hs1|].
        eapply steps_trans; [exact Hs2|].
        apply steps_eq. subst s2 s1. unfold running, upd. simpl. do 2 f_equal.
        -- f_equal. symmetry.
           apply (alter_same _ r x); [done|].
           destruct x; simpl in *; by subst.
        -- by rewrite list_insert_insert_eq.
      * done.
      * rewrite He. rewrite <- !app_assoc. simpl. by rewrite ?app_nil_r.
Qed.

End sweep.

(** What the caller of [_stop] receives: one combined error, or nothing. *)
Definition aggregate (errors : list err) : outcome :=
  if decide (0 < length errors) then Some (combine errors) else None.

Lemma stop_loop_round (m c : nat) (k : cont) s e xm mu pos errs r :
  MultiRunner.get m s = Some (xm, mu) →
  cells s !! c = Some (filed (length (m_stopOrder mu)) pos errs) →
  m_stopOrder mu !! pos = Some r →
  exec (FCall (KStopLoop m c k) e) s
  = Ok [FStop r (AFun (KStopLoop m c k)) None]
       (set_cell c (filed (length (m_stopOrder mu)) (S pos)
                      (errs ++ option_list e)) s).
Proof.
  intros Hm Hc Hr. apply lookup_lt_Some in Hr as Hlt.
  simpl. unfold MultiRunner.stop_loop. rewrite Hm, Hc.
  destruct e as [e|]; simpl.
  all: rewrite decide_False by lia; rewrite Hr.
  all: unfold MultiRunner.bump, set_cell, set_cells; simpl.
  all: by rewrite list_insert_insert_eq, ?app_nil_r.
Qed.

Lemma cancel_loop_round (m c : nat) (k : cont) s e xm mu pos errs r :
  MultiRunner.get m s = Some (xm, mu) →
  cells s !! c = Some (filed (length (m_stopOrder mu)) pos errs) →
  m_stopOrder mu !! pos = Some r →
  exec (FCall (KCancelLoop m c k) e) s
  = Ok [FStop r (AOpts (Some {| grace := true |})) (Some (KCancelLoop m c k))]
       (set_cell c (filed (length (m_stopOrder mu)) (S pos)
                      (errs ++ option_list e)) s).
Proof.
  intros Hm Hc Hr. apply lookup_lt_Some in Hr as Hlt.
  simpl. unfold MultiRunner.cancel_loop. rewrite Hm, Hc.
  destruct e as [e|]; simpl.
  all: rewrite decide_False by lia; rewrite Hr.
  all: unfold MultiRunner.bump, set_cell, set_cells; simpl.
  all: by rewrite list_insert_insert_eq, ?app_nil_r.
Qed.

Lemma stop_loop_finish (m c : nat) (k : cont) s e xm mu errs :
  MultiRunner.get m s = Some (xm, mu) →
  cells s !! c
  = Some (filed (length (m_stopOrder mu)) (length (m_stopOrder mu)) errs) →
  exec (FCall (KStopLoop m c k) e) s
  = Ok [] (next_tick (FCall k (aggregate (errs ++ option_list e)))
             (set_cell c (filed (length (m_stopOrder mu))
                            (length (m_stopOrder mu))
                            (errs ++ option_list e)) s)).
Proof.
  intros Hm Hc. simpl. unfold MultiRunner.stop_loop. rewrite Hm, Hc.
  destruct e as [e|]; simpl.
  all: rewrite decide_True by lia.
  all: by rewrite ?app_nil_r.
Qed.

Lemma cancel_loop_finish (m c : nat) (k : cont) s e xm mu errs :
  MultiRunner.get m s = Some (xm, mu) →
  cells s !! c
  = Some (filed (length (m_stopOrder mu)) (length (m_stopOrder mu)) errs) →
  exec (FCall (KCancelLoop m c k) e) s
  = Ok [] (next_tick (FCall k (Some (combine (errs ++ option_list e))))
             (set_cell c (filed (length (m_stopOrder mu))
                            (length (m_stopOrder mu))
                            (errs ++ option_list e)) s)).
Proof.
  intros Hm Hc. simpl. unfold MultiRunner.cancel_loop. rewrite Hm, Hc.
  destruct e as [e|]; simpl.
  all: rewrite decide_True by lia.
  all: by rewrite ?app_nil_r.
Qed.

(** ** Stopping a composite runner *)

(** The stop hook of a child, read off the store. *)
Definition stop_of (s : store) (r : nat) : option spec :=
  runners s !! r ≫= λ x, leaf_stop (plugins s) r (r_body x).

Definition stop_events (s : store) (r : nat) : list event :=
  from_option hook_trace [] (stop_of s r).

Definition stop_error (s : store) (r : nat) : option err :=
  stop_of s r ≫= λ sp, sp.2.

(** A Started leaf whose stop hook completes exactly once. *)
Definition started_child (s : store) (r : nat) : Prop :=
  ∃ x, runners s !! r = Some x ∧ r_status x = Started ∧ r_once_stop x = [] ∧
       is_Some (leaf_stop (plugins s) r (r_body x)).

Definition entries (s : store) (rs : list nat) : list (nat * option spec) :=
  (λ r, (r, stop_of s r)) <$> rs.

Lemma entries_ids s rs : (entries s rs).*1 = rs.
Proof.
  unfold entries. rewrite <- list_fmap_compose. simpl.
  induction rs as [|r rs IH]; [done|]. simpl. by f_equal.
Qed.

Lemma entries_trace s rs : entries s rs ≫= entry_trace = rs ≫= stop_events s.
Proof. induction rs as [|r rs IH]; [done|]. simpl. by f_equal. Qed.

Lemma entries_errors s rs :
  omap entry_error (entries s rs) = omap (stop_error s) rs.
Proof.
  induction rs as [|r rs IH]; [done|]. simpl.
  unfold entry_error at 1, stop_error at 1. simpl.
  destruct (stop_of s r ≫= λ sp, sp.2); by f_equal.
Qed.

Lemma entries_stops s rs :
  Forall (started_child s) rs → Forall (stops None s) (entries s rs).
Proof.
  intros H. induction H as [|r rs (x & Hx & Hst & Hos & [sp Hsp]) _ IH]; [done|].
  constructor; [|done]. exists x. simpl. split; [done|].
  unfold stop_of. rewrite Hx. simpl. by rewrite Hsp.
Qed.

Lemma set_status_all_insert_ne st rs (m : nat) (y : runner) (l : list runner) :
  m ∉ rs →
  set_status_all st rs (<[m := y]> l) = <[m := y]> (set_status_all st rs l).
Proof.
  revert l. induction rs as [|r rs IH]; intros l Hm; [done|].
  apply not_elem_of_cons in Hm as [Hne Hm].
  rewrite !set_status_all_cons, <- IH by done. f_equal.
  rewrite !list_insert_alter. by apply list_alter_alter_ne.
Qed.

Lemma length_set_status_all st rs l : length (set_status_all st rs l) = length l.
Proof.
  revert l. induction rs as [|r rs IH]; intros l; [done|].
  by rewrite set_status_all_cons, IH, length_alter.
Qed.

(** [stop] on a Started composite whose children are Started leaves: from
    the call to the caller's callback. *)
Lemma multi_stop_run (m : nat) (xm : runner) (mu : multi) (k : cont) (s : store) :
  runners s !! m = Some xm →
  r_body xm = Multi mu →
  r_status xm = Started →
  r_once_stop xm = [] →
  Forall (started_child s) (m_stopOrder mu) →
  NoDup (m_stopOrder mu) →
  m ∉ m_stopOrder mu →
  ticks s = [] → immediates s = [] →
  ∃ u cs,
    steps (running s [FStop m (AFun k) None])
          (running
             (upd s (<[m := with_status Stopped xm]>
                       (set_status_all Stopped (m_stopOrder mu) (runners s)))
                cs [] []
                (trace s ++ (m_stopOrder mu ≫= stop_events s)) u)
             [FCall k (aggregate (omap (stop_error s) (m_stopOrder mu)))]).
Proof.
  intros Hxm Hbm Hst Hos Hkids Hnd Hnm Ht Hi.
  set (order := m_stopOrder mu) in *.
  set (xm1 := with_status Stopping xm).
  set (c := length (cells s)).
  set (K := KStopDone m k).
  set (s2 := upd s (<[m := xm1]> (runners s))
               (cells s ++ [filed (length order) 0 []])
               (ticks s) (immediates s) (trace s) (unrefd s)).
  assert (Hm2 : MultiRunner.get m s2 = Some (xm1, mu)).
  { apply get_multi_lookup; [|done]. simpl.
    apply list_lookup_insert_eq. by eapply lookup_lt_Some. }
  assert (Hc2 : cells s2 !! c = Some (filed (length order) (length (@nil nat)) [])).
  { simpl. by apply list_lookup_middle. }
  assert (Hk2 : Forall (stops None s2) (entries s order)).
  { apply (stops_frame None s); [|done|by apply entries_stops].
    intros i Hin. rewrite entries_ids in Hin. simpl.
    apply list_lookup_insert_ne. intros ->. done. }
  destruct (sweep m c (KStopLoop m c K) (AFun (KStopLoop m c K)) None None
              (λ _, eq_refl) (stop_loop_round m c K)
              xm1 mu (entries s order) s2 [] None [] [])
    as (u3 & junk3 & e3 & errs3 & Hs3 & Hj3 & He3); try done.
  { by rewrite entries_ids. }
  { by rewrite entries_ids. }
  { by rewrite entries_ids. }
  simpl in He3. rewrite entries_ids, entries_trace, entries_errors in *.
  fold order in Hs3.
  set (s3 := upd s2 (set_status_all Stopped order (runners s2))
               (<[c := filed (length order) (length order) errs3]> (cells s2))
               [] [] (trace s2 ++ (order ≫= stop_events s)) u3) in *.
  assert (Hm3 : MultiRunner.get m s3 = Some (xm1, mu)).
  { apply get_multi_lookup; [|done]. simpl.
    rewrite lookup_set_status_all_ne by done.
    apply list_lookup_insert_eq. by eapply lookup_lt_Some. }
  assert (Hc3 : cells s3 !! c
                = Some (filed (length order) (length order) errs3)).
  { simpl. apply list_lookup_insert_eq. rewrite length_app. simpl.
    unfold c. lia. }
  pose proof (stop_loop_finish m c K s3 e3 xm1 mu errs3 Hm3 Hc3) as Hfin.
  rewrite He3 in Hfin. fold order in Hfin.
  set (s4 := set_cell c (filed (length order) (length order)
                           (omap (stop_error s) order)) s3) in *.
  destruct (run_to_tick (FCall K (aggregate (omap (stop_error s) order)))
              junk3 s4 eq_refl) as [u5 Hs5].
  { simpl. rewrite bodies_set_status_all. exact Hj3. }
  exists u5. eexists.
  eapply steps_exec.
  { simpl. unfold AbstractRunner.stop. simpl. rewrite Hxm.
    unfold AbstractRunner.stop_default. rewrite Hst. reflexivity. }
  eapply steps_exec.
  { simpl. unfold hook_stop. simpl.
    rewrite list_lookup_insert_eq by by eapply lookup_lt_Some.
    simpl. rewrite Hbm. unfold MultiRunner._stop.
    rewrite (get_multi_lookup m _ xm1 mu); [reflexivity| |done].
    simpl. apply list_lookup_insert_eq. by eapply lookup_lt_Some. }
  simpl.
  eapply steps_trans.
  { apply steps_eq with (M' := running s2 [FCall (KStopLoop m c K) None]).
    unfold running, s2, upd. by destruct s. }
  eapply steps_trans; [exact Hs3|].
  eapply steps_exec; [exact Hfin|]. simpl.
  eapply steps_trans; [exact Hs5|].
  eapply steps_exec.
  { simpl. unfold AbstractRunner.stop_done. simpl.
    rewrite lookup_set_status_all_ne by done.
    rewrite list_lookup_insert_eq by by eapply lookup_lt_Some.
    simpl. rewrite Hos. reflexivity. }
  apply steps_eq. unfold running, upd, set_runner, set_runners. simpl.
  do 2 f_equal.
  rewrite set_status_all_insert_ne by done.
  rewrite list_insert_insert_eq. f_equal.
  destruct xm; simpl in *; by subst.
Qed.

(** C2. [stop] on a Started composite runner whose children are Started
    leaves with stop hooks that complete once: the stop hooks run in stop
    order, each after the one before has completed, whatever the outcomes;
    then the caller's callback runs once, with one combined error holding
    every failure in order, or with no error when there was none. All
    runners end Stopped and nothing is left to run. *)
Theorem composite_stop (m : nat) (xm : runner) (mu : multi) (tag : nat)
    (s : store) :
  runners s !! m = Some xm →
  r_body xm = Multi mu →
  r_status xm = Started →
  r_once_stop xm = [] →
  Forall (started_child s) (m_stopOrder mu) →
  NoDup (m_stopOrder mu) →
  m ∉ m_stopOrder mu →
  ticks s = [] → immediates s = [] →
  ∃ M,
    steps (enter (FStop m (AFun (KUser tag)) None) s) M ∧
    quiet M ∧
    trace (store_of M)
    = trace s ++ (m_stopOrder mu ≫= stop_events s)
        ++ [Called tag (aggregate (omap (stop_error s) (m_stopOrder mu)))] ∧
    ∀ r, r ∈ m :: m_stopOrder mu →
         AbstractRunner.get_status r (store_of M) = Some Stopped.
Proof.
  intros Hxm Hbm Hst Hos Hkids Hnd Hnm Ht Hi.
  destruct (multi_stop_run m xm mu (KUser tag) s Hxm Hbm Hst Hos Hkids Hnd Hnm Ht Hi)
    as (u & cs & Hs).
  eexists. split; [|split; [|split]].
  - eapply steps_trans; [exact Hs|].
    eapply steps_exec; [reflexivity|]. apply steps_refl.
  - by repeat split.
  - simpl. by rewrite <- app_assoc.
  - intros r Hr. unfold AbstractRunner.get_status. simpl.
    assert (Hlen : m < length (set_status_all Stopped (m_stopOrder mu) (runners s))).
    { rewrite length_set_status_all. by eapply lookup_lt_Some. }
    apply elem_of_cons in Hr as [->|Hr].
    + by rewrite list_lookup_insert_eq.
    + rewrite list_lookup_insert_ne by (intros ->; done).
      rewrite lookup_set_status_all by done.
      apply list_elem_of_lookup in Hr as [i Hi'].
      eapply Forall_lookup in Hkids as (x & Hx & _); [|exact Hi'].
      by rewrite Hx.
Qed.

(** Closed decidable side conditions, by evaluation. *)
Ltac by_decide :=
  match goal with
  | |- ?P => apply (bool_decide_unpack P); vm_compute; exact I
  end.

(** Two children: A's stop hook fails, B's succeeds one turn later. *)
Definition stop_store : store :=
  set_runners
    [ {| r_status := Started; r_once_start := []; r_once_stop := [];
         r_body := Custom [(Immediate, None)] [(Sync, Some (Plain "A"))] |};
      {| r_status := Started; r_once_start := []; r_once_stop := [];
         r_body := Custom [(Immediate, None)] [(Immediate, None)] |};
      {| r_status := Started; r_once_start := []; r_once_stop := [];
         r_body := Multi {| m_startOrder := [0; 1]; m_stopOrder := [0; 1];
                            m_unref := false; m_frozen := true |} |} ]
    empty_store.

Lemma composite_stop_witness :
  ∃ M,
    steps (enter (FStop 2 (AFun (KUser 9)) None) stop_store) M ∧
    quiet M ∧
    trace (store_of M)
    = [Invoke (RStop 0); Complete (RStop 0) (Some (Plain "A"));
       Invoke (RStop 1); Complete (RStop 1) None;
       Called 9 (Some (Combine [Plain "A"]))] ∧
    ∀ r, r ∈ [2; 0; 1] →
         AbstractRunner.get_status r (store_of M) = Some Stopped.
Proof.
  apply (composite_stop 2 _ _ 9 stop_store eq_refl eq_refl eq_refl eq_refl).
  - repeat constructor; eexists; repeat split; simpl; eauto.
  - by_decide.
  - by_decide.
  - reflexivity.
  - reflexivity.
Defined.

(** ** Starting a composite runner *)

Definition start_of (s : store) (r : nat) : option spec :=
  runners s !! r ≫= λ x, leaf_start (plugins s) r (r_body x).

Definition start_events (s : store) (r : nat) : list event :=
  from_option hook_trace [] (start_of s r).

(** The composite once [start] has run its own part of [_start]. *)
Definition starting_multi (xm : runner) (mu : multi) : runner :=
  with_body (Multi (MultiRunner.with_frozen true mu)) (with_status Starting xm).

Lemma succeeds_set_runner (s : store) (m : nat) (y : runner)
    (pre : list (nat * spec)) :
  m ∉ pre.*1 →
  Forall (succeeds s) pre → Forall (succeeds (set_runner m y s)) pre.
Proof.
  intros Hm H. induction H as [|[r sp] pre Hc _ IH]; [done|].
  simpl in Hm. apply not_elem_of_cons in Hm as [Hne Hm].
  constructor; [|by apply IH].
  destruct Hc as [(x & Hx & Hrest) Hok]. split; [|done].
  exists x. simpl in *. by rewrite list_lookup_insert_ne.
Qed.

(** [start] on a Stopped composite, up to the point where the loop has
    started a first run of children that all start. *)
Lemma multi_start_prefix (m : nat) (xm : runner) (mu : multi) (k : cont)
    (s : store) (pre : list (nat * spec)) (post : list nat) :
  runners s !! m = Some xm →
  r_body xm = Multi mu →
  r_status xm = Stopped →
  m_startOrder mu = pre.*1 ++ post →
  Forall (succeeds s) pre →
  NoDup pre.*1 → m ∉ pre.*1 →
  ticks s = [] → immediates s = [] →
  ∃ u junk,
    steps (running s [FStart m (AFun k) None])
          (running
             (upd s (set_status_all Started pre.*1
                       (<[m := starting_multi xm mu]> (runners s)))
                (cells s ++ [filed (length (m_startOrder mu)) (length pre) []])
                [] [] (trace s ++ (pre ≫= λ c, hook_trace c.2)) u)
             (FCall (KStartLoop m (length (cells s)) (KStartDone m k)) None
                :: junk)) ∧
    idle (set_runner m (starting_multi xm mu) s) junk.
Proof.
  intros Hxm Hbm Hst Ho Hpre Hnd Hnm Ht Hi.
  set (c := length (cells s)).
  set (K := KStartDone m k).
  set (mu' := MultiRunner.with_frozen true mu).
  set (s2 := upd s (<[m := starting_multi xm mu]> (runners s))
               (cells s ++ [filed (length (m_startOrder mu)) 0 []])
               (ticks s) (immediates s) (trace s) (unrefd s)).
  assert (Hlt : m < length (runners s)) by by eapply lookup_lt_Some.
  assert (Hm2 : MultiRunner.get m s2 = Some (starting_multi xm mu, mu')).
  { apply get_multi_lookup; [|done]. simpl. by apply list_lookup_insert_eq. }
  destruct (start_loop_prefix m c K (starting_multi xm mu) mu' pre
              s2 [] post [] []) as (u & junk & Hs & Hj); try done.
  { simpl. by apply list_lookup_middle. }
  { by apply (succeeds_set_runner s m). }
  exists u, junk. split; [|exact Hj].
  eapply steps_exec.
  { simpl. unfold AbstractRunner.start. simpl. rewrite Hxm.
    unfold AbstractRunner.start_default. rewrite Hst. reflexivity. }
  eapply steps_exec.
  { simpl. unfold hook_start. simpl.
    rewrite list_lookup_insert_eq by done. simpl. rewrite Hbm.
    unfold MultiRunner._start.
    rewrite (get_multi_lookup m _ (with_status Starting xm) mu); [reflexivity| |done].
    simpl. by apply list_lookup_insert_eq. }
  simpl.
  eapply steps_trans.
  { apply steps_eq with (M' := running s2 [FCall (KStartLoop m c K) None]).
    unfold running, s2, upd, MultiRunner.put, set_runner, set_runners. simpl.
    rewrite list_insert_insert_eq. by destruct s. }
  eapply steps_trans; [exact Hs|].
  apply steps_eq. unfold running, s2, upd. simpl. do 2 f_equal.
  unfold c. rewrite insert_app_r_alt by lia.
  by rewrite Nat.sub_diag.
Qed.

Lemma start_loop_finish (m c : nat) (k : cont) s xm mu errs :
  MultiRunner.get m s = Some (xm, mu) →
  cells s !! c
  = Some (filed (length (m_startOrder mu)) (length (m_startOrder mu)) errs) →
  exec (FCall (KStartLoop m c k) None) s = Ok [] (next_tick (FCall k None) s).
Proof.
  intros Hm Hc. simpl. unfold MultiRunner.start_loop. rewrite Hm, Hc. simpl.
  by rewrite decide_True by lia.
Qed.

(** [start] on a Stopped composite whose children all start: from the call
    to the caller's callback. *)
Lemma multi_start_run (m : nat) (xm : runner) (mu : multi) (k : cont)
    (s : store) (pre : list (nat * spec)) :
  runners s !! m = Some xm →
  r_body xm = Multi mu →
  r_status xm = Stopped →
  r_once_start xm = [] →
  m_startOrder mu = pre.*1 →
  Forall (succeeds s) pre →
  NoDup pre.*1 → m ∉ pre.*1 →
  ticks s = [] → immediates s = [] →
  ∃ u cs,
    steps (running s [FStart m (AFun k) None])
          (running
             (upd s (<[m := with_status Started (starting_multi xm mu)]>
                       (set_status_all Started pre.*1 (runners s)))
                cs [] [] (trace s ++ (pre ≫= λ c, hook_trace c.2)) u)
             [FCall k None]).
Proof.
  intros Hxm Hbm Hst Hos Ho Hpre Hnd Hnm Ht Hi.
  assert (Hlt : m < length (runners s)) by by eapply lookup_lt_Some.
  destruct (multi_start_prefix m xm mu k s pre [] Hxm Hbm Hst) as (u & junk & Hs & Hj);
    try done.
  { by rewrite app_nil_r. }
  set (c := length (cells s)) in *.
  set (K := KStartDone m k) in *.
  set (s3 := upd s (set_status_all Started pre.*1
                      (<[m := starting_multi xm mu]> (runners s)))
               (cells s ++ [filed (length (m_startOrder mu)) (length pre) []])
               [] [] (trace s ++ (pre ≫= λ c, hook_trace c.2)) u) in *.
  assert (Hm3 : MultiRunner.get m s3
                = Some (starting_multi xm mu, MultiRunner.with_frozen true mu)).
  { apply get_multi_lookup; [|done]. simpl.
    rewrite lookup_set_status_all_ne by done. by apply list_lookup_insert_eq. }
  assert (Hc3 : cells s3 !! c
                = Some (filed (length (m_startOrder mu))
                          (length (m_startOrder mu)) [])).
  { simpl. rewrite Ho at 3. rewrite length_fmap. by apply list_lookup_middle. }
  destruct (run_to_tick (FCall K None) junk s3 eq_refl) as [u4 Hs4].
  { simpl. rewrite bodies_set_status_all. exact Hj. }
  exists u4. eexists.
  eapply steps_trans; [exact Hs|].
  eapply steps_exec.
  { by apply (start_loop_finish m c K s3 _ _ _ Hm3 Hc3). }
  simpl. eapply steps_trans; [exact Hs4|].
  eapply steps_exec.
  { simpl. unfold AbstractRunner.start_done. simpl.
    rewrite lookup_set_status_all_ne by done.
    rewrite list_lookup_insert_eq by done. simpl. rewrite Hos. reflexivity. }
  apply steps_eq. unfold running, upd, set_runner, set_runners. simpl.
  do 2 f_equal.
  rewrite set_status_all_insert_ne by done.
  rewrite list_insert_insert_eq. f_equal.
  unfold starting_multi. destruct xm; simpl in *; by subst.
Qed.

Definition start_entries (s : store) (rs : list nat) : list (nat * spec) :=
  (λ r, (r, default (None, NextTick, None) (start_of s r))) <$> rs.

Lemma start_entries_ids s rs : (start_entries s rs).*1 = rs.
Proof.
  unfold start_entries. rewrite <- list_fmap_compose.
  induction rs as [|r rs IH]; [done|]. simpl. by f_equal.
Qed.

Lemma start_entries_trace s rs :
  (start_entries s rs ≫= λ c, hook_trace c.2) = rs ≫= start_events s.
Proof.
  induction rs as [|r rs IH]; [done|]. simpl. f_equal; [|done].
  unfold start_events. by destruct (start_of s r).
Qed.

Lemma length_start_entries s rs : length (start_entries s rs) = length rs.
Proof. unfold start_entries. by rewrite length_fmap. Qed.

(** A Stopped leaf whose start hook completes once with success, and whose
    stop hook completes once. *)
Definition starts_ok (s : store) (r : nat) : Prop :=
  ∃ x sp, runners s !! r = Some x ∧ r_status x = Stopped ∧
    r_once_start x = [] ∧ r_once_stop x = [] ∧
    leaf_start (plugins s) r (r_body x) = Some sp ∧ sp.2 = None ∧
    is_Some (leaf_stop (plugins s) r (r_body x)).

(** A Stopped leaf whose start hook completes once with the error [e]. *)
Definition starts_badly (s : store) (r : nat) (e : err) : Prop :=
  ∃ x sp, runners s !! r = Some x ∧ r_status x = Stopped ∧
    r_once_start x = [] ∧
    leaf_start (plugins s) r (r_body x) = Some sp ∧ sp.2 = Some e.

Definition stopped (s : store) (r : nat) : Prop :=
  ∃ x, runners s !! r = Some x ∧ r_status x = Stopped.

Lemma start_entries_succeed s rs :
  Forall (starts_ok s) rs → Forall (succeeds s) (start_entries s rs).
Proof.
  intros H. induction H as [|r rs Hr _ IH]; [done|].
  constructor; [|done].
  destruct Hr as (x & sp & Hx & Hst & Hos & _ & Hsp & Hok & _).
  unfold succeeds, start_of. simpl. rewrite Hx. simpl. rewrite Hsp. simpl.
  split; [|done]. by exists x.
Qed.

(** What the rollback meets in stop order: the children that started,
    with their stop hooks, and the others, already Stopped. *)
Definition rollback_entries (s : store) (pre order : list nat)
  : list (nat * option spec) :=
  (λ r, (r, if decide (r ∈ pre) then stop_of s r else None)) <$> order.

Lemma rollback_entries_ids s pre order : (rollback_entries s pre order).*1 = order.
Proof.
  unfold rollback_entries. rewrite <- list_fmap_compose.
  induction order as [|r rs IH]; [done|]. simpl. by f_equal.
Qed.

Lemma rollback_entries_cons s pre r order :
  rollback_entries s pre (r :: order)
  = (r, if decide (r ∈ pre) then stop_of s r else None)
      :: rollback_entries s pre order.
Proof. done. Qed.

Lemma rollback_entries_trace s pre order :
  rollback_entries s pre order ≫= entry_trace
  = filter (λ r, r ∈ pre) order ≫= stop_events s.
Proof.
  induction order as [|r rs IH]; [done|].
  rewrite rollback_entries_cons, filter_cons, bind_cons, IH.
  unfold entry_trace at 1. cbn [snd].
  destruct (decide (r ∈ pre)); [by rewrite bind_cons|done].
Qed.

Lemma rollback_entries_errors s pre order :
  omap entry_error (rollback_entries s pre order)
  = omap (stop_error s) (filter (λ r, r ∈ pre) order).
Proof.
  induction order as [|r rs IH]; [done|].
  rewrite rollback_entries_cons, filter_cons.
  destruct (decide (r ∈ pre)).
  - change (omap entry_error ((r, stop_of s r) :: rollback_entries s pre rs))
      with (match stop_error s r with
            | Some y => y :: omap entry_error (rollback_entries s pre rs)
            | None => omap entry_error (rollback_entries s pre rs)
            end).
    change (omap (stop_error s) (r :: filter (λ r, r ∈ pre) rs))
      with (match stop_error s r with
            | Some y => y :: omap (stop_error s) (filter (λ r, r ∈ pre) rs)
            | None => omap (stop_error s) (filter (λ r, r ∈ pre) rs)
            end).
    by rewrite IH.
  - exact IH.
Qed.

Lemma start_loop_round (m c : nat) (k : cont) s xm mu pos errs r :
  MultiRunner.get m s = Some (xm, mu) →
  cells s !! c = Some (filed (length (m_startOrder mu)) pos errs) →
  m_startOrder mu !! pos = Some r →
  exec (FCall (KStartLoop m c k) None) s
  = Ok [FStart r (AFun (KStartLoop m c k)) None; FUnrefIf m r]
       (set_cell c (filed (length (m_startOrder mu)) (S pos) errs) s).
Proof.
  intros Hm Hc Hr. apply lookup_lt_Some in Hr as Hlt.
  simpl. unfold MultiRunner.start_loop. rewrite Hm, Hc. simpl.
  rewrite decide_False by lia. by rewrite Hr.
Qed.

Lemma start_loop_failed (m c : nat) (k : cont) s xm mu e :
  MultiRunner.get m s = Some (xm, mu) →
  exec (FCall (KStartLoop m c k) (Some e)) s
  = Ok [FCall (KCancelLoop m (length (cells s)) k) None]
       (set_cells (cells s ++ [filed (length (m_stopOrder mu)) 0 [e]]) s).
Proof.
  intros Hm. simpl. unfold MultiRunner.start_loop, MultiRunner._cancelStart.
  by rewrite Hm.
Qed.

(** The children as the rollback finds them. *)
Lemma rollback_stops (s s' : store) (m : nat) (y : runner)
    (pre post order : list nat) (rk : nat) :
  runners s' = alter (with_status Stopped) rk
                 (set_status_all Started pre (<[m := y]> (runners s))) →
  plugins s' = plugins s →
  NoDup (pre ++ rk :: post) →
  m ∉ pre ++ rk :: post →
  order ⊆ pre ++ rk :: post →
  Forall (starts_ok s) pre →
  stopped s rk →
  Forall (stopped s) post →
  Forall (stops (Some {| grace := true |}) s') (rollback_entries s pre order).
Proof.
  intros Hr Hp Hnd Hm Hsub Hpre Hrk Hpost.
  apply NoDup_app in Hnd as (Hnd1 & Hnd2 & Hnd3).
  apply NoDup_cons in Hnd3 as [Hnd3 Hnd4].
  apply Forall_fmap, Forall_forall. intros r Hin.
  assert (Hrm : m ≠ r).
  { intros ->. apply Hm. by apply Hsub. }
  unfold stops. cbn [fst snd compose]. rewrite Hr, Hp.
  destruct (decide (r ∈ pre)) as [Hrp|Hrp].
  - rewrite Forall_forall in Hpre.
    destruct (Hpre r Hrp) as (x & sp & Hx & Hst & _ & Hos & _ & _ & [sp' Hsp']).
    assert (r ≠ rk).
    { intros ->. apply (Hnd2 rk Hrp). by left. }
    exists (with_status Started x).
    rewrite list_lookup_alter_ne by done.
    rewrite lookup_set_status_all by done.
    rewrite list_lookup_insert_ne by done. rewrite Hx.
    split; [done|]. unfold stop_of. rewrite Hx. simpl. by rewrite Hsp'.
  - apply Hsub in Hin. apply elem_of_app in Hin as [Hin|Hin]; [done|].
    apply elem_of_cons in Hin as [->|Hin].
    + destruct Hrk as (x & Hx & Hst).
      exists (with_status Stopped x).
      rewrite list_lookup_alter_eq.
      rewrite lookup_set_status_all_ne by done.
      rewrite list_lookup_insert_ne by done. by rewrite Hx.
    + rewrite Forall_forall in Hpost. destruct (Hpost r Hin) as (x & Hx & Hst).
      exists x.
      rewrite list_lookup_alter_ne by (intros ->; done).
      rewrite lookup_set_status_all_ne by done.
      rewrite list_lookup_insert_ne by done. done.
Qed.

(** C1. [start] on a Stopped composite runner whose children are Stopped
    leaves, where the children before [rk] start and [rk]'s start hook
    fails with [e]. The start hooks run in registration order up to [rk]
    and no further; then the stop hooks of exactly the children that
    started run in stop order, each after the one before has completed;
    then the caller's callback runs once with one combined error: [e]
    followed by every error of the rollback. Every runner ends Stopped. *)
Theorem composite_start_rollback (m : nat) (xm : runner) (mu : multi)
    (tag : nat) (s : store) (pre : list nat) (rk : nat) (post : list nat)
    (e : err) :
  runners s !! m = Some xm →
  r_body xm = Multi mu →
  r_status xm = Stopped →
  r_once_start xm = [] →
  m_startOrder mu = pre ++ rk :: post →
  m_stopOrder mu ≡ₚ m_startOrder mu →
  NoDup (m_startOrder mu) →
  m ∉ m_startOrder mu →
  Forall (starts_ok s) pre →
  starts_badly s rk e →
  Forall (stopped s) post →
  ticks s = [] → immediates s = [] →
  let rollback := filter (λ r, r ∈ pre) (m_stopOrder mu) in
  ∃ M,
    steps (enter (FStart m (AFun (KUser tag)) None) s) M ∧
    quiet M ∧
    trace (store_of M)
    = trace s ++ (pre ≫= start_events s) ++ start_events s rk
        ++ (rollback ≫= stop_events s)
        ++ [Called tag (Some (combine (e :: omap (stop_error s) rollback)))] ∧
    ∀ r, r ∈ m :: m_startOrder mu →
         AbstractRunner.get_status r (store_of M) = Some Stopped.
Proof.
  intros Hxm Hbm Hst Hos Ho Hperm Hnd Hnm Hpre Hrk Hpost Ht Hi rollback.
  assert (Hlt : m < length (runners s)) by by eapply lookup_lt_Some.
  rewrite Ho in Hnd, Hnm.
  assert (Hnd' := Hnd). apply NoDup_app in Hnd' as (Hnd1 & Hnd2 & Hnd3).
  apply NoDup_cons in Hnd3 as [Hnd3 Hnd4].
  assert (Hmpre : m ∉ pre) by (intros H; apply Hnm, elem_of_app; by left).
  assert (Hmrk : m ≠ rk).
  { intros ->. apply Hnm, elem_of_app. right. by left. }
  assert (Hrkpre : rk ∉ pre) by (intros H; apply (Hnd2 rk H); by left).
  set (K := KStartDone m (KUser tag)).
  set (c := length (cells s)).
  set (mu' := MultiRunner.with_frozen true mu).
  set (xm1 := starting_multi xm mu).
  set (len := length (m_startOrder mu)).
  (* the children before rk *)
  destruct (multi_start_prefix m xm mu (KUser tag) s (start_entries s pre)
              (rk :: post) Hxm Hbm Hst) as (u3 & junk3 & Hs3 & Hj3).
  { by rewrite start_entries_ids. }
  { by apply start_entries_succeed. }
  { by rewrite start_entries_ids. }
  { by rewrite start_entries_ids. }
  { done. }
  { done. }
  rewrite start_entries_ids, start_entries_trace, length_start_entries in Hs3.
  fold c K xm1 len in Hs3, Hj3.
  set (s3 := upd s (set_status_all Started pre (<[m := xm1]> (runners s)))
               (cells s ++ [filed len (length pre) []]) [] []
               (trace s ++ (pre ≫= start_events s)) u3) in *.
  assert (Hm3 : MultiRunner.get m s3 = Some (xm1, mu')).
  { apply get_multi_lookup; [|done]. simpl.
    rewrite lookup_set_status_all_ne by done. by apply list_lookup_insert_eq. }
  (* rk *)
  destruct Hrk as (xk & sp & Hxk & Hstk & Hosk & Hspk & Hek).
  set (s3b := set_cell c (filed len (S (length pre)) []) s3).
  assert (Hxk3 : runners s3b !! rk = Some xk).
  { simpl. rewrite lookup_set_status_all_ne by done.
    by rewrite list_lookup_insert_ne. }
  assert (Hb3 : r_body <$> runners s3b
                = r_body <$> runners (set_runner m xm1 s)).
  { simpl. by rewrite bodies_set_status_all. }
  destruct (child_start rk xk sp (AFun (KStartLoop m c K)) None None
              (KStartLoop m c K) (FUnrefIf m rk :: junk3) s3b
              (λ _, eq_refl) Hxk3 Hstk Hosk Hspk eq_refl eq_refl)
    as (u4 & junk4 & Hs4 & Hj4).
  { constructor; [|by rewrite Hb3]. simpl. split.
    - exists mu'. rewrite list_lookup_fmap, lookup_set_status_all_ne by done.
      by rewrite list_lookup_insert_eq.
    - exists (r_body xk). rewrite list_lookup_fmap.
      rewrite lookup_set_status_all_ne by done.
      rewrite list_lookup_insert_ne by done. rewrite Hxk.
      split; [done|]. by eapply leaf_start_leaf. }
  rewrite Hek in Hs4.
  set (s4 := upd s3b (alter (with_status Stopped) rk (runners s3b)) (cells s3b)
               [] [] (trace s3b ++ hook_trace sp) u4) in *.
  assert (Hm4 : MultiRunner.get m s4 = Some (xm1, mu')).
  { apply get_multi_lookup; [|done]. simpl.
    rewrite list_lookup_alter_ne by done.
    rewrite lookup_set_status_all_ne by done. by apply list_lookup_insert_eq. }
  (* the rollback *)
  set (c' := length (cells s4)).
  set (s5 := set_cells (cells s4 ++ [filed (length (m_stopOrder mu)) 0 [e]]) s4).
  set (L := KCancelLoop m c' K).
  assert (Hsub : m_stopOrder mu ⊆ pre ++ rk :: post).
  { intros r Hr. rewrite <- Ho. by rewrite <- Hperm. }
  assert (Hnds : NoDup (m_stopOrder mu)) by (by rewrite Hperm, Ho).
  assert (Hnms : m ∉ m_stopOrder mu).
  { intros H. apply Hnm. by apply Hsub. }
  destruct (sweep m c' L (AOpts (Some {| grace := true |})) (Some L)
              (Some {| grace := true |}) (λ _, eq_refl)
              (cancel_loop_round m c' K)
              xm1 mu' (rollback_entries s pre (m_stopOrder mu))
              s5 [] None [e] junk4)
    as (u6 & junk6 & e6 & errs6 & Hs6 & Hj6 & He6).
  { done. }
  { by rewrite rollback_entries_ids. }
  { simpl. by apply list_lookup_middle. }
  { apply (rollback_stops s s5 m xm1 pre post (m_stopOrder mu) rk); try done.
    by exists xk. }
  { by rewrite rollback_entries_ids. }
  { by rewrite rollback_entries_ids. }
  { done. }
  { done. }
  { simpl. rewrite bodies_alter by done. exact Hj4. }
  rewrite rollback_entries_ids, rollback_entries_trace, rollback_entries_errors in *.
  fold rollback in Hs6, He6. simpl in He6.
  set (Ls := length (m_stopOrder mu)) in *.
  set (s6 := upd s5 (set_status_all Stopped (m_stopOrder mu) (runners s5))
               (<[c' := filed Ls Ls errs6]> (cells s5)) [] []
               (trace s5 ++ (rollback ≫= stop_events s)) u6) in *.
  assert (Hm6 : MultiRunner.get m s6 = Some (xm1, mu')).
  { apply get_multi_lookup; [|done]. simpl.
    rewrite lookup_set_status_all_ne by done.
    rewrite list_lookup_alter_ne by done.
    rewrite lookup_set_status_all_ne by done. by apply list_lookup_insert_eq. }
  assert (Hc6 : cells s6 !! c' = Some (filed Ls Ls errs6)).
  { simpl. apply list_lookup_insert_eq. rewrite length_app. simpl.
    unfold c'. simpl. lia. }
  pose proof (cancel_loop_finish m c' K s6 e6 xm1 mu' errs6 Hm6 Hc6) as Hfin.
  rewrite He6 in Hfin. fold Ls in Hfin.
  set (agg := Some (combine (e :: omap (stop_error s) rollback))) in *.
  set (s7 := set_cell c' (filed Ls Ls (e :: omap (stop_error s) rollback)) s6) in *.
  destruct (run_to_tick (FCall K agg) junk6 s7 eq_refl) as [u8 Hs8].
  { simpl. rewrite bodies_set_status_all. exact Hj6. }
  eexists. split; [|split; [|split]].
  - eapply steps_trans; [exact Hs3|].
    eapply steps_exec.
    { apply (start_loop_round m c K s3 xm1 mu' (length pre) [] rk Hm3).
      - simpl. by apply list_lookup_middle.
      - simpl. rewrite Ho. by apply list_lookup_middle. }
    eapply steps_trans; [exact Hs4|].
    eapply steps_exec; [by apply (start_loop_failed m c K s4 xm1 mu' e)|].
    eapply steps_trans; [exact Hs6|].
    eapply steps_exec; [exact Hfin|]. simpl.
    eapply steps_trans; [exact Hs8|].
    eapply steps_exec.
    { simpl. unfold AbstractRunner.start_done. simpl.
      rewrite lookup_set_status_all_ne by done.
      rewrite list_lookup_alter_ne by done.
      rewrite lookup_set_status_all_ne by done.
      rewrite list_lookup_insert_eq by done. simpl. rewrite Hos. reflexivity. }
    eapply steps_exec; [reflexivity|]. apply steps_refl.
  - by repeat split.
  - simpl. rewrite <- !app_assoc. do 2 f_equal.
    unfold start_events, start_of. rewrite Hxk. simpl. by rewrite Hspk.
  - intros r Hr. unfold AbstractRunner.get_status. simpl.
    match goal with |- context [<[m := ?y]> ?l] => set (final := l); set (ym := y) end.
    assert (Hlen : length final = length (runners s)).
    { unfold final.
      by rewrite length_set_status_all, length_alter, length_set_status_all,
        length_insert. }
    apply elem_of_cons in Hr as [->|Hr].
    + rewrite list_lookup_insert_eq by lia. done.
    + assert (Hrm : m ≠ r) by (intros ->; apply Hnm; by rewrite <- Ho).
      rewrite list_lookup_insert_ne by done. unfold final.
      rewrite lookup_set_status_all by (by rewrite Hperm).
      match goal with |- context [?l !! r] =>
        destruct (lookup_lt_is_Some_2 l r) as [x Hx]; [|by rewrite Hx] end.
      rewrite length_alter, length_set_status_all, length_insert.
      rewrite Ho in Hr. apply elem_of_app in Hr as [Hr|Hr].
      * rewrite Forall_forall in Hpre.
        destruct (Hpre r Hr) as (x & ? & Hx & _). by eapply lookup_lt_Some.
      * apply elem_of_cons in Hr as [->|Hr]; [by eapply lookup_lt_Some|].
        rewrite Forall_forall in Hpost.
        destruct (Hpost r Hr) as (x & Hx & _). by eapply lookup_lt_Some.
Qed.

(** Three children A, B, C, with C registered [stopFirst]: B's start hook
    fails at once, and then A's stop hook fails too. *)
Definition rollback_store : store :=
  set_runners
    [ {| r_status := Stopped; r_once_start := []; r_once_stop := [];
         r_body := Custom [(Immediate, None)] [(Immediate, Some (Plain "A"))] |};
      {| r_status := Stopped; r_once_start := []; r_once_stop := [];
         r_body := Custom [(Sync, Some (Plain "nope"))] [(Immediate, None)] |};
      {| r_status := Stopped; r_once_start := []; r_once_stop := [];
         r_body := Custom [(Immediate, None)] [(Immediate, None)] |};
      {| r_status := Stopped; r_once_start := []; r_once_stop := [];
         r_body := Multi {| m_startOrder := [0; 1; 2]; m_stopOrder := [2; 0; 1];
                            m_unref := false; m_frozen := false |} |} ]
    empty_store.

Lemma composite_start_rollback_witness :
  ∃ M,
    steps (enter (FStart 3 (AFun (KUser 9)) None) rollback_store) M ∧
    quiet M ∧
    trace (store_of M)
    = [Invoke (RStart 0); Complete (RStart 0) None;
       Invoke (RStart 1); Complete (RStart 1) (Some (Plain "nope"));
       Invoke (RStop 0); Complete (RStop 0) (Some (Plain "A"));
       Called 9 (Some (Combine [Plain "nope"; Plain "A"]))] ∧
    ∀ r, r ∈ [3; 0; 1; 2] →
         AbstractRunner.get_status r (store_of M) = Some Stopped.
Proof.
  apply (composite_start_rollback 3 _ _ 9 rollback_store [0] 1 [2] (Plain "nope")
           eq_refl eq_refl eq_refl eq_refl eq_refl).
  - by_decide.
  - by_decide.
  - by_decide.
  - repeat constructor. eexists _, _. repeat split; simpl; eauto.
  - eexists _, _. repeat split; simpl; eauto.
  - repeat constructor. eexists. split; simpl; eauto.
  - reflexivity.
  - reflexivity.
Defined.

(** ** The ping cursor *)

(** A wrapped plugin whose ping completes exactly once. *)
Definition pings (s : store) (wc : wrapped * (timing * outcome)) : Prop :=
  ∃ p, plugins s !! w_plugin wc.1 = Some p ∧ p_ping p = Some [wc.2].

(** [if (err) process.emitWarning(err)]. *)
Definition warn (e : outcome) : list event :=
  match e with
  | Some err => [Warned (WError err)]
  | None => []
  end.

Definition ping_trace (wc : wrapped * (timing * outcome)) : list event :=
  [Invoke (PPing (w_plugin wc.1)); Complete (PPing (w_plugin wc.1)) wc.2.2]
    ++ warn wc.2.2.

(** The cursor at rest after a cycle. *)
Definition rested (ta : task) : task :=
  Task.with_cursor false (length (t_pingablePlugins ta)) None
    (t_noPingTarget ta) ta.

Lemma idle_frame_task bs ps t ta ta' f :
  bs !! t = Some (TaskB ta) →
  idle_frame bs ps f → idle_frame (<[t := TaskB ta']> bs) ps f.
Proof.
  intros Ht. destruct f; simpl; try done.
  intros [(mu & Hm) (b & Hr & Hl)]. split.
  - exists mu. rewrite list_lookup_insert_ne; [done|]. intros ->. congruence.
  - exists b. rewrite list_lookup_insert_ne; [done|].
    intros ->. rewrite Ht in Hr. by inversion Hr; subst.
Qed.

Lemma idle_task (s : store) (t : nat) (x : runner) (ta ta' : task) (rs' : list runner)
    junk :
  runners s !! t = Some x → r_body x = TaskB ta →
  r_body <$> rs' = <[t := TaskB ta']> (r_body <$> runners s) →
  idle s junk →
  Forall (idle_frame (r_body <$> rs') (plugins s)) junk.
Proof.
  intros Hx Hb Hrs Hj. rewrite Hrs.
  eapply Forall_impl; [exact Hj|]. intros f.
  apply idle_frame_task with (ta := ta).
  by rewrite list_lookup_fmap, Hx, <- Hb.
Qed.

Lemma get_task_lookup t s x ta :
  runners s !! t = Some x → r_body x = TaskB ta → Task.get t s = Some (x, ta).
Proof. intros H1 H2. unfold Task.get. by rewrite H1, H2. Qed.

(** The walk of [_pingNext] over plugins that each complete once: one
    ping at a time, then the callback is queued for the next tick. *)
Lemma ping_loop (t : nat) (k : cont) (rest : list (wrapped * (timing * outcome))) :
  ∀ (s : store) (x : runner) (ta : task) (done : list wrapped) (e : outcome)
    (junk : list frame),
  runners s !! t = Some x →
  r_body x = TaskB ta →
  t_pinging ta = true →
  t_pingCallback ta = Some k →
  t_pingablePlugins ta = done ++ rest.*1 →
  t_pingIndex ta = length done →
  Forall (pings s) rest →
  ticks s = [] → immediates s = [] → idle s junk →
  ∃ u junk',
    steps (running s (FCall (KPingNext t) e :: junk))
          (running
             (upd s (<[t := with_body (TaskB (rested ta)) x]> (runners s))
                (cells s) [FCall k None] []
                (trace s ++ warn e ++ (rest ≫= ping_trace)) u)
             junk') ∧
    Forall (idle_frame (<[t := TaskB (rested ta)]> (r_body <$> runners s))
                       (plugins s)) junk'.
Proof.
  induction rest as [|[w [tm e']] rest IH];
    intros s x ta done e junk Hx Hb Hp Hk Hl Hidx Hrest Ht Hi Hj.
  - exists (unrefd s), junk. split.
    + eapply steps_exec.
      { simpl. unfold Task._pingNext.
        assert (Hg : ∀ s', runners s' = runners s → Task.get t s' = Some (x, ta)).
        { intros s' Hs'. apply get_task_lookup; [by rewrite Hs'|done]. }
        rewrite Hg by by destruct e.
        rewrite Hp. simpl. rewrite decide_True; [|by rewrite Hl, Hidx, app_nil_r].
        rewrite Hk. reflexivity. }
      apply steps_eq. unfold running. f_equal. simpl.
      rewrite app_nil_r.
      unfold next_tick, Task.put, set_runner, set_runners, set_ticks, upd, rested.
      rewrite Hl, Hidx, !app_nil_r.
      destruct e; simpl; rewrite Ht, Hi; simpl; by rewrite ?app_nil_r.
    + eapply Forall_impl; [exact Hj|]. intros f.
      apply idle_frame_task with (ta := ta).
      by rewrite list_lookup_fmap, Hx, <- Hb.
  - apply Forall_cons in Hrest as [(p & Hpl & Hpp) Hrest].
    simpl in Hpl, Hpp, Hl.
    set (ta' := Task.with_cursor true (S (length done)) (t_pingCallback ta)
                  (w_name w) ta).
    set (x' := with_body (TaskB ta') x).
    set (s0 := match e with Some err => log (Warned (WError err)) s | None => s end).
    set (s1 := log (Invoke (PPing (w_plugin w))) (Task.put t x ta' s0)).
    assert (Hlt : t < length (runners s)) by by eapply lookup_lt_Some.
    assert (Hr0 : runners s0 = runners s) by by destruct e.
    assert (Hps0 : plugins s0 = plugins s) by by destruct e.
    assert (Hj1 : idle s1 junk).
    { simpl. rewrite Hps0, Hr0.
      apply (idle_task s t x ta ta'); try done.
      by rewrite list_fmap_insert. }
    destruct (deliver (PPing (w_plugin w)) (KPingNext t) tm e' junk s1)
      as (u1 & junk1 & Hs1 & Hj1').
    { simpl. by destruct e. }
    { simpl. by destruct e. }
    { exact Hj1. }
    set (s2 := upd s1 (runners s1) (cells s1) [] []
                 (trace s1 ++ [Complete (PPing (w_plugin w)) e']) u1) in *.
    destruct (IH s2 x' ta' (done ++ [w]) e' junk1) as (u & junk' & Hs2 & Hj2).
    { simpl. rewrite Hr0. by apply list_lookup_insert_eq. }
    { done. }
    { done. }
    { done. }
    { simpl. by rewrite Hl, <- app_assoc. }
    { simpl. by rewrite length_app, Nat.add_1_r. }
    { eapply Forall_impl; [exact Hrest|]. intros [w2 c2] (p2 & H1 & H2).
      exists p2. split; [|done]. simpl. by rewrite Hps0. }
    { done. }
    { done. }
    { exact Hj1'. }
    exists u, junk'. split.
    + eapply steps_exec.
      { simpl. unfold Task._pingNext. fold s0.
        rewrite (get_task_lookup t s0 x ta) by (by rewrite ?Hr0).
        rewrite Hp. simpl.
        rewrite decide_False by (rewrite Hl, Hidx, length_app; simpl; lia).
        rewrite Hl, Hidx. rewrite list_lookup_middle by done.
        fold ta'. simpl. rewrite Hps0, Hpl. simpl. rewrite Hpp. reflexivity. }
      simpl. eapply steps_trans; [exact Hs1|].
      eapply steps_trans; [exact Hs2|].
      apply steps_eq. unfold running. f_equal.
      unfold s2, s1, upd, log, Task.put, set_runner, set_runners, set_trace.
      simpl. rewrite Hr0. rewrite list_insert_insert_eq.
      f_equal; try by (unfold s0; destruct e).
      unfold s0. destruct e; simpl; rewrite <- ?app_assoc; simpl; done.
    + simpl in Hj2. rewrite Hr0 in Hj2.
      rewrite list_fmap_insert, list_insert_insert_eq in Hj2.
      by rewrite Hps0 in Hj2.
Qed.

Lemma ping_call (t : nat) (x : runner) (ta : task) (k : cont) (s : store)
    (rest : list (wrapped * (timing * outcome))) :
  runners s !! t = Some x →
  r_body x = TaskB ta →
  t_pinging ta = false →
  t_pingablePlugins ta = rest.*1 →
  Forall (pings s) rest →
  ticks s = [] → immediates s = [] →
  ∃ u,
    steps (enter (FPing t k) s)
          (running
             (upd s (<[t := with_body (TaskB (rested ta)) x]> (runners s))
                (cells s) [FCall k None] []
                (trace s ++ (rest ≫= ping_trace)) u) []).
Proof.
  intros Hx Hb Hp Hl Hrest Ht Hi.
  assert (Hlt : t < length (runners s)) by by eapply lookup_lt_Some.
  set (ta1 := Task.with_cursor true 0 (Some k) (t_currentPingTarget ta) ta).
  set (x1 := with_body (TaskB ta1) x).
  set (s1 := Task.put t x ta1 s).
  destruct (ping_loop t k rest s1 x1 ta1 [] None []) as (u & junk & Hs & Hj); try done.
  { simpl. by apply list_lookup_insert_eq. }
  set (s2 := upd s1 (<[t := with_body (TaskB (rested ta1)) x1]> (runners s1))
               (cells s1) [FCall k None] [] (trace s1 ++ warn None ++ (rest ≫= ping_trace)) u) in *.
  destruct (run_idle junk s2 []) as [u' Hs'].
  { simpl. by rewrite list_fmap_insert. }
  exists u'.
  eapply steps_exec.
  { simpl. unfold Task.ping. rewrite (get_task_lookup t s x ta) by done.
    rewrite Hp. reflexivity. }
  simpl. eapply steps_trans; [exact Hs|].
  rewrite app_nil_r in Hs'. eapply steps_trans; [exact Hs'|].
  apply steps_eq. unfold running, s2, upd. simpl.
  by rewrite list_insert_insert_eq.
Qed.

(** The ping capability, as [wrapper] tests it. *)
Definition has_ping (s : store) (p : nat) : bool :=
  bool_decide (is_Some (plugins s !! p ≫= p_ping)).

(** A ping that completes exactly once: when, and with what. *)
Definition ping_of (s : store) (p : nat) : option (timing * outcome) :=
  match plugins s !! p ≫= p_ping with
  | Some [c] => Some c
  | _ => None
  end.

Definition ping_events (s : store) (p : nat) : list event :=
  match ping_of s p with
  | Some c => [Invoke (PPing p); Complete (PPing p) c.2] ++ warn c.2
  | None => []
  end.

Definition wraps (s : store) (p : nat) (w : wrapped) : Prop :=
  w_plugin w = p ∧ w_pingable w = has_ping s p.

Lemma wrapper_wraps name ro s i p w :
  Task.wrapper name ro s i p = Some w → wraps s p w.
Proof.
  unfold Task.wrapper, wraps, has_ping.
  destruct (plugins s !! p) as [pl|]; [|done]. simpl. by intros [= <-].
Qed.

Lemma mapM_imap_wraps s (l : list nat) :
  ∀ (g : nat → nat → option wrapped) (ws : list wrapped),
  (∀ i p w, g i p = Some w → wraps s p w) →
  mapM id (imap g l) = Some ws → Forall2 (wraps s) l ws.
Proof.
  induction l as [|p l IH]; intros g ws Hg.
  - simpl. intros [= <-]. constructor.
  - rewrite imap_cons. simpl.
    destruct (g 0 p) as [w|] eqn:Hw; [|done]. simpl.
    destruct (mapM id (imap (g ∘ S) l)) as [ws'|] eqn:Hws; [|done]. simpl.
    intros [= <-]. constructor; [by eapply Hg|].
    apply (IH (g ∘ S)); [|done]. intros i q w'. apply Hg.
Qed.

Lemma wrap_all_wraps s ta ws :
  Task.wrap_all ta s = Some ws →
  Forall2 (wraps s) (t_collectors ta ++ t_processors ta ++ t_publishers ta) ws.
Proof.
  unfold Task.wrap_all.
  destruct (mapM id (imap _ (t_collectors ta))) as [cs|] eqn:Hc; [|done]. simpl.
  destruct (mapM id (imap _ (t_processors ta))) as [ps|] eqn:Hp; [|done]. simpl.
  destruct (mapM id (imap _ (t_publishers ta))) as [bs|] eqn:Hb; [|done]. simpl.
  intros [= <-].
  repeat apply Forall2_app;
    (eapply mapM_imap_wraps; [|eassumption]); intros i p w; apply wrapper_wraps.
Qed.

Lemma wraps_entries s (l : list nat) (ws : list wrapped) :
  Forall2 (wraps s) l ws →
  Forall (λ p, is_Some (ping_of s p)) (filter (λ p, has_ping s p = true) l) →
  ∃ rest : list (wrapped * (timing * outcome)),
    rest.*1 = filter (λ w, w_pingable w = true) ws ∧
    Forall (pings s) rest ∧
    rest ≫= ping_trace = filter (λ p, has_ping s p = true) l ≫= ping_events s.
Proof.
  induction 1 as [|p w l ws [Hw1 Hw2] _ IH]; intros Hall.
  - by exists [].
  - rewrite filter_cons in Hall. rewrite !filter_cons.
    destruct (decide (has_ping s p = true)) as [Hp|Hp].
    + apply Forall_cons in Hall as [[c Hc] Hall].
      destruct (IH Hall) as (rest & H1 & H2 & H3).
      rewrite decide_True by congruence.
      exists ((w, c) :: rest). split; [by rewrite fmap_cons, H1|].
      split.
      * constructor; [|done]. unfold pings. simpl. rewrite Hw1.
        unfold ping_of in Hc.
        destruct (plugins s !! p) as [pl|]; [|done]. simpl in Hc.
        exists pl. split; [done|].
        destruct (p_ping pl) as [[|c' [|]]|]; try done. by inversion Hc.
      * rewrite !bind_cons, H3. f_equal.
        unfold ping_trace, ping_events. simpl. by rewrite Hw1, Hc.
    + destruct (IH Hall) as (rest & H1 & H2 & H3).
      rewrite decide_False by congruence.
      by exists rest.
Qed.

(** The state [_initialize] leaves: the ping list is the pingable part of
    the wrapped collectors, processors and publishers. *)
Definition initialized (s : store) (ta : task) : Prop :=
  ∃ ws, Task.wrap_all ta s = Some ws ∧
        t_pingablePlugins ta = filter (λ w, w_pingable w = true) ws.

Definition ping_targets (s : store) (ta : task) : list nat :=
  filter (λ p, has_ping s p = true)
    (t_collectors ta ++ t_processors ta ++ t_publishers ta).

(** A whole cycle, up to the turn that runs the caller's callback. *)
Lemma ping_run (t : nat) (x : runner) (ta : task) (k : cont) (s : store) :
  runners s !! t = Some x →
  r_body x = TaskB ta →
  initialized s ta →
  t_pinging ta = false →
  Forall (λ p, is_Some (ping_of s p)) (ping_targets s ta) →
  ticks s = [] → immediates s = [] →
  ∃ u,
    steps (enter (FPing t k) s)
          (running
             (upd s (<[t := with_body (TaskB (rested ta)) x]> (runners s))
                (cells s) [FCall k None] []
                (trace s ++ (ping_targets s ta ≫= ping_events s)) u) []).
Proof.
  intros Hx Hb (ws & Hws & Hl) Hp Hall Ht Hi.
  destruct (wraps_entries s _ ws (wrap_all_wraps s ta ws Hws) Hall)
    as (rest & H1 & H2 & H3).
  unfold ping_targets. rewrite <- H3.
  apply ping_call; try done. by rewrite H1.
Qed.

(** *** The turn of the [ping()] call itself *)

Definition is_call (ev : event) : Prop :=
  match ev with
  | Called _ _ => True
  | _ => False
  end.

(** The calls that can be on the stack under [ping()]: all of them lead
    back to [_pingNext]. *)
Definition ping_frame (t : nat) (f : frame) : Prop :=
  match f with
  | FPing t' _
  | FCall (KPingNext t') _
  | FBehave _ (KPingNext t') _
  | FExternal _ (KPingNext t') _ => t' = t
  | _ => False
  end.

(** [s'] extends the trace of [s] without running a caller's callback. *)
Definition no_call (s s' : store) : Prop :=
  ∃ evs, trace s' = trace s ++ evs ∧ Forall (λ ev, ¬ is_call ev) evs.

Lemma no_call_refl s s' : trace s' = trace s → no_call s s'.
Proof. intros H. exists []. by rewrite app_nil_r. Qed.

Lemma no_call_log s s' s'' ev :
  ¬ is_call ev → trace s'' = trace s' ++ [ev] → no_call s s' → no_call s s''.
Proof.
  intros Hev Htr (evs & H1 & H2). exists (evs ++ [ev]). split.
  - by rewrite Htr, H1, app_assoc.
  - apply Forall_app. split; [done|]. by constructor.
Qed.

Lemma no_call_trans s s' s'' : no_call s s' → no_call s' s'' → no_call s s''.
Proof.
  intros (e1 & H1 & F1) (e2 & H2 & F2). exists (e1 ++ e2). split.
  - by rewrite H2, H1, app_assoc.
  - by apply Forall_app.
Qed.

Lemma ping_frame_exec (t : nat) (f : frame) (s : store) :
  ping_frame t f →
  match exec f s with
  | Ok calls s' => Forall (ping_frame t) calls ∧ no_call s s'
  | Throw _ s' => no_call s s'
  end.
Proof.
  destruct f as [k e| | | | |h k b|h k e| | | | | |t' k]; simpl; try done.
  - destruct k; try done. intros ->. simpl. unfold Task._pingNext.
    set (s0 := match e with Some err => log (Warned (WError err)) s | None => s end).
    assert (H0 : no_call s s0).
    { unfold s0. destruct e; [|by apply no_call_refl].
      eapply no_call_log; [| |by apply no_call_refl]; [|done]. simpl. tauto. }
    destruct (Task.get t s0) as [[x ta]|]; [|exact H0].
    destruct (t_pinging ta); simpl.
    + destruct (decide _).
      * destruct (t_pingCallback ta); [split; [done|]|];
          (eapply no_call_trans; [exact H0|]; by apply no_call_refl).
      * destruct (t_pingablePlugins ta !! t_pingIndex ta) as [w|].
        -- destruct (_ ≫= p_ping) as [b|].
           ++ split; [by repeat constructor|].
              eapply no_call_trans; [exact H0|].
              eapply no_call_log; [| |by apply no_call_refl]; [|done].
              simpl. tauto.
           ++ eapply no_call_trans; [exact H0|]. by apply no_call_refl.
        -- eapply no_call_trans; [exact H0|]. by apply no_call_refl.
    + split; [done|]. eapply no_call_trans; [exact H0|].
      eapply no_call_log; [| |by apply no_call_refl]; [|done]. simpl. tauto.
  - destruct k; try done. intros ->. unfold behave.
    destruct b as [|[[] e] b]; (split; [by repeat constructor|]);
      by apply no_call_refl.
  - destruct k; try done. intros ->. split; [by repeat constructor|].
    eapply no_call_log; [| |by apply no_call_refl]; [|done]. simpl. tauto.
  - intros ->. unfold Task.ping.
    destruct (Task.get t s) as [[x ta]|]; [|by apply no_call_refl].
    destruct (t_pinging ta); [by apply no_call_refl|].
    split; [by repeat constructor|]. by apply no_call_refl.
Qed.

(** However the plugins answer, no caller's callback runs before the
    stack that [ping()] built has unwound. *)
Lemma ping_turn_no_call (t : nat) (n : nat) :
  ∀ M, Forall (ping_frame t) (stack M) →
       no_call (store_of M) (store_of (turn n M)).
Proof.
  induction n as [|n IH]; intros M HM; [by apply no_call_refl|].
  destruct M as [s [|f fs] [msg|]]; simpl; try by apply no_call_refl.
  unfold step. simpl.
  apply Forall_cons in HM as [Hf Hfs].
  pose proof (ping_frame_exec t f s Hf) as He.
  destruct (exec f s) as [calls s'|msg s'].
  - destruct He as [Hc Hn]. eapply no_call_trans; [exact Hn|].
    apply (IH {| store_of := s'; stack := calls ++ fs; thrown := None |}).
    simpl. by apply Forall_app.
  - eapply no_call_trans; [exact He|].
    destruct n; by apply no_call_refl.
Qed.

Lemma ping_events_no_call s ps :
  Forall (λ ev, ¬ is_call ev) (ps ≫= ping_events s).
Proof.
  induction ps as [|p ps IH]; [constructor|].
  rewrite bind_cons. apply Forall_app. split; [|done].
  unfold ping_events. destruct (ping_of s p) as [[tm [e|]]|]; simpl;
    repeat constructor; simpl; tauto.
Qed.

(** C7. On an initialised task with no cycle under way, whose pingable
    plugins each complete a ping once: [ping(callback)] pings exactly the
    plugins with a ping method among the collectors, the processors and the
    publishers, in that order (schedules are not in the list), each after
    the one before has completed. When the list is exhausted the callback
    is queued with [process.nextTick]: the stack unwinds first ([M1]), and
    the callback runs, once and without an error, in the turn after it
    ([M2]). Whatever the plugins do, no caller's callback runs in the turn
    of the [ping()] call itself. *)
Theorem ping_cycle (t : nat) (x : runner) (ta : task) (tag : nat) (s : store) :
  runners s !! t = Some x →
  r_body x = TaskB ta →
  initialized s ta →
  t_pinging ta = false →
  Forall (λ p, is_Some (ping_of s p)) (ping_targets s ta) →
  ticks s = [] → immediates s = [] →
  (∃ M1 M2,
     steps (enter (FPing t (KUser tag)) s) M1 ∧
     stack M1 = [] ∧ thrown M1 = None ∧
     trace (store_of M1) = trace s ++ (ping_targets s ta ≫= ping_events s) ∧
     ticks (store_of M1) = [FCall (KUser tag) None] ∧
     immediates (store_of M1) = [] ∧
     step M1 = Some (enter (FCall (KUser tag) None) (set_ticks [] (store_of M1))) ∧
     steps M1 M2 ∧ quiet M2 ∧
     trace (store_of M2) = trace (store_of M1) ++ [Called tag None] ∧
     Task.get t (store_of M2)
     = Some (with_body (TaskB (rested ta)) x, rested ta)) ∧
  (∀ n, no_call s (store_of (turn n (enter (FPing t (KUser tag)) s)))).
Proof.
  intros Hx Hb Hinit Hp Hall Ht Hi. split.
  - destruct (ping_run t x ta (KUser tag) s Hx Hb Hinit Hp Hall Ht Hi) as [u Hs].
    eexists _, _. split; [exact Hs|].
    split; [done|]. split; [done|]. split; [done|]. split; [done|].
    split; [done|]. split; [done|].
    split.
    { eapply steps_tick; [reflexivity|].
      eapply steps_exec; [reflexivity|]. apply steps_refl. }
    split; [by repeat split|]. split; [done|].
    apply get_task_lookup; [|done]. simpl.
    apply list_lookup_insert_eq. by eapply lookup_lt_Some.
  - intros n. apply (ping_turn_no_call t n (enter (FPing t (KUser tag)) s)).
    by repeat constructor.
Qed.

(** A task with two collectors, a schedule, a processor and two publishers,
    as registered through the public interface. *)
Definition register (ro : role) (p : nat) (t : nat) (s : store) : store :=
  match Task._takePlugins t ro (PFn {| f_id := p; f_make := λ _, p |}) OAbsent s with
  | Ok _ s' | Throw _ s' => s'
  end.

Definition demo_plugin (ping : option behaviour) : plugin :=
  {| p_proto := Some "Test"; p_start := Some [(Immediate, None)];
     p_stop := Some [(Immediate, None)]; p_ping := ping; p_unref := false;
     p_on := true |}.

Definition demo_task (pings : list (option behaviour)) : store :=
  let s := set_plugins (demo_plugin <$> pings) empty_store in
  let '(t, s) := Task.create (Some "test") s in
  register Publish 5 t (register Publish 4 t (register Process 3 t
    (register Schedule 2 t (register Collect 1 t (register Collect 0 t s))))).

Definition started (t : nat) (s : store) : store :=
  store_of (run 200 (enter (FStart t (AFun (KUser 0)) None) s)).

(** Every ping answers at once; the second publisher has no ping method. *)
Definition demo_store : store :=
  Eval vm_compute in
    started 1 (demo_task [Some [(Sync, None)]; Some [(Sync, None)];
                          Some [(Sync, None)]; Some [(Sync, None)];
                          Some [(Sync, None)]; None]).

Lemma ping_cycle_witness :
  (∃ M1 M2,
     steps (enter (FPing 1 (KUser 9)) demo_store) M1 ∧
     stack M1 = [] ∧ thrown M1 = None ∧
     trace (store_of M1)
     = trace demo_store
         ++ [Invoke (PPing 0); Complete (PPing 0) None;
             Invoke (PPing 1); Complete (PPing 1) None;
             Invoke (PPing 3); Complete (PPing 3) None;
             Invoke (PPing 4); Complete (PPing 4) None] ∧
     ticks (store_of M1) = [FCall (KUser 9) None] ∧
     immediates (store_of M1) = [] ∧
     step M1 = Some (enter (FCall (KUser 9) None) (set_ticks [] (store_of M1))) ∧
     steps M1 M2 ∧ quiet M2 ∧
     trace (store_of M2) = trace (store_of M1) ++ [Called 9 None] ∧
     Task.currentPingTarget 1 (store_of M2) = Some "<Task(test):None>") ∧
  (∀ n, no_call demo_store (store_of (turn n (enter (FPing 1 (KUser 9)) demo_store)))).
Proof.
  destruct (ping_cycle 1 _ _ 9 demo_store eq_refl eq_refl) as [H1 H2].
  - eexists. split; reflexivity.
  - reflexivity.
  - repeat constructor; by eexists.
  - reflexivity.
  - reflexivity.
  - split; [|exact H2].
    destruct H1 as (M1 & M2 & Ha & Hb & Hc & Hd & He & Hf & Hg & Hh & Hi & Hj & Hk).
    exists M1, M2. do 10 (split; [assumption|]).
    unfold Task.currentPingTarget. rewrite Hk. reflexivity.
Defined.

(** C10, as the code has it. When the ping of a plugin [p] completes
    with an error [e], [_pingNext] reports [e] with [process.emitWarning]
    and goes on with the cycle: the plugins before [p] have been pinged,
    the warning follows the completion of [p] at once, and the plugins
    behind [p] are pinged after it, one at a time, the first of them
    next. Only when all of them have completed is the callback given to
    [ping] queued with [process.nextTick]: it runs in the turn after
    ([M2]), once and without an error, so the failure reaches no
    callback; and no caller's callback runs in the turn of the [ping()]
    call itself. *)
Theorem ping_failure_warned (t : nat) (x : runner) (ta : task) (tag : nat)
    (s : store) (pre : list nat) (p : nat) (post : list nat) (tm : timing)
    (e : err) :
  runners s !! t = Some x →
  r_body x = TaskB ta →
  initialized s ta →
  t_pinging ta = false →
  Forall (λ p, is_Some (ping_of s p)) (ping_targets s ta) →
  ticks s = [] → immediates s = [] →
  ping_targets s ta = pre ++ p :: post →
  ping_of s p = Some (tm, Some e) →
  (∃ M1 M2,
     steps (enter (FPing t (KUser tag)) s) M1 ∧
     stack M1 = [] ∧ thrown M1 = None ∧
     trace (store_of M1)
     = trace s ++ (pre ≫= ping_events s)
         ++ [Invoke (PPing p); Complete (PPing p) (Some e); Warned (WError e)]
         ++ (post ≫= ping_events s) ∧
     ticks (store_of M1) = [FCall (KUser tag) None] ∧
     immediates (store_of M1) = [] ∧
     steps M1 M2 ∧ quiet M2 ∧
     trace (store_of M2) = trace (store_of M1) ++ [Called tag None]) ∧
  (∀ q post', post = q :: post' →
     ∃ c, ping_of s q = Some c ∧
          post ≫= ping_events s
          = [Invoke (PPing q); Complete (PPing q) c.2] ++ warn c.2
              ++ (post' ≫= ping_events s)) ∧
  Forall (λ ev, ¬ is_call ev) ((pre ++ p :: post) ≫= ping_events s) ∧
  (∀ n, no_call s (store_of (turn n (enter (FPing t (KUser tag)) s)))).
Proof.
  intros Hx Hb Hinit Hp Hall Ht Hi Hsplit Hpe.
  split; [|split; [|split]].
  - destruct (ping_run t x ta (KUser tag) s Hx Hb Hinit Hp Hall Ht Hi) as [u Hs].
    eexists _, _. split; [exact Hs|].
    split; [done|]. split; [done|]. split.
    { simpl. rewrite Hsplit, bind_app, bind_cons. unfold ping_events at 2.
      rewrite Hpe. reflexivity. }
    split; [done|]. split; [done|]. split.
    { eapply steps_tick; [reflexivity|].
      eapply steps_exec; [reflexivity|]. apply steps_refl. }
    split; [by repeat split|]. done.
  - intros q post' ->. rewrite Hsplit in Hall.
    apply Forall_app in Hall as [_ Hall]. apply Forall_cons in Hall as [_ Hall].
    apply Forall_cons in Hall as [[c Hc] _].
    exists c. split; [done|]. rewrite bind_cons. unfold ping_events at 1.
    rewrite Hc. by rewrite <- app_assoc.
  - apply ping_events_no_call.
  - intros n. apply (ping_turn_no_call t n (enter (FPing t (KUser tag)) s)).
    by repeat constructor.
Qed.

(** The first collector's ping fails at once. *)
Definition boom_store : store :=
  Eval vm_compute in
    started 1 (demo_task [Some [(Sync, Some (Plain "boom"))]; Some [(Sync, None)];
                          None; None; None; None]).

Lemma ping_failure_warned_witness :
  ∃ M1 M2,
    steps (enter (FPing 1 (KUser 9)) boom_store) M1 ∧
    stack M1 = [] ∧ thrown M1 = None ∧
    trace (store_of M1)
    = trace boom_store
        ++ [Invoke (PPing 0); Complete (PPing 0) (Some (Plain "boom"));
            Warned (WError (Plain "boom"));
            Invoke (PPing 1); Complete (PPing 1) None] ∧
    ticks (store_of M1) = [FCall (KUser 9) None] ∧
    immediates (store_of M1) = [] ∧
    steps M1 M2 ∧ quiet M2 ∧
    trace (store_of M2) = trace (store_of M1) ++ [Called 9 None].
Proof.
  destruct (ping_failure_warned 1 _ _ 9 boom_store [] 0 [1] Sync (Plain "boom")
              eq_refl eq_refl) as [H _].
  - eexists. split; reflexivity.
  - reflexivity.
  - repeat constructor; by eexists.
  - reflexivity.
  - reflexivity.
  - reflexivity.
  - reflexivity.
  - exact H.
Defined.

(** C10, as the spec words it, fails: the cycle on [boom_store] ends with
    the failure in a warning and the caller's callback called without it. *)
Lemma ping_error_not_delivered :
  ∃ M,
    steps (enter (FPing 1 (KUser 9)) boom_store) M ∧ quiet M ∧
    Complete (PPing 0) (Some (Plain "boom")) ∈ trace (store_of M) ∧
    Warned (WError (Plain "boom")) ∈ trace (store_of M) ∧
    Called 9 None ∈ trace (store_of M) ∧
    ∀ e, Called 9 (Some e) ∉ trace (store_of M).
Proof.
  exists (run 20 (enter (FPing 1 (KUser 9)) boom_store)).
  split; [apply run_steps|].
  split; [by vm_compute|].
  assert (Htr : trace (store_of (run 20 (enter (FPing 1 (KUser 9)) boom_store)))
                = trace boom_store
                    ++ [Invoke (PPing 0); Complete (PPing 0) (Some (Plain "boom"));
                        Warned (WError (Plain "boom"));
                        Invoke (PPing 1); Complete (PPing 1) None;
                        Called 9 None]) by by vm_compute.
  rewrite Htr. unfold boom_store. cbn [trace app].
  split; [set_solver|]. split; [set_solver|]. split; [set_solver|].
  intros e He. repeat (apply elem_of_cons in He as [He|He]; [discriminate He|]).
  by apply elem_of_nil in He.
Qed.

(** ** A ping that completes twice *)

(** Three pingable plugins: the first collector calls back twice at once,
    the second collector and the processor call back one turn later. *)
Definition twice_store : store :=
  Eval vm_compute in
    started 1 (demo_task [Some [(Sync, None); (Sync, None)];
                          Some [(Immediate, None)]; None;
                          Some [(Immediate, None)]; None; None]).

Definition cursor (t : nat) (s : store) : option (nat * bool) :=
  (λ xt, (t_pingIndex xt.2, t_pinging xt.2)) <$> Task.get t s.

(** C8 fails on the code while a cycle is under way. The second completion
    of plugin 0 arrives with the cursor at 2 and plugin 1's ping still
    outstanding; [_pingNext] takes it for the answer of plugin 1, moves the
    cursor to 3 and pings plugin 3, with no warning. The cycle then ends on
    plugin 1's answer, and the answer of plugin 3, its first, is the one
    reported as 'called more than once'. *)
Theorem extra_completion_advances_cursor :
  let M9 := run 9 (enter (FPing 1 (KUser 9)) twice_store) in
  let M10 := run 10 (enter (FPing 1 (KUser 9)) twice_store) in
  let M := run 30 (enter (FPing 1 (KUser 9)) twice_store) in
  stack M9 = [FCall (KPingNext 1) None; FBehave (PPing 0) (KPingNext 1) []] ∧
  trace (store_of M9)
  = trace twice_store
      ++ [Invoke (PPing 0); Complete (PPing 0) None;
          Invoke (PPing 1); Complete (PPing 0) None] ∧
  cursor 1 (store_of M9) = Some (2, true) ∧
  cursor 1 (store_of M10) = Some (3, true) ∧
  trace (store_of M10) = trace (store_of M9) ++ [Invoke (PPing 3)] ∧
  quiet M ∧
  trace (store_of M)
  = trace twice_store
      ++ [Invoke (PPing 0); Complete (PPing 0) None;
          Invoke (PPing 1); Complete (PPing 0) None;
          Invoke (PPing 3); Complete (PPing 1) None;
          Called 9 None; Complete (PPing 3) None; Warned WPingTwice].
Proof. by vm_compute. Qed.

(** What does hold: once the cycle has ended, a further completion only
    warns; the task, and so the cursor, stay as they are. *)
Lemma late_completion_warns (t : nat) (x : runner) (ta : task) (e : outcome)
    (s : store) :
  Task.get t s = Some (x, ta) →
  t_pinging ta = false →
  ∃ s',
    exec (FCall (KPingNext t) e) s = Ok [] s' ∧
    runners s' = runners s ∧ ticks s' = ticks s ∧ immediates s' = immediates s ∧
    trace s' = trace s ++ warn e ++ [Warned WPingTwice].
Proof.
  intros Hg Hp. simpl. unfold Task._pingNext.
  destruct e as [err|]; simpl.
  - assert (Hg' : Task.get t (log (Warned (WError err)) s) = Some (x, ta)) by done.
    rewrite Hg', Hp. simpl. eexists. split; [done|].
    simpl. by rewrite <- app_assoc.
  - rewrite Hg, Hp. simpl. eexists. by split.
Qed.

(** ** Freezing a task *)

Definition frozen (t : nat) (s : store) : Prop :=
  ∃ x ta, Task.get t s = Some (x, ta) ∧ t_frozen ta = true.

(** [s'] has every task that is frozen in [s], frozen. *)
Definition keeps_frozen (s s' : store) : Prop :=
  ∀ t, frozen t s → frozen t s'.

(** [y] may replace [x]: a task stays a task, and stays frozen. *)
Definition keeps (x y : runner) : Prop :=
  ∀ ta, r_body x = TaskB ta →
        ∃ ta', r_body y = TaskB ta' ∧ (t_frozen ta = true → t_frozen ta' = true).

Lemma get_task_inv t s x ta :
  Task.get t s = Some (x, ta) → runners s !! t = Some x ∧ r_body x = TaskB ta.
Proof.
  unfold Task.get. destruct (runners s !! t) as [y|]; [|done].
  destruct (r_body y) eqn:E; try done. by intros [= <- <-].
Qed.

Lemma keeps_frozen_same s s' : runners s' = runners s → keeps_frozen s s'.
Proof.
  intros H t (x & ta & Hg & Hf). exists x, ta. split; [|done].
  unfold Task.get in *. by rewrite H.
Qed.

Lemma keeps_frozen_trans s s' s'' :
  keeps_frozen s s' → keeps_frozen s' s'' → keeps_frozen s s''.
Proof. intros H1 H2 t Ht. by apply H2, H1. Qed.

Lemma keeps_frozen_insert s s' r x y :
  runners s !! r = Some x → keeps x y →
  runners s' = <[r := y]> (runners s) →
  keeps_frozen s s'.
Proof.
  intros Hx Hk Hr t (x0 & ta & Hg & Hf).
  apply get_task_inv in Hg as [Hx0 Hb0].
  destruct (decide (r = t)) as [->|Hne].
  - rewrite Hx in Hx0. inversion Hx0; subst x0.
    destruct (Hk ta Hb0) as (ta' & Hb' & Hf').
    exists y, ta'. split; [|by apply Hf'].
    apply get_task_lookup; [|done]. rewrite Hr.
    apply list_lookup_insert_eq. by eapply lookup_lt_Some.
  - exists x0, ta. split; [|done].
    apply get_task_lookup; [|done]. rewrite Hr.
    by rewrite list_lookup_insert_ne.
Qed.

Lemma keeps_frozen_app s s' l :
  runners s' = runners s ++ l → keeps_frozen s s'.
Proof.
  intros Hr t (x & ta & Hg & Hf).
  apply get_task_inv in Hg as [Hx Hb].
  exists x, ta. split; [|done].
  apply get_task_lookup; [|done]. rewrite Hr. by apply lookup_app_l_Some.
Qed.

Lemma keeps_same_body x y : r_body y = r_body x → keeps x y.
Proof. intros H ta Hb. exists ta. by rewrite H. Qed.

Lemma keeps_not_task x y mu : r_body x = Multi mu → keeps x y.
Proof. intros H ta Hb. congruence. Qed.

Lemma decorate_all_runners (nuts : list nat) (s : store) :
  ∃ l, runners (Task.decorate_all nuts s).2 = runners s ++ l.
Proof.
  revert s. induction nuts as [|nut nuts IH]; intros s.
  - exists []. simpl. by rewrite app_nil_r.
  - simpl. unfold DecoratedRunner.create.
    destruct (plugins s !! nut); [|exists []; simpl; by rewrite app_nil_r].
    simpl.
    destruct (IH (set_runners
                    (runners s ++ [{| r_status := Stopped; r_once_start := [];
                                      r_once_stop := []; r_body := Decorated nut |}]) s))
      as [l Hl].
    destruct (Task.decorate_all nuts _) as [rs s'] eqn:E. simpl in *.
    eexists. rewrite Hl. by rewrite <- app_assoc.
Qed.

Definition res_store (r : res) : store :=
  match r with
  | Ok _ s | Throw _ s => s
  end.

(** Steps of proofs that a call keeps frozen tasks frozen: the runners
    are the same, or one runner is replaced by a compatible one. *)
Ltac kf_same := by (apply keeps_frozen_same; simpl; try congruence).
Ltac kf_insert H tac :=
  eapply keeps_frozen_insert; [exact H | | simpl; reflexivity]; tac.
Ltac kf_body := apply keeps_same_body; reflexivity.

Lemma arguments_runners a1 a2 s :
  runners (AbstractRunner.arguments a1 a2 s).2 = runners s.
Proof. destruct a1 as [k|o]; [done|]. by destruct a2. Qed.

Lemma start_keeps_frozen r a1 a2 s :
  keeps_frozen s (res_store (AbstractRunner.start r a1 a2 s)).
Proof.
  unfold AbstractRunner.start, AbstractRunner.start_default.
  pose proof (arguments_runners a1 a2 s) as Hr.
  destruct (AbstractRunner.arguments a1 a2 s) as [[opts cb] s1]. simpl in Hr.
  eapply keeps_frozen_trans; [by apply (keeps_frozen_same s s1)|].
  destruct (runners s1 !! r) as [x|] eqn:Hx; [|kf_same].
  destruct opts as [[[]]|]; simpl; destruct (r_status x); simpl;
    first [kf_same | kf_insert Hx ltac:(kf_body)].
Qed.

Lemma stop_keeps_frozen r a1 a2 s :
  keeps_frozen s (res_store (AbstractRunner.stop r a1 a2 s)).
Proof.
  unfold AbstractRunner.stop, AbstractRunner.stop_default.
  pose proof (arguments_runners a1 a2 s) as Hr.
  destruct (AbstractRunner.arguments a1 a2 s) as [[opts cb] s1]. simpl in Hr.
  eapply keeps_frozen_trans; [by apply (keeps_frozen_same s s1)|].
  destruct (runners s1 !! r) as [x|] eqn:Hx; [|kf_same].
  destruct opts as [[[]]|]; simpl; destruct (r_status x); simpl;
    first [kf_same | kf_insert Hx ltac:(kf_body)].
Qed.

Lemma multi_loops_keep_frozen m c k e s :
  keeps_frozen s (res_store (MultiRunner.start_loop m c k e s)) ∧
  keeps_frozen s (res_store (MultiRunner.cancel_loop m c k e s)) ∧
  keeps_frozen s (res_store (MultiRunner.stop_loop m c k e s)).
Proof.
  unfold MultiRunner.start_loop, MultiRunner.cancel_loop, MultiRunner.stop_loop,
    MultiRunner._cancelStart.
  destruct (MultiRunner.get m s) as [[x mu]|]; [|by destruct e; repeat split; kf_same].
  repeat split.
  - destruct e; [kf_same|]. destruct (cells s !! c); [|kf_same].
    destruct (decide _); [kf_same|]. destruct (_ !! _); kf_same.
  - destruct (cells s !! c); [|kf_same]. simpl.
    destruct (decide _); [kf_same|]. destruct (_ !! _); kf_same.
  - destruct (cells s !! c); [|kf_same]. simpl.
    destruct (decide _); [kf_same|]. destruct (_ !! _); kf_same.
Qed.

Lemma pingNext_keeps_frozen t e s :
  keeps_frozen s (res_store (Task._pingNext t e s)).
Proof.
  unfold Task._pingNext.
  set (s0 := match e with Some err => log (Warned (WError err)) s | None => s end).
  assert (H0 : runners s0 = runners s) by by destruct e.
  eapply keeps_frozen_trans; [by apply (keeps_frozen_same s s0)|].
  destruct (Task.get t s0) as [[x ta]|] eqn:Hg; [|kf_same].
  apply get_task_inv in Hg as [Hx Hb].
  assert (Hk : ∀ a b c d, keeps x (with_body (TaskB (Task.with_cursor a b c d ta)) x)).
  { intros a b c d ta0 Hb0. eexists. split; [reflexivity|].
    simpl. congruence. }
  destruct (t_pinging ta); simpl; [|kf_same].
  destruct (decide _).
  - destruct (t_pingCallback ta); simpl; kf_insert Hx ltac:(apply Hk).
  - destruct (t_pingablePlugins ta !! t_pingIndex ta) as [w|]; simpl;
      [|kf_insert Hx ltac:(apply Hk)].
    destruct (_ ≫= p_ping); simpl; kf_insert Hx ltac:(apply Hk).
Qed.

Lemma call_keeps_frozen k e s : keeps_frozen s (res_store (call k e s)).
Proof.
  destruct k; simpl; try kf_same.
  - unfold settle. destruct (promises s !! p) as [[|]|]; kf_same.
  - unfold AbstractRunner.start_done.
    destruct (runners s !! r) as [x|] eqn:Hx; [|kf_same].
    kf_insert Hx ltac:(kf_body).
  - unfold AbstractRunner.stop_done.
    destruct (runners s !! r) as [x|] eqn:Hx; [|kf_same].
    kf_insert Hx ltac:(kf_body).
  - apply multi_loops_keep_frozen.
  - apply multi_loops_keep_frozen.
  - apply multi_loops_keep_frozen.
  - apply pingNext_keeps_frozen.
Qed.

Lemma initialize_keeps_frozen t s :
  keeps_frozen s (res_store (Task._initialize t s)).
Proof.
  unfold Task._initialize.
  destruct (Task.get t s) as [[x ta]|] eqn:Hg; [|kf_same].
  apply get_task_inv in Hg as [Hx Hb].
  assert (Hk : ∀ ws, keeps x (with_body (TaskB (Task.with_frozen ws ta)) x)).
  { intros ws ta0 Hb0. eexists. split; [reflexivity|]. done. }
  destruct (t_frozen ta); [kf_same|].
  destruct (Task.wrap_all ta s) as [ws|]; simpl; [|kf_insert Hx ltac:(apply Hk)].
  destruct (decorate_all_runners (Task.unwrap <$> ws) s) as [l1 H1].
  destruct (Task.decorate_all (Task.unwrap <$> ws) s) as [rs1 s1]. simpl in H1.
  eapply keeps_frozen_trans; [by apply (keeps_frozen_app s s1 l1)|].
  assert (Hx1 : runners s1 !! t = Some x) by (rewrite H1; by apply lookup_app_l_Some).
  destruct rs1 as [rs1|]; simpl; [|kf_insert Hx1 ltac:(apply Hk)].
  destruct (decorate_all_runners (t_schedules ta) s1) as [l2 H2].
  destruct (Task.decorate_all (t_schedules ta) s1) as [rs2 s2]. simpl in H2.
  eapply keeps_frozen_trans; [by apply (keeps_frozen_app s1 s2 l2)|].
  assert (Hx2 : runners s2 !! t = Some x) by (rewrite H2; by apply lookup_app_l_Some).
  destruct rs2 as [rs2|]; simpl; kf_insert Hx2 ltac:(apply Hk).
Qed.

Lemma exec_keeps_frozen f s : keeps_frozen s (res_store (exec f s)).
Proof.
  destruct f; simpl.
  - apply call_keeps_frozen.
  - apply start_keeps_frozen.
  - apply stop_keeps_frozen.
  - unfold hook_start. destruct (runners s !! r) as [x|] eqn:Hx; [|kf_same].
    destruct (r_body x) eqn:Hb; simpl.
    + kf_same.
    + unfold DecoratedRunner._start. destruct (plugins s !! nut); [|kf_same].
      destruct (p_start _); kf_same.
    + unfold MultiRunner._start, MultiRunner.get. rewrite Hx, Hb. simpl.
      kf_insert Hx ltac:(by eapply keeps_not_task).
    + unfold Task._start. destruct (Task.get r s) as [[??]|]; kf_same.
  - unfold hook_stop. destruct (runners s !! r) as [x|] eqn:Hx; [|kf_same].
    destruct (r_body x) eqn:Hb; simpl.
    + kf_same.
    + unfold DecoratedRunner._stop. destruct (plugins s !! nut); [|kf_same].
      destruct (p_stop _); kf_same.
    + unfold MultiRunner._stop, MultiRunner.get. rewrite Hx, Hb. simpl. kf_same.
    + unfold Task._stop. destruct (Task.get r s) as [[??]|]; kf_same.
  - unfold behave. destruct b as [|[[] e] b]; kf_same.
  - kf_same.
  - unfold unref. destruct (runners s !! r) as [x|] eqn:Hx; [|kf_same].
    destruct (r_body x) eqn:Hb; simpl.
    + kf_same.
    + unfold DecoratedRunner.unref. destruct (plugins s !! nut); [|kf_same].
      destruct (p_unref _); kf_same.
    + unfold MultiRunner.unref, MultiRunner.get. rewrite Hx, Hb. simpl.
      kf_insert Hx ltac:(by eapply keeps_not_task).
    + unfold Task.unref. destruct (Task.get r s) as [[??]|]; kf_same.
  - unfold unref_if. destruct (MultiRunner.get m s) as [[? mu]|]; [|kf_same].
    destruct (m_unref mu); kf_same.
  - unfold MultiRunner.addRunner.
    destruct (MultiRunner.get m s) as [[x mu]|] eqn:Hg; [|kf_same].
    apply get_multi_inv in Hg as [Hx Hb].
    destruct (m_frozen mu); [kf_same|]. simpl.
    kf_insert Hx ltac:(by eapply keeps_not_task).
  - apply initialize_keeps_frozen.
  - unfold Task._connectPlugins. destruct (Task.get t s) as [[? ta]|]; [|kf_same].
    destruct (forallb _ _); kf_same.
  - unfold Task.ping. destruct (Task.get t s) as [[x ta]|] eqn:Hg; [|kf_same].
    apply get_task_inv in Hg as [Hx Hb].
    destruct (t_pinging ta); [kf_same|]. simpl.
    kf_insert Hx ltac:(intros ta0 Hb0; eexists; split; [reflexivity|simpl; congruence]).
Qed.

Lemma step_keeps_frozen M M' :
  step M = Some M' → keeps_frozen (store_of M) (store_of M').
Proof.
  unfold step. destruct (thrown M); [done|].
  destruct (stack M) as [|f fs].
  - destruct (ticks (store_of M)) as [|f q].
    + destruct (immediates (store_of M)) as [|f q]; [done|].
      intros [= <-]. kf_same.
    + intros [= <-]. kf_same.
  - intros [= <-]. pose proof (exec_keeps_frozen f (store_of M)) as H.
    by destruct (exec f (store_of M)).
Qed.

Lemma steps_keep_frozen M M' :
  steps M M' → keeps_frozen (store_of M) (store_of M').
Proof.
  induction 1 as [M|M M1 M2 H1 _ IH]; [by intros t|].
  eapply keeps_frozen_trans; [by apply step_keeps_frozen|exact IH].
Qed.

Lemma initialize_freezes t x ta s :
  Task.get t s = Some (x, ta) → frozen t (res_store (Task._initialize t s)).
Proof.
  intros Hg. unfold Task._initialize. rewrite Hg.
  apply get_task_inv in Hg as Hinv. destruct Hinv as [Hx Hb].
  assert (Hlt : t < length (runners s)) by by eapply lookup_lt_Some.
  destruct (t_frozen ta) eqn:Hf; [by exists x, ta|].
  destruct (Task.wrap_all ta s) as [ws|]; simpl.
  - destruct (decorate_all_runners (Task.unwrap <$> ws) s) as [l1 H1].
    destruct (Task.decorate_all (Task.unwrap <$> ws) s) as [rs1 s1]. simpl in H1.
    assert (Hfr : ∀ s' ws', t < length (runners s') →
              frozen t (Task.put t x (Task.with_frozen ws' ta) s')).
    { intros s' ws' Hlt'.
      exists (with_body (TaskB (Task.with_frozen ws' ta)) x), (Task.with_frozen ws' ta).
      split; [|done]. apply get_task_lookup; [|done]. simpl.
      by apply list_lookup_insert_eq. }
    destruct rs1 as [rs1|]; simpl; [|apply Hfr; rewrite H1, length_app; lia].
    destruct (decorate_all_runners (t_schedules ta) s1) as [l2 H2].
    destruct (Task.decorate_all (t_schedules ta) s1) as [rs2 s2]. simpl in H2.
    destruct rs2 as [rs2|]; simpl; apply Hfr; rewrite H2, H1, !length_app; lia.
  - set (ta' := Task.with_frozen (t_pingablePlugins ta) ta).
    exists (with_body (TaskB ta') x), ta'. split; [|done].
    apply get_task_lookup; [|done]. simpl.
    by apply list_lookup_insert_eq.
Qed.

Lemma start_stopped r x a1 a2 s :
  runners s !! r = Some x → r_status x = Stopped →
  ∃ k s1,
    runners s1 = runners s ∧
    AbstractRunner.start r a1 a2 s
    = Ok [FHookStart r (KStartDone r k)] (set_runner r (with_status Starting x) s1).
Proof.
  intros Hx Hst. unfold AbstractRunner.start, AbstractRunner.start_default.
  pose proof (arguments_runners a1 a2 s) as Hr.
  destruct (AbstractRunner.arguments a1 a2 s) as [[opts cb] s1]. simpl in Hr.
  exists cb, s1. split; [done|]. rewrite Hr, Hx, Hst.
  by destruct opts as [[[]]|].
Qed.

(** C6. A task is frozen by its first [start], before any plugin is
    started. Once it is frozen every registration method throws, leaving
    the store, and so the four role lists, as it was; and no run of the
    machine, from any stack, makes the flag false again. *)
Theorem frozen_task (t : nat) (x : runner) (ta : task) (s : store) :
  Task.get t s = Some (x, ta) →
  (r_status x = Stopped →
   ∀ a1 a2, frozen t (store_of (run 3 (enter (FStart t a1 a2) s)))) ∧
  (t_frozen ta = true →
   ∀ ro arg1 arg2,
     Task._takePlugins t ro arg1 arg2 s
     = Throw ("Cannot " +:+ method_name ro +:+ "() after task has been frozen") s) ∧
  (t_frozen ta = true →
   ∀ fs M, steps (running s fs) M → frozen t (store_of M)).
Proof.
  intros Hg. apply get_task_inv in Hg as Hinv. destruct Hinv as [Hx Hb].
  split; [|split].
  - intros Hst a1 a2.
    destruct (start_stopped t x a1 a2 s Hx Hst) as (k & s1 & Hr & Hs).
    set (s2 := set_runner t (with_status Starting x) s1).
    assert (Hx2 : runners s2 !! t = Some (with_status Starting x)).
    { simpl. rewrite Hr. apply list_lookup_insert_eq. by eapply lookup_lt_Some. }
    assert (Hg2 : Task.get t s2 = Some (with_status Starting x, ta))
      by by apply get_task_lookup.
    assert (H1 : step (enter (FStart t a1 a2) s)
                 = Some (running s2 [FHookStart t (KStartDone t k)])).
    { unfold step. simpl. by rewrite Hs. }
    assert (H2 : step (running s2 [FHookStart t (KStartDone t k)])
                 = Some (running s2 [FInitialize t;
                                     FStart (t_multiRunner ta)
                                       (AFun (KStartDone t k)) None])).
    { unfold step. simpl. unfold hook_start. rewrite Hx2. simpl. rewrite Hb.
      unfold Task._start. by rewrite Hg2. }
    pose proof (initialize_freezes t _ ta s2 Hg2) as H3.
    cbn [run]. rewrite H1, H2. unfold step. simpl.
    by destruct (Task._initialize t s2).
  - intros Hf ro arg1 arg2. unfold Task._takePlugins. by rewrite Hg, Hf.
  - intros Hf fs M Hs.
    apply (steps_keep_frozen _ _ Hs t). by exists x, ta.
Qed.

(** The task of [demo_task] before its first start, with plugins that have
    no hooks at all. *)
Definition fresh_store : store :=
  Eval vm_compute in demo_task [None; None; None; None; None; None].

Lemma frozen_task_witness :
  frozen 1 (store_of (run 3 (enter (FStart 1 (AFun (KUser 0)) None) fresh_store))) ∧
  Task.collect 1 (PFn {| f_id := 7; f_make := λ _, 0 |}) OAbsent demo_store
    = Throw "Cannot collect() after task has been frozen" demo_store ∧
  Task.use 1 (PList [ElFn {| f_id := 7; f_make := λ _, 0 |}]) OAbsent demo_store
    = Throw "Cannot use() after task has been frozen" demo_store ∧
  frozen 1 (store_of (run 40 (enter (FStop 1 (AFun (KUser 9)) None) demo_store))).
Proof.
  destruct (frozen_task 1 _ _ fresh_store eq_refl) as (H1 & _ & _).
  destruct (frozen_task 1 _ _ demo_store eq_refl) as (_ & H2 & H3).
  split; [exact (H1 eq_refl _ _)|].
  split; [exact (H2 eq_refl Collect _ _)|].
  split; [exact (H2 eq_refl Use _ _)|].
  exact (H3 eq_refl _ _ (run_steps 40 _)).
Defined.

(** ** The order in which a task starts and stops its plugins *)

(** What [Runner.decorate] makes of a plugin. *)
Definition decorated (nut : nat) : runner :=
  {| r_status := Stopped; r_once_start := []; r_once_stop := [];
     r_body := Decorated nut |}.

(** The composite of a task after [_initializePlugins], for a task with
    one plugin in each role in a store of [n] runners: the three pingable
    roles were added first, the schedule last and with [stopFirst]. *)
Definition pipeline_multi (n : nat) : multi :=
  {| m_startOrder := [n; n + 1; n + 2; n + 3];
     m_stopOrder := [n + 3; n; n + 1; n + 2];
     m_unref := false; m_frozen := false |}.

(** A task that was never started, with exactly one collector [c], one
    processor [p], one publisher [b] and one schedule [sc]. *)
Definition one_of_each (s : store) (t : nat) (x : runner) (ta : task)
    (xm : runner) (c p b sc : nat) : Prop :=
  runners s !! t = Some x ∧ r_body x = TaskB ta ∧
  r_status x = Stopped ∧ r_once_start x = [] ∧ r_once_stop x = [] ∧
  t_frozen ta = false ∧
  t_collectors ta = [c] ∧ t_processors ta = [p] ∧
  t_publishers ta = [b] ∧ t_schedules ta = [sc] ∧
  runners s !! t_multiRunner ta = Some xm ∧
  r_body xm = Multi {| m_startOrder := []; m_stopOrder := [];
                       m_unref := false; m_frozen := false |} ∧
  r_status xm = Stopped ∧ r_once_start xm = [] ∧ r_once_stop xm = [].

Lemma wrap_one_of_each (s : store) (ta : task) (c p b : nat) :
  t_collectors ta = [c] → t_processors ta = [p] → t_publishers ta = [b] →
  is_Some (plugins s !! c) → is_Some (plugins s !! p) →
  is_Some (plugins s !! b) →
  ∃ wc wp wb,
    Task.wrap_all ta s = Some [wc; wp; wb] ∧
    w_plugin wc = c ∧ w_plugin wp = p ∧ w_plugin wb = b.
Proof.
  intros Hc Hp Hb [pc Hpc] [pp Hpp] [pb Hpb].
  unfold Task.wrap_all. rewrite Hc, Hp, Hb.
  unfold imap, Task.wrapper. rewrite Hpc, Hpp, Hpb.
  by eexists _, _, _.
Qed.

Lemma add_runner_exec (m r : nat) (stopFirst : bool) (x : runner) (mu : multi)
    (l : list runner) (s : store) :
  l !! m = Some x → r_body x = Multi mu →
  m_frozen mu = false → m_unref mu = false →
  exec (FAddRunner m r stopFirst) (set_runners l s)
  = Ok [] (set_runners
             (<[m := with_body
                       (Multi {| m_startOrder := m_startOrder mu ++ [r];
                                 m_stopOrder :=
                                   if stopFirst then r :: m_stopOrder mu
                                   else m_stopOrder mu ++ [r];
                                 m_unref := false; m_frozen := false |}) x]> l) s).
Proof.
  intros Hx Hb Hf Hu. simpl. unfold MultiRunner.addRunner.
  rewrite (get_multi_lookup m _ x mu) by done.
  rewrite Hf. simpl. rewrite Hu. unfold MultiRunner.put, set_runner. simpl.
  unfold MultiRunner.with_stopOrder, MultiRunner.with_startOrder. simpl.
  by rewrite Hf, Hu.
Qed.

(** The plugins [_connectPlugins] calls [on] of are event emitters:
    every collector and every processor has the method. *)
Definition connectable (s : store) (ta : task) : Prop :=
  Forall (λ p, has_on s p = true) (t_collectors ta ++ t_processors ta).

Lemma last_cons_default (x d : nat) (l : list nat) :
  List.last (x :: l) d = List.last l x.
Proof.
  revert x d. induction l as [|y l IH]; intros x d; [done|].
  change (List.last (x :: y :: l) d) with (List.last (y :: l) d).
  by rewrite (IH y d), (IH y x).
Qed.

(** [_connectPlugins] subscribes to the collectors in order and then to
    the processors in order. *)
Lemma connect_subjects (t : nat) (ta : task) :
  (Wiring._connectPlugins t ta).*1 = t_collectors ta ++ t_processors ta.
Proof.
  unfold Wiring._connectPlugins.
  assert (Hc : ∀ f : metric_listener,
            ((λ c : nat, (c, f)) <$> t_collectors ta).*1 = t_collectors ta).
  { intros f. rewrite <- list_fmap_compose. apply list_fmap_id. }
  destruct (t_processors ta) as [|p1 rest].
  - by rewrite Hc, app_nil_r.
  - rewrite !fmap_app, Hc. f_equal. simpl.
    revert p1. induction rest as [|q rest IH]; intros p1; [done|].
    cbn [reduce_links fmap list_fmap fst app]. f_equal.
    rewrite last_cons_default. apply IH.
Qed.

Lemma connect_exec (t : nat) (x : runner) (ta : task) (s : store) :
  Task.get t s = Some (x, ta) → connectable s ta →
  exec (FConnect t) s = Ok [] s.
Proof.
  intros Hg Hc. simpl. unfold Task._connectPlugins. rewrite Hg, connect_subjects.
  replace (forallb (has_on s) (t_collectors ta ++ t_processors ta)) with true;
    [done|].
  symmetry. apply forallb_forall. intros q Hq.
  unfold connectable in Hc. rewrite Forall_forall in Hc.
  apply Hc. by apply list_elem_of_In.
Qed.


(** Decorating plugins that exist makes one new runner each, in order. *)
Lemma decorate_all_spec (nuts : list nat) :
  ∀ s, Forall (λ p, is_Some (plugins s !! p)) nuts →
       Task.decorate_all nuts s
       = (Some (seq (length (runners s)) (length nuts)),
          set_runners (runners s ++ (decorated <$> nuts)) s).
Proof.
  induction nuts as [|nut nuts IH]; intros s Hall.
  - simpl. rewrite app_nil_r. by destruct s.
  - apply Forall_cons in Hall as [[pl Hpl] Hall].
    simpl. unfold DecoratedRunner.create, AbstractRunner.create. rewrite Hpl.
    rewrite IH by done. simpl. rewrite length_app. simpl.
    replace (length (runners s) + 1) with (S (length (runners s))) by lia.
    by rewrite <- app_assoc.
Qed.

(** The first [start] of such a task, up to the call that starts its
    composite: the four plugins are decorated, in the order collector,
    processor, publisher, schedule, and added to the composite; then the
    collector and the processor are subscribed to. *)
Lemma task_start_prepare (t : nat) (x : runner) (ta : task) (xm : runner)
    (c p b sc : nat) (k : cont) (s : store) :
  one_of_each s t x ta xm c p b sc →
  is_Some (plugins s !! c) → is_Some (plugins s !! p) →
  is_Some (plugins s !! b) → is_Some (plugins s !! sc) →
  connectable s ta →
  ∃ ws,
    steps (running s [FStart t (AFun k) None])
          (running
             (set_runners
                (<[t_multiRunner ta :=
                     with_body (Multi (pipeline_multi (length (runners s)))) xm]>
                   (<[t := with_body (TaskB (Task.with_frozen ws ta))
                             (with_status Starting x)]>
                      (runners s ++ [decorated c; decorated p; decorated b;
                                     decorated sc]))) s)
             [FStart (t_multiRunner ta) (AFun (KStartDone t k)) None]).
Proof.
  intros (Hx & Hb & Hst & Hos & Hop & Hf & Hc & Hp & Hpub & Hsc & Hxm & Hbm
          & Hstm & Hosm & Hopm) Hpc Hpp Hpb Hpsc Hon.
  set (m := t_multiRunner ta) in *.
  set (n := length (runners s)).
  assert (Hlt : t < n) by by eapply lookup_lt_Some.
  assert (Hlm : m < n) by by eapply lookup_lt_Some.
  assert (Hne : t ≠ m).
  { intros ->. rewrite Hx in Hxm. injection Hxm as ->. congruence. }
  set (s1 := set_runner t (with_status Starting x) s).
  destruct (wrap_one_of_each s1 ta c p b Hc Hp Hpub Hpc Hpp Hpb)
    as (wc & wp & wb & Hw & Hwc & Hwp & Hwb).
  eexists.
  eapply steps_exec.
  { simpl. unfold AbstractRunner.start. simpl. rewrite Hx.
    unfold AbstractRunner.start_default. rewrite Hst. reflexivity. }
  eapply steps_exec.
  { simpl. unfold hook_start. simpl.
    rewrite list_lookup_insert_eq by done. simpl. rewrite Hb.
    unfold Task._start.
    rewrite (get_task_lookup t _ (with_status Starting x) ta); [reflexivity| |done].
    simpl. by apply list_lookup_insert_eq. }
  eapply steps_exec.
  { simpl. unfold Task._initialize.
    rewrite (get_task_lookup t _ (with_status Starting x) ta);
      [|simpl; by apply list_lookup_insert_eq|done].
    rewrite Hf. fold s1. rewrite Hw.
    rewrite Hsc. cbn [fmap list_fmap]. unfold Task.unwrap. rewrite Hwc, Hwp, Hwb.
    rewrite decorate_all_spec
      by (apply Forall_cons_2; [done|]; apply Forall_cons_2; [done|];
          by apply Forall_cons_2).
    rewrite decorate_all_spec by by apply Forall_cons_2.
    simpl. rewrite !length_app, !length_insert. simpl. fold n. reflexivity. }
  simpl.
  set (x1 := with_body (TaskB (Task.with_frozen
                (filter (λ w, w_pingable w = true) [wc; wp; wb]) ta))
              (with_status Starting x)).
  set (l := <[t := x1]> (runners s ++ [decorated c; decorated p; decorated b;
                                       decorated sc])).
  assert (Hl : l !! m = Some xm).
  { unfold l. rewrite list_lookup_insert_ne by done. by apply lookup_app_l_Some. }
  assert (Hll : m < length l) by by eapply lookup_lt_Some.
  eapply steps_trans.
  { apply steps_eq with
      (M' := running (set_runners l s)
               [FAddRunner m n false; FAddRunner m (S n) false;
                FAddRunner m (S (S n)) false; FAddRunner m (S (S (S n))) true;
                FConnect t;
                FStart m (AFun (KStartDone t k)) None]).
    unfold running, Task.put, set_runner, set_runners. simpl. do 2 f_equal.
    - unfold l. rewrite <- !app_assoc. simpl.
      rewrite !insert_app_l by (rewrite ?length_insert; lia).
      by rewrite list_insert_insert_eq.
    - fold m. repeat f_equal; lia. }
  eapply steps_exec; [by apply (add_runner_exec m _ _ xm _ l s Hl Hbm)|].
  eapply steps_exec.
  { eapply add_runner_exec; [by apply list_lookup_insert_eq|done..]. }
  rewrite list_insert_insert_eq.
  eapply steps_exec.
  { eapply add_runner_exec; [by apply list_lookup_insert_eq|done..]. }
  rewrite list_insert_insert_eq.
  eapply steps_exec.
  { eapply add_runner_exec; [by apply list_lookup_insert_eq|done..]. }
  rewrite list_insert_insert_eq. simpl.
  eapply steps_exec.
  { apply (connect_exec t x1
             (Task.with_frozen (filter (λ w, w_pingable w = true) [wc; wp; wb]) ta)).
    - apply get_task_lookup; [|reflexivity]. simpl.
      rewrite list_lookup_insert_ne by done. unfold l.
      apply list_lookup_insert_eq. rewrite length_app. lia.
    - exact Hon. }
  apply steps_eq. unfold running. do 3 f_equal.
  replace (pipeline_multi n)
    with {| m_startOrder := [n; S n; S (S n); S (S (S n))];
            m_stopOrder := [S (S (S n)); n; S n; S (S n)];
            m_unref := false; m_frozen := false |}; [done|].
  unfold pipeline_multi. repeat f_equal; lia.
Qed.

(** The hooks of a plugin, as its decorated runner sees them. *)
Definition plugin_start (s : store) (nut : nat) : option spec :=
  leaf_start (plugins s) 0 (Decorated nut).

Definition plugin_stop (s : store) (nut : nat) : option spec :=
  leaf_stop (plugins s) 0 (Decorated nut).

Definition start_hook (s : store) (nut : nat) : list event :=
  from_option hook_trace [] (plugin_start s nut).

Definition stop_hook (s : store) (nut : nat) : list event :=
  from_option hook_trace [] (plugin_stop s nut).

Definition stop_failure (s : store) (nut : nat) : option err :=
  plugin_stop s nut ≫= λ sp, sp.2.

(** A plugin whose start hook, if it has one, completes once and without
    an error, and whose stop hook, if it has one, completes once. *)
Definition hooks_once (s : store) (nut : nat) : Prop :=
  (∃ sp, plugin_start s nut = Some sp ∧ sp.2 = None) ∧
  is_Some (plugin_stop s nut).

Lemma hooks_once_plugin s nut : hooks_once s nut → is_Some (plugins s !! nut).
Proof.
  intros [_ [sp H]]. unfold plugin_stop, leaf_stop in H.
  by destruct (plugins s !! nut).
Qed.

Definition pipeline_ids (n : nat) : list nat := [n; n + 1; n + 2; n + 3].

Lemma pipeline_ids_below n i : i < n → i ∉ pipeline_ids n.
Proof.
  intros Hi. unfold pipeline_ids. rewrite !not_elem_of_cons.
  repeat split; try lia. apply not_elem_of_nil.
Qed.

Lemma pipeline_ids_NoDup n : NoDup (pipeline_ids n).
Proof.
  unfold pipeline_ids.
  repeat (apply NoDup_cons; split;
          [rewrite ?not_elem_of_cons; repeat split; try lia; apply not_elem_of_nil|]).
  apply NoDup_nil_2.
Qed.

Lemma pipeline_stop_NoDup n : NoDup (m_stopOrder (pipeline_multi n)).
Proof.
  simpl.
  repeat (apply NoDup_cons; split;
          [rewrite ?not_elem_of_cons; repeat split; try lia; apply not_elem_of_nil|]).
  apply NoDup_nil_2.
Qed.

Lemma pipeline_stop_ids n i :
  i ∈ m_stopOrder (pipeline_multi n) ↔ i ∈ pipeline_ids n.
Proof. simpl. unfold pipeline_ids. rewrite !elem_of_cons. tauto. Qed.

(** The decorated runners of the four plugins sit behind the runners that
    were there before. *)
Lemma lookup_decorated (rs decs : list runner) (i j : nat) (a b d : runner) (k : nat) :
  i < length rs → j < length rs → decs !! k = Some d →
  <[i := a]> (<[j := b]> (rs ++ decs)) !! (length rs + k) = Some d.
Proof.
  intros Hi Hj Hd. rewrite !list_lookup_insert_ne by lia.
  rewrite lookup_app_r by lia. by replace (length rs + k - length rs) with k by lia.
Qed.

Definition start_spec (s : store) (nut : nat) : spec :=
  default (None, NextTick, None) (plugin_start s nut).

Lemma start_spec_trace s nut : hook_trace (start_spec s nut) = start_hook s nut.
Proof. unfold start_spec, start_hook. by destruct (plugin_start s nut). Qed.

(** The runners once the task has started: the plugins' runners, the
    composite and the task itself are Started. *)
Definition pipeline_started (s : store) (t : nat) (x : runner) (ta : task)
    (xm : runner) (ws : list wrapped) (c p b sc : nat) : list runner :=
  let n := length (runners s) in
  let xm' := with_body (Multi (pipeline_multi n)) xm in
  <[t := with_status Started (with_body (TaskB (Task.with_frozen ws ta)) x)]>
    (<[t_multiRunner ta :=
         with_status Started (starting_multi xm' (pipeline_multi n))]>
       (set_status_all Started (pipeline_ids n)
          (<[t_multiRunner ta := xm']>
             (<[t := with_body (TaskB (Task.with_frozen ws ta))
                       (with_status Starting x)]>
                (runners s ++ [decorated c; decorated p; decorated b;
                               decorated sc]))))).

(** [start] on such a task, from the call to the caller's callback. *)
Lemma task_start_run (t : nat) (x : runner) (ta : task) (xm : runner)
    (c p b sc : nat) (k : cont) (s : store) :
  one_of_each s t x ta xm c p b sc →
  Forall (hooks_once s) [c; p; b; sc] →
  connectable s ta →
  ticks s = [] → immediates s = [] →
  ∃ ws u cs,
    steps (running s [FStart t (AFun k) None])
          (running
             (upd s (pipeline_started s t x ta xm ws c p b sc) cs [] []
                (trace s ++ ([c; p; b; sc] ≫= start_hook s)) u)
             [FCall k None]).
Proof.
  intros Hone Hall Hon Ht Hi.
  apply Forall_cons in Hall as [Hhc Hall]. apply Forall_cons in Hall as [Hhp Hall].
  apply Forall_cons in Hall as [Hhb Hall]. apply Forall_cons in Hall as [Hhs _].
  destruct (task_start_prepare t x ta xm c p b sc k s Hone) as [ws Hprep];
    try (by apply hooks_once_plugin); [exact Hon|].
  destruct Hone as (Hx & Hb & Hst & Hos & Hop & Hf & Hc & Hp & Hpub & Hsc & Hxm
                    & Hbm & Hstm & Hosm & Hopm).
  set (m := t_multiRunner ta) in *.
  set (n := length (runners s)) in *.
  assert (Hlt : t < n) by by eapply lookup_lt_Some.
  assert (Hlm : m < n) by by eapply lookup_lt_Some.
  assert (Hne : t ≠ m).
  { intros ->. rewrite Hx in Hxm. injection Hxm as ->. congruence. }
  set (x1 := with_body (TaskB (Task.with_frozen ws ta)) (with_status Starting x)) in *.
  set (xm4 := with_body (Multi (pipeline_multi n)) xm) in *.
  set (l0 := runners s ++ [decorated c; decorated p; decorated b; decorated sc]) in *.
  set (l4 := <[m := xm4]> (<[t := x1]> l0)) in *.
  set (s4 := set_runners l4 s) in *.
  assert (Hl0 : length l0 = n + 4) by (unfold l0; rewrite length_app; simpl; lia).
  set (pre := [(n, start_spec s c); (n + 1, start_spec s p);
               (n + 2, start_spec s b); (n + 3, start_spec s sc)]).
  assert (Hkid : ∀ i nut,
            [c; p; b; sc] !! i = Some nut → hooks_once s nut →
            succeeds s4 (n + i, start_spec s nut)).
  { intros i nut Hi' [(sp & Hsp & Hok) _]. split.
    - exists (decorated nut). split; [|split; [done|split; [done|]]].
      + apply lookup_decorated; [done..|].
        change [decorated c; decorated p; decorated b; decorated sc]
          with (decorated <$> [c; p; b; sc]).
        by rewrite list_lookup_fmap, Hi'.
      + unfold start_spec. rewrite Hsp. exact Hsp.
    - unfold start_spec. simpl. by rewrite Hsp. }
  destruct (multi_start_run m xm4 (pipeline_multi n) (KStartDone t k) s4 pre)
    as (u & cs & Hrun); try done.
  { simpl. apply list_lookup_insert_eq. rewrite length_insert. lia. }
  { pose proof (Hkid 0 c eq_refl Hhc) as H0. rewrite Nat.add_0_r in H0.
    apply Forall_cons_2; [exact H0|].
    apply Forall_cons_2; [by apply (Hkid 1)|].
    apply Forall_cons_2; [by apply (Hkid 2)|].
    apply Forall_cons_2; [by apply (Hkid 3)|]. apply Forall_nil_2. }
  { apply pipeline_ids_NoDup. }
  { by apply pipeline_ids_below. }
  exists ws, u, cs.
  eapply steps_trans; [exact Hprep|].
  eapply steps_trans; [exact Hrun|].
  eapply steps_trans.
  { apply (start_completion t x1 k None _ []).
    - unfold upd. cbn [runners]. rewrite list_lookup_insert_ne by done.
      rewrite lookup_set_status_all_ne by (by apply pipeline_ids_below).
      unfold s4, l4. cbn [runners set_runners].
      rewrite list_lookup_insert_ne by done.
      apply list_lookup_insert_eq. lia.
    - simpl. rewrite Hos. constructor. }
  apply steps_eq. unfold running, upd, set_runner, set_runners, set_ticks. simpl.
  rewrite Hos. simpl. do 2 f_equal.
  - unfold pipeline_started. fold n m xm4 l0 x1 l4. f_equal.
    unfold x1. destruct x; simpl in *; by subst.
  - by rewrite !start_spec_trace.
Qed.

Lemma pipeline_ids_in n i : i < 4 → n + i ∈ pipeline_ids n.
Proof. intros Hi. unfold pipeline_ids. rewrite !elem_of_cons. lia. Qed.

Lemma length_pipeline_started s t x ta xm ws c p b sc :
  length (pipeline_started s t x ta xm ws c p b sc) = length (runners s) + 4.
Proof.
  unfold pipeline_started.
  rewrite !length_insert, length_set_status_all, !length_insert, length_app.
  simpl. lia.
Qed.

(** A decorated runner stops as its plugin does. *)
Lemma stop_of_decorated (s s' : store) (r nut : nat) (y : runner) :
  runners s' !! r = Some y → r_body y = Decorated nut →
  plugins s' = plugins s →
  stop_events s' r = stop_hook s nut ∧ stop_error s' r = stop_failure s nut.
Proof.
  intros Hy Hb Hp.
  unfold stop_events, stop_error, stop_of, stop_hook, stop_failure, plugin_stop.
  rewrite Hy. simpl. by rewrite Hb, Hp.
Qed.

Lemma stops_as_plugins (s s' : store) (rs nuts : list nat) :
  Forall2 (λ r nut, stop_events s' r = stop_hook s nut ∧
                    stop_error s' r = stop_failure s nut) rs nuts →
  rs ≫= stop_events s' = nuts ≫= stop_hook s ∧
  omap (stop_error s') rs = omap (stop_failure s) nuts.
Proof.
  induction 1 as [|r nut rs nuts [H1 H2] _ [IH1 IH2]]; [done|].
  rewrite !bind_cons, H1, IH1. split; [done|].
  change (omap (stop_error s') (r :: rs))
    with (match stop_error s' r with
          | Some y => y :: omap (stop_error s') rs
          | None => omap (stop_error s') rs
          end).
  change (omap (stop_failure s) (nut :: nuts))
    with (match stop_failure s nut with
          | Some y => y :: omap (stop_failure s) nuts
          | None => omap (stop_failure s) nuts
          end).
  by rewrite H2, IH2.
Qed.

(** [stop] on the started task, from the call to the caller's callback. *)
Lemma task_stop_run (t : nat) (x : runner) (ta : task) (xm : runner)
    (c p b sc : nat) (k : cont) (s : store)
    (ws : list wrapped) (cs : list cell) (tr : list event) (u : list nat) :
  one_of_each s t x ta xm c p b sc →
  Forall (hooks_once s) [c; p; b; sc] →
  ∃ rs' cs' u',
    steps (running (upd s (pipeline_started s t x ta xm ws c p b sc) cs [] [] tr u)
             [FStop t (AFun k) None])
          (running
             (upd s rs' cs' [] [] (tr ++ ([sc; c; p; b] ≫= stop_hook s)) u')
             [FCall k (aggregate (omap (stop_failure s) [sc; c; p; b]))]) ∧
    r_status <$> rs' !! t = Some Stopped.
Proof.
  intros Hone Hall.
  destruct Hone as (Hx & Hb & Hst & Hos & Hop & Hf & Hc & Hp & Hpub & Hsc & Hxm
                    & Hbm & Hstm & Hosm & Hopm).
  set (m := t_multiRunner ta) in *.
  set (n := length (runners s)) in *.
  assert (Hlt : t < n) by by eapply lookup_lt_Some.
  assert (Hlm : m < n) by by eapply lookup_lt_Some.
  assert (Hne : t ≠ m).
  { intros ->. rewrite Hx in Hxm. injection Hxm as ->. congruence. }
  set (l7 := pipeline_started s t x ta xm ws c p b sc).
  assert (Hl7 : length l7 = n + 4) by apply length_pipeline_started.
  set (xt := with_status Started (with_body (TaskB (Task.with_frozen ws ta)) x)).
  set (xm4 := with_body (Multi (pipeline_multi n)) xm).
  set (xm5 := with_status Started (starting_multi xm4 (pipeline_multi n))).
  set (mu5 := MultiRunner.with_frozen true (pipeline_multi n)).
  set (s7 := upd s l7 cs [] [] tr u).
  set (s8 := set_runner t (with_status Stopping xt) s7).
  assert (Hxt : l7 !! t = Some xt).
  { unfold l7, pipeline_started. fold n m. apply list_lookup_insert_eq.
    rewrite length_insert, length_set_status_all, !length_insert, length_app.
    simpl. lia. }
  assert (Hm8 : runners s8 !! m = Some xm5).
  { unfold s8, s7, upd, set_runner, set_runners. cbn [runners].
    rewrite list_lookup_insert_ne by done.
    unfold l7, pipeline_started. fold n m xm4 xm5.
    rewrite list_lookup_insert_ne by done. apply list_lookup_insert_eq.
    rewrite length_set_status_all, !length_insert, length_app. simpl. lia. }
  assert (Hkid : ∀ i nut,
            [c; p; b; sc] !! i = Some nut →
            runners s8 !! (n + i) = Some (with_status Started (decorated nut))).
  { intros i nut Hi.
    assert (i < 4) by (apply lookup_lt_Some in Hi; simpl in Hi; lia).
    unfold s8, s7, upd, set_runner, set_runners. cbn [runners].
    rewrite list_lookup_insert_ne by lia.
    unfold l7, pipeline_started. fold n m xm4 xm5.
    rewrite !list_lookup_insert_ne by lia.
    rewrite lookup_set_status_all by by apply pipeline_ids_in.
    unfold n. rewrite (lookup_decorated _ _ _ _ _ _ (decorated nut)); [done..|].
    change [decorated c; decorated p; decorated b; decorated sc]
      with (decorated <$> [c; p; b; sc]).
    by rewrite list_lookup_fmap, Hi. }
  assert (Hchild : ∀ i nut,
            [c; p; b; sc] !! i = Some nut → hooks_once s nut →
            started_child s8 (n + i)).
  { intros i nut Hi [_ Hstop].
    exists (with_status Started (decorated nut)).
    split; [by apply Hkid|]. split; [done|]. split; [done|]. exact Hstop. }
  apply Forall_cons in Hall as [Hhc Hall]. apply Forall_cons in Hall as [Hhp Hall].
  apply Forall_cons in Hall as [Hhb Hall]. apply Forall_cons in Hall as [Hhs _].
  destruct (multi_stop_run m xm5 mu5 (KStopDone t k) s8 Hm8)
    as (u' & cs' & Hrun); try done.
  { pose proof (Hchild 0 c eq_refl Hhc) as H0. rewrite Nat.add_0_r in H0.
    apply Forall_cons_2; [by apply (Hchild 3 sc)|].
    apply Forall_cons_2; [exact H0|].
    apply Forall_cons_2; [by apply (Hchild 1 p)|].
    apply Forall_cons_2; [by apply (Hchild 2 b)|]. apply Forall_nil_2. }
  { apply pipeline_stop_NoDup. }
  { intros Hin. apply pipeline_stop_ids in Hin.
    by apply (pipeline_ids_below n m). }
  assert (Hplug : ∀ i nut,
            [c; p; b; sc] !! i = Some nut →
            stop_events s8 (n + i) = stop_hook s nut ∧
            stop_error s8 (n + i) = stop_failure s nut).
  { intros i nut Hi.
    by apply (stop_of_decorated s s8 _ nut _ (Hkid i nut Hi)). }
  destruct (stops_as_plugins s s8 (m_stopOrder mu5) [sc; c; p; b]) as [Hev Herr].
  { pose proof (Hplug 0 c eq_refl) as H0. rewrite Nat.add_0_r in H0.
    change (m_stopOrder mu5) with [n + 3; n; n + 1; n + 2].
    constructor; [by apply (Hplug 3 sc)|].
    constructor; [exact H0|].
    constructor; [by apply (Hplug 1 p)|].
    constructor; [by apply (Hplug 2 b)|]. constructor. }
  rewrite Hev, Herr in Hrun.
  eexists _, cs', u'. split.
  - eapply steps_exec.
    { simpl. unfold AbstractRunner.stop. simpl. fold l7. rewrite Hxt.
      unfold AbstractRunner.stop_default. reflexivity. }
    eapply steps_exec.
    { simpl. unfold hook_stop. simpl. fold l7.
      rewrite list_lookup_insert_eq by lia. simpl.
      unfold Task._stop.
      rewrite (get_task_lookup t _ (with_status Stopping xt) (Task.with_frozen ws ta));
        [reflexivity| |done].
      simpl. fold l7. apply list_lookup_insert_eq. lia. }
    eapply steps_trans; [exact Hrun|].
    eapply steps_trans.
    { apply (stop_completion t (with_status Stopping xt) k _ _ []).
      - unfold upd. cbn [runners]. rewrite list_lookup_insert_ne by done.
        rewrite lookup_set_status_all_ne.
        + unfold s8, s7, upd, set_runner, set_runners. cbn [runners].
          apply list_lookup_insert_eq. lia.
        + intros Hin. apply pipeline_stop_ids in Hin.
          by apply (pipeline_ids_below n t).
      - simpl. rewrite Hop. constructor. }
    apply steps_eq.
    unfold running, upd, set_runner, set_runners, set_ticks. cbn [runners].
    simpl. rewrite Hop. simpl. reflexivity.
  - simpl. rewrite list_lookup_insert_eq; [done|].
    rewrite length_insert, !length_alter, length_insert. lia.
Qed.

(** C5. A task that has exactly one collector, one processor, one
    publisher and one schedule, whose hooks each complete once and whose
    collector and processor are event emitters, is started and, when that
    has completed, stopped. The start hooks are invoked in
    the order collector, processor, publisher, schedule, each after the
    one before has completed, and then the caller's callback runs without
    an error. The stop hooks are invoked in the order schedule, collector,
    processor, publisher, and then the caller's callback runs with the
    errors of the stop hooks combined. In between, the composite of the
    task holds the decorated plugins: its start order is the order in
    which they were added, and its stop order has the schedule, added with
    [stopFirst], in front. *)
Theorem task_plugin_order (t : nat) (x : runner) (ta : task) (xm : runner)
    (c p b sc : nat) (k1 k2 : nat) (s : store) :
  one_of_each s t x ta xm c p b sc →
  Forall (hooks_once s) [c; p; b; sc] →
  connectable s ta →
  ticks s = [] → immediates s = [] →
  let n := length (runners s) in
  ∃ M1 M2,
    steps (enter (FStart t (AFun (KUser k1)) None) s) M1 ∧ quiet M1 ∧
    trace (store_of M1)
    = trace s ++ ([c; p; b; sc] ≫= start_hook s) ++ [Called k1 None] ∧
    (∃ y mu, MultiRunner.get (t_multiRunner ta) (store_of M1) = Some (y, mu) ∧
             m_startOrder mu = [n; n + 1; n + 2; n + 3] ∧
             m_stopOrder mu = [n + 3; n; n + 1; n + 2]) ∧
    (∀ i nut, [c; p; b; sc] !! i = Some nut →
              r_body <$> runners (store_of M1) !! (n + i) = Some (Decorated nut)) ∧
    steps (enter (FStop t (AFun (KUser k2)) None) (store_of M1)) M2 ∧ quiet M2 ∧
    trace (store_of M2)
    = trace (store_of M1) ++ ([sc; c; p; b] ≫= stop_hook s)
        ++ [Called k2 (aggregate (omap (stop_failure s) [sc; c; p; b]))] ∧
    AbstractRunner.get_status t (store_of M2) = Some Stopped.
Proof.
  intros Hone Hall Hon Ht Hi n.
  destruct (task_start_run t x ta xm c p b sc (KUser k1) s Hone Hall Hon Ht Hi)
    as (ws & u & cs & Hstart).
  set (tr1 := trace s ++ ([c; p; b; sc] ≫= start_hook s)) in *.
  set (l7 := pipeline_started s t x ta xm ws c p b sc) in *.
  destruct (task_stop_run t x ta xm c p b sc (KUser k2) s ws cs
              (tr1 ++ [Called k1 None]) u Hone Hall)
    as (rs' & cs' & u' & Hstop & Hfinal).
  fold l7 in Hstop.
  destruct Hone as (Hx & Hb & Hst & Hos & Hop & Hf & Hc & Hp & Hpub & Hsc & Hxm
                    & Hbm & Hstm & Hosm & Hopm).
  set (m := t_multiRunner ta) in *.
  assert (Hlt : t < n) by by eapply lookup_lt_Some.
  assert (Hlm : m < n) by by eapply lookup_lt_Some.
  assert (Hne : t ≠ m).
  { intros ->. rewrite Hx in Hxm. injection Hxm as ->. congruence. }
  exists (running (upd s l7 cs [] [] (tr1 ++ [Called k1 None]) u) []).
  eexists. split; [|split; [by repeat split|split]].
  - eapply steps_trans; [exact Hstart|].
    eapply steps_exec; [reflexivity|]. apply steps_refl.
  - simpl. unfold tr1. by rewrite <- app_assoc.
  - split; [|split; [|split; [|split; [|split]]]].
    + exists (with_status Started
                (starting_multi (with_body (Multi (pipeline_multi n)) xm)
                   (pipeline_multi n))),
             (MultiRunner.with_frozen true (pipeline_multi n)).
      split; [|split; reflexivity].
      apply get_multi_lookup; [|reflexivity].
      simpl. unfold l7, pipeline_started. fold n m.
      rewrite list_lookup_insert_ne by done. apply list_lookup_insert_eq.
      rewrite length_set_status_all, !length_insert, length_app. simpl. lia.
    + intros i nut Hnut.
      assert (i < 4) by (apply lookup_lt_Some in Hnut; simpl in Hnut; lia).
      simpl. unfold l7, pipeline_started. fold n m.
      rewrite !list_lookup_insert_ne by lia.
      rewrite lookup_set_status_all by by apply pipeline_ids_in.
      unfold n. rewrite (lookup_decorated _ _ _ _ _ _ (decorated nut)); [done..|].
      change [decorated c; decorated p; decorated b; decorated sc]
        with (decorated <$> [c; p; b; sc]).
      by rewrite list_lookup_fmap, Hnut.
    + eapply steps_trans; [exact Hstop|].
      eapply steps_exec; [reflexivity|]. apply steps_refl.
    + by repeat split.
    + simpl. by rewrite <- app_assoc.
    + unfold AbstractRunner.get_status. simpl. exact Hfinal.
Qed.

(** The task of the test suite: a collector, a schedule, a processor and a
    publisher, registered in that order; every plugin has a start and a
    stop hook that complete through [setImmediate]. The task is runner 1,
    its composite runner 0. *)
Definition order_store : store :=
  Eval vm_compute in
    let s := set_plugins (demo_plugin <$> [None; None; None; None]) empty_store in
    let '(t, s) := Task.create None s in
    register Publish 3 t (register Process 2 t
      (register Schedule 1 t (register Collect 0 t s))).

Lemma task_plugin_order_witness :
  ∃ M1 M2,
    steps (enter (FStart 1 (AFun (KUser 7)) None) order_store) M1 ∧ quiet M1 ∧
    trace (store_of M1)
    = trace order_store
        ++ [Invoke (PStart 0); Complete (PStart 0) None;
            Invoke (PStart 2); Complete (PStart 2) None;
            Invoke (PStart 3); Complete (PStart 3) None;
            Invoke (PStart 1); Complete (PStart 1) None;
            Called 7 None] ∧
    (∃ y mu, MultiRunner.get 0 (store_of M1) = Some (y, mu) ∧
             m_startOrder mu = [2; 3; 4; 5] ∧ m_stopOrder mu = [5; 2; 3; 4]) ∧
    steps (enter (FStop 1 (AFun (KUser 8)) None) (store_of M1)) M2 ∧ quiet M2 ∧
    trace (store_of M2)
    = trace (store_of M1)
        ++ [Invoke (PStop 1); Complete (PStop 1) None;
            Invoke (PStop 0); Complete (PStop 0) None;
            Invoke (PStop 2); Complete (PStop 2) None;
            Invoke (PStop 3); Complete (PStop 3) None;
            Called 8 None] ∧
    AbstractRunner.get_status 1 (store_of M2) = Some Stopped.
Proof.
  unshelve epose proof (task_plugin_order 1 _ _ _ 0 2 3 1 7 8 order_store _ _ _
                          eq_refl eq_refl) as H.
  4: { unfold one_of_each. repeat (split; [reflexivity|]). reflexivity. }
  - repeat (apply Forall_cons_2;
            [split; [eexists; split; reflexivity|eexists; reflexivity]|]).
    apply Forall_nil_2.
  - repeat (apply Forall_cons_2; [reflexivity|]). apply Forall_nil_2.
  - destruct H as (M1 & M2 & H1 & H2 & H3 & H4 & _ & H5 & H6 & H7 & H8).
    exists M1, M2. repeat (split; [assumption|]). assumption.
Defined.

(** * Further properties of the library *)

(** ** A composite runner whose children all start *)

(** [start] on a Stopped composite runner whose children are Stopped
    leaves with start hooks that complete once, without an error: the
    start hooks run in start order, each after the one before has
    completed; then the caller's callback runs once, without an error. The
    composite and its children end Started, and nothing is left to run. A
    composite without children calls back all the same. *)
Theorem composite_start (m : nat) (xm : runner) (mu : multi) (tag : nat)
    (s : store) :
  runners s !! m = Some xm →
  r_body xm = Multi mu →
  r_status xm = Stopped →
  r_once_start xm = [] →
  Forall (starts_ok s) (m_startOrder mu) →
  NoDup (m_startOrder mu) →
  m ∉ m_startOrder mu →
  ticks s = [] → immediates s = [] →
  ∃ M,
    steps (enter (FStart m (AFun (KUser tag)) None) s) M ∧
    quiet M ∧
    trace (store_of M)
    = trace s ++ (m_startOrder mu ≫= start_events s) ++ [Called tag None] ∧
    ∀ r, r ∈ m :: m_startOrder mu →
         AbstractRunner.get_status r (store_of M) = Some Started.
Proof.
  intros Hxm Hbm Hst Hos Hkids Hnd Hnm Ht Hi.
  pose proof (start_entries_ids s (m_startOrder mu)) as Hids.
  destruct (multi_start_run m xm mu (KUser tag) s
              (start_entries s (m_startOrder mu)) Hxm Hbm Hst Hos)
    as (u & cs & Hs); try done.
  { by apply start_entries_succeed. }
  { by rewrite Hids. }
  { by rewrite Hids. }
  rewrite Hids, start_entries_trace in Hs.
  eexists. split; [|split; [|split]].
  - eapply steps_trans; [exact Hs|].
    eapply steps_exec; [reflexivity|]. apply steps_refl.
  - by repeat split.
  - simpl. by rewrite <- app_assoc.
  - intros r Hr. unfold AbstractRunner.get_status. simpl.
    assert (Hlen : m < length (set_status_all Started (m_startOrder mu) (runners s))).
    { rewrite length_set_status_all. by eapply lookup_lt_Some. }
    apply elem_of_cons in Hr as [->|Hr].
    + by rewrite list_lookup_insert_eq.
    + rewrite list_lookup_insert_ne by (intros ->; done).
      rewrite lookup_set_status_all by done.
      apply list_elem_of_lookup in Hr as [i Hi'].
      eapply Forall_lookup in Hkids as (x & sp & Hx & _); [|exact Hi'].
      by rewrite Hx.
Qed.

(** The composite of the test suite: two children whose hooks complete
    through [setImmediate]. *)
Definition pair_store : store :=
  set_runners
    [ {| r_status := Stopped; r_once_start := []; r_once_stop := [];
         r_body := Custom [(Immediate, None)] [(Immediate, None)] |};
      {| r_status := Stopped; r_once_start := []; r_once_stop := [];
         r_body := Custom [(Immediate, None)] [(Immediate, None)] |};
      {| r_status := Stopped; r_once_start := []; r_once_stop := [];
         r_body := Multi {| m_startOrder := [0; 1]; m_stopOrder := [0; 1];
                            m_unref := false; m_frozen := false |} |} ]
    empty_store.

Lemma composite_start_witness :
  ∃ M,
    steps (enter (FStart 2 (AFun (KUser 9)) None) pair_store) M ∧
    quiet M ∧
    trace (store_of M)
    = [Invoke (RStart 0); Complete (RStart 0) None;
       Invoke (RStart 1); Complete (RStart 1) None; Called 9 None] ∧
    ∀ r, r ∈ [2; 0; 1] →
         AbstractRunner.get_status r (store_of M) = Some Started.
Proof.
  apply (composite_start 2 _ _ 9 pair_store eq_refl eq_refl eq_refl eq_refl).
  - repeat constructor; eexists _, _; repeat split; simpl; eauto.
  - by_decide.
  - by_decide.
  - reflexivity.
  - reflexivity.
Defined.

(** ** Adding runners to a composite *)

(** A sequence of [addRunner] calls: the runner and its [stopFirst]. *)
Definition add_runners (m : nat) (adds : list (nat * bool)) : list frame :=
  (λ a, FAddRunner m a.1 a.2) <$> adds.

(** What the sequence makes of the two orders: [push] on the start order;
    on the stop order [unshift] with [stopFirst] and [push] without. *)
Definition added (adds : list (nat * bool)) (mu : multi) : multi :=
  {| m_startOrder := m_startOrder mu ++ adds.*1;
     m_stopOrder := reverse (filter (λ a, a.2 = true) adds).*1
                    ++ m_stopOrder mu
                    ++ (filter (λ a, a.2 = false) adds).*1;
     m_unref := m_unref mu; m_frozen := m_frozen mu |}.

Lemma added_cons (r : nat) (stopFirst : bool) (adds : list (nat * bool))
    (mu : multi) :
  added adds
    {| m_startOrder := m_startOrder mu ++ [r];
       m_stopOrder := if stopFirst then r :: m_stopOrder mu
                      else m_stopOrder mu ++ [r];
       m_unref := m_unref mu; m_frozen := m_frozen mu |}
  = added ((r, stopFirst) :: adds) mu.
Proof.
  unfold added. simpl. rewrite <- app_assoc. simpl. f_equal.
  rewrite filter_cons. rewrite (filter_cons (λ a, a.2 = false)). simpl.
  destruct stopFirst; simpl.
  - by rewrite reverse_cons, <- app_assoc.
  - by rewrite <- app_assoc.
Qed.

Lemma run_add_runners (m : nat) (adds : list (nat * bool)) (fs : list frame) :
  ∀ (x : runner) (mu : multi) (s : store),
    runners s !! m = Some x → r_body x = Multi mu →
    m_frozen mu = false → m_unref mu = false →
    steps (running s (add_runners m adds ++ fs))
          (running (set_runner m (with_body (Multi (added adds mu)) x) s) fs).
Proof.
  induction adds as [|[r sf] adds IH]; intros x mu s Hx Hb Hf Hu.
  - apply steps_eq. unfold running, set_runner, set_runners. simpl.
    do 2 f_equal. 
    replace (added [] mu) with mu.
    + rewrite list_insert_id; [by destruct s|]. rewrite Hx. f_equal.
      destruct x; simpl in *; by subst.
    + unfold added. simpl. rewrite !app_nil_r. by destruct mu.
  - simpl.
    eapply steps_exec.
    { replace s with (set_runners (runners s) s) at 1 by by destruct s.
      by apply (add_runner_exec m r sf x mu (runners s) s Hx Hb). }
    simpl.
    set (mu1 := {| m_startOrder := m_startOrder mu ++ [r];
                   m_stopOrder := if sf then r :: m_stopOrder mu
                                  else m_stopOrder mu ++ [r];
                   m_unref := false; m_frozen := false |}).
    set (s1 := set_runners (<[m := with_body (Multi mu1) x]> (runners s)) s).
    eapply steps_trans.
    { apply (IH (with_body (Multi mu1) x) mu1 s1); try done.
      simpl. apply list_lookup_insert_eq. by eapply lookup_lt_Some. }
    apply steps_eq. unfold running, s1, set_runner, set_runners. simpl.
    rewrite list_insert_insert_eq, <- (added_cons r sf adds mu). unfold mu1.
    by rewrite Hf, Hu.
Qed.


(** Four runners added to a new composite, the second and the fourth with
    [stopFirst]. *)
Definition adding_store : store := (MultiRunner.create empty_store).2.


(** ** What no run of the machine changes *)

(** How a composite may change: once frozen it stays frozen and keeps its
    two orders; once unref'd it stays unref'd. *)
Definition evolves_multi (mu mu' : multi) : Prop :=
  (m_frozen mu = true →
   m_frozen mu' = true ∧ m_startOrder mu' = m_startOrder mu ∧
   m_stopOrder mu' = m_stopOrder mu) ∧
  (m_unref mu = true → m_unref mu' = true).

(** How a task may change: its role lists, its composite and its names
    stay; once frozen it stays frozen and keeps its ping list. *)
Definition evolves_task (ta ta' : task) : Prop :=
  t_collectors ta' = t_collectors ta ∧ t_processors ta' = t_processors ta ∧
  t_publishers ta' = t_publishers ta ∧ t_schedules ta' = t_schedules ta ∧
  t_multiRunner ta' = t_multiRunner ta ∧ t_name ta' = t_name ta ∧
  t_noPingTarget ta' = t_noPingTarget ta ∧
  (t_frozen ta = true →
   t_frozen ta' = true ∧ t_pingablePlugins ta' = t_pingablePlugins ta).

(** How a runner may change: it keeps its class, a custom runner its
    hooks and a decorated runner its plugin. *)
Definition evolves (x y : runner) : Prop :=
  match r_body x with
  | Custom a b => r_body y = Custom a b
  | Decorated nut => r_body y = Decorated nut
  | Multi mu => ∃ mu', r_body y = Multi mu' ∧ evolves_multi mu mu'
  | TaskB ta => ∃ ta', r_body y = TaskB ta' ∧ evolves_task ta ta'
  end.

(** Every runner of [s] is still there in [s'], evolved. *)
Definition grows (s s' : store) : Prop :=
  ∀ r x, runners s !! r = Some x →
         ∃ y, runners s' !! r = Some y ∧ evolves x y.

Lemma evolves_multi_refl mu : evolves_multi mu mu.
Proof. by repeat split. Qed.

Lemma evolves_task_refl ta : evolves_task ta ta.
Proof. by repeat split. Qed.

Lemma evolves_same_body x y : r_body y = r_body x → evolves x y.
Proof.
  intros H. unfold evolves. rewrite H. destruct (r_body x); try done.
  - eexists. split; [done|]. apply evolves_multi_refl.
  - eexists. split; [done|]. apply evolves_task_refl.
Qed.

Lemma evolves_trans x y z : evolves x y → evolves y z → evolves x z.
Proof.
  unfold evolves. destruct (r_body x) as [a b|nut|mu|ta].
  - intros H. by rewrite H.
  - intros H. by rewrite H.
  - intros (mu' & Hy & [H1 H2]). rewrite Hy. intros (mu'' & Hz & [H3 H4]).
    exists mu''. split; [done|]. split.
    + intros Hf. destruct (H1 Hf) as (Hf' & Ha & Hb).
      destruct (H3 Hf') as (Hf'' & Ha' & Hb'). by rewrite Ha', Hb'.
    + intros Hu. by apply H4, H2.
  - intros (ta' & Hy & H1). rewrite Hy. intros (ta'' & Hz & H2).
    exists ta''. split; [done|].
    destruct H1 as (A1 & A2 & A3 & A4 & A5 & A6 & A7 & A8).
    destruct H2 as (B1 & B2 & B3 & B4 & B5 & B6 & B7 & B8).
    repeat split; try congruence;
      (destruct A8 as [Hf' Hp]; [done|]; destruct B8 as [Hf'' Hp']; [done|];
       congruence).
Qed.

Lemma grows_same s s' : runners s' = runners s → grows s s'.
Proof.
  intros H r x Hx. exists x. rewrite H. split; [done|].
  by apply evolves_same_body.
Qed.

Lemma grows_trans s s' s'' : grows s s' → grows s' s'' → grows s s''.
Proof.
  intros H1 H2 r x Hx. destruct (H1 r x Hx) as (y & Hy & Hxy).
  destruct (H2 r y Hy) as (z & Hz & Hyz). exists z. split; [done|].
  by eapply evolves_trans.
Qed.

Lemma grows_insert s s' r x y :
  runners s !! r = Some x → evolves x y →
  runners s' = <[r := y]> (runners s) →
  grows s s'.
Proof.
  intros Hx He Hr r0 x0 Hx0. rewrite Hr.
  destruct (decide (r = r0)) as [->|Hne].
  - exists y. rewrite list_lookup_insert_eq by by eapply lookup_lt_Some.
    split; [done|]. congruence.
  - exists x0. rewrite list_lookup_insert_ne by done.
    split; [done|]. by apply evolves_same_body.
Qed.

Lemma grows_app s s' l : runners s' = runners s ++ l → grows s s'.
Proof.
  intros Hr r x Hx. exists x. rewrite Hr.
  split; [by apply lookup_app_l_Some|]. by apply evolves_same_body.
Qed.

Lemma evolves_to_multi x y mu mu' :
  r_body x = Multi mu → r_body y = Multi mu' → evolves_multi mu mu' →
  evolves x y.
Proof. intros Hx Hy H. unfold evolves. rewrite Hx. by exists mu'. Qed.

Lemma evolves_to_task x y ta ta' :
  r_body x = TaskB ta → r_body y = TaskB ta' → evolves_task ta ta' →
  evolves x y.
Proof. intros Hx Hy H. unfold evolves. rewrite Hx. by exists ta'. Qed.

Ltac gr_same := by (apply grows_same; simpl; try congruence).
Ltac gr_insert H tac :=
  eapply grows_insert; [exact H | | simpl; reflexivity]; tac.
Ltac gr_body := apply evolves_same_body; reflexivity.

Lemma start_grows r a1 a2 s : grows s (res_store (AbstractRunner.start r a1 a2 s)).
Proof.
  unfold AbstractRunner.start, AbstractRunner.start_default.
  pose proof (arguments_runners a1 a2 s) as Hr.
  destruct (AbstractRunner.arguments a1 a2 s) as [[opts cb] s1]. simpl in Hr.
  eapply grows_trans; [by apply (grows_same s s1)|].
  destruct (runners s1 !! r) as [x|] eqn:Hx; [|gr_same].
  destruct opts as [[[]]|]; simpl; destruct (r_status x); simpl;
    first [gr_same | gr_insert Hx ltac:(gr_body)].
Qed.

Lemma stop_grows r a1 a2 s : grows s (res_store (AbstractRunner.stop r a1 a2 s)).
Proof.
  unfold AbstractRunner.stop, AbstractRunner.stop_default.
  pose proof (arguments_runners a1 a2 s) as Hr.
  destruct (AbstractRunner.arguments a1 a2 s) as [[opts cb] s1]. simpl in Hr.
  eapply grows_trans; [by apply (grows_same s s1)|].
  destruct (runners s1 !! r) as [x|] eqn:Hx; [|gr_same].
  destruct opts as [[[]]|]; simpl; destruct (r_status x); simpl;
    first [gr_same | gr_insert Hx ltac:(gr_body)].
Qed.

Lemma multi_loops_grow m c k e s :
  grows s (res_store (MultiRunner.start_loop m c k e s)) ∧
  grows s (res_store (MultiRunner.cancel_loop m c k e s)) ∧
  grows s (res_store (MultiRunner.stop_loop m c k e s)).
Proof.
  unfold MultiRunner.start_loop, MultiRunner.cancel_loop, MultiRunner.stop_loop,
    MultiRunner._cancelStart.
  destruct (MultiRunner.get m s) as [[x mu]|]; [|by destruct e; repeat split; gr_same].
  repeat split.
  - destruct e; [gr_same|]. destruct (cells s !! c); [|gr_same].
    destruct (decide _); [gr_same|]. destruct (_ !! _); gr_same.
  - destruct (cells s !! c); [|gr_same]. simpl.
    destruct (decide _); [gr_same|]. destruct (_ !! _); gr_same.
  - destruct (cells s !! c); [|gr_same]. simpl.
    destruct (decide _); [gr_same|]. destruct (_ !! _); gr_same.
Qed.

Lemma pingNext_grows t e s : grows s (res_store (Task._pingNext t e s)).
Proof.
  unfold Task._pingNext.
  set (s0 := match e with Some err => log (Warned (WError err)) s | None => s end).
  assert (H0 : runners s0 = runners s) by by destruct e.
  eapply grows_trans; [by apply (grows_same s s0)|].
  destruct (Task.get t s0) as [[x ta]|] eqn:Hg; [|gr_same].
  apply get_task_inv in Hg as [Hx Hb].
  assert (Hk : ∀ a b c d, evolves x (with_body (TaskB (Task.with_cursor a b c d ta)) x)).
  { intros a b c d. eapply evolves_to_task; [done..|]. by repeat split. }
  destruct (t_pinging ta); simpl; [|gr_same].
  destruct (decide _).
  - destruct (t_pingCallback ta); simpl; gr_insert Hx ltac:(apply Hk).
  - destruct (t_pingablePlugins ta !! t_pingIndex ta) as [w|]; simpl;
      [|gr_insert Hx ltac:(apply Hk)].
    destruct (_ ≫= p_ping); simpl; gr_insert Hx ltac:(apply Hk).
Qed.

Lemma call_grows k e s : grows s (res_store (call k e s)).
Proof.
  destruct k; simpl; try gr_same.
  - unfold settle. destruct (promises s !! p) as [[|]|]; gr_same.
  - unfold AbstractRunner.start_done.
    destruct (runners s !! r) as [x|] eqn:Hx; [|gr_same].
    gr_insert Hx ltac:(gr_body).
  - unfold AbstractRunner.stop_done.
    destruct (runners s !! r) as [x|] eqn:Hx; [|gr_same].
    gr_insert Hx ltac:(gr_body).
  - apply multi_loops_grow.
  - apply multi_loops_grow.
  - apply multi_loops_grow.
  - apply pingNext_grows.
Qed.

Lemma initialize_grows t s : grows s (res_store (Task._initialize t s)).
Proof.
  unfold Task._initialize.
  destruct (Task.get t s) as [[x ta]|] eqn:Hg; [|gr_same].
  apply get_task_inv in Hg as [Hx Hb].
  destruct (t_frozen ta) eqn:Hf; [gr_same|].
  assert (Hk : ∀ ws, evolves x (with_body (TaskB (Task.with_frozen ws ta)) x)).
  { intros ws. eapply evolves_to_task; [done..|].
    repeat split; try done; congruence. }
  destruct (Task.wrap_all ta s) as [ws|]; simpl; [|gr_insert Hx ltac:(apply Hk)].
  destruct (decorate_all_runners (Task.unwrap <$> ws) s) as [l1 H1].
  destruct (Task.decorate_all (Task.unwrap <$> ws) s) as [rs1 s1]. simpl in H1.
  eapply grows_trans; [by apply (grows_app s s1 l1)|].
  assert (Hx1 : runners s1 !! t = Some x) by (rewrite H1; by apply lookup_app_l_Some).
  destruct rs1 as [rs1|]; simpl; [|gr_insert Hx1 ltac:(apply Hk)].
  destruct (decorate_all_runners (t_schedules ta) s1) as [l2 H2].
  destruct (Task.decorate_all (t_schedules ta) s1) as [rs2 s2]. simpl in H2.
  eapply grows_trans; [by apply (grows_app s1 s2 l2)|].
  assert (Hx2 : runners s2 !! t = Some x) by (rewrite H2; by apply lookup_app_l_Some).
  destruct rs2 as [rs2|]; simpl; gr_insert Hx2 ltac:(apply Hk).
Qed.

Lemma exec_grows f s : grows s (res_store (exec f s)).
Proof.
  destruct f; simpl.
  - apply call_grows.
  - apply start_grows.
  - apply stop_grows.
  - unfold hook_start. destruct (runners s !! r) as [x|] eqn:Hx; [|gr_same].
    destruct (r_body x) eqn:Hb; simpl.
    + gr_same.
    + unfold DecoratedRunner._start. destruct (plugins s !! nut); [|gr_same].
      destruct (p_start _); gr_same.
    + unfold MultiRunner._start, MultiRunner.get. rewrite Hx, Hb. simpl.
      gr_insert Hx ltac:(eapply evolves_to_multi; [done..|]; by repeat split).
    + unfold Task._start. destruct (Task.get r s) as [[??]|]; gr_same.
  - unfold hook_stop. destruct (runners s !! r) as [x|] eqn:Hx; [|gr_same].
    destruct (r_body x) eqn:Hb; simpl.
    + gr_same.
    + unfold DecoratedRunner._stop. destruct (plugins s !! nut); [|gr_same].
      destruct (p_stop _); gr_same.
    + unfold MultiRunner._stop, MultiRunner.get. rewrite Hx, Hb. simpl. gr_same.
    + unfold Task._stop. destruct (Task.get r s) as [[??]|]; gr_same.
  - unfold behave. destruct b as [|[[] e] b]; gr_same.
  - gr_same.
  - unfold unref. destruct (runners s !! r) as [x|] eqn:Hx; [|gr_same].
    destruct (r_body x) eqn:Hb; simpl.
    + gr_same.
    + unfold DecoratedRunner.unref. destruct (plugins s !! nut); [|gr_same].
      destruct (p_unref _); gr_same.
    + unfold MultiRunner.unref, MultiRunner.get. rewrite Hx, Hb. simpl.
      gr_insert Hx ltac:(eapply evolves_to_multi; [done..|]; by repeat split).
    + unfold Task.unref. destruct (Task.get r s) as [[??]|]; gr_same.
  - unfold unref_if. destruct (MultiRunner.get m s) as [[? mu]|]; [|gr_same].
    destruct (m_unref mu); gr_same.
  - unfold MultiRunner.addRunner.
    destruct (MultiRunner.get m s) as [[x mu]|] eqn:Hg; [|gr_same].
    apply get_multi_inv in Hg as [Hx Hb].
    destruct (m_frozen mu) eqn:Hf; [gr_same|]. simpl.
    gr_insert Hx ltac:(eapply evolves_to_multi; [done..|]; split; [congruence|done]).
  - apply initialize_grows.
  - unfold Task._connectPlugins. destruct (Task.get t s) as [[? ta]|]; [|gr_same].
    destruct (forallb _ _); gr_same.
  - unfold Task.ping. destruct (Task.get t s) as [[x ta]|] eqn:Hg; [|gr_same].
    apply get_task_inv in Hg as [Hx Hb].
    destruct (t_pinging ta); [gr_same|]. simpl.
    gr_insert Hx ltac:(eapply evolves_to_task; [done..|]; by repeat split).
Qed.

Lemma step_grows M M' : step M = Some M' → grows (store_of M) (store_of M').
Proof.
  unfold step. destruct (thrown M); [done|].
  destruct (stack M) as [|f fs].
  - destruct (ticks (store_of M)) as [|f q].
    + destruct (immediates (store_of M)) as [|f q]; [done|].
      intros [= <-]. gr_same.
    + intros [= <-]. gr_same.
  - intros [= <-]. pose proof (exec_grows f (store_of M)) as H.
    by destruct (exec f (store_of M)).
Qed.

Lemma steps_grow M M' : steps M M' → grows (store_of M) (store_of M').
Proof.
  induction 1 as [M|M M1 M2 H1 _ IH]; [by apply grows_same|].
  eapply grows_trans; [by apply step_grows|exact IH].
Qed.

Lemma grows_multi (m : nat) (x : runner) (mu : multi) (s s' : store) :
  MultiRunner.get m s = Some (x, mu) → grows s s' →
  ∃ x' mu', MultiRunner.get m s' = Some (x', mu') ∧ evolves_multi mu mu'.
Proof.
  intros Hg H. apply get_multi_inv in Hg as [Hx Hb].
  destruct (H m x Hx) as (y & Hy & He). unfold evolves in He. rewrite Hb in He.
  destruct He as (mu' & Hb' & He). exists y, mu'. split; [|done].
  by apply get_multi_lookup.
Qed.

Lemma grows_task (t : nat) (x : runner) (ta : task) (s s' : store) :
  Task.get t s = Some (x, ta) → grows s s' →
  ∃ x' ta', Task.get t s' = Some (x', ta') ∧ evolves_task ta ta'.
Proof.
  intros Hg H. apply get_task_inv in Hg as [Hx Hb].
  destruct (H t x Hx) as (y & Hy & He). unfold evolves in He. rewrite Hb in He.
  destruct He as (ta' & Hb' & He). exists y, ta'. split; [|done].
  by apply get_task_lookup.
Qed.

(** A composite runner is frozen by [start], before any child is started.
    Once it is frozen, [addRunner] throws and leaves the store as it was,
    and no run of the machine, from any stack, unfreezes it or changes its
    start order or its stop order: not a failed start, and not [stop]. *)
Theorem composite_frozen (m : nat) (x : runner) (mu : multi) (s : store) :
  MultiRunner.get m s = Some (x, mu) →
  (r_status x = Stopped →
   ∀ a1 a2, ∃ x' mu',
     MultiRunner.get m (store_of (run 2 (enter (FStart m a1 a2) s)))
     = Some (x', mu') ∧
     m_frozen mu' = true ∧
     trace (store_of (run 2 (enter (FStart m a1 a2) s))) = trace s) ∧
  (m_frozen mu = true →
   ∀ r stopFirst,
     MultiRunner.addRunner m r stopFirst s
     = Throw "Cannot addRunner() after start()" s) ∧
  (m_frozen mu = true →
   ∀ fs M, steps (running s fs) M →
     ∃ x' mu',
       MultiRunner.get m (store_of M) = Some (x', mu') ∧
       m_frozen mu' = true ∧
       m_startOrder mu' = m_startOrder mu ∧ m_stopOrder mu' = m_stopOrder mu).
Proof.
  intros Hg. apply get_multi_inv in Hg as Hinv. destruct Hinv as [Hx Hb].
  split; [|split].
  - intros Hst a1 a2.
    destruct (start_stopped m x a1 a2 s Hx Hst) as (k & s1 & Hr & Hs).
    assert (Htr : trace s1 = trace s).
    { pose proof (f_equal (λ r, trace (res_store r)) Hs) as Ht. simpl in Ht.
      rewrite <- Ht. unfold AbstractRunner.start, AbstractRunner.start_default.
      destruct a1 as [k0|o]; [|destruct a2 as [k0|]]; simpl; rewrite Hx, Hst;
        try destruct o as [[[]]|]; reflexivity. }
    set (s2 := set_runner m (with_status Starting x) s1).
    assert (Hx2 : runners s2 !! m = Some (with_status Starting x)).
    { simpl. rewrite Hr. apply list_lookup_insert_eq. by eapply lookup_lt_Some. }
    assert (H1 : step (enter (FStart m a1 a2) s)
                 = Some (running s2 [FHookStart m (KStartDone m k)])).
    { unfold step. simpl. by rewrite Hs. }
    cbn [run]. rewrite H1. unfold step. simpl. unfold hook_start.
    rewrite Hx2. simpl. rewrite Hb. unfold MultiRunner._start.
    rewrite (get_multi_lookup m s2 (with_status Starting x) mu Hx2 Hb). simpl.
    eexists _, _. split; [|split; [|exact Htr]].
    + apply get_multi_lookup;
        [simpl; apply list_lookup_insert_eq; rewrite length_insert, Hr;
         by eapply lookup_lt_Some|reflexivity].
    + reflexivity.
  - intros Hf r sf. unfold MultiRunner.addRunner. by rewrite Hg, Hf.
  - intros Hf fs M Hs.
    destruct (grows_multi m x mu s (store_of M) Hg (steps_grow _ _ Hs))
      as (x' & mu' & Hg' & [H1 _]).
    exists x', mu'. split; [done|]. by apply H1.
Qed.

(** The composite of [pair_store] after it was started and stopped. *)
Definition cycled_store : store :=
  Eval vm_compute in
    store_of (run 60 (enter (FStop 2 (AFun (KUser 1)) None)
      (store_of (run 60 (enter (FStart 2 (AFun (KUser 0)) None) pair_store))))).

Lemma composite_frozen_witness :
  (∃ x' mu',
     MultiRunner.get 2
       (store_of (run 2 (enter (FStart 2 (AFun (KUser 0)) None) pair_store)))
     = Some (x', mu') ∧
     m_frozen mu' = true ∧
     trace (store_of (run 2 (enter (FStart 2 (AFun (KUser 0)) None) pair_store)))
     = []) ∧
  AbstractRunner.get_status 2 cycled_store = Some Stopped ∧
  MultiRunner.addRunner 2 0 true cycled_store
  = Throw "Cannot addRunner() after start()" cycled_store ∧
  (∃ x' mu',
     MultiRunner.get 2
       (store_of (run 60 (enter (FStart 2 (AFun (KUser 2)) None) cycled_store)))
     = Some (x', mu') ∧
     m_frozen mu' = true ∧ m_startOrder mu' = [0; 1] ∧ m_stopOrder mu' = [0; 1]).
Proof.
  destruct (composite_frozen 2 _ _ pair_store eq_refl) as (H1 & _ & _).
  destruct (composite_frozen 2 _ _ cycled_store eq_refl) as (_ & H2 & H3).
  split; [exact (H1 eq_refl _ _)|].
  split; [reflexivity|].
  split; [exact (H2 eq_refl _ _)|].
  exact (H3 eq_refl _ _ (run_steps 60 _)).
Defined.

(** No run of the machine, from any stack, changes what a task is made
    of: its four role lists, its composite and its name stay as they are,
    and once the task is frozen so does the list of plugins it pings. The
    role lists change through the registration methods only. *)
Theorem task_structure_fixed (t : nat) (x : runner) (ta : task) (s : store)
    (fs : list frame) (M : machine) :
  Task.get t s = Some (x, ta) →
  steps (running s fs) M →
  ∃ x' ta',
    Task.get t (store_of M) = Some (x', ta') ∧
    t_collectors ta' = t_collectors ta ∧ t_processors ta' = t_processors ta ∧
    t_publishers ta' = t_publishers ta ∧ t_schedules ta' = t_schedules ta ∧
    t_multiRunner ta' = t_multiRunner ta ∧ t_name ta' = t_name ta ∧
    (t_frozen ta = true →
     t_frozen ta' = true ∧ t_pingablePlugins ta' = t_pingablePlugins ta).
Proof.
  intros Hg Hs.
  destruct (grows_task t x ta s (store_of M) Hg (steps_grow _ _ Hs))
    as (x' & ta' & Hg' & A1 & A2 & A3 & A4 & A5 & A6 & A7 & A8).
  by exists x', ta'.
Qed.

Lemma task_structure_fixed_witness :
  ∃ x' ta',
    Task.get 1 (store_of (run 60 (enter (FPing 1 (KUser 9)) demo_store)))
    = Some (x', ta') ∧
    t_collectors ta' = [0; 1] ∧ t_processors ta' = [3] ∧
    t_publishers ta' = [4; 5] ∧ t_schedules ta' = [2] ∧
    t_multiRunner ta' = 0 ∧ t_name ta' = "Task(test)" ∧
    t_frozen ta' = true ∧ w_plugin <$> t_pingablePlugins ta' = [0; 1; 3; 4].
Proof.
  destruct (task_structure_fixed 1 _ _ demo_store [FPing 1 (KUser 9)] _ eq_refl
              (run_steps 60 (enter (FPing 1 (KUser 9)) demo_store)))
    as (x' & ta' & H0 & H1 & H2 & H3 & H4 & H5 & H6 & H7).
  exists x', ta'. repeat (split; [assumption|]).
  destruct (H7 eq_refl) as [Hf Hp]. split; [exact Hf|].
  rewrite Hp. reflexivity.
Defined.

(** ** [unref] *)

(** The plugin whose [unref] method a call of [unref] on the runner [r]
    reaches: that of a decorated runner, when the plugin has the method. *)
Definition unref_target (s : store) (r : nat) : list nat :=
  match r_body <$> runners s !! r with
  | Some (Decorated nut) =>
      match plugins s !! nut with
      | Some p => if p_unref p then [nut] else []
      | None => []
      end
  | _ => []
  end.

Definition leaf_runner (s : store) (r : nat) : Prop :=
  ∃ x, runners s !! r = Some x ∧ leaf (plugins s) (r_body x).

Lemma unref_leaf (r : nat) (s : store) :
  leaf_runner s r →
  exec (FUnref r) s = Ok [] (set_unrefd (unrefd s ++ unref_target s r) s).
Proof.
  intros (x & Hx & Hl). simpl. unfold unref, unref_target. rewrite Hx. simpl.
  destruct (r_body x) as [a b|nut| |]; simpl in *; try done.
  - rewrite app_nil_r. by destruct s.
  - destruct Hl as [p Hp]. unfold DecoratedRunner.unref. rewrite Hp.
    destruct (p_unref p); [done|]. rewrite app_nil_r. by destruct s.
Qed.

Lemma run_unrefs (rs : list nat) (fs : list frame) :
  ∀ s, Forall (leaf_runner s) rs →
       steps (running s ((FUnref <$> rs) ++ fs))
             (running (set_unrefd (unrefd s ++ (rs ≫= unref_target s)) s) fs).
Proof.
  induction rs as [|r rs IH]; intros s Hall.
  - apply steps_eq. simpl. rewrite app_nil_r. by destruct s.
  - apply Forall_cons in Hall as [Hr Hall]. simpl.
    eapply steps_exec; [by apply unref_leaf|]. simpl.
    eapply steps_trans; [by apply IH|].
    apply steps_eq. unfold running, set_unrefd. simpl.
    by rewrite <- app_assoc.
Qed.

(** [unref] on a composite runner whose children are leaves, or on a task
    with such a composite: the composite is marked, and [unref] is called
    on the plugin of every decorated child that has the method, in start
    order. Children without the method are passed over; nothing is
    started, stopped, scheduled or logged. *)
Theorem unref_reaches_plugins (r m : nat) (x : runner) (mu : multi) (s : store) :
  (r = m ∨ ∃ y ta, Task.get r s = Some (y, ta) ∧ t_multiRunner ta = m) →
  MultiRunner.get m s = Some (x, mu) →
  Forall (leaf_runner s) (m_startOrder mu) →
  ∃ M,
    steps (enter (FUnref r) s) M ∧
    stack M = [] ∧ thrown M = None ∧
    unrefd (store_of M) = unrefd s ++ (m_startOrder mu ≫= unref_target s) ∧
    MultiRunner.get m (store_of M)
    = Some (with_body (Multi (MultiRunner.with_unref true mu)) x,
            MultiRunner.with_unref true mu) ∧
    (∀ r', r' ≠ m → runners (store_of M) !! r' = runners s !! r') ∧
    trace (store_of M) = trace s ∧
    ticks (store_of M) = ticks s ∧ immediates (store_of M) = immediates s.
Proof.
  intros Hr Hg Hkids. apply get_multi_inv in Hg as Hinv. destruct Hinv as [Hx Hb].
  set (s1 := MultiRunner.put m x (MultiRunner.with_unref true mu) s).
  assert (Hkids1 : Forall (leaf_runner s1) (m_startOrder mu)).
  { eapply Forall_impl; [exact Hkids|]. intros r' (y & Hy & Hl).
    exists y. split; [|done]. simpl. rewrite list_lookup_insert_ne; [done|].
    intros <-. rewrite Hx in Hy. injection Hy as <-. rewrite Hb in Hl. done. }
  assert (Htargets : m_startOrder mu ≫= unref_target s1
                     = m_startOrder mu ≫= unref_target s).
  { clear Hkids1. induction Hkids as [|r' rs (y & Hy & Hl) _ IH]; [done|].
    rewrite !bind_cons, IH. f_equal. unfold unref_target. simpl.
    rewrite list_lookup_insert_ne; [done|].
    intros <-. rewrite Hx in Hy. injection Hy as <-. rewrite Hb in Hl. done. }
  pose proof (run_unrefs (m_startOrder mu) [] s1 Hkids1) as Hs.
  rewrite app_nil_r, Htargets in Hs.
  assert (Hm : steps (enter (FUnref m) s)
                 (running (set_unrefd
                             (unrefd s1 ++ (m_startOrder mu ≫= unref_target s)) s1) [])).
  { eapply steps_exec;
      [simpl; unfold unref; rewrite Hx; simpl; rewrite Hb;
       unfold MultiRunner.unref; rewrite Hg; reflexivity
      |rewrite app_nil_r; exact Hs]. }
  eexists. split.
  - destruct Hr as [->|(y & ta & Ht & Hm')]; [exact Hm|].
    apply get_task_inv in Ht as Hinv. destruct Hinv as [Hy Hby].
    eapply steps_exec;
      [simpl; unfold unref; rewrite Hy; simpl; rewrite Hby;
       unfold Task.unref; rewrite Ht, Hm'; reflexivity|exact Hm].
  - repeat split.
    + apply get_multi_lookup; [|done]. simpl.
      apply list_lookup_insert_eq. by eapply lookup_lt_Some.
    + intros r' Hr'. simpl. by rewrite list_lookup_insert_ne.
Qed.

(** A started task with two collectors, a publisher and a schedule; the
    second collector has no [unref] method. *)
Definition unref_plugin (unref : bool) : plugin :=
  {| p_proto := Some "Test"; p_start := Some [(Immediate, None)];
     p_stop := Some [(Immediate, None)]; p_ping := None; p_unref := unref;
     p_on := true |}.

Definition unref_store : store :=
  Eval vm_compute in
    started 1
      (let s := set_plugins (unref_plugin <$> [true; false; true; true])
                  empty_store in
       let '(t, s) := Task.create None s in
       register Publish 3 t (register Schedule 2 t
         (register Collect 1 t (register Collect 0 t s)))).

Lemma unref_reaches_plugins_witness :
  ∃ M,
    steps (enter (FUnref 1) unref_store) M ∧
    stack M = [] ∧ thrown M = None ∧
    unrefd (store_of M) = [0; 3; 2] ∧
    (m_unref ∘ snd) <$> MultiRunner.get 0 (store_of M) = Some true ∧
    trace (store_of M) = trace unref_store.
Proof.
  unshelve epose proof (unref_reaches_plugins 1 0 _ _ unref_store _ eq_refl _)
    as (M & H1 & H2 & H3 & H4 & H5 & _ & H7 & _).
  - right. eexists _, _. split; reflexivity.
  - repeat (apply Forall_cons_2; [eexists; split; [reflexivity|by eexists]|]).
    apply Forall_nil_2.
  - exists M. split; [exact H1|]. split; [exact H2|]. split; [exact H3|].
    split; [exact H4|]. split; [by rewrite H5|]. exact H7.
Defined.

Lemma leaf_runner_put (m : nat) (x y : runner) (mu : multi) (s : store) (r : nat) :
  runners s !! m = Some x → r_body x = Multi mu →
  leaf_runner s r →
  leaf_runner (set_runner m y s) r ∧
  unref_target (set_runner m y s) r = unref_target s r.
Proof.
  intros Hx Hb (z & Hz & Hl).
  assert (Hne : m ≠ r).
  { intros ->. rewrite Hx in Hz. injection Hz as <-. rewrite Hb in Hl. done. }
  split.
  - exists z. simpl. by rewrite list_lookup_insert_ne.
  - unfold unref_target. simpl. by rewrite list_lookup_insert_ne.
Qed.

Lemma bind_ext_Forall {A B} (P : A → Prop) (f g : A → list B) (l : list A) :
  Forall P l → (∀ a, P a → f a = g a) → l ≫= f = l ≫= g.
Proof.
  intros Hall Hfg. induction Hall as [|a l Ha _ IH]; [done|].
  by rewrite !bind_cons, IH, Hfg.
Qed.

Lemma run_add_runners_unref (m : nat) (adds : list (nat * bool)) (fs : list frame) :
  ∀ (x : runner) (mu : multi) (s : store),
    runners s !! m = Some x → r_body x = Multi mu →
    m_frozen mu = false → m_unref mu = true →
    Forall (leaf_runner s) adds.*1 →
    steps (running s (add_runners m adds ++ fs))
          (running
             (set_unrefd (unrefd s ++ (adds.*1 ≫= unref_target s))
                (set_runner m (with_body (Multi (added adds mu)) x) s)) fs).
Proof.
  induction adds as [|[r sf] adds IH]; intros x mu s Hx Hb Hf Hu Hall.
  - apply steps_eq. unfold running, set_runner, set_runners, set_unrefd. simpl.
    rewrite app_nil_r.
    replace (added [] mu) with mu
      by (unfold added; simpl; rewrite !app_nil_r; by destruct mu).
    rewrite list_insert_id; [by destruct s|]. rewrite Hx. f_equal.
    destruct x; simpl in *; by subst.
  - simpl in Hall. apply Forall_cons in Hall as [Hr Hall]. simpl.
    set (mu1 := {| m_startOrder := m_startOrder mu ++ [r];
                   m_stopOrder := if sf then r :: m_stopOrder mu
                                  else m_stopOrder mu ++ [r];
                   m_unref := m_unref mu; m_frozen := m_frozen mu |}).
    set (x1 := with_body (Multi mu1) x).
    set (s1 := set_runner m x1 s).
    destruct (leaf_runner_put m x x1 mu s r Hx Hb Hr) as [Hr1 Ht1].
    set (s2 := set_unrefd (unrefd s1 ++ unref_target s1 r) s1).
    assert (Hx2 : runners s2 !! m = Some x1).
    { simpl. apply list_lookup_insert_eq. by eapply lookup_lt_Some. }
    assert (Hall2 : Forall (leaf_runner s2) adds.*1).
    { eapply Forall_impl; [exact Hall|]. intros r' Hr'.
      by apply (leaf_runner_put m x x1 mu s r' Hx Hb). }
    assert (Ht2 : adds.*1 ≫= unref_target s2 = adds.*1 ≫= unref_target s).
    { apply (bind_ext_Forall _ _ _ _ Hall). intros r' Hr'.
      by apply (leaf_runner_put m x x1 mu s r' Hx Hb). }
    eapply steps_exec.
    { simpl. unfold MultiRunner.addRunner.
      rewrite (get_multi_lookup m s x mu Hx Hb), Hf. simpl. rewrite Hu.
      reflexivity. }
    simpl.
    eapply steps_trans.
    { apply steps_eq with (M' := running s1 (FUnref r :: add_runners m adds ++ fs)).
      reflexivity. }
    eapply steps_exec; [by apply unref_leaf|]. simpl. fold s2.
    eapply steps_trans.
    { apply (IH x1 mu1 s2); try done. }
    rewrite Ht2, <- (added_cons r sf adds mu). fold mu1.
    apply steps_eq. unfold running, s2, s1, set_runner, set_runners, set_unrefd.
    simpl. rewrite list_insert_insert_eq, <- app_assoc.
    unfold set_runner, set_runners in Ht1. rewrite Ht1.
    reflexivity.
Qed.

(** On a composite that was unref'd and not yet started, [addRunner]
    calls [unref] on each runner as it is added: the plugins of the
    decorated runners that have the method are unref'd in the order of the
    calls, and the two orders come out as without [unref]. *)
Theorem add_runner_unrefs (m : nat) (x : runner) (mu : multi)
    (adds : list (nat * bool)) (s : store) :
  MultiRunner.get m s = Some (x, mu) →
  m_frozen mu = false → m_unref mu = true →
  Forall (leaf_runner s) adds.*1 →
  ∃ M x' mu',
    steps (running s (add_runners m adds)) M ∧
    stack M = [] ∧ thrown M = None ∧
    unrefd (store_of M) = unrefd s ++ (adds.*1 ≫= unref_target s) ∧
    MultiRunner.get m (store_of M) = Some (x', mu') ∧
    m_startOrder mu' = m_startOrder mu ++ adds.*1 ∧
    m_stopOrder mu'
    = reverse (filter (λ a, a.2 = true) adds).*1
        ++ m_stopOrder mu ++ (filter (λ a, a.2 = false) adds).*1 ∧
    m_unref mu' = true.
Proof.
  intros Hg Hf Hu Hall. apply get_multi_inv in Hg as [Hx Hb].
  pose proof (run_add_runners_unref m adds [] x mu s Hx Hb Hf Hu Hall) as Hs.
  rewrite app_nil_r in Hs.
  eexists _, (with_body (Multi (added adds mu)) x), (added adds mu).
  split; [exact Hs|]. repeat split; [|exact Hu].
  apply get_multi_lookup; [|done]. simpl.
  apply list_lookup_insert_eq. by eapply lookup_lt_Some.
Qed.

(** An unref'd composite and three leaves: two decorated plugins, the
    second without an [unref] method, and a custom runner. *)
Definition late_store : store :=
  set_plugins [unref_plugin true; unref_plugin false]
    (set_runners
       [ {| r_status := Stopped; r_once_start := []; r_once_stop := [];
            r_body := Multi {| m_startOrder := []; m_stopOrder := [];
                               m_unref := true; m_frozen := false |} |};
         decorated 0; decorated 1;
         {| r_status := Stopped; r_once_start := []; r_once_stop := [];
            r_body := Custom [(Sync, None)] [(Sync, None)] |} ]
       empty_store).

Lemma add_runner_unrefs_witness :
  ∃ M x' mu',
    steps (running late_store
             [FAddRunner 0 2 false; FAddRunner 0 3 false; FAddRunner 0 1 true]) M ∧
    stack M = [] ∧ thrown M = None ∧
    unrefd (store_of M) = [0] ∧
    MultiRunner.get 0 (store_of M) = Some (x', mu') ∧
    m_startOrder mu' = [2; 3; 1] ∧
    m_stopOrder mu' = [1; 2; 3] ∧
    m_unref mu' = true.
Proof.
  apply (add_runner_unrefs 0 _ _ [(2, false); (3, false); (1, true)] late_store
           eq_refl eq_refl eq_refl).
  repeat (apply Forall_cons_2; [eexists; split; [reflexivity|simpl; eauto]|]).
  apply Forall_nil_2.
Defined.

(** ** Registering plugins *)

(** The plugins registered under a role; [use] keeps no list. *)
Definition members (ro : role) (ta : task) : list nat :=
  match ro with
  | Collect => t_collectors ta
  | Process => t_processors ta
  | Publish => t_publishers ta
  | Schedule => t_schedules ta
  | Use => []
  end.

Definition listed (ro : role) (ps : list nat) : list nat :=
  match ro with
  | Use => []
  | _ => ps
  end.

(** The factory of a well-formed list element and the properties of the
    options object it is called with. *)
Definition making (arg2 : oarg) (s : store) (el : element)
  : option (factory * obj) :=
  match el with
  | ElFn f => Some (f, own_properties arg2 s)
  | ElPair f el1 => Some (f, own_properties arg2 s ∪ own_properties el1 s)
  | ElOther => None
  end.

Definition made_plugin (arg2 : oarg) (s : store) (el : element) : option nat :=
  (λ fo, f_make fo.1 fo.2) <$> making arg2 s el.

(** An options argument that is not a dangling reference. *)
Definition valid (s : store) (a : oarg) : Prop :=
  match a with
  | OObj l => l < length (objects s)
  | OAbsent | OPrim => True
  end.

(** A list element the loop accepts: a bare factory, when the call-level
    options are not a primitive, or a pair. *)
Definition good (arg2 : oarg) (s : store) (el : element) : Prop :=
  match el with
  | ElFn _ => arg2 ≠ OPrim
  | ElPair _ el1 => valid s el1
  | ElOther => False
  end.

Lemma take_fn (t : nat) (ro : role) (f : factory) (arg2 : oarg)
    (rest : list element) (s : store) :
  arg2 ≠ OPrim →
  let o := own_properties arg2 s in
  Task.take_elements t ro (ElFn f :: rest) arg2 s
  = Task.take_elements t ro rest arg2
      (Task.add_to t ro (f_make f o)
         (log (Made (f_id f) (length (objects s)) t)
            (set_objects (objects s ++ [o]) s))).
Proof.
  intros Hp o. simpl. unfold Task._callPlugin, pluginOptions.
  destruct arg2 as [|l|]; [| |done]; simpl.
  - by rewrite list_lookup_middle.
  - rewrite (right_id_L ∅ (∪)), list_lookup_middle by done. done.
Qed.

Lemma members_add (ro : role) (p : nat) (ta : task) :
  members ro (Task.add ro p ta) = members ro ta ++ listed ro [p].
Proof. by destruct ro. Qed.

Lemma members_add_ne (ro ro' : role) (p : nat) (ta : task) :
  ro' ≠ ro → members ro' (Task.add ro p ta) = members ro' ta.
Proof. by destruct ro, ro'. Qed.

Lemma add_frozen (ro : role) (p : nat) (ta : task) :
  t_frozen (Task.add ro p ta) = t_frozen ta ∧
  t_multiRunner (Task.add ro p ta) = t_multiRunner ta ∧
  t_name (Task.add ro p ta) = t_name ta ∧
  t_pingablePlugins (Task.add ro p ta) = t_pingablePlugins ta.
Proof. by destruct ro. Qed.

Lemma own_properties_prefix (a : oarg) (s s' : store) (more : list obj) :
  valid s a → objects s' = objects s ++ more →
  own_properties a s' = own_properties a s.
Proof.
  intros Hv Ho. destruct a as [|l|]; try done. simpl in *.
  by rewrite Ho, lookup_app_l.
Qed.

(** One round of the registration loop at a well-formed element. *)
Lemma take_step (t : nat) (ro : role) (arg2 : oarg) (el : element)
    (rest : list element) (s : store) :
  good arg2 s el →
  ∃ f o l k,
    making arg2 s el = Some (f, o) ∧
    length (objects s) ≤ l ∧
    (objects s ++ replicate k o) !! l = Some o ∧
    Task.take_elements t ro (el :: rest) arg2 s
    = Task.take_elements t ro rest arg2
        (Task.add_to t ro (f_make f o)
           (log (Made (f_id f) l t)
              (set_objects (objects s ++ replicate k o) s))).
Proof.
  destruct el as [f|f el1|]; simpl; [| |done].
  - intros Hp. exists f, (own_properties arg2 s), (length (objects s)), 1.
    split; [done|]. split; [done|]. split; [simpl; by rewrite list_lookup_middle|].
    by apply take_fn.
  - intros _.
    exists f, (own_properties arg2 s ∪ own_properties el1 s),
           (S (length (objects s))), 2.
    split; [done|]. split; [lia|]. split.
    + rewrite lookup_app_r by lia.
      by replace (S (length (objects s)) - length (objects s)) with 1 by lia.
    + by apply take_pair.
Qed.

Lemma making_prefix (arg2 : oarg) (s s' : store) (more : list obj) (el : element) :
  valid s arg2 → good arg2 s el → objects s' = objects s ++ more →
  making arg2 s' el = making arg2 s el ∧ good arg2 s' el.
Proof.
  intros Hv Hg Ho. destruct el as [f|f el1|]; simpl in *; [| |done].
  - by rewrite (own_properties_prefix arg2 s s' more).
  - rewrite (own_properties_prefix arg2 s s' more) by done.
    rewrite (own_properties_prefix el1 s s' more) by done.
    split; [done|]. destruct el1 as [|l|]; try done. simpl in *.
    rewrite Ho, length_app. lia.
Qed.

Lemma listed_app (ro : role) (l k : list nat) :
  listed ro (l ++ k) = listed ro l ++ listed ro k.
Proof. by destruct ro. Qed.

Lemma Forall2_impl_Forall {A B} (P : A → Prop) (Q Q' : A → B → Prop)
    (l : list A) (k : list B) :
  Forall P l → Forall2 Q l k → (∀ a b, P a → Q a b → Q' a b) →
  Forall2 Q' l k.
Proof.
  intros HP HQ Himp. induction HQ as [|a b l k Hab _ IH]; [constructor|].
  apply Forall_cons in HP as [Ha HP]. constructor; [by apply Himp|by apply IH].
Qed.

Lemma omap_ext_Forall {A B} (P : A → Prop) (f g : A → option B) (l : list A) :
  Forall P l → (∀ a, P a → f a = g a) → omap f l = omap g l.
Proof.
  intros Hall Hfg. induction Hall as [|a l Ha _ IH]; [done|].
  change (omap f (a :: l))
    with (match f a with Some y => y :: omap f l | None => omap f l end).
  change (omap g (a :: l))
    with (match g a with Some y => y :: omap g l | None => omap g l end).
  by rewrite IH, Hfg.
Qed.

(** What a registration call leaves, for a task [ta] held by the runner
    [x], when every element is well formed: see [registration_adds]. *)
Definition registered (t : nat) (ro : role) (arg2 : oarg) (els : list element)
    (x : runner) (ta : task) (s s' : store) : Prop :=
  ∃ evs more ta',
    trace s' = trace s ++ evs ∧
    objects s' = objects s ++ more ∧
    Forall2 (λ el ev, ∃ f o l, making arg2 s el = Some (f, o) ∧
                               ev = Made (f_id f) l t ∧
                               length (objects s) ≤ l ∧
                               objects s' !! l = Some o) els evs ∧
    runners s' = <[t := with_body (TaskB ta') x]> (runners s) ∧
    members ro ta' = members ro ta ++ listed ro (omap (made_plugin arg2 s) els) ∧
    (∀ ro', ro' ≠ ro → members ro' ta' = members ro' ta) ∧
    t_frozen ta' = t_frozen ta ∧
    plugins s' = plugins s ∧ ticks s' = ticks s ∧ immediates s' = immediates s.

Lemma take_elements_good (t : nat) (ro : role) (arg2 : oarg) (els : list element) :
  ∀ (s : store) (x : runner) (ta : task),
    Task.get t s = Some (x, ta) → valid s arg2 → Forall (good arg2 s) els →
    ∃ s', Task.take_elements t ro els arg2 s = Ok [] s' ∧
          registered t ro arg2 els x ta s s'.
Proof.
  induction els as [|el els IH]; intros s x ta Hg Hv Hall.
  - exists s. split; [done|]. exists [], [], ta.
    apply get_task_inv in Hg as [Hx Hb].
    rewrite !app_nil_r.
    split; [done|]. split; [done|]. split; [constructor|].
    split.
    { rewrite list_insert_id; [done|]. rewrite Hx. f_equal.
      destruct x; simpl in *; by subst. }
    split; [destruct ro; simpl; by rewrite ?app_nil_r|].
    done.
  - apply Forall_cons in Hall as [Hel Hall].
    destruct (take_step t ro arg2 el els s Hel) as (f & o & l & k & Hm & Hl & Ho & Heq).
    rewrite Heq.
    set (s0 := log (Made (f_id f) l t) (set_objects (objects s ++ replicate k o) s)) in *.
    set (p := f_make f o) in *.
    set (ta1 := Task.add ro p ta).
    set (x1 := with_body (TaskB ta1) x).
    apply get_task_inv in Hg as Hinv. destruct Hinv as [Hx Hb].
    assert (Hadd : Task.add_to t ro p s0 = set_runner t x1 s0).
    { unfold Task.add_to.
      by rewrite (get_task_lookup t s0 x ta Hx Hb). }
    rewrite Hadd.
    set (s1 := set_runner t x1 s0).
    assert (Ho1 : objects s1 = objects s ++ replicate k o) by done.
    assert (Hg1 : Task.get t s1 = Some (x1, ta1)).
    { apply get_task_lookup; [|done]. simpl.
      apply list_lookup_insert_eq. by eapply lookup_lt_Some. }
    assert (Hv1 : valid s1 arg2).
    { destruct arg2 as [|l0|]; try done. simpl in *. rewrite length_app. lia. }
    assert (Hall1 : Forall (good arg2 s1) els).
    { eapply Forall_impl; [exact Hall|]. intros el' Hel'.
      by apply (making_prefix arg2 s s1 (replicate k o) el'). }
    destruct (IH s1 x1 ta1 Hg1 Hv1 Hall1)
      as (s' & Hs' & evs & more & ta' & Htr & Hobj & Hf2 & Hrun & Hmem & Hoth
          & Hfr & Hpl & Htk & Him).
    exists s'. split; [exact Hs'|].
    exists (Made (f_id f) l t :: evs), (replicate k o ++ more), ta'.
    split; [by rewrite Htr; simpl; rewrite <- app_assoc|].
    split; [by rewrite Hobj, Ho1, <- app_assoc|].
    assert (Hmk : ∀ el', good arg2 s el' → making arg2 s1 el' = making arg2 s el').
    { intros el' Hel'. by apply (making_prefix arg2 s s1 (replicate k o) el'). }
    split.
    { constructor.
      - exists f, o, l. split; [done|]. split; [done|]. split; [done|].
        rewrite Hobj, Ho1. by apply lookup_app_l_Some.
      - apply (Forall2_impl_Forall _ _ _ _ _ Hall Hf2).
        intros el' ev Hel' (f' & o' & l' & H1 & H2 & H3 & H4).
        exists f', o', l'. rewrite <- (Hmk el' Hel').
        split; [done|]. split; [done|]. split; [|done].
        rewrite Ho1, length_app in H3. lia. }
    split.
    { rewrite Hrun. unfold s1, set_runner, set_runners. simpl.
      by rewrite list_insert_insert_eq. }
    assert (Hps : omap (made_plugin arg2 s1) els = omap (made_plugin arg2 s) els).
    { apply (omap_ext_Forall _ _ _ _ Hall). intros el' Hel'.
      unfold made_plugin. by rewrite (Hmk el' Hel'). }
    split.
    { rewrite Hmem, Hps. unfold ta1. rewrite members_add, <- app_assoc.
      rewrite <- listed_app. f_equal. f_equal.
      change (omap (made_plugin arg2 s) (el :: els))
        with (match made_plugin arg2 s el with
              | Some y => y :: omap (made_plugin arg2 s) els
              | None => omap (made_plugin arg2 s) els
              end).
      unfold made_plugin at 2. by rewrite Hm. }
    split.
    { intros ro' Hne. rewrite (Hoth ro' Hne). by apply members_add_ne. }
    split.
    { rewrite Hfr. by destruct ro. }
    by rewrite Hpl, Htk, Him.
Qed.

(** The elements a first argument stands for: a function is registered as
    a list of one bare factory is. *)
Definition elements (arg1 : plugins_arg) : option (list element) :=
  match arg1 with
  | PFn f => Some [ElFn f]
  | PList els => Some els
  | POther => None
  end.

Lemma takePlugins_elements (t : nat) (ro : role) (arg1 : plugins_arg)
    (arg2 : oarg) (els : list element) (x : runner) (ta : task) (s : store) :
  Task.get t s = Some (x, ta) → t_frozen ta = false →
  elements arg1 = Some els →
  Task._takePlugins t ro arg1 arg2 s = Task.take_elements t ro els arg2 s.
Proof.
  intros Hg Hf He. unfold Task._takePlugins. rewrite Hg, Hf.
  destruct arg1 as [f|els'|]; simpl in He; [| |done]; injection He as <-; [|done].
  simpl. by destruct (Task._callPlugin t f arg2 s).
Qed.

(** A registration method ([collect], [process], [publish], [schedule] or
    [use]) called on a task that is not frozen, with a factory or a list
    of well-formed elements. The call returns. Every factory is called
    once, in list order, with an object made for the call: for a bare
    factory it holds the properties of the call-level options, for a pair
    those of the element's and the call-level options, where the
    call-level value wins. The plugins the factories return are appended
    to the list of the role in that order ([use] keeps no list); the
    other lists, the frozen flag and every object that was there before
    are as they were, and nothing is scheduled. *)
Theorem registration_adds (t : nat) (ro : role) (arg1 : plugins_arg) (arg2 : oarg)
    (els : list element) (x : runner) (ta : task) (s : store) :
  Task.get t s = Some (x, ta) → t_frozen ta = false →
  elements arg1 = Some els →
  valid s arg2 → Forall (good arg2 s) els →
  ∃ s' evs more ta',
    Task._takePlugins t ro arg1 arg2 s = Ok [] s' ∧
    trace s' = trace s ++ evs ∧
    objects s' = objects s ++ more ∧
    Forall2 (λ el ev, ∃ f o l, making arg2 s el = Some (f, o) ∧
                               ev = Made (f_id f) l t ∧
                               length (objects s) ≤ l ∧
                               objects s' !! l = Some o) els evs ∧
    Task.get t s' = Some (with_body (TaskB ta') x, ta') ∧
    members ro ta' = members ro ta ++ listed ro (omap (made_plugin arg2 s) els) ∧
    (∀ ro', ro' ≠ ro → members ro' ta' = members ro' ta) ∧
    t_frozen ta' = false ∧
    (∀ r, r ≠ t → runners s' !! r = runners s !! r) ∧
    plugins s' = plugins s ∧ ticks s' = ticks s ∧ immediates s' = immediates s.
Proof.
  intros Hg Hf He Hv Hall.
  rewrite (takePlugins_elements t ro arg1 arg2 els x ta s Hg Hf He).
  destruct (take_elements_good t ro arg2 els s x ta Hg Hv Hall)
    as (s' & Hs' & evs & more & ta' & Htr & Hobj & Hf2 & Hrun & Hmem & Hoth
        & Hfr & Hpl & Htk & Him).
  apply get_task_inv in Hg as [Hx Hb].
  exists s', evs, more, ta'. repeat (split; [done|]).
  split.
  { apply get_task_lookup; [|done]. rewrite Hrun.
    apply list_lookup_insert_eq. by eapply lookup_lt_Some. }
  repeat (split; [done|]).
  split; [congruence|].
  split; [|done].
  intros r Hr. rewrite Hrun. by rewrite list_lookup_insert_ne.
Qed.

(** Two factories for [options_store]: the first returns plugin 5, the
    second plugin 7 when it is given [interval = 60] and plugin 8
    otherwise. *)
Definition plain_factory : factory := {| f_id := 0; f_make := λ _, 5 |}.

Definition interval_factory : factory :=
  {| f_id := 1;
     f_make := λ o, match o !! "interval" with
                    | Some (VNum 60) => 7
                    | _ => 8
                    end |}.

Lemma registration_adds_witness :
  ∃ s' evs more ta',
    Task.publish 1 (PList [ElFn plain_factory; ElPair interval_factory (OObj 0)])
      (OObj 1) options_store = Ok [] s' ∧
    trace s' = evs ∧
    objects s' = objects options_store ++ more ∧
    Forall2 (λ el ev, ∃ f o l, making (OObj 1) options_store el = Some (f, o) ∧
                               ev = Made (f_id f) l 1 ∧
                               2 ≤ l ∧
                               objects s' !! l = Some o)
      [ElFn plain_factory; ElPair interval_factory (OObj 0)] evs ∧
    snd <$> Task.get 1 s' = Some ta' ∧
    t_publishers ta' = [5; 7] ∧
    (∀ ro', ro' ≠ Publish → members ro' ta' = []) ∧
    t_frozen ta' = false ∧
    (∀ r, r ≠ 1 → runners s' !! r = runners options_store !! r) ∧
    plugins s' = [] ∧ ticks s' = [] ∧ immediates s' = [].
Proof.
  destruct (registration_adds 1 Publish
              (PList [ElFn plain_factory; ElPair interval_factory (OObj 0)])
              (OObj 1) _ _ _ options_store eq_refl eq_refl eq_refl)
    as (s' & evs & more & ta' & H1 & H2 & H3 & H4 & H5 & H6 & H7 & H8 & H9 & H10).
  - vm_compute. lia.
  - apply Forall_cons_2; [simpl; congruence|].
    apply Forall_cons_2; [vm_compute; lia|]. apply Forall_nil_2.
  - exists s', evs, more, ta'.
    split; [exact H1|]. split; [exact H2|]. split; [exact H3|].
    split; [exact H4|]. split; [by rewrite H5|]. split; [exact H6|].
    split.
    { intros ro' Hne. rewrite (H7 ro' Hne).
      destruct ro'; try reflexivity. }
    split; [exact H8|]. split; [exact H9|]. exact H10.
Defined.

Lemma take_elements_app (t : nat) (ro : role) (arg2 : oarg)
    (pre rest : list element) :
  ∀ s,
    Task.take_elements t ro (pre ++ rest) arg2 s
    = match Task.take_elements t ro pre arg2 s with
      | Ok _ s' => Task.take_elements t ro rest arg2 s'
      | Throw msg s' => Throw msg s'
      end.
Proof.
  induction pre as [|el pre IH]; intros s; [done|].
  destruct el as [f|f el1|]; simpl.
  - destruct (Task._callPlugin t f arg2 s); [apply IH|done].
  - apply IH.
  - done.
Qed.

Lemma take_elements_extends (t : nat) (ro : role) (arg2 : oarg)
    (els : list element) :
  ∀ s, ∃ evs more,
    trace (res_store (Task.take_elements t ro els arg2 s)) = trace s ++ evs ∧
    objects (res_store (Task.take_elements t ro els arg2 s)) = objects s ++ more.
Proof.
  induction els as [|el els IH]; intros s.
  - exists [], []. simpl. by rewrite !app_nil_r.
  - destruct el as [f|f el1|].
    + simpl. unfold Task._callPlugin, pluginOptions.
      destruct arg2 as [|l0|]; simpl.
      * edestruct IH as (evs & more & H1 & H2). rewrite H1, H2.
        rewrite add_to_trace, add_to_objects. simpl.
        eexists _, _. by rewrite <- !app_assoc.
      * edestruct IH as (evs & more & H1 & H2). rewrite H1, H2.
        rewrite add_to_trace, add_to_objects. simpl.
        eexists _, _. by rewrite <- !app_assoc.
      * exists [], []. by rewrite !app_nil_r.
    + rewrite take_pair.
      edestruct IH as (evs & more & H1 & H2). rewrite H1, H2.
      rewrite add_to_trace, add_to_objects. simpl.
      eexists _, _. by rewrite <- !app_assoc.
    + exists [], []. simpl. by rewrite !app_nil_r.
Qed.

(** C9, as the code has it. In a registration call on a task that is not
    frozen, a pair [[factory, el1]] that the loop reaches, at whatever
    place of the list and whatever follows it, has its factory called
    with an object made for the call that holds the properties of [el1]
    and of the call-level options [arg2]; where both define a key the
    call-level value wins; no object that existed before the call, so
    neither [el1] nor [arg2], is changed. *)
Theorem pair_options_merge (t : nat) (ro : role) (arg2 : oarg)
    (pre : list element) (f : factory) (el1 : oarg) (post : list element)
    (x : runner) (ta : task) (s : store) :
  Task.get t s = Some (x, ta) → t_frozen ta = false →
  valid s arg2 → valid s el1 → Forall (good arg2 s) pre →
  let merged := own_properties arg2 s ∪ own_properties el1 s in
  let s' := res_store (Task._takePlugins t ro
                         (PList (pre ++ ElPair f el1 :: post)) arg2 s) in
  ∃ evs1 l evs2,
    trace s' = trace s ++ evs1 ++ Made (f_id f) l t :: evs2 ∧
    length evs1 = length pre ∧
    length (objects s) ≤ l ∧
    objects s' !! l = Some merged ∧
    (∀ key v, own_properties arg2 s !! key = Some v → merged !! key = Some v) ∧
    (∀ key, own_properties arg2 s !! key = None →
            merged !! key = own_properties el1 s !! key) ∧
    (∀ l0 o0, objects s !! l0 = Some o0 → objects s' !! l0 = Some o0) ∧
    own_properties el1 s' = own_properties el1 s ∧
    own_properties arg2 s' = own_properties arg2 s.
Proof.
  intros Hg Hf Hv Hv1 Hpre merged s'.
  unfold s', Task._takePlugins. rewrite Hg, Hf, take_elements_app.
  destruct (take_elements_good t ro arg2 pre s x ta Hg Hv Hpre)
    as (s1 & Hs1 & evs & more & ta1 & Htr & Hobj & HF2 & _).
  rewrite Hs1, take_pair.
  rewrite (own_properties_prefix arg2 s s1 more Hv Hobj).
  rewrite (own_properties_prefix el1 s s1 more Hv1 Hobj). fold merged.
  set (l := S (length (objects s1))).
  set (s2 := Task.add_to t ro (f_make f merged)
               (log (Made (f_id f) l t)
                  (set_objects (objects s1 ++ [merged; merged]) s1))).
  destruct (take_elements_extends t ro arg2 post s2) as (evs2 & more2 & Ht2 & Ho2).
  assert (Htr2 : trace s2 = trace s ++ evs ++ [Made (f_id f) l t]).
  { unfold s2. rewrite add_to_trace. simpl. by rewrite Htr, <- app_assoc. }
  assert (Hobj2 : objects s2 = objects s ++ more ++ [merged; merged]).
  { unfold s2. rewrite add_to_objects. simpl. by rewrite Hobj, <- app_assoc. }
  assert (Hext : ∀ l0 o0, objects s !! l0 = Some o0 →
            objects (res_store (Task.take_elements t ro post arg2 s2)) !! l0
            = Some o0).
  { intros l0 o0 H0. rewrite Ho2, Hobj2. by do 2 apply lookup_app_l_Some. }
  exists evs, l, evs2.
  split; [by rewrite Ht2, Htr2, <- !app_assoc|].
  split; [symmetry; by eapply Forall2_length|].
  split; [unfold l; rewrite Hobj, length_app; lia|].
  split.
  { rewrite Ho2. apply lookup_app_l_Some. unfold s2. rewrite add_to_objects. simpl.
    rewrite lookup_app_r by (unfold l; lia).
    by replace (l - length (objects s1)) with 1 by (unfold l; lia). }
  split. { intros key v H. unfold merged. by apply lookup_union_Some_l. }
  split. { intros key H. unfold merged. by apply lookup_union_r. }
  split; [exact Hext|].
  split.
  - destruct el1 as [|l1|]; try done. simpl in *.
    destruct (objects s !! l1) as [o1|] eqn:E.
    + by rewrite (Hext l1 o1 E).
    + apply lookup_ge_None in E. lia.
  - destruct arg2 as [|l2|]; try done. simpl in *.
    destruct (objects s !! l2) as [o2|] eqn:E.
    + by rewrite (Hext l2 o2 E).
    + apply lookup_ge_None in E. lia.
Qed.

(** The second element of three: element options [{interval: 30}],
    call-level options [{interval: 60}], and an ill-formed element behind. *)
Lemma pair_options_merge_witness :
  let s' := res_store (Task.collect 1
                         (PList [ElFn plain_factory;
                                 ElPair interval_factory (OObj 0); ElOther])
                         (OObj 1) options_store) in
  ∃ evs1 l evs2,
    trace s' = trace options_store ++ evs1 ++ Made 1 l 1 :: evs2 ∧
    length evs1 = 1 ∧
    objects s' !! l = Some ({[ "interval" := VNum 60 ]} : obj).
Proof.
  destruct (pair_options_merge 1 Collect (OObj 1) [ElFn plain_factory]
              interval_factory (OObj 0) [ElOther] _ _ options_store
              eq_refl eq_refl)
    as (evs1 & l & evs2 & H1 & H2 & _ & H4 & _).
  - vm_compute. lia.
  - vm_compute. lia.
  - apply Forall_cons_2; [simpl; congruence|]. apply Forall_nil_2.
  - exists evs1, l, evs2. split; [exact H1|]. split; [exact H2|].
    etransitivity; [exact H4|]. by vm_compute.
Defined.

(** What the registration methods reject, on a task that is not frozen.
    A first argument that is neither a function nor a list, and a bare
    factory with a primitive for options, throw and change nothing. A
    list is taken element by element: at an element that is neither a
    function nor a list, or at a bare factory when the call-level options
    are a primitive, the call throws; the elements before it have been
    registered by then and stay registered, and the elements behind it are
    not looked at. *)
Theorem registration_rejects (t : nat) (ro : role) (arg2 : oarg)
    (pre : list element) (x : runner) (ta : task) (s s' : store)
    (calls : list frame) :
  Task.get t s = Some (x, ta) → t_frozen ta = false →
  Task._takePlugins t ro (PList pre) arg2 s = Ok calls s' →
  Task._takePlugins t ro POther arg2 s
  = Throw ("First argument in " +:+ method_name ro +:+
           "(arg) must be a function or an array in the form [plugin, ..]") s ∧
  (∀ f, Task._takePlugins t ro (PFn f) OPrim s
        = Throw "Unexpected type for options object" s) ∧
  (∀ post,
     Task._takePlugins t ro (PList (pre ++ ElOther :: post)) arg2 s
     = Throw ("Nested plugin in " +:+ method_name ro +:+
              "([plugin, ..]) must be a function or an array in the form [plugin, options]")
             s') ∧
  (arg2 = OPrim →
   ∀ f post,
     Task._takePlugins t ro (PList (pre ++ ElFn f :: post)) arg2 s
     = Throw "Unexpected type for options object" s').
Proof.
  intros Hg Hf Hpre. unfold Task._takePlugins in *. rewrite Hg, Hf in *.
  split; [done|]. split; [done|]. split.
  - intros post. by rewrite take_elements_app, Hpre.
  - intros -> f post. by rewrite take_elements_app, Hpre.
Qed.

Lemma registration_rejects_witness :
  ∃ s',
    Task.collect 1 (PList [ElFn plain_factory]) OAbsent options_store = Ok [] s' ∧
    (t_collectors ∘ snd) <$> Task.get 1 s' = Some [5] ∧
    Task.collect 1 POther OAbsent options_store
    = Throw "First argument in collect(arg) must be a function or an array in the form [plugin, ..]"
            options_store ∧
    Task.collect 1 (PFn plain_factory) OPrim options_store
    = Throw "Unexpected type for options object" options_store ∧
    Task.collect 1 (PList [ElFn plain_factory; ElOther; ElFn interval_factory])
      OAbsent options_store
    = Throw "Nested plugin in collect([plugin, ..]) must be a function or an array in the form [plugin, options]"
            s'.
Proof.
  eexists. split; [reflexivity|]. split; [reflexivity|].
  destruct (registration_rejects 1 Collect OAbsent [ElFn plain_factory] _ _
              options_store _ _ eq_refl eq_refl eq_refl) as (H1 & H2 & H3 & _).
  split; [exact H1|]. split; [exact (H2 _)|]. exact (H3 _).
Defined.

(** ** Initialising a task with any number of plugins *)

Lemma mapM_imap_is_Some {A B} (l : list A) :
  ∀ (g : nat → A → option B),
    (∀ i a, a ∈ l → is_Some (g i a)) → is_Some (mapM id (imap g l)).
Proof.
  induction l as [|a l IH]; intros g Hg; [by eexists|].
  rewrite imap_cons. simpl.
  destruct (Hg 0 a) as [b Hb]; [by left|]. rewrite Hb. simpl.
  destruct (IH (g ∘ S)) as [bs Hbs].
  { intros i a' Ha'. apply Hg. by right. }
  rewrite Hbs. by eexists.
Qed.

Lemma wraps_unwrap (s : store) (l : list nat) (ws : list wrapped) :
  Forall2 (wraps s) l ws → Task.unwrap <$> ws = l.
Proof.
  induction 1 as [|p w l ws [Hw1 _] _ IH]; [done|]. simpl. by f_equal.
Qed.

Lemma wrap_all_present (ta : task) (s : store) :
  Forall (λ p, is_Some (plugins s !! p))
    (t_collectors ta ++ t_processors ta ++ t_publishers ta) →
  ∃ ws, Task.wrap_all ta s = Some ws ∧
        Task.unwrap <$> ws
        = t_collectors ta ++ t_processors ta ++ t_publishers ta.
Proof.
  intros Hall.
  assert (Hw : ∀ name ro l,
            Forall (λ p, is_Some (plugins s !! p)) l →
            is_Some (mapM id (imap (Task.wrapper name ro s) l))).
  { intros name ro l Hl. apply mapM_imap_is_Some. intros i p Hp.
    rewrite Forall_forall in Hl. destruct (Hl p Hp) as [pl Hpl].
    unfold Task.wrapper. rewrite Hpl. by eexists. }
  apply Forall_app in Hall as [Hc Hall]. apply Forall_app in Hall as [Hp Hb].
  assert (His : is_Some (Task.wrap_all ta s)).
  { unfold Task.wrap_all.
    destruct (Hw (t_name ta) "Collector" _ Hc) as [cs ->].
    destruct (Hw (t_name ta) "Processor" _ Hp) as [ps ->].
    destruct (Hw (t_name ta) "Publisher" _ Hb) as [bs ->]. by eexists. }
  destruct His as [ws Hws]. exists ws. split; [done|].
  apply (wraps_unwrap s). by apply wrap_all_wraps.
Qed.

(** The [addRunner] calls of [_initializePlugins] in a store of [n]
    runners, for [k1] collectors, processors and publishers and [k2]
    schedules. *)
Definition pipeline_adds (n k1 k2 : nat) : list (nat * bool) :=
  ((λ r, (r, false)) <$> seq n k1) ++ ((λ r, (r, true)) <$> seq (n + k1) k2).

Lemma filter_tagged (b b' : bool) (l : list nat) :
  (filter (λ a : nat * bool, a.2 = b') ((λ r, (r, b)) <$> l)).*1
  = if decide (b = b') then l else [].
Proof.
  induction l as [|r l IH]; [by destruct (decide _)|].
  rewrite fmap_cons, filter_cons. simpl.
  destruct (decide (b = b')) as [Hb|Hb]; simpl in *; [by f_equal|done].
Qed.

Lemma added_pipeline (n k1 k2 : nat) (mu : multi) :
  m_startOrder (added (pipeline_adds n k1 k2) mu)
  = m_startOrder mu ++ seq n (k1 + k2) ∧
  m_stopOrder (added (pipeline_adds n k1 k2) mu)
  = reverse (seq (n + k1) k2) ++ m_stopOrder mu ++ seq n k1.
Proof.
  unfold added, pipeline_adds. simpl. split.
  - f_equal. rewrite fmap_app, <- !list_fmap_compose, seq_app.
    f_equal; by rewrite list_fmap_id.
  - rewrite !filter_app, !fmap_app, !filter_tagged. simpl.
    by rewrite app_nil_r.
Qed.

(** [_initialize] up to its call of [_connectPlugins]. *)
Lemma run_decorate (t : nat) (x : runner) (ta : task) (xm : runner)
    (mu : multi) (s : store) (fs : list frame) :
  runners s !! t = Some x → r_body x = TaskB ta → t_frozen ta = false →
  runners s !! t_multiRunner ta = Some xm → r_body xm = Multi mu →
  m_frozen mu = false → m_unref mu = false →
  Forall (λ p, is_Some (plugins s !! p))
    ((t_collectors ta ++ t_processors ta ++ t_publishers ta) ++ t_schedules ta) →
  let pinged := t_collectors ta ++ t_processors ta ++ t_publishers ta in
  let n := length (runners s) in
  ∃ ws,
    Task.wrap_all ta s = Some ws ∧
    steps (running s (FInitialize t :: fs))
          (running
             (set_runners
                (<[t_multiRunner ta :=
                     with_body
                       (Multi (added (pipeline_adds n (length pinged)
                                        (length (t_schedules ta))) mu)) xm]>
                   (<[t := with_body
                             (TaskB (Task.with_frozen
                                       (filter (λ w, w_pingable w = true) ws) ta))
                             x]>
                      (runners s ++ (decorated <$> (pinged ++ t_schedules ta)))))
                s) (FConnect t :: fs)).
Proof.
  intros Hx Hb Hf Hxm Hbm Hfm Hum Hall pinged n.
  set (m := t_multiRunner ta) in *.
  apply Forall_app in Hall as [Hall Hsch].
  destruct (wrap_all_present ta s Hall) as (ws & Hws & Hun). fold pinged in Hun.
  exists ws. split; [done|].
  assert (Hlt : t < n) by by eapply lookup_lt_Some.
  assert (Hlm : m < n) by by eapply lookup_lt_Some.
  assert (Hne : t ≠ m).
  { intros Heq. rewrite Heq, Hxm in Hx. injection Hx as <-. congruence. }
  set (x1 := with_body (TaskB (Task.with_frozen
                (filter (λ w, w_pingable w = true) ws) ta)) x).
  set (l := <[t := x1]> (runners s ++ (decorated <$> (pinged ++ t_schedules ta)))).
  eapply steps_exec.
  { simpl. unfold Task._initialize.
    rewrite (get_task_lookup t s x ta Hx Hb), Hf, Hws, Hun.
    rewrite decorate_all_spec by done.
    rewrite decorate_all_spec by done. simpl. reflexivity. }
  assert (Hl : l !! m = Some xm).
  { unfold l. rewrite list_lookup_insert_ne by done. by apply lookup_app_l_Some. }
  eapply steps_trans.
  { apply steps_eq with
      (M' := running (set_runners l s)
               (add_runners m (pipeline_adds n (length pinged)
                                 (length (t_schedules ta))) ++ FConnect t :: fs)).
    unfold running, Task.put, set_runner, set_runners. simpl. f_equal.
    - f_equal. unfold l. by rewrite fmap_app, app_assoc.
    - rewrite <- !app_assoc. simpl. rewrite app_assoc. f_equal.
      unfold add_runners, pipeline_adds. fold m.
      rewrite fmap_app, <- !list_fmap_compose, length_app, length_fmap.
      by fold n. }
  eapply steps_trans.
  { by apply (run_add_runners m _ (FConnect t :: fs) xm mu (set_runners l s)). }
  apply steps_eq. reflexivity.
Qed.

(** The task and the plugins it subscribes to are as [_initialize] found
    them when [_connectPlugins] runs. *)
Lemma decorated_task (t : nat) (x : runner) (ta : task) (y : runner)
    (ws : list wrapped) (decs : list runner) (s : store) :
  runners s !! t = Some x → t ≠ t_multiRunner ta →
  let ta' := Task.with_frozen ws ta in
  let s' := set_runners
              (<[t_multiRunner ta := y]>
                 (<[t := with_body (TaskB ta') x]> (runners s ++ decs))) s in
  Task.get t s' = Some (with_body (TaskB ta') x, ta') ∧
  (connectable s' ta' ↔ connectable s ta).
Proof.
  intros Hx Hne ta' s'. split; [|done].
  apply get_task_lookup; [|reflexivity]. simpl.
  rewrite list_lookup_insert_ne by done.
  apply list_lookup_insert_eq. rewrite length_app.
  apply lookup_lt_Some in Hx. lia.
Qed.

Lemma run_initialize (t : nat) (x : runner) (ta : task) (xm : runner)
    (mu : multi) (s : store) (fs : list frame) :
  runners s !! t = Some x → r_body x = TaskB ta → t_frozen ta = false →
  runners s !! t_multiRunner ta = Some xm → r_body xm = Multi mu →
  m_frozen mu = false → m_unref mu = false →
  Forall (λ p, is_Some (plugins s !! p))
    ((t_collectors ta ++ t_processors ta ++ t_publishers ta) ++ t_schedules ta) →
  connectable s ta →
  let pinged := t_collectors ta ++ t_processors ta ++ t_publishers ta in
  let n := length (runners s) in
  ∃ ws,
    Task.wrap_all ta s = Some ws ∧
    steps (running s (FInitialize t :: fs))
          (running
             (set_runners
                (<[t_multiRunner ta :=
                     with_body
                       (Multi (added (pipeline_adds n (length pinged)
                                        (length (t_schedules ta))) mu)) xm]>
                   (<[t := with_body
                             (TaskB (Task.with_frozen
                                       (filter (λ w, w_pingable w = true) ws) ta))
                             x]>
                      (runners s ++ (decorated <$> (pinged ++ t_schedules ta)))))
                s) fs).
Proof.
  intros Hx Hb Hf Hxm Hbm Hfm Hum Hall Hon pinged n.
  destruct (run_decorate t x ta xm mu s fs Hx Hb Hf Hxm Hbm Hfm Hum Hall)
    as (ws & Hws & Hs).
  exists ws. split; [done|].
  assert (Hne : t ≠ t_multiRunner ta).
  { intros Heq. rewrite <- Heq, Hx in Hxm. injection Hxm as <-. congruence. }
  eapply steps_trans; [exact Hs|].
  destruct (decorated_task t x ta
              (with_body (Multi (added (pipeline_adds n (length pinged)
                                          (length (t_schedules ta))) mu)) xm)
              (filter (λ w, w_pingable w = true) ws)
              (decorated <$> (pinged ++ t_schedules ta)) s Hx Hne) as [Hg Hc].
  eapply steps_exec.
  { eapply connect_exec; [exact Hg|]. by apply Hc. }
  apply steps_refl.
Qed.

Lemma wraps_pingable (s : store) (l : list nat) (ws : list wrapped) :
  Forall2 (wraps s) l ws →
  w_plugin <$> filter (λ w, w_pingable w = true) ws
  = filter (λ p, has_ping s p = true) l.
Proof.
  induction 1 as [|p w l ws [Hw1 Hw2] _ IH]; [done|].
  rewrite !filter_cons, Hw2.
  destruct (decide (has_ping s p = true)); simpl; [|exact IH].
  rewrite Hw1. f_equal. exact IH.
Qed.

(** [_initialize] on a task that is not frozen, with any number of
    plugins in each role, all of them plugin objects and the collectors
    and processors event emitters, whose composite has not been started
    or unref'd. The call returns. It freezes the task and decorates the
    collectors, the processors, the publishers and the schedules, in that
    order: in a store of [n] runners, runner [n + i] decorates the [i]-th
    of them. It adds them to the composite in that order, the schedules
    with [stopFirst]: the start order is extended by the new runners in
    order, and the stop order gets the schedules in front, the last one
    registered first, and the others behind. The plugins that have a
    [ping] method when this runs make up the ping list, schedules left
    out. No hook is invoked and nothing is scheduled. *)
Theorem initialize_orders (t : nat) (x : runner) (ta : task) (xm : runner)
    (mu : multi) (s : store) :
  Task.get t s = Some (x, ta) → t_frozen ta = false →
  MultiRunner.get (t_multiRunner ta) s = Some (xm, mu) →
  m_frozen mu = false → m_unref mu = false →
  Forall (λ p, is_Some (plugins s !! p))
    ((t_collectors ta ++ t_processors ta ++ t_publishers ta) ++ t_schedules ta) →
  connectable s ta →
  let pinged := t_collectors ta ++ t_processors ta ++ t_publishers ta in
  let all := pinged ++ t_schedules ta in
  let n := length (runners s) in
  ∃ M x' ta' xm' mu',
    steps (enter (FInitialize t) s) M ∧
    stack M = [] ∧ thrown M = None ∧
    length (runners (store_of M)) = n + length all ∧
    (∀ i nut, all !! i = Some nut →
              runners (store_of M) !! (n + i) = Some (decorated nut)) ∧
    MultiRunner.get (t_multiRunner ta) (store_of M) = Some (xm', mu') ∧
    m_startOrder mu' = m_startOrder mu ++ seq n (length all) ∧
    m_stopOrder mu'
    = reverse (seq (n + length pinged) (length (t_schedules ta)))
        ++ m_stopOrder mu ++ seq n (length pinged) ∧
    Task.get t (store_of M) = Some (x', ta') ∧
    t_frozen ta' = true ∧
    w_plugin <$> t_pingablePlugins ta'
    = filter (λ p, has_ping s p = true) pinged ∧
    trace (store_of M) = trace s ∧
    ticks (store_of M) = ticks s ∧ immediates (store_of M) = immediates s.
Proof.
  intros Hg Hf Hgm Hfm Hum Hall Hon pinged all n.
  apply get_task_inv in Hg as [Hx Hb]. apply get_multi_inv in Hgm as [Hxm Hbm].
  destruct (run_initialize t x ta xm mu s [] Hx Hb Hf Hxm Hbm Hfm Hum Hall Hon)
    as (ws & Hws & Hs).
  fold pinged n in Hs. fold all in Hs.
  set (m := t_multiRunner ta) in *.
  assert (Hlt : t < n) by by eapply lookup_lt_Some.
  assert (Hlm : m < n) by by eapply lookup_lt_Some.
  assert (Hne : t ≠ m).
  { intros Heq. rewrite Heq, Hxm in Hx. injection Hx as <-. congruence. }
  destruct (added_pipeline n (length pinged) (length (t_schedules ta)) mu)
    as [Hso Hst].
  eexists _, _, _, _, _. split; [exact Hs|].
  split; [done|]. split; [done|]. split.
  { simpl. rewrite !length_insert, length_app, length_fmap. done. }
  split.
  { intros i nut Hi. simpl. unfold n.
    apply lookup_decorated; [done..|]. by rewrite list_lookup_fmap, Hi. }
  split.
  { apply get_multi_lookup;
      [simpl; apply list_lookup_insert_eq; rewrite length_insert, length_app; lia
      |reflexivity]. }
  split; [by rewrite Hso; unfold all; rewrite length_app|].
  split; [exact Hst|].
  split.
  { apply get_task_lookup;
      [simpl; rewrite list_lookup_insert_ne by done;
       apply list_lookup_insert_eq; rewrite length_app; lia
      |reflexivity]. }
  split; [done|].
  split; [|done].
  simpl. apply wraps_pingable. by apply wrap_all_wraps.
Qed.

(** A task with a collector, a schedule, a publisher and a second
    schedule, registered in that order; the task is runner 1 and its
    composite runner 0. *)
Definition schedules_store : store :=
  Eval vm_compute in
    let s := set_plugins (demo_plugin <$> [Some [(Sync, None)]; None; None; None])
               empty_store in
    let '(t, s) := Task.create None s in
    register Schedule 3 t (register Publish 2 t
      (register Schedule 1 t (register Collect 0 t s))).

Lemma initialize_orders_witness :
  ∃ M x' ta' xm' mu',
    steps (enter (FInitialize 1) schedules_store) M ∧
    stack M = [] ∧ thrown M = None ∧
    length (runners (store_of M)) = 6 ∧
    (∀ i nut, [0; 2; 1; 3] !! i = Some nut →
              runners (store_of M) !! (2 + i) = Some (decorated nut)) ∧
    MultiRunner.get 0 (store_of M) = Some (xm', mu') ∧
    m_startOrder mu' = [2; 3; 4; 5] ∧
    m_stopOrder mu' = [5; 4; 2; 3] ∧
    Task.get 1 (store_of M) = Some (x', ta') ∧
    t_frozen ta' = true ∧
    w_plugin <$> t_pingablePlugins ta' = [0] ∧
    trace (store_of M) = trace schedules_store ∧
    ticks (store_of M) = [] ∧ immediates (store_of M) = [].
Proof.
  apply (initialize_orders 1 _ _ _ _ schedules_store eq_refl eq_refl eq_refl
           eq_refl eq_refl).
  - repeat (apply Forall_cons_2; [eexists; reflexivity|]). apply Forall_nil_2.
  - repeat (apply Forall_cons_2; [reflexivity|]). apply Forall_nil_2.
Defined.

(** ** Starting and stopping a task *)

Lemma starts_ok_leaf (s : store) (r : nat) :
  starts_ok s r → ∃ x, runners s !! r = Some x ∧ leaf (plugins s) (r_body x).
Proof.
  intros (x & sp & Hx & _ & _ & _ & Hsp & _). exists x. split; [done|].
  by eapply leaf_start_leaf.
Qed.

Lemma leaf_not_multi (ps : list plugin) (x : runner) (mu : multi) :
  r_body x = Multi mu → ¬ leaf ps (r_body x).
Proof. intros -> H. exact H. Qed.

Lemma leaf_not_task (ps : list plugin) (x : runner) (ta : task) :
  r_body x = TaskB ta → ¬ leaf ps (r_body x).
Proof. intros -> H. exact H. Qed.

(** The composite of a task starts its children and the task's own start
    completes: from the call [_start] makes to the caller's callback. *)
Lemma task_start_tail (t m : nat) (x1 : runner) (ta : task) (xm : runner)
    (mu : multi) (k : cont) (s : store) :
  runners s !! t = Some x1 → r_body x1 = TaskB ta → r_once_start x1 = [] →
  runners s !! m = Some xm → r_body xm = Multi mu →
  r_status xm = Stopped → r_once_start xm = [] →
  Forall (starts_ok s) (m_startOrder mu) → NoDup (m_startOrder mu) →
  ticks s = [] → immediates s = [] →
  ∃ u cs,
    steps (running s [FStart m (AFun (KStartDone t k)) None])
          (running
             (upd s (<[t := with_status Started x1]>
                       (<[m := with_status Started (starting_multi xm mu)]>
                          (set_status_all Started (m_startOrder mu) (runners s))))
                cs [] [] (trace s ++ (m_startOrder mu ≫= start_events s)) u)
             [FCall k None]).
Proof.
  intros Hx Hb Hos Hxm Hbm Hstm Hosm Hkids Hnd Ht Hi.
  assert (Hnm : m ∉ m_startOrder mu).
  { intros Hin. rewrite Forall_forall in Hkids.
    destruct (starts_ok_leaf s m (Hkids m Hin)) as (y & Hy & Hl).
    rewrite Hxm in Hy. injection Hy as <-. by eapply leaf_not_multi. }
  assert (Hnt : t ∉ m_startOrder mu).
  { intros Hin. rewrite Forall_forall in Hkids.
    destruct (starts_ok_leaf s t (Hkids t Hin)) as (y & Hy & Hl).
    rewrite Hx in Hy. injection Hy as <-. by eapply leaf_not_task. }
  assert (Hne : t ≠ m).
  { intros Heq. rewrite Heq, Hxm in Hx. injection Hx as <-. congruence. }
  pose proof (start_entries_ids s (m_startOrder mu)) as Hids.
  destruct (multi_start_run m xm mu (KStartDone t k) s
              (start_entries s (m_startOrder mu)) Hxm Hbm Hstm Hosm)
    as (u & cs & Hs); try done.
  { by apply start_entries_succeed. }
  { by rewrite Hids. }
  { by rewrite Hids. }
  rewrite Hids, start_entries_trace in Hs.
  exists u, cs.
  eapply steps_trans; [exact Hs|].
  eapply steps_trans.
  { apply (start_completion t x1 k None _ []).
    - unfold upd. cbn [runners]. rewrite list_lookup_insert_ne by done.
      by rewrite lookup_set_status_all_ne.
    - rewrite Hos. constructor. }
  apply steps_eq. unfold running, upd, set_runner, set_runners, set_ticks.
  cbn [runners ticks plugins objects cells promises immediates trace unrefd].
  rewrite Hos. simpl. do 2 f_equal. f_equal.
  destruct x1; simpl in *; by subst.
Qed.

Lemma child_set_runner (t : nat) (x y : runner) (s : store) (r : nat) :
  runners s !! t = Some x → ¬ leaf (plugins s) (r_body x) →
  (starts_ok s r →
   starts_ok (set_runner t y s) r ∧
   start_events (set_runner t y s) r = start_events s r) ∧
  (started_child s r →
   started_child (set_runner t y s) r ∧
   stop_events (set_runner t y s) r = stop_events s r ∧
   stop_error (set_runner t y s) r = stop_error s r).
Proof.
  intros Hx Hnl. split.
  - intros (z & sp & Hz & Hrest).
    assert (Hne : t ≠ r).
    { intros ->. rewrite Hx in Hz. injection Hz as <-.
      destruct Hrest as (_ & _ & _ & Hsp & _). apply Hnl.
      by eapply leaf_start_leaf. }
    split.
    + exists z, sp. simpl. by rewrite list_lookup_insert_ne.
    + unfold start_events, start_of. simpl. by rewrite list_lookup_insert_ne.
  - intros (z & Hz & Hst & Hos & [sp Hsp]).
    assert (Hne : t ≠ r).
    { intros ->. rewrite Hx in Hz. injection Hz as <-. apply Hnl.
      by eapply leaf_stop_leaf. }
    split; [|split].
    + exists z. simpl. rewrite list_lookup_insert_ne by done. by eauto.
    + unfold stop_events, stop_of. simpl. by rewrite list_lookup_insert_ne.
    + unfold stop_error, stop_of. simpl. by rewrite list_lookup_insert_ne.
Qed.




Lemma started_child_leaf (s : store) (r : nat) :
  started_child s r → ∃ x, runners s !! r = Some x ∧ leaf (plugins s) (r_body x).
Proof.
  intros (x & Hx & _ & _ & [sp Hsp]). exists x. split; [done|].
  by eapply leaf_stop_leaf.
Qed.

Lemma task_stop_steps (t : nat) (x : runner) (ta : task) (xm : runner)
    (mu : multi) (k : cont) (s : store) :
  Task.get t s = Some (x, ta) →
  r_status x = Started → r_once_stop x = [] →
  MultiRunner.get (t_multiRunner ta) s = Some (xm, mu) →
  r_status xm = Started → r_once_stop xm = [] →
  Forall (started_child s) (m_stopOrder mu) → NoDup (m_stopOrder mu) →
  ticks s = [] → immediates s = [] →
  ∃ rs' cs' u',
    steps (running s [FStop t (AFun k) None])
          (running
             (upd s rs' cs' [] [] (trace s ++ (m_stopOrder mu ≫= stop_events s)) u')
             [FCall k (aggregate (omap (stop_error s) (m_stopOrder mu)))]) ∧
    (∀ r, r ∈ t :: t_multiRunner ta :: m_stopOrder mu →
          r_status <$> rs' !! r = Some Stopped).
Proof.
  intros Hg Hst Hos Hgm Hstm Hosm Hkids Hnd Ht Hi.
  apply get_task_inv in Hg as Hinv. destruct Hinv as [Hx Hb].
  apply get_multi_inv in Hgm as [Hxm Hbm].
  set (m := t_multiRunner ta) in *.
  assert (Hne : t ≠ m).
  { intros Heq. rewrite Heq, Hxm in Hx. injection Hx as <-. congruence. }
  assert (Hnl : ¬ leaf (plugins s) (r_body x)) by by eapply leaf_not_task.
  assert (Hlt : t < length (runners s)) by by eapply lookup_lt_Some.
  assert (Hlm : m < length (runners s)) by by eapply lookup_lt_Some.
  assert (Hnm : m ∉ m_stopOrder mu).
  { intros Hin. rewrite Forall_forall in Hkids.
    destruct (started_child_leaf s m (Hkids m Hin)) as (y & Hy & Hl).
    rewrite Hxm in Hy. injection Hy as <-. by eapply leaf_not_multi. }
  assert (Hnt : t ∉ m_stopOrder mu).
  { intros Hin. rewrite Forall_forall in Hkids.
    destruct (started_child_leaf s t (Hkids t Hin)) as (y & Hy & Hl).
    rewrite Hx in Hy. injection Hy as <-. by eapply leaf_not_task. }
  set (x1 := with_status Stopping x).
  set (s1 := set_runner t x1 s).
  assert (Hx1 : runners s1 !! t = Some x1).
  { simpl. by apply list_lookup_insert_eq. }
  assert (Hkids1 : Forall (started_child s1) (m_stopOrder mu)).
  { eapply Forall_impl; [exact Hkids|]. intros r Hr.
    by apply (child_set_runner t x x1 s r Hx Hnl). }
  assert (Hev : m_stopOrder mu ≫= stop_events s1 = m_stopOrder mu ≫= stop_events s).
  { apply (bind_ext_Forall _ _ _ _ Hkids). intros r Hr.
    by apply (child_set_runner t x x1 s r Hx Hnl). }
  assert (Her : omap (stop_error s1) (m_stopOrder mu)
                = omap (stop_error s) (m_stopOrder mu)).
  { apply (omap_ext_Forall _ _ _ _ Hkids). intros r Hr.
    by apply (child_set_runner t x x1 s r Hx Hnl). }
  destruct (multi_stop_run m xm mu (KStopDone t k) s1)
    as (u & cs & Hs); try done.
  { simpl. by rewrite list_lookup_insert_ne. }
  rewrite Hev, Her in Hs.
  set (e := aggregate (omap (stop_error s) (m_stopOrder mu))) in *.
  set (rs2 := <[m := with_status Stopped xm]>
                (set_status_all Stopped (m_stopOrder mu) (runners s1))) in *.
  assert (Hx2 : rs2 !! t = Some x1).
  { unfold rs2. rewrite list_lookup_insert_ne by done.
    by rewrite lookup_set_status_all_ne. }
  assert (Hl2 : length rs2 = length (runners s)).
  { unfold rs2. rewrite length_insert, length_set_status_all. simpl.
    by rewrite length_insert. }
  exists (<[t := with_once_stop [] (with_status Stopped x1)]> rs2), cs, u.
  split.
  - eapply steps_exec.
    { simpl. unfold AbstractRunner.stop. simpl. rewrite Hx.
      unfold AbstractRunner.stop_default. rewrite Hst. reflexivity. }
    fold x1. fold s1. simpl.
    eapply steps_exec.
    { unfold exec, hook_stop. rewrite Hx1. simpl. rewrite Hb.
      unfold Task._stop.
      rewrite (get_task_lookup t _ x1 ta Hx1 Hb). reflexivity. }
    eapply steps_trans; [exact Hs|].
    eapply steps_trans.
    { apply (stop_completion t x1 k e _ []); [exact Hx2|].
      simpl. rewrite Hos. constructor. }
    apply steps_eq. unfold running, upd, set_runner, set_runners, set_ticks.
    cbn [runners ticks plugins objects cells promises immediates trace unrefd].
    simpl. rewrite Hos. reflexivity.
  - intros r Hr.
    apply elem_of_cons in Hr as [->|Hr].
    { rewrite list_lookup_insert_eq; [done|]. lia. }
    apply elem_of_cons in Hr as [->|Hr].
    { rewrite list_lookup_insert_ne by done. unfold rs2.
      rewrite list_lookup_insert_eq; [done|].
      rewrite length_set_status_all. simpl. rewrite length_insert. lia. }
    assert (Hrt : t ≠ r) by (intros <-; done).
    assert (Hrm : m ≠ r) by (intros <-; done).
    rewrite list_lookup_insert_ne by done. unfold rs2.
    rewrite list_lookup_insert_ne by done.
    rewrite lookup_set_status_all by done.
    rewrite Forall_forall in Hkids1.
    destruct (Hkids1 r Hr) as (z & Hz & _). by rewrite Hz.
Qed.


(** [stop] on a Started task whose composite is Started, with children
    that are Started leaves whose stop hooks complete once. The stop hooks
    run in the stop order of the composite, each after the one before has
    completed, whatever the outcomes; then the caller's callback runs
    once, with the failures combined into one error, or without an error
    when there was none. The task, its composite and the children end
    Stopped, also when a stop hook failed. *)
Theorem task_stop (t : nat) (x : runner) (ta : task) (xm : runner)
    (mu : multi) (tag : nat) (s : store) :
  Task.get t s = Some (x, ta) →
  r_status x = Started → r_once_stop x = [] →
  MultiRunner.get (t_multiRunner ta) s = Some (xm, mu) →
  r_status xm = Started → r_once_stop xm = [] →
  Forall (started_child s) (m_stopOrder mu) → NoDup (m_stopOrder mu) →
  ticks s = [] → immediates s = [] →
  ∃ M,
    steps (enter (FStop t (AFun (KUser tag)) None) s) M ∧ quiet M ∧
    trace (store_of M)
    = trace s ++ (m_stopOrder mu ≫= stop_events s)
        ++ [Called tag (aggregate (omap (stop_error s) (m_stopOrder mu)))] ∧
    (∀ r, r ∈ t :: t_multiRunner ta :: m_stopOrder mu →
          AbstractRunner.get_status r (store_of M) = Some Stopped).
Proof.
  intros Hg Hst Hos Hgm Hstm Hosm Hkids Hnd Ht Hi.
  destruct (task_stop_steps t x ta xm mu (KUser tag) s Hg Hst Hos Hgm Hstm Hosm
              Hkids Hnd Ht Hi) as (rs' & cs' & u' & Hs & Hall).
  eexists. split; [|split; [|split]].
  - eapply steps_trans; [exact Hs|].
    eapply steps_exec; [reflexivity|]. apply steps_refl.
  - by repeat split.
  - simpl. by rewrite <- app_assoc.
  - intros r Hr. unfold AbstractRunner.get_status. simpl. by apply Hall.
Qed.

Lemma task_stop_witness :
  ∃ M,
    steps (enter (FStop 1 (AFun (KUser 9)) None) demo_store) M ∧ quiet M ∧
    trace (store_of M)
    = trace demo_store
        ++ [Invoke (PStop 2); Complete (PStop 2) None;
            Invoke (PStop 0); Complete (PStop 0) None;
            Invoke (PStop 1); Complete (PStop 1) None;
            Invoke (PStop 3); Complete (PStop 3) None;
            Invoke (PStop 4); Complete (PStop 4) None;
            Invoke (PStop 5); Complete (PStop 5) None;
            Called 9 None] ∧
    (∀ r, r ∈ [1; 0; 7; 2; 3; 4; 5; 6] →
          AbstractRunner.get_status r (store_of M) = Some Stopped).
Proof.
  apply (task_stop 1 _ _ _ _ 9 demo_store eq_refl eq_refl eq_refl eq_refl
           eq_refl eq_refl).
  - repeat (apply Forall_cons_2;
            [eexists; repeat (split; [reflexivity|]); by eexists|]).
    apply Forall_nil_2.
  - by_decide.
  - reflexivity.
  - reflexivity.
Defined.

(** ** The order of start and stop for any number of plugins *)

Lemma Forall2_seq_lookup {A} (R : nat → A → Prop) (l : list A) :
  ∀ n, (∀ i a, l !! i = Some a → R (n + i) a) → Forall2 R (seq n (length l)) l.
Proof.
  induction l as [|a l IH]; intros n H; [constructor|].
  simpl. constructor.
  - rewrite <- (Nat.add_0_r n). by apply H.
  - apply IH. intros i b Hi. replace (S n + i) with (n + S i) by lia.
    by apply H.
Qed.

Lemma Forall2_bind {A B C} (f : A → list C) (g : B → list C)
    (l : list A) (k : list B) :
  Forall2 (λ a b, f a = g b) l k → l ≫= f = k ≫= g.
Proof.
  induction 1 as [|a b l k Hab _ IH]; [done|]. by rewrite !bind_cons, Hab, IH.
Qed.

(** Stopped decorated runners of plugins whose hooks complete once. *)
Lemma decorated_start (s s' : store) (ids nuts : list nat) :
  plugins s' = plugins s →
  Forall2 (λ r nut, runners s' !! r = Some (decorated nut)) ids nuts →
  Forall (hooks_once s) nuts →
  Forall (starts_ok s') ids ∧
  ids ≫= start_events s' = nuts ≫= start_hook s.
Proof.
  intros Hp H2 Hall. split.
  - induction H2 as [|r nut ids nuts Hr _ IH]; [constructor|].
    apply Forall_cons in Hall as [[(sp & Hsp & Hok) Hstop] Hall].
    constructor; [|by apply IH].
    exists (decorated nut), sp. rewrite Hp. by repeat split.
  - apply Forall2_bind.
    induction H2 as [|r nut ids nuts Hr _ IH]; [constructor|].
    apply Forall_cons in Hall as [_ Hall]. constructor; [|by apply IH].
    unfold start_events, start_of, start_hook, plugin_start.
    rewrite Hr. simpl. by rewrite Hp.
Qed.

(** Started decorated runners of plugins whose hooks complete once. *)
Lemma decorated_stop (s s' : store) (ids nuts : list nat) :
  plugins s' = plugins s →
  Forall2 (λ r nut, runners s' !! r = Some (with_status Started (decorated nut)))
    ids nuts →
  Forall (hooks_once s) nuts →
  Forall (started_child s') ids ∧
  ids ≫= stop_events s' = nuts ≫= stop_hook s ∧
  omap (stop_error s') ids = omap (stop_failure s) nuts.
Proof.
  intros Hp H2 Hall.
  assert (H3 : Forall2 (λ r nut, stop_events s' r = stop_hook s nut ∧
                                 stop_error s' r = stop_failure s nut) ids nuts).
  { eapply Forall2_impl; [exact H2|]. intros r nut Hr.
    by apply (stop_of_decorated s s' r nut _ Hr). }
  split; [|by apply stops_as_plugins].
  clear H3. induction H2 as [|r nut ids nuts Hr _ IH]; [constructor|].
  apply Forall_cons in Hall as [[_ Hstop] Hall].
  constructor; [|by apply IH].
  exists (with_status Started (decorated nut)). rewrite Hp. by repeat split.
Qed.

(** A task with any number of collectors, processors, publishers and
    schedules, whose hooks each complete once, whose start hooks succeed
    and whose collectors and processors are event emitters, is started
    for the first time and, when that has completed, stopped. The start hooks are invoked role by role: the collectors in
    the order they were registered, then the processors, the publishers
    and last the schedules, each hook after the one before has completed;
    then the caller's callback runs without an error. The stop hooks are
    invoked for the schedules first, the last one registered first, then
    for the collectors, the processors and the publishers in the order
    they were registered; then the caller's callback runs with the errors
    of the stop hooks combined, and the task is Stopped. *)
Theorem task_pipeline_order (t : nat) (x : runner) (ta : task) (xm : runner)
    (mu : multi) (k1 k2 : nat) (s : store) :
  Task.get t s = Some (x, ta) → t_frozen ta = false →
  r_status x = Stopped → r_once_start x = [] → r_once_stop x = [] →
  MultiRunner.get (t_multiRunner ta) s = Some (xm, mu) →
  m_startOrder mu = [] → m_stopOrder mu = [] →
  m_frozen mu = false → m_unref mu = false →
  r_status xm = Stopped → r_once_start xm = [] → r_once_stop xm = [] →
  let pinged := t_collectors ta ++ t_processors ta ++ t_publishers ta in
  let all := pinged ++ t_schedules ta in
  let last_first := reverse (t_schedules ta) ++ pinged in
  Forall (hooks_once s) all →
  connectable s ta →
  ticks s = [] → immediates s = [] →
  ∃ M1 M2,
    steps (enter (FStart t (AFun (KUser k1)) None) s) M1 ∧ quiet M1 ∧
    trace (store_of M1)
    = trace s ++ (all ≫= start_hook s) ++ [Called k1 None] ∧
    steps (enter (FStop t (AFun (KUser k2)) None) (store_of M1)) M2 ∧ quiet M2 ∧
    trace (store_of M2)
    = trace (store_of M1) ++ (last_first ≫= stop_hook s)
        ++ [Called k2 (aggregate (omap (stop_failure s) last_first))] ∧
    AbstractRunner.get_status t (store_of M2) = Some Stopped.
Proof.
  intros Hg Hf Hst Hos Hop Hgm Hso Hsto Hfm Hum Hstm Hosm Hopm pinged all
    last_first Hall Hon Ht Hi.
  apply get_task_inv in Hg as [Hx Hb]. apply get_multi_inv in Hgm as [Hxm Hbm].
  set (m := t_multiRunner ta) in *.
  set (n := length (runners s)).
  set (c1 := length pinged). set (c2 := length (t_schedules ta)).
  assert (Hlen : length all = c1 + c2) by (unfold all; by rewrite length_app).
  assert (Hlt : t < n) by by eapply lookup_lt_Some.
  assert (Hlm : m < n) by by eapply lookup_lt_Some.
  assert (Hne : t ≠ m).
  { intros Heq. rewrite Heq, Hxm in Hx. injection Hx as <-. congruence. }
  assert (Hallp : Forall (hooks_once s) pinged ∧ Forall (hooks_once s) (t_schedules ta))
    by by apply Forall_app.
  destruct Hallp as [Hallp Halls].
  set (x0 := with_status Starting x).
  set (s1 := set_runner t x0 s).
  assert (Hx0 : runners s1 !! t = Some x0) by (simpl; by apply list_lookup_insert_eq).
  assert (Hxm1 : runners s1 !! m = Some xm) by (simpl; by rewrite list_lookup_insert_ne).
  assert (Hn1 : length (runners s1) = n) by (simpl; by rewrite length_insert).
  destruct (run_initialize t x0 ta xm mu s1
              [FStart m (AFun (KStartDone t (KUser k1))) None] Hx0 Hb Hf Hxm1 Hbm
              Hfm Hum) as (ws & Hws & Hinit).
  { eapply Forall_impl; [exact Hall|]. intros p. apply hooks_once_plugin. }
  { exact Hon. }
  rewrite Hn1 in Hinit. fold pinged c1 c2 in Hinit. fold all in Hinit.
  set (ta4 := Task.with_frozen (filter (λ w, w_pingable w = true) ws) ta) in *.
  set (x4 := with_body (TaskB ta4) x0) in *.
  set (mu4 := added (pipeline_adds n c1 c2) mu) in *.
  set (xm4 := with_body (Multi mu4) xm) in *.
  set (l4 := <[m := xm4]> (<[t := x4]> (runners s1 ++ (decorated <$> all)))) in *.
  set (s4 := set_runners l4 s1) in *.
  assert (Hso4 : m_startOrder mu4 = seq n (length all)).
  { unfold mu4. destruct (added_pipeline n c1 c2 mu) as [-> _].
    by rewrite Hso, Hlen. }
  assert (Hst4 : m_stopOrder mu4 = reverse (seq (n + c1) c2) ++ seq n c1).
  { unfold mu4. destruct (added_pipeline n c1 c2 mu) as [_ ->].
    by rewrite Hsto. }
  assert (Hdec : ∀ i nut, all !! i = Some nut → l4 !! (n + i) = Some (decorated nut)).
  { intros i nut Hi'. unfold l4. rewrite <- Hn1.
    apply lookup_decorated; [lia..|]. by rewrite list_lookup_fmap, Hi'. }
  assert (Hl4 : length l4 = n + length all).
  { unfold l4. by rewrite !length_insert, length_app, length_fmap, Hn1. }
  assert (Hx4 : l4 !! t = Some x4).
  { unfold l4. rewrite list_lookup_insert_ne by done.
    apply list_lookup_insert_eq. rewrite length_app. lia. }
  assert (Hxm4 : l4 !! m = Some xm4).
  { unfold l4. apply list_lookup_insert_eq. rewrite length_insert, length_app. lia. }
  destruct (decorated_start s s4 (seq n (length all)) all eq_refl) as [Hkids Hev];
    [by apply Forall2_seq_lookup|done|].
  destruct (task_start_tail t m x4 ta4 xm4 mu4 (KUser k1) s4 Hx4 eq_refl Hos Hxm4
              eq_refl Hstm Hosm) as (u & cs & Hs); try done.
  { by rewrite Hso4. }
  { rewrite Hso4. apply NoDup_seq. }
  rewrite Hso4, Hev in Hs.
  match type of Hs with
  | steps _ (running (upd _ ?L _ _ _ ?T _) _) =>
      set (l7 := L) in *; set (tr7 := T) in *
  end.
  set (s7 := upd s4 l7 cs [] [] (tr7 ++ [Called k1 None]) u).
  assert (H1 : steps (enter (FStart t (AFun (KUser k1)) None) s) (running s7 [])).
  { eapply steps_exec.
    { simpl. unfold AbstractRunner.start. simpl. rewrite Hx.
      unfold AbstractRunner.start_default. rewrite Hst. reflexivity. }
    fold x0. fold s1. simpl.
    eapply steps_exec.
    { unfold exec, hook_start. rewrite Hx0. simpl. rewrite Hb.
      unfold Task._start.
      rewrite (get_task_lookup t _ x0 ta Hx0 Hb). reflexivity. }
    eapply steps_trans; [exact Hinit|].
    eapply steps_trans; [exact Hs|].
    eapply steps_exec; [reflexivity|]. apply steps_refl. }
  set (x7 := with_status Started x4).
  set (xm7 := with_status Started (starting_multi xm4 mu4)).
  set (mu7 := MultiRunner.with_frozen true mu4).
  assert (Hl7 : length l7 = n + length all).
  { unfold l7. rewrite !length_insert, length_set_status_all. exact Hl4. }
  assert (Hg7 : Task.get t s7 = Some (x7, ta4)).
  { apply get_task_lookup; [|done]. change (runners s7) with l7. unfold l7.
    apply list_lookup_insert_eq. rewrite length_insert, length_set_status_all.
    change (runners s4) with l4. lia. }
  assert (Hgm7 : MultiRunner.get m s7 = Some (xm7, mu7)).
  { apply get_multi_lookup; [|done]. change (runners s7) with l7. unfold l7.
    rewrite list_lookup_insert_ne by done.
    apply list_lookup_insert_eq. rewrite length_set_status_all.
    change (runners s4) with l4. lia. }
  assert (Hlook7 : ∀ i nut, all !! i = Some nut →
            runners s7 !! (n + i) = Some (with_status Started (decorated nut))).
  { intros i nut Hi'.
    assert (i < length all) by by eapply lookup_lt_Some.
    change (runners s7) with l7. unfold l7.
    rewrite !list_lookup_insert_ne by lia.
    rewrite lookup_set_status_all by (apply elem_of_seq; lia).
    change (runners s4) with l4. by rewrite (Hdec i nut Hi'). }
  assert (F2p : Forall2 (λ r nut, runners s7 !! r
                                  = Some (with_status Started (decorated nut)))
                  (seq n c1) pinged).
  { apply Forall2_seq_lookup. intros i nut Hi'. apply Hlook7.
    unfold all. by apply lookup_app_l_Some. }
  assert (F2s : Forall2 (λ r nut, runners s7 !! r
                                  = Some (with_status Started (decorated nut)))
                  (seq (n + c1) c2) (t_schedules ta)).
  { apply Forall2_seq_lookup. intros i nut Hi'.
    replace (n + c1 + i) with (n + (c1 + i)) by lia. apply Hlook7.
    unfold all. rewrite lookup_app_r by (unfold c1; lia).
    by replace (c1 + i - length pinged) with i by (unfold c1; lia). }
  destruct (decorated_stop s s7 (reverse (seq (n + c1) c2) ++ seq n c1) last_first
              eq_refl) as (Hkids7 & Hev7 & Her7).
  { apply Forall2_app; [by apply Forall2_reverse|done]. }
  { apply Forall_app. split; [by apply Forall_reverse|done]. }
  destruct (task_stop_steps t x7 ta4 xm7 mu7 (KUser k2) s7 Hg7 eq_refl Hop Hgm7
              eq_refl Hopm) as (rs' & cs' & u' & Hs2 & Hstat); try done.
  { change (m_stopOrder mu7) with (m_stopOrder mu4). by rewrite Hst4. }
  { change (m_stopOrder mu7) with (m_stopOrder mu4). rewrite Hst4.
    apply NoDup_app. split; [rewrite reverse_Permutation; apply NoDup_seq|].
    split; [|apply NoDup_seq].
    intros r Hr1 Hr2. apply elem_of_reverse, elem_of_seq in Hr1.
    apply elem_of_seq in Hr2. lia. }
  change (m_stopOrder mu7) with (m_stopOrder mu4) in Hs2.
  rewrite Hst4, Hev7, Her7 in Hs2.
  exists (running s7 []).
  eexists. split; [exact H1|]. split; [by repeat split|].
  split; [by unfold s7, tr7; simpl; rewrite <- app_assoc|].
  split.
  { eapply steps_trans; [exact Hs2|].
    eapply steps_exec; [reflexivity|]. apply steps_refl. }
  split; [by repeat split|].
  split; [by simpl; rewrite <- app_assoc|].
  unfold AbstractRunner.get_status. simpl. apply Hstat. by left.
Qed.

Lemma task_pipeline_order_witness :
  ∃ M1 M2,
    steps (enter (FStart 1 (AFun (KUser 7)) None) schedules_store) M1 ∧ quiet M1 ∧
    trace (store_of M1)
    = trace schedules_store
        ++ [Invoke (PStart 0); Complete (PStart 0) None;
            Invoke (PStart 2); Complete (PStart 2) None;
            Invoke (PStart 1); Complete (PStart 1) None;
            Invoke (PStart 3); Complete (PStart 3) None;
            Called 7 None] ∧
    steps (enter (FStop 1 (AFun (KUser 8)) None) (store_of M1)) M2 ∧ quiet M2 ∧
    trace (store_of M2)
    = trace (store_of M1)
        ++ [Invoke (PStop 3); Complete (PStop 3) None;
            Invoke (PStop 1); Complete (PStop 1) None;
            Invoke (PStop 0); Complete (PStop 0) None;
            Invoke (PStop 2); Complete (PStop 2) None;
            Called 8 None] ∧
    AbstractRunner.get_status 1 (store_of M2) = Some Stopped.
Proof.
  apply (task_pipeline_order 1 _ _ _ _ 7 8 schedules_store eq_refl eq_refl eq_refl
           eq_refl eq_refl eq_refl eq_refl eq_refl eq_refl eq_refl eq_refl eq_refl
           eq_refl).
  - repeat (apply Forall_cons_2;
            [split; [eexists; split; reflexivity|eexists; reflexivity]|]).
    apply Forall_nil_2.
  - repeat (apply Forall_cons_2; [reflexivity|]). apply Forall_nil_2.
  - reflexivity.
  - reflexivity.
Defined.

(** ** The life cycle of a single runner *)

(** A call of [start] or [stop] that passes the callback [k]: alone, or
    behind an options argument. *)
Definition passes (k : cont) (a1 : arg1) (a2 : option cont) : Prop :=
  (a1 = AFun k ∧ a2 = None) ∨ (∃ opts, a1 = AOpts opts ∧ a2 = Some k).

Lemma passes_arguments (k : cont) (a1 : arg1) (a2 : option cont) :
  passes k a1 a2 →
  ∃ opts, ∀ s, AbstractRunner.arguments a1 a2 s = (opts, k, s).
Proof.
  intros [[-> ->]|(opts & -> & ->)]; [by exists None|by exists opts].
Qed.

Lemma status_alter (st : status) (r r' : nat) (l : list runner) (x : runner) :
  l !! r = Some x →
  (r_status <$> alter (with_status st) r l !! r = Some st) ∧
  (r' ≠ r → alter (with_status st) r l !! r' = l !! r').
Proof.
  intros Hx. split.
  - by rewrite list_lookup_alter_eq, Hx.
  - intros Hne. by rewrite list_lookup_alter_ne.
Qed.

(** [start] on a Stopped runner whose start hook completes once, with or
    without [grace]. The hook is invoked once; when it completes, the
    runner is Started if the hook succeeded and Stopped again if it
    failed, and the caller's callback runs once with the outcome of the
    hook. No other runner changes and nothing is left to run. *)
Theorem runner_start (r : nat) (x : runner) (sp : spec) (a1 : arg1)
    (a2 : option cont) (tag : nat) (s : store) :
  passes (KUser tag) a1 a2 →
  runners s !! r = Some x →
  r_status x = Stopped → r_once_start x = [] →
  leaf_start (plugins s) r (r_body x) = Some sp →
  ticks s = [] → immediates s = [] →
  ∃ M,
    steps (enter (FStart r a1 a2) s) M ∧ quiet M ∧
    trace (store_of M) = trace s ++ hook_trace sp ++ [Called tag sp.2] ∧
    AbstractRunner.get_status r (store_of M)
    = Some (if sp.2 is Some _ then Stopped else Started) ∧
    (∀ r', r' ≠ r → runners (store_of M) !! r' = runners s !! r').
Proof.
  intros Hpass Hx Hst Hos Hsp Ht Hi.
  destruct (passes_arguments _ _ _ Hpass) as [opts Hargs].
  destruct (child_start r x sp a1 a2 opts (KUser tag) [] s Hargs Hx Hst Hos Hsp
              Ht Hi) as (u & junk & Hs & Hj); [constructor|].
  set (st := if sp.2 is Some _ then Stopped else Started) in *.
  set (s2 := upd s (alter (with_status st) r (runners s)) (cells s) [] []
               (trace s ++ hook_trace sp) u) in *.
  assert (Hj2 : idle (log (Called tag sp.2) s2) junk).
  { simpl. rewrite bodies_alter by done. exact Hj. }
  destruct (run_idle junk _ [] Hj2) as [u' Hu]. rewrite app_nil_r in Hu.
  destruct (status_alter st r r (runners s) x Hx) as [Hstat _].
  eexists. split; [|split; [|split; [|split]]].
  - eapply steps_trans; [exact Hs|].
    eapply steps_exec; [reflexivity|]. exact Hu.
  - by repeat split.
  - simpl. by rewrite <- app_assoc.
  - exact Hstat.
  - intros r' Hne. simpl. by rewrite list_lookup_alter_ne.
Qed.

(** A runner of the test suite whose start hook fails at once. *)
Definition failing_store : store :=
  set_runners
    [ {| r_status := Stopped; r_once_start := []; r_once_stop := [];
         r_body := Custom [(Sync, Some (Plain "nope"))] [(Immediate, None)] |} ]
    empty_store.

Lemma runner_start_witness :
  ∃ M,
    steps (enter (FStart 0 (AOpts (Some {| grace := true |})) (Some (KUser 4)))
             failing_store) M ∧
    quiet M ∧
    trace (store_of M)
    = [Invoke (RStart 0); Complete (RStart 0) (Some (Plain "nope"));
       Called 4 (Some (Plain "nope"))] ∧
    AbstractRunner.get_status 0 (store_of M) = Some Stopped ∧
    (∀ r', r' ≠ 0 → runners (store_of M) !! r' = runners failing_store !! r').
Proof.
  eapply (runner_start 0 _ (Some (RStart 0), Sync, Some (Plain "nope")) _ _ 4
           failing_store).
  - right. by eexists.
  - reflexivity.
  - reflexivity.
  - reflexivity.
  - reflexivity.
  - reflexivity.
  - reflexivity.
Defined.

(** [stop] on a Started runner whose stop hook completes once, with or
    without [grace]. The hook is invoked once; when it completes the
    runner is Stopped, also when the hook failed, and the caller's
    callback runs once with the outcome of the hook. *)
Theorem runner_stop (r : nat) (x : runner) (sp : spec) (a1 : arg1)
    (a2 : option cont) (tag : nat) (s : store) :
  passes (KUser tag) a1 a2 →
  runners s !! r = Some x →
  r_status x = Started → r_once_stop x = [] →
  leaf_stop (plugins s) r (r_body x) = Some sp →
  ticks s = [] → immediates s = [] →
  ∃ M,
    steps (enter (FStop r a1 a2) s) M ∧ quiet M ∧
    trace (store_of M) = trace s ++ hook_trace sp ++ [Called tag sp.2] ∧
    AbstractRunner.get_status r (store_of M) = Some Stopped ∧
    (∀ r', r' ≠ r → runners (store_of M) !! r' = runners s !! r').
Proof.
  intros Hpass Hx Hst Hos Hsp Ht Hi.
  destruct (passes_arguments _ _ _ Hpass) as [opts Hargs].
  destruct (child_stop r x sp a1 a2 opts (KUser tag) [] s Hargs Hx Hst Hos Hsp
              Ht Hi) as (u & junk & Hs & Hj); [constructor|].
  set (s2 := upd s (alter (with_status Stopped) r (runners s)) (cells s) [] []
               (trace s ++ hook_trace sp) u) in *.
  assert (Hj2 : idle (log (Called tag sp.2) s2) junk).
  { simpl. rewrite bodies_alter by done. exact Hj. }
  destruct (run_idle junk _ [] Hj2) as [u' Hu]. rewrite app_nil_r in Hu.
  destruct (status_alter Stopped r r (runners s) x Hx) as [Hstat _].
  eexists. split; [|split; [|split; [|split]]].
  - eapply steps_trans; [exact Hs|].
    eapply steps_exec; [reflexivity|]. exact Hu.
  - by repeat split.
  - simpl. by rewrite <- app_assoc.
  - exact Hstat.
  - intros r' Hne. simpl. by rewrite list_lookup_alter_ne.
Qed.

(** A Started runner whose stop hook fails one turn later. *)
Definition stuck_store : store :=
  set_runners
    [ {| r_status := Started; r_once_start := []; r_once_stop := [];
         r_body := Custom [(Immediate, None)] [(Immediate, Some (Plain "busy"))] |} ]
    empty_store.

Lemma runner_stop_witness :
  ∃ M,
    steps (enter (FStop 0 (AFun (KUser 4)) None) stuck_store) M ∧
    quiet M ∧
    trace (store_of M)
    = [Invoke (RStop 0); Complete (RStop 0) (Some (Plain "busy"));
       Called 4 (Some (Plain "busy"))] ∧
    AbstractRunner.get_status 0 (store_of M) = Some Stopped ∧
    (∀ r', r' ≠ 0 → runners (store_of M) !! r' = runners stuck_store !! r').
Proof.
  eapply (runner_stop 0 _ (Some (RStop 0), Immediate, Some (Plain "busy")) _ _ 4
           stuck_store).
  - by left.
  - reflexivity.
  - reflexivity.
  - reflexivity.
  - reflexivity.
  - reflexivity.
  - reflexivity.
Defined.

(** ** [start] and [stop] without a callback *)

Lemma steps_via (A A' M : machine) :
  step A = step A' → A' ≠ M → steps A' M → steps A M.
Proof.
  intros Heq Hne Hs. inversion Hs as [|? B ? HB Hrest]; subst; [done|].
  eapply steps_l; [|exact Hrest]. by rewrite Heq.
Qed.

Lemma settle_pending (p : nat) (e : outcome) (s : store) (ps : list (option outcome)) :
  promises s = ps ++ [None] → p = length ps →
  promises (settle p e s) = ps ++ [Some e].
Proof.
  intros Hp ->. unfold settle. rewrite Hp, list_lookup_middle by done. simpl.
  rewrite insert_app_r_alt by lia. by rewrite Nat.sub_diag.
Qed.

(** [start] without a callback on a Stopped runner whose start hook
    completes once: the call makes a promise, and when the hook has
    completed the promise is resolved if the hook succeeded and rejected
    with its error if it failed. The runner ends as with a callback, and
    no promise made earlier is touched. *)
Theorem start_promise (r : nat) (x : runner) (sp : spec)
    (opts : option run_options) (s : store) :
  runners s !! r = Some x →
  r_status x = Stopped → r_once_start x = [] →
  leaf_start (plugins s) r (r_body x) = Some sp →
  ticks s = [] → immediates s = [] →
  ∃ M,
    steps (enter (FStart r (AOpts opts) None) s) M ∧ quiet M ∧
    promises (store_of M) = promises s ++ [Some sp.2] ∧
    trace (store_of M) = trace s ++ hook_trace sp ∧
    AbstractRunner.get_status r (store_of M)
    = Some (if sp.2 is Some _ then Stopped else Started).
Proof.
  intros Hx Hst Hos Hsp Ht Hi.
  set (p := length (promises s)).
  set (s' := set_promises (promises s ++ [None]) s).
  destruct (child_start r x sp (AFun (KSettle p)) None None (KSettle p) [] s')
    as (u & junk & Hs & Hj); try done.
  set (st := if sp.2 is Some _ then Stopped else Started) in *.
  set (s2 := upd s' (alter (with_status st) r (runners s')) (cells s') [] []
               (trace s' ++ hook_trace sp) u) in *.
  assert (Hj2 : idle (settle p sp.2 s2) junk).
  { assert (Hsame : runners (settle p sp.2 s2) = runners s2
                    ∧ plugins (settle p sp.2 s2) = plugins s2).
    { unfold settle. by destruct (promises s2 !! p) as [[|]|]. }
    destruct Hsame as [-> ->]. simpl. rewrite bodies_alter by done. exact Hj. }
  destruct (run_idle junk _ [] Hj2) as [u' Hu]. rewrite app_nil_r in Hu.
  assert (Hq : ticks (settle p sp.2 s2) = [] ∧ immediates (settle p sp.2 s2) = []
               ∧ trace (settle p sp.2 s2) = trace s ++ hook_trace sp
               ∧ runners (settle p sp.2 s2) = alter (with_status st) r (runners s)
               ∧ cells (settle p sp.2 s2) = cells s).
  { unfold settle. by destruct (promises s2 !! p) as [[|]|]. }
  destruct Hq as (Hq1 & Hq2 & Hq3 & Hq4 & Hq5).
  match type of Hu with steps _ ?M => exists M end.
  split; [|split; [|split; [|split]]].
  - apply (steps_via _ (running s' [FStart r (AFun (KSettle p)) None])).
    + unfold step. simpl. unfold AbstractRunner.start. simpl. rewrite Hx.
      unfold AbstractRunner.start_default. rewrite Hst.
      by destruct opts as [[[]]|].
    + intros [=].
    + eapply steps_trans; [exact Hs|].
      eapply steps_exec; [reflexivity|]. exact Hu.
  - by repeat split.
  - simpl. by apply settle_pending.
  - simpl. exact Hq3.
  - unfold AbstractRunner.get_status. simpl. rewrite Hq4.
    by rewrite list_lookup_alter_eq, Hx.
Qed.

Lemma start_promise_witness :
  ∃ M,
    steps (enter (FStart 0 (AOpts None) None) failing_store) M ∧ quiet M ∧
    promises (store_of M) = [Some (Some (Plain "nope"))] ∧
    trace (store_of M)
    = [Invoke (RStart 0); Complete (RStart 0) (Some (Plain "nope"))] ∧
    AbstractRunner.get_status 0 (store_of M) = Some Stopped.
Proof.
  eapply (start_promise 0 _ (Some (RStart 0), Sync, Some (Plain "nope")) None
            failing_store); reflexivity.
Defined.

(** [stop] without a callback on a Started runner whose stop hook
    completes once: the call makes a promise, which is resolved when the
    hook has succeeded and rejected with its error when it has failed; the
    runner is Stopped either way. *)
Theorem stop_promise (r : nat) (x : runner) (sp : spec)
    (opts : option run_options) (s : store) :
  runners s !! r = Some x →
  r_status x = Started → r_once_stop x = [] →
  leaf_stop (plugins s) r (r_body x) = Some sp →
  ticks s = [] → immediates s = [] →
  ∃ M,
    steps (enter (FStop r (AOpts opts) None) s) M ∧ quiet M ∧
    promises (store_of M) = promises s ++ [Some sp.2] ∧
    trace (store_of M) = trace s ++ hook_trace sp ∧
    AbstractRunner.get_status r (store_of M) = Some Stopped.
Proof.
  intros Hx Hst Hos Hsp Ht Hi.
  set (p := length (promises s)).
  set (s' := set_promises (promises s ++ [None]) s).
  destruct (child_stop r x sp (AFun (KSettle p)) None None (KSettle p) [] s')
    as (u & junk & Hs & Hj); try done.
  set (s2 := upd s' (alter (with_status Stopped) r (runners s')) (cells s') [] []
               (trace s' ++ hook_trace sp) u) in *.
  assert (Hj2 : idle (settle p sp.2 s2) junk).
  { assert (Hsame : runners (settle p sp.2 s2) = runners s2
                    ∧ plugins (settle p sp.2 s2) = plugins s2).
    { unfold settle. by destruct (promises s2 !! p) as [[|]|]. }
    destruct Hsame as [-> ->]. simpl. rewrite bodies_alter by done. exact Hj. }
  destruct (run_idle junk _ [] Hj2) as [u' Hu]. rewrite app_nil_r in Hu.
  assert (Hq : ticks (settle p sp.2 s2) = [] ∧ immediates (settle p sp.2 s2) = []
               ∧ trace (settle p sp.2 s2) = trace s ++ hook_trace sp
               ∧ runners (settle p sp.2 s2)
                 = alter (with_status Stopped) r (runners s)).
  { unfold settle. by destruct (promises s2 !! p) as [[|]|]. }
  destruct Hq as (Hq1 & Hq2 & Hq3 & Hq4).
  match type of Hu with steps _ ?M => exists M end.
  split; [|split; [|split; [|split]]].
  - apply (steps_via _ (running s' [FStop r (AFun (KSettle p)) None])).
    + unfold step. simpl. unfold AbstractRunner.stop. simpl. rewrite Hx.
      unfold AbstractRunner.stop_default. rewrite Hst.
      by destruct opts as [[[]]|].
    + intros [=].
    + eapply steps_trans; [exact Hs|].
      eapply steps_exec; [reflexivity|]. exact Hu.
  - by repeat split.
  - simpl. by apply settle_pending.
  - simpl. exact Hq3.
  - unfold AbstractRunner.get_status. simpl. rewrite Hq4.
    by rewrite list_lookup_alter_eq, Hx.
Qed.

Lemma stop_promise_witness :
  ∃ M,
    steps (enter (FStop 0 (AOpts (Some {| grace := true |})) None) stuck_store) M ∧
    quiet M ∧
    promises (store_of M) = [Some (Some (Plain "busy"))] ∧
    trace (store_of M)
    = [Invoke (RStop 0); Complete (RStop 0) (Some (Plain "busy"))] ∧
    AbstractRunner.get_status 0 (store_of M) = Some Stopped.
Proof.
  eapply (stop_promise 0 _ (Some (RStop 0), Immediate, Some (Plain "busy"))
            (Some {| grace := true |}) stuck_store); reflexivity.
Defined.

(** ** One ping cycle at a time *)

(** [ping] on a task at rest whose first pingable plugin answers in a
    later turn. When the turn of the call ends, the ping of that plugin
    has been invoked and nothing else; [currentPingTarget] names the
    plugin; and the task is busy: until the cycle has ended every further
    [ping] throws and changes nothing. *)
Theorem ping_busy (t : nat) (x : runner) (ta : task) (w : wrapped)
    (rest : list wrapped) (pl : plugin) (tm : timing) (e : outcome) (tag : nat)
    (s : store) :
  Task.get t s = Some (x, ta) → t_pinging ta = false →
  t_pingablePlugins ta = w :: rest →
  plugins s !! w_plugin w = Some pl → p_ping pl = Some [(tm, e)] →
  tm ≠ Sync →
  let M := run 4 (enter (FPing t (KUser tag)) s) in
  stack M = [] ∧ thrown M = None ∧
  trace (store_of M) = trace s ++ [Invoke (PPing (w_plugin w))] ∧
  Task.currentPingTarget t (store_of M) = Some (w_name w) ∧
  ∀ k, Task.ping t k (store_of M)
       = Throw "Cannot ping() before completion of previous ping" (store_of M).
Proof.
  intros Hg Hp Hl Hpl Hping Htm M.
  apply get_task_inv in Hg as Hinv. destruct Hinv as [Hx Hb].
  assert (Hlt : t < length (runners s)) by by eapply lookup_lt_Some.
  set (ta1 := Task.with_cursor true 0 (Some (KUser tag)) (t_currentPingTarget ta) ta).
  set (x1 := with_body (TaskB ta1) x).
  set (s1 := set_runner t x1 s).
  set (ta2 := Task.with_cursor true 1 (Some (KUser tag)) (w_name w) ta1).
  set (x2 := with_body (TaskB ta2) x1).
  set (s2 := log (Invoke (PPing (w_plugin w))) (set_runner t x2 s1)).
  assert (Hg1 : Task.get t s1 = Some (x1, ta1)).
  { apply get_task_lookup; [|done]. simpl. by apply list_lookup_insert_eq. }
  assert (Hg2 : Task.get t s2 = Some (x2, ta2)).
  { apply get_task_lookup; [|done]. simpl.
    apply list_lookup_insert_eq. by rewrite length_insert. }
  assert (H1 : step (enter (FPing t (KUser tag)) s)
               = Some (running s1 [FCall (KPingNext t) None])).
  { unfold step. simpl. unfold Task.ping. by rewrite Hg, Hp. }
  assert (H2 : step (running s1 [FCall (KPingNext t) None])
               = Some (running s2 [FBehave (PPing (w_plugin w)) (KPingNext t)
                                     [(tm, e)]])).
  { unfold step. cbn [thrown stack running store_of exec call].
    unfold Task._pingNext. rewrite Hg1.
    change (t_pinging ta1) with true. cbn [negb].
    change (t_pingablePlugins ta1) with (t_pingablePlugins ta).
    change (t_pingIndex ta1) with 0.
    change (t_pingCallback ta1) with (Some (KUser tag)).
    rewrite Hl. rewrite decide_False by (simpl; lia).
    change ((w :: rest) !! 0) with (Some w).
    change (plugins (Task.put _ _ _ _)) with (plugins s). cbv iota beta.
    rewrite Hpl. cbn [mbind option_bind]. rewrite Hping. reflexivity. }
  assert (H34 : ∃ s4, run 2 (running s2 [FBehave (PPing (w_plugin w)) (KPingNext t)
                                           [(tm, e)]])
                      = running s4 [] ∧ runners s4 = runners s2 ∧
                        trace s4 = trace s2).
  { destruct tm; [done| |]; eexists; (split; [reflexivity|by split]). }
  destruct H34 as (s4 & H34 & Hr4 & Ht4).
  assert (HM : M = running s4 []).
  { unfold M. cbn [run]. rewrite H1. cbn [run] in H34. by rewrite H2. }
  rewrite HM. cbn [stack thrown store_of running].
  assert (Hg4 : Task.get t s4 = Some (x2, ta2)).
  { unfold Task.get in *. by rewrite Hr4. }
  split; [done|]. split; [done|]. split; [by rewrite Ht4|].
  split; [unfold Task.currentPingTarget; by rewrite Hg4|].
  intros k. unfold Task.ping. by rewrite Hg4.
Qed.

(** The task of the test suite whose only pingable plugin answers through
    [setImmediate]. *)
Definition busy_store : store :=
  Eval vm_compute in
    started 1 (demo_task [Some [(Immediate, None)]; None; None; None; None; None]).

Lemma ping_busy_witness :
  let M := run 4 (enter (FPing 1 (KUser 9)) busy_store) in
  stack M = [] ∧ thrown M = None ∧
  trace (store_of M) = trace busy_store ++ [Invoke (PPing 0)] ∧
  Task.currentPingTarget 1 (store_of M) = Some "<Task(test):Collector[0]:Test>" ∧
  ∀ k, Task.ping 1 k (store_of M)
       = Throw "Cannot ping() before completion of previous ping" (store_of M).
Proof.
  eapply (ping_busy 1 _ _
            {| w_plugin := 0; w_name := "<Task(test):Collector[0]:Test>";
               w_pingable := true |} [] _ Immediate None 9 busy_store).
  - reflexivity.
  - reflexivity.
  - reflexivity.
  - reflexivity.
  - reflexivity.
  - intros H. discriminate H.
Defined.

(** Once a ping cycle has ended, [ping] can be called again: the second
    cycle pings the same plugins in the same order and calls its own
    callback, and it leaves the task at rest again. *)
Theorem ping_again (t : nat) (x : runner) (ta : task) (k1 k2 : nat) (s : store) :
  runners s !! t = Some x →
  r_body x = TaskB ta →
  initialized s ta →
  t_pinging ta = false →
  Forall (λ p, is_Some (ping_of s p)) (ping_targets s ta) →
  ticks s = [] → immediates s = [] →
  let cycle := ping_targets s ta ≫= ping_events s in
  ∃ M1 M2,
    steps (enter (FPing t (KUser k1)) s) M1 ∧ quiet M1 ∧
    trace (store_of M1) = trace s ++ cycle ++ [Called k1 None] ∧
    steps (enter (FPing t (KUser k2)) (store_of M1)) M2 ∧ quiet M2 ∧
    trace (store_of M2) = trace (store_of M1) ++ cycle ++ [Called k2 None] ∧
    Task.currentPingTarget t (store_of M2) = Some (t_noPingTarget ta).
Proof.
  intros Hx Hb Hinit Hp Hall Ht Hi cycle.
  assert (Hlt : t < length (runners s)) by by eapply lookup_lt_Some.
  destruct (ping_run t x ta (KUser k1) s Hx Hb Hinit Hp Hall Ht Hi) as [u Hs1].
  set (x1 := with_body (TaskB (rested ta)) x).
  set (s1 := upd s (<[t := x1]> (runners s)) (cells s) [] []
               ((trace s ++ cycle) ++ [Called k1 None]) u).
  assert (Hx1 : runners s1 !! t = Some x1) by (simpl; by apply list_lookup_insert_eq).
  destruct (ping_run t x1 (rested ta) (KUser k2) s1 Hx1 eq_refl Hinit eq_refl Hall
              eq_refl eq_refl) as [u2 Hs2].
  exists (running s1 []). eexists.
  split.
  { eapply steps_trans; [exact Hs1|].
    eapply steps_tick; [reflexivity|].
    eapply steps_exec; [reflexivity|]. apply steps_refl. }
  split; [by repeat split|].
  split; [by simpl; rewrite <- app_assoc|].
  split.
  { eapply steps_trans; [exact Hs2|].
    eapply steps_tick; [reflexivity|].
    eapply steps_exec; [reflexivity|]. apply steps_refl. }
  split; [by repeat split|].
  split; [by simpl; rewrite <- !app_assoc|].
  unfold Task.currentPingTarget, Task.get. simpl.
  rewrite list_lookup_insert_eq; [done|]. by rewrite length_insert.
Qed.

Lemma ping_again_witness :
  ∃ M1 M2,
    steps (enter (FPing 1 (KUser 8)) demo_store) M1 ∧ quiet M1 ∧
    trace (store_of M1)
    = trace demo_store
        ++ [Invoke (PPing 0); Complete (PPing 0) None;
            Invoke (PPing 1); Complete (PPing 1) None;
            Invoke (PPing 3); Complete (PPing 3) None;
            Invoke (PPing 4); Complete (PPing 4) None; Called 8 None] ∧
    steps (enter (FPing 1 (KUser 9)) (store_of M1)) M2 ∧ quiet M2 ∧
    trace (store_of M2)
    = trace (store_of M1)
        ++ [Invoke (PPing 0); Complete (PPing 0) None;
            Invoke (PPing 1); Complete (PPing 1) None;
            Invoke (PPing 3); Complete (PPing 3) None;
            Invoke (PPing 4); Complete (PPing 4) None; Called 9 None] ∧
    Task.currentPingTarget 1 (store_of M2) = Some "<Task(test):None>".
Proof.
  apply (ping_again 1 _ _ 8 9 demo_store eq_refl eq_refl).
  - eexists. split; reflexivity.
  - reflexivity.
  - repeat constructor; by eexists.
  - reflexivity.
  - reflexivity.
Defined.

(** ** Connecting the plugins of a task *)

(** The listeners a plugin's ['metric'] event has after that, in the
    order they run. *)
Definition metric_listeners (subs : list (nat * metric_listener)) (p : nat) :
    list metric_listener :=
  (filter (λ sub, sub.1 = p) subs).*2.

(** The listeners a metric of plugin [p] reaches when every processor
    that is handed a metric emits one in turn. *)
Fixpoint metric_path (fuel : nat) (subs : list (nat * metric_listener)) (p : nat) :
    list metric_listener :=
  match fuel with
  | 0 => []
  | S fuel =>
      metric_listeners subs p ≫= λ f,
        f :: match f with
             | LProcess q => metric_path fuel subs q
             | LPublish _ => []
             end
  end.

Lemma listeners_app (l k : list (nat * metric_listener)) (p : nat) :
  metric_listeners (l ++ k) p = metric_listeners l p ++ metric_listeners k p.
Proof. unfold metric_listeners. by rewrite filter_app, fmap_app. Qed.

Lemma listeners_cons (q : nat) (f : metric_listener) (l : list (nat * metric_listener)) (p : nat) :
  metric_listeners ((q, f) :: l) p
  = (if decide (q = p) then [f] else []) ++ metric_listeners l p.
Proof.
  unfold metric_listeners. rewrite filter_cons. simpl.
  by destruct (decide (q = p)).
Qed.

Lemma listeners_tagged (f : metric_listener) (l : list nat) (p : nat) :
  metric_listeners ((λ c, (c, f)) <$> l) p = (λ _, f) <$> filter (λ c, c = p) l.
Proof.
  induction l as [|c l IH]; [done|].
  rewrite fmap_cons, listeners_cons, IH, filter_cons.
  by destruct (decide (c = p)).
Qed.

Lemma filter_eq_absent (l : list nat) (p : nat) :
  p ∉ l → filter (λ c, c = p) l = [].
Proof.
  induction l as [|c l IH]; [done|]. intros Hp.
  apply not_elem_of_cons in Hp as [Hne Hp].
  rewrite filter_cons, decide_False by done. by apply IH.
Qed.

Lemma filter_eq_once (l : list nat) (p : nat) :
  NoDup l → p ∈ l → filter (λ c, c = p) l = [p].
Proof.
  induction 1 as [|c l Hc Hnd IH]; [by intros ?%elem_of_nil|].
  intros [->|Hin]%elem_of_cons; rewrite filter_cons.
  - rewrite decide_True by done. by rewrite filter_eq_absent.
  - rewrite decide_False by (intros ->; done). by apply IH.
Qed.

Lemma links_absent (prev : nat) (rest : list nat) (p : nat) :
  p ∉ prev :: rest → metric_listeners (reduce_links prev rest) p = [].
Proof.
  revert prev. induction rest as [|curr rest IH]; intros prev Hp; [done|].
  apply not_elem_of_cons in Hp as [Hne Hp].
  cbn [reduce_links]. rewrite listeners_cons, decide_False by done.
  by apply IH.
Qed.

Lemma links_next (prev : nat) (rest pre post : list nat) (p : nat) :
  NoDup (prev :: rest) →
  prev :: rest = pre ++ p :: post →
  metric_listeners (reduce_links prev rest) p
  = match post with q :: _ => [LProcess q] | [] => [] end.
Proof.
  revert prev rest. induction pre as [|a pre IH]; intros prev rest Hnd Heq.
  - simpl in Heq. injection Heq as -> ->.
    apply NoDup_cons in Hnd as [Hp Hnd].
    destruct post as [|q post]; [done|].
    cbn [reduce_links]. rewrite listeners_cons, decide_True by done.
    by rewrite links_absent.
  - simpl in Heq. injection Heq as -> ->.
    apply NoDup_cons in Hnd as [Hp Hnd].
    destruct (pre ++ p :: post) as [|curr rest] eqn:Hrest.
    { by destruct pre. }
    cbn [reduce_links]. rewrite listeners_cons, decide_False.
    + simpl. apply IH; [done|]. by rewrite <-Hrest.
    + intros ->. apply Hp. rewrite <-Hrest. apply elem_of_app. right. by left.
Qed.

Lemma last_app_cons (pre post : list nat) (x d : nat) :
  List.last (pre ++ x :: post) d = List.last post x.
Proof.
  induction pre as [|a pre IH]; simpl app.
  - apply last_cons_default.
  - rewrite last_cons_default, <-IH.
    destruct (pre ++ x :: post) eqn:E; [by destruct pre|].
    by rewrite (last_cons_default n a), (last_cons_default n d).
Qed.

Lemma last_elem_of (l : list nat) (d : nat) :
  l ≠ [] → List.last l d ∈ l.
Proof.
  induction l as [|x l IH]; [done|]. intros _.
  rewrite last_cons_default. destruct l as [|y l]; [by left|].
  right. rewrite (last_cons_default y x), <-(last_cons_default y d). by apply IH.
Qed.

Lemma last_middle (prev : nat) (rest pre post : list nat) (p : nat) :
  NoDup (prev :: rest) →
  prev :: rest = pre ++ p :: post →
  List.last rest prev = p ↔ post = [].
Proof.
  intros Hnd Heq.
  rewrite <-(last_cons_default prev 0), Heq, last_app_cons.
  split; [|by intros ->].
  intros Hl. destruct post as [|q post]; [done|]. exfalso.
  rewrite Heq in Hnd. apply NoDup_app in Hnd as (_ & _ & Hnd).
  apply NoDup_cons in Hnd as [Hp _]. apply Hp.
  rewrite <-Hl. by apply last_elem_of.
Qed.

(** How [_connectPlugins] wires a task whose collectors and processors
    are distinct plugins: every collector has one listener, the first
    processor or, without processors, [publish]; every processor has
    one, the processor registered after it or, for the last, [publish];
    no other plugin has any. So a metric of any collector passes every
    processor once, in the order of registration, and is published. *)
Theorem connect_chain (t : nat) (ta : task) :
  NoDup (t_collectors ta ++ t_processors ta) →
  let subs := Wiring._connectPlugins t ta in
  (∀ c, c ∈ t_collectors ta →
        metric_listeners subs c
        = [match t_processors ta with
           | [] => LPublish t
           | firstProcessor :: _ => LProcess firstProcessor
           end]
        ∧ metric_path (S (length (t_processors ta))) subs c
          = (LProcess <$> t_processors ta) ++ [LPublish t])
  ∧ (∀ i p, t_processors ta !! i = Some p →
        metric_listeners subs p
        = [match t_processors ta !! S i with
           | Some next => LProcess next
           | None => LPublish t
           end])
  ∧ (∀ q, q ∉ t_collectors ta → q ∉ t_processors ta →
        metric_listeners subs q = []).
Proof.
  intros Hnd subs.
  apply NoDup_app in Hnd as (Hc & Hdis & Hp).
  assert (Hcol : ∀ c, c ∈ t_collectors ta →
    metric_listeners subs c
    = [match t_processors ta with [] => LPublish t | p :: _ => LProcess p end]).
  { intros c Hin. unfold subs, Wiring._connectPlugins.
    destruct (t_processors ta) as [|p1 rest] eqn:Hps.
    - by rewrite listeners_tagged, filter_eq_once.
    - rewrite !listeners_app, listeners_tagged, filter_eq_once by done.
      rewrite links_absent by by apply Hdis.
      rewrite listeners_cons, decide_False; [done|].
      intros Hl. apply (Hdis c Hin). rewrite <-Hl.
      rewrite <-(last_cons_default p1 0). apply last_elem_of. done. }
  assert (Hpro : ∀ pre p post, t_processors ta = pre ++ p :: post →
    metric_listeners subs p
    = [match post with q :: _ => LProcess q | [] => LPublish t end]).
  { intros pre p post Heq. unfold subs, Wiring._connectPlugins.
    destruct (t_processors ta) as [|p1 rest] eqn:Hps; [by destruct pre|].
    rewrite !listeners_app, listeners_tagged, filter_eq_absent.
    2:{ intros Hin. apply (Hdis p Hin). rewrite Heq.
        apply elem_of_app. right. by left. }
    rewrite (links_next p1 rest pre post p Hp Heq), listeners_cons.
    destruct post as [|q post].
    - rewrite decide_True; [done|]. by apply (last_middle p1 rest pre [] p).
    - rewrite decide_False; [done|].
      intros Hl. by apply (last_middle p1 rest pre (q :: post) p) in Hl. }
  split; [|split].
  - intros c Hin. split; [by apply Hcol|].
    assert (Hpath : ∀ post pre p, t_processors ta = pre ++ p :: post →
      metric_path (S (length post)) subs p
      = (LProcess <$> post) ++ [LPublish t]).
    { induction post as [|q post IH]; intros pre p Heq.
      - cbn [metric_path length]. by rewrite (Hpro pre p [] Heq).
      - cbn [metric_path length] in *. rewrite (Hpro pre p (q :: post) Heq).
        cbn [mbind list_bind]. simpl.
        rewrite (IH (pre ++ [p]) q); [by rewrite app_nil_r|].
        by rewrite <-app_assoc. }
    cbn [metric_path]. rewrite (Hcol c Hin).
    destruct (t_processors ta) as [|p1 rest] eqn:Hps; [done|].
    cbn [mbind list_bind length]. rewrite (Hpath rest [] p1 eq_refl).
    simpl. by rewrite app_nil_r.
  - intros i p Hi.
    apply list_elem_of_split_length in Hi as (pre & post & Heq & ->).
    rewrite (Hpro pre p post Heq). rewrite Heq.
    rewrite lookup_app_r by lia.
    replace (S (length pre) - length pre) with 1 by lia.
    by destruct post.
  - intros q Hq1 Hq2. unfold subs, Wiring._connectPlugins.
    destruct (t_processors ta) as [|p1 rest] eqn:Hps.
    + by rewrite listeners_tagged, filter_eq_absent.
    + rewrite !listeners_app, listeners_tagged, filter_eq_absent by done.
      rewrite links_absent by done.
      rewrite listeners_cons, decide_False; [done|].
      intros Hl. apply Hq2. rewrite <-Hl.
      rewrite <-(last_cons_default p1 0). apply last_elem_of. done.
Qed.

Lemma connect_chain_witness :
  ∃ x ta, Task.get 1 (demo_task [None; None; None; None; None; None]) = Some (x, ta)
    ∧ metric_path 2 (Wiring._connectPlugins 1 ta) 1 = [LProcess 3; LPublish 1].
Proof.
  destruct (Task.get 1 (demo_task [None; None; None; None; None; None]))
    as [[x ta]|] eqn:Hget; [|by vm_compute in Hget].
  exists x, ta. split; [done|].
  assert (Hnd : NoDup (t_collectors ta ++ t_processors ta)).
  { vm_compute in Hget. injection Hget as <- <-. simpl.
    apply NoDup_cons. split; [by_decide|].
    apply NoDup_cons. split; [by_decide|]. apply NoDup_singleton. }
  destruct (connect_chain 1 ta Hnd) as (Hc & _ & _).
  destruct (Hc 1) as [_ Hpath].
  { vm_compute in Hget. injection Hget as <- <-. by_decide. }
  vm_compute in Hget. injection Hget as <- <-. exact Hpath.
Defined.

(** ** The tasks of a control *)

(** [control.task(name)] called for each of [names] in turn, up to the
    first call that throws: the tasks made and what the last call
    leaves. *)
Fixpoint control_tasks (ctl : nat) (names : list (option string)) (s : store) :
    list nat * res :=
  match names with
  | [] => ([], Ok [] s)
  | name :: names =>
      let '(t, r) := Control.task ctl name s in
      match r with
      | Ok [] s => let '(ts, r) := control_tasks ctl names s in (t :: ts, r)
      | _ => ([t], r)
      end
  end.

Lemma control_task_step (ctl : nat) (name : option string) (x : runner)
    (mu : multi) (s : store) :
  MultiRunner.get ctl s = Some (x, mu) →
  m_frozen mu = false → m_unref mu = false →
  let n := length (runners s) in
  let tn := "Task(" +:+ match name with
                        | Some n => if decide (n = "") then "anonymous" else n
                        | None => "anonymous"
                        end +:+ ")" in
  let mu' := MultiRunner.with_stopOrder (m_stopOrder mu ++ [S n])
               (MultiRunner.with_startOrder (m_startOrder mu ++ [S n]) mu) in
  ∃ s', Control.task ctl name s = (S n, Ok [] s') ∧
    runners s'
    = <[ctl := with_body (Multi mu') x]>
        (runners s ++
         [{| r_status := Stopped; r_once_start := []; r_once_stop := [];
             r_body := Multi {| m_startOrder := []; m_stopOrder := [];
                                m_unref := false; m_frozen := false |} |};
          {| r_status := Stopped; r_once_start := []; r_once_stop := [];
             r_body := TaskB
               {| t_collectors := []; t_processors := []; t_publishers := [];
                  t_schedules := []; t_pingablePlugins := []; t_frozen := false;
                  t_pinging := false; t_multiRunner := n; t_name := tn;
                  t_pingIndex := 0; t_pingCallback := None;
                  t_noPingTarget := fqn [tn; "None"];
                  t_currentPingTarget := fqn [tn; "None"] |} |}]) ∧
    trace s' = trace s ∧ ticks s' = ticks s ∧ immediates s' = immediates s.
Proof.
  intros Hg Hf Hu n tn mu'.
  apply get_multi_inv in Hg as [Hx Hb].
  pose proof (lookup_lt_Some _ _ _ Hx) as Hlt.
  unfold Control.task, Task.create, MultiRunner.create, AbstractRunner.create.
  cbn [runners set_runners]. 
  unfold MultiRunner.addRunner, MultiRunner.get. cbn [runners set_runners].
  rewrite <-app_assoc. rewrite lookup_app_l by done. rewrite Hx, Hb, Hf. cbn [m_unref MultiRunner.with_stopOrder MultiRunner.with_startOrder]. rewrite Hu.
  eexists. split.
  { f_equal. rewrite length_app. simpl. fold n. lia. }
  unfold MultiRunner.put, set_runner, set_runners. cbn.
  rewrite length_app. simpl. fold n.
  replace (n + 1) with (S n) by lia. 
  repeat split.
Qed.

(** Tasks made by [control.task(name)] on a control that has not been
    started and not been unref'd: every call returns; each makes a new
    stopped task without plugins, named after its argument, that owns a
    new empty composite; the control starts the tasks in the order they
    were made and stops them in that same order, after the runners it
    had. No other runner changes and nothing is logged. *)
Theorem control_tasks_order (ctl : nat) (x : runner) (mu : multi)
    (names : list (option string)) (s : store) :
  MultiRunner.get ctl s = Some (x, mu) →
  m_frozen mu = false → m_unref mu = false →
  let n := length (runners s) in
  let ts := (λ i, n + 2 * i + 1) <$> seq 0 (length names) in
  ∃ s' x' mu',
    control_tasks ctl names s = (ts, Ok [] s') ∧
    MultiRunner.get ctl s' = Some (x', mu') ∧
    m_startOrder mu' = m_startOrder mu ++ ts ∧
    m_stopOrder mu' = m_stopOrder mu ++ ts ∧
    m_frozen mu' = false ∧ m_unref mu' = false ∧
    r_status x' = r_status x ∧
    length (runners s') = n + 2 * length names ∧
    (∀ i name, names !! i = Some name →
       ∃ xt ta xm,
         Task.get (n + 2 * i + 1) s' = Some (xt, ta) ∧
         r_status xt = Stopped ∧
         t_name ta
         = "Task(" +:+ match name with
                       | Some n => if decide (n = "") then "anonymous" else n
                       | None => "anonymous"
                       end +:+ ")" ∧
         t_frozen ta = false ∧
         (∀ ro, members ro ta = []) ∧
         t_multiRunner ta = n + 2 * i ∧
         MultiRunner.get (n + 2 * i) s'
         = Some (xm, {| m_startOrder := []; m_stopOrder := [];
                        m_unref := false; m_frozen := false |}) ∧
         r_status xm = Stopped) ∧
    (∀ r, r < n → r ≠ ctl → runners s' !! r = runners s !! r) ∧
    trace s' = trace s.
Proof.
  revert x mu s. induction names as [|name names IH]; intros x mu s Hg Hf Hu n ts.
  - exists s, x, mu. unfold ts. simpl. rewrite !app_nil_r.
    repeat split; try done; try lia.
  - destruct (control_task_step ctl name x mu s Hg Hf Hu)
      as (s1 & Ht & Hr1 & Htr1 & _). fold n in Ht, Hr1.
    pose proof Hg as Hg0. apply get_multi_inv in Hg0 as [Hx Hb].
    pose proof (lookup_lt_Some _ _ _ Hx) as Hlt. fold n in Hlt.
    set (mu1 := MultiRunner.with_stopOrder (m_stopOrder mu ++ [S n])
                  (MultiRunner.with_startOrder (m_startOrder mu ++ [S n]) mu))
      in Hr1.
    assert (Hn1 : length (runners s1) = n + 2).
    { rewrite Hr1, length_insert, length_app. simpl. fold n. lia. }
    assert (Hg1 : MultiRunner.get ctl s1 = Some (with_body (Multi mu1) x, mu1)).
    { apply get_multi_lookup; [|done]. rewrite Hr1.
      apply list_lookup_insert_eq. rewrite length_app. lia. }
    destruct (IH (with_body (Multi mu1) x) mu1 s1 Hg1 Hf Hu)
      as (s' & x' & mu' & Hts & Hg' & Hso & Hst & Hf' & Hu' & Hstat & Hlen & Hnew & Hold & Htr).
    rewrite Hn1 in Hts, Hso, Hst, Hlen, Hnew, Hold.
    assert (Hshift : ts = S n :: ((λ i, n + 2 + 2 * i + 1) <$> seq 0 (length names))).
    { unfold ts. cbn [length seq fmap list_fmap]. f_equal; [lia|].
      rewrite <-fmap_S_seq, <-list_fmap_compose.
      apply list_fmap_ext. intros _ i _. simpl. lia. }
    exists s', x', mu'. rewrite Hshift.
    repeat split.
    + cbn [control_tasks]. rewrite Ht, Hts. done.
    + done.
    + rewrite Hso. unfold mu1. simpl. by rewrite <-app_assoc.
    + rewrite Hst. unfold mu1. simpl. by rewrite <-app_assoc.
    + done.
    + done.
    + done.
    + rewrite Hlen. simpl. lia.
    + intros [|i] nm Hi.
      * injection Hi as <-.
        replace (n + 2 * 0 + 1) with (S n) by lia.
        replace (n + 2 * 0) with n by lia.
        assert (Hne : n ≠ ctl) by lia. assert (Hne' : S n ≠ ctl) by lia.
        eexists _, _, _. split.
        { apply get_task_lookup.
          - rewrite Hold by lia. rewrite Hr1, list_lookup_insert_ne by done.
            rewrite lookup_app_r by (fold n; lia). fold n.
            replace (S n - n) with 1 by lia. reflexivity.
          - reflexivity. }
        do 3 (split; [reflexivity|]).
        split; [by intros []|]. split; [reflexivity|].
        split.
        { apply get_multi_lookup.
          - rewrite Hold by lia. rewrite Hr1, list_lookup_insert_ne by done.
            rewrite lookup_app_r by (fold n; lia). fold n.
            replace (n - n) with 0 by lia. reflexivity.
          - reflexivity. }
        reflexivity.
      * destruct (Hnew i nm Hi) as (xt & ta & xm & H1 & H2 & H3 & H4 & H5 & H6 & H7 & H8).
        exists xt, ta, xm.
        replace (n + 2 * S i + 1) with (n + 2 + 2 * i + 1) by lia.
        replace (n + 2 * S i) with (n + 2 + 2 * i) by lia. done.
    + intros r Hr Hne. rewrite Hold by lia.
      rewrite Hr1, list_lookup_insert_ne by done.
      by rewrite lookup_app_l by (fold n; lia).
    + by rewrite Htr.
Qed.

Lemma control_tasks_order_witness :
  ∃ s' x' mu',
    control_tasks 0 [Some "a"; None] adding_store = ([2; 4], Ok [] s') ∧
    MultiRunner.get 0 s' = Some (x', mu') ∧
    m_startOrder mu' = [2; 4] ∧ m_stopOrder mu' = [2; 4].
Proof.
  edestruct (control_tasks_order 0) with (names := [Some "a"; None])
    (s := adding_store) as (s' & x' & mu' & H1 & H2 & H3 & H4 & _);
    [reflexivity..|].
  by exists s', x', mu'.
Defined.

(** ** A task whose plugins cannot be subscribed to *)




